(* ===== verification/_CoqProject ===== *)
-Q . S2P
Prelude.v
Text.v
Ancil.v
Shmem.v
Dix.v
Clipboard.v
Buffer.v
Xkb.v
Keymap.v
Keysym.v
KeysymInv.v
Fence.v
GpuCopy.v
Present.v
Screen.v
Cursor.v
Pty.v
PtyJni.v
Float.v
Touch.v
Devices.v
Ucs.v
Work.v
Wire.v
Events.v
Config.v
Resize.v
CmdLine.v
Lock.v
