(* ===== verification/Prelude.v ===== *)
(** * Termux:X11 (lorie) and the Termux terminal: verification library

    The repository builds two Android applications.  Termux:X11 is an X server
    (a vendored Xorg with the driver [lorie]) in one process and a renderer and
    activity in another one; Termux is a terminal whose native part starts
    processes on pseudo-terminals.  This library models the C code the project
    itself wrote, in [src/termux-x11/lorie/src/main/cpp/lorie] and
    [src/termux-app/terminal-emulator/src/main/jni], together with the functions
    of the vendored X server that this code calls or replaces.

    ** Parts and files

    - [Prelude] (this file): record update, the state monad with undefined
      behaviour, Hoare triples and invariant preservation for it, integers of a
      fixed width, bytes, list lemmas and tactics.
    - [Ancil], [Shmem]: descriptors passed over sockets, and the emulation of
      System V shared memory in [shm/shmem.c] ([shmget], [shmat], [shmdt],
      [shmctl], the listening thread, the lookup in another process).
    - [Text], [Dix], [Clipboard]: the text conversions at the top of
      [clipboard.c]; selections, properties and timestamps of the server
      ([xserver/dix]); and the clipboard bridge, whose state contains the one of
      [Dix] (class [HasDix]).
    - [Buffer]: the reference-counted buffers of [buffer.c].
    - [Xkb], [Keymap], [Keysym], [KeysymInv]: the keymap, its lookups and
      changes ([xserver/xkb]), the derived keyboard state, and the keyboard
      input of [InputXKB.c] with its invariant.
    - [Fence]: [xshmfence.c], both implementations of [libxshmfence] as
      interleaving machines behind one class, and the server's use of fences
      ([miext/sync/misyncshm.c]).
    - [GpuCopy], [Present], [Screen], [Cursor]: the driver in [InitOutput.c],
      with the records of [lorie.h] shared with the renderer: the ring of copies
      offloaded to the GPU (with the renderer's side in [renderer.cpp]), the
      vertical blanks, pixmaps, their import and access, flips and redraw, and
      the cursor under a mutex of its own.  [Screen] composes the states of
      [Buffer], [Present] and [GpuCopy].
    - [Config]: what a new size or name of the activity's surface does: modes
      ([libxcvt]), the new screen pixmap and the tree of windows that draw into it
      ([lorieConfigureNotify], [lorieRRScreenSetSize] of [InitOutput.c], and
      [xserver/present] for a flip in progress).
    - [Devices]: the input devices of [InitInput.c] and the life of a device in
      [xserver/dix/devices.c]; [Float], [Touch]: touches, from
      [handleTouchEvent] of [cmdentrypoint.cpp] to the records of
      [xserver/dix/touch.c].
    - [Ucs]: keysyms and Unicode ([xserver/hw/xquartz/keysym2ucs.c]); [Work]: the
      work procedures of [xserver/dix/dixutils.c], as whole calls, and between
      threads with the spin lock that [patches/xserver.patch] adds.
    - [CmdLine], [Lock]: the start of the server: its command line
      ([ProcessCommandLine] of [xserver/os/utils.c] with the options of the driver,
      of XKB and of XDMCP), the command the user wants run ([ddxReadyThread] of
      [InitOutput.c]), and the lock file of a display ([LockServer]).
    - [Wire], [Events]: the socket between the processes: the layout of
      [lorieEvent], what the natives in [activity.cpp] write and read, and
      [handleLorieEvents] of [cmdentrypoint.cpp], whose state is composed of the
      ones of [Keysym], [Devices], [Touch], [Clipboard], [Buffer], [Cursor] and
      [Ucs].
    - [Resize]: joins [Wire], [Events] and [Config] for a change of the surface, from
      the activity's call to the screen.
    - [Pty], [PtyJni]: the native part of the terminal, [termux.c]: the child
      process it makes, and the entry point called from Java.

    ** Conventions

    A C function that changes state is a function of the monad [M]: it yields a
    result and a state, or nothing where the C program has no defined behaviour
    (a read outside a block, a null pointer, a freed record) or cannot go on (a
    lock of a mutex the thread itself holds, a read from a connection on which nothing
    has arrived).  Pure functions are functions;
    errors are values.  Names are the source's.  Integers are [Z] with their
    wrap-around written out where the code relies on it.  What the kernel, the
    virtual machine and other processes answer is a record of arguments ([env],
    [denv], [benv], [kenv], [senv], [penv], [jenv], [tenv], [dvenv], [ucs_env], [aenv], [renv],
    [svenv], [cenv], [lenv]), over which the theorems
    quantify.  Threads and processes that share memory are step relations whose
    steps are single accesses.  Loops that are not structural take fuel, and
    theorems state the fuel that is enough: [shmget_terminates],
    [clipboard_data_answers_all], [keyboard_event_total],
    [events_served_in_order]; bisection takes eleven turns for 773 entries
    ([bisect_spec]), the queue of touches grows at most once ([find_free]), a scan
    of the work queue has one turn per node, the command line one per argument;
    the loops of [Text]
    get one unit per byte, of which each turn consumes at least one, and
    [decimal] twenty digits, more than a descriptor has.

    ** What the theorems show

    - Shared memory: an invariant of the table that every call preserves;
      segments found again by their key and transferred between processes;
      termination; the mutex is released on return from every call.
    - Clipboard: a paste of a client gets the text of the Android side, in every
      encoding asked for and for all waiting clients; a copy reaches Android;
      the conversions agree with RFC 3629 and invert one another.
    - Buffers: the counter counts the references, memory is freed exactly when
      the last one goes, nothing leaks on any path of an allocation, and what is
      sent is what is received.
    - Keyboard: a key event always returns; the modifiers faked around a key are
      undone; the release goes to the key that was pressed; an added keysym can be
      typed; lock keys follow the Android side.
    - Fences: both implementations refine a flag, and no waiter sleeps through a
      trigger, for any number of threads and any interleaving.
    - Screen: the ring is a FIFO queue and completion is never reported early,
      for every interleaving; buffers in flight stay allocated; every access to a
      pixmap is closed; vertical blanks are served exactly once and in time; what
      is drawn is handed to the renderer; the cursor's picture is the client's,
      component by component;
      a mutex is never taken from a living holder.
    - Size and name: a notification replaces the screen pixmap for the screen, its
      root window and every window below, also during a flip, and gives the old one
      back, from the activity's call on; the name of the output is kept for the next generation.
    - Input devices: [InitInput] leaves mouse, touch screen and keyboard enabled
      with the buttons, axes and keys their control functions declare, also after a
      reset of the server; pen and eraser
      come and go any number of times, keep the lists, ids and attachments in
      order, and leave no trace.
    - Touches: they refine a table of fingers with the place of each, which says
      which events are queued and which moves are left out; clients see every touch
      begin, move and end in order even when the activity leaves out the beginning.
    - Socket: everything the activity writes is well formed, for key codes its table
      covers, and decodes to what was encoded; the server serves all packets in order; the clipboard's text
      reaches the waiting clients; a typed character presses and releases a key that
      types a keysym that means it, unless no key is left for it or its modifiers cannot be faked; buttons of a stylus follow the activity; the work queue is a
      queue, and no procedure is lost or run twice however the threads interleave.
    - Start: no command line makes the server read outside its arguments, and what
      has a range is in it (where [-ld] and [-ls] do not overflow); the options written are the options set; the
      user's command runs with its arguments and the display's name; with [link] a
      display has one server.
    - Terminal: a command starts with nothing but its terminal and its
      environment, gets exactly the strings of Java, and all memory is given back.

    Where the code deviates from what it means to do, the theorem states what it
    does ([checkUTF8_overreads], [failed_access_keeps_mutex],
    [flip_needs_square_screen], [oversized_cursor_announced],
    [shmget_after_rmid_deadlocks], [waiting_request_of_closed_client],
    [touch_move_compares_scales], [stylus_ids_exhausted],
    [clipboard_eats_next_type], [short_text_runs_as_event],
    [mask_leaks_between_events], [display_zeros_overflow], [multicast_eats_option],
    [startup_wait], [notification_settles], [name_after_reset],
    [renamed_lock_refuses_nobody], and lemmas next to the components).

    ** Not modelled

    The renderer's OpenGL calls, and of the activity and the command entry point
    what is not named above (C++ around EGL, JNI and sockets); the rest of the start
    of server and screen, timings of RandR modes; master devices, grabs,
    properties, acceleration and the delivery of input events to clients; the byte
    layout of ancillary messages and of X requests; the rest of the vendored
    libraries.  Allocation succeeds unless a file says otherwise. *)

From Stdlib Require Export ZArith Lia.
From stdpp Require Export prelude.

#[export] Set Default Goal Selector "!".
Open Scope Z_scope.

Create HintDb lorie.
Declare Scope lorie_scope.
Delimit Scope lorie_scope with lorie.
Open Scope lorie_scope.

(** ** Record update *)

(** [Settable R] names the eta expansion of a record constructor; a field
    setter is derived from it by abstracting the projection. *)
Class Settable (R : Type) := eta_record : R → R.

Class Setter {R T : Type} (f : R → T) := set_field : (T → T) → R → R.
Arguments set_field {R T} f {_} _ _ /.

Ltac derive_setter :=
  match goal with
  | |- @Setter ?R ?T ?f =>
    let inst := constr:(_ : Settable R) in
    let e := eval hnf in inst in
    match eval pattern f in e with
    | ?G _ => exact (λ g r, G (λ x, g (f x)) r)
    end
  end.

#[export] Hint Extern 0 (Setter _) => derive_setter : typeclass_instances.

#[warnings="-postfix-notation-not-level-1"]
Notation "r <| f := v |>" := (set_field f (λ _, v) r)
  (at level 12, left associativity, f at level 9, v at level 200,
   format "r  <| f  :=  v |>") : lorie_scope.
#[warnings="-postfix-notation-not-level-1"]
Notation "r <| f ::= g |>" := (set_field f g r)
  (at level 12, left associativity, f at level 9, g at level 200,
   format "r  <| f  ::=  g |>") : lorie_scope.

(** ** State with undefined behaviour *)

(** A C function is a state transformer.  [None] stands for undefined
    behaviour of the C program (an out-of-bounds access, a null dereference)
    and for a program that cannot go on (a self-deadlock, an abort). *)
Definition M (S A : Type) : Type := S → option (A * S).

#[export] Instance M_ret {S} : MRet (M S) := λ A a s, Some (a, s).
#[export] Instance M_bind {S} : MBind (M S) := λ A B f m s,
  match m s with
  | Some (a, s') => f a s'
  | None => None
  end.

Definition get {S} : M S S := λ s, Some (s, s).
Definition gets {S A} (f : S → A) : M S A := λ s, Some (f s, s).
Definition modify {S} (f : S → S) : M S () := λ s, Some ((), f s).
Definition ub {S A} : M S A := λ _, None.
Definition skip {S} : M S () := λ s, Some ((), s).
Definition when {S} (b : bool) (m : M S ()) : M S () := if b then m else skip.
Definition of_option {S A} (o : option A) : M S A :=
  λ s, match o with Some a => Some (a, s) | None => None end.

(** Run the list of actions in order, as a [for] loop over known items. *)
Fixpoint for_each {S A} (l : list A) (f : A → M S ()) : M S () :=
  match l with
  | [] => skip
  | x :: l' => f x ;; for_each l' f
  end.

Arguments M_ret {S} A a s /.
Arguments M_bind {S} A B f m s /.
Arguments get {S} s /.
Arguments gets {S A} f s /.
Arguments modify {S} f s /.
Arguments ub {S A} s /.
Arguments skip {S} s /.
Arguments of_option {S A} o s /.

(** ** Machine integers *)

(** Unsigned and two's complement wrap-around at a width of [w] bits. *)
Definition wrapU (w z : Z) : Z := z mod 2 ^ w.
Definition wrapS (w z : Z) : Z := (z + 2 ^ (w - 1)) mod 2 ^ w - 2 ^ (w - 1).

Abbreviation u8 := (wrapU 8).
Abbreviation u16 := (wrapU 16).
Abbreviation u32 := (wrapU 32).
Abbreviation u64 := (wrapU 64).
Abbreviation s8 := (wrapS 8).
Abbreviation s16 := (wrapS 16).
Abbreviation s32 := (wrapS 32).

(** Truth of a C integer. *)
Definition truthy (z : Z) : bool := negb (z =? 0).

(** [z] fits in [w] unsigned, respectively signed, bits. *)
Definition inU (w z : Z) : Prop := 0 ≤ z < 2 ^ w.
Definition inS (w z : Z) : Prop := - 2 ^ (w - 1) ≤ z < 2 ^ (w - 1).

Lemma pow2_pos w : 0 ≤ w → 0 < 2 ^ w.
Proof. intros. apply Z.pow_pos_nonneg; lia. Qed.

Lemma wrapU_range w z : 0 ≤ w → inU w (wrapU w z).
Proof. intros. apply Z.mod_pos_bound, pow2_pos; lia. Qed.

Lemma wrapU_id w z : inU w z → wrapU w z = z.
Proof. intros H. apply Z.mod_small, H. Qed.

Lemma wrapU_add_l w a b : 0 ≤ w → wrapU w (wrapU w a + b) = wrapU w (a + b).
Proof. intros. unfold wrapU. apply Zplus_mod_idemp_l. Qed.

Lemma wrapU_sub_wrap w a b :
  0 ≤ w → wrapU w (wrapU w a - wrapU w b) = wrapU w (a - b).
Proof. intros. unfold wrapU. rewrite <-Zminus_mod. done. Qed.

Lemma wrapS_id w z : 0 < w → inS w z → wrapS w z = z.
Proof.
  intros Hw H. unfold inS, wrapS in *.
  assert (2 ^ w = 2 * 2 ^ (w - 1)) as E.
  { rewrite <-Z.pow_succ_r by lia. f_equal. lia. }
  rewrite E, Z.mod_small; lia.
Qed.

Lemma wrapS_range w z : 0 < w → inS w (wrapS w z).
Proof.
  intros Hw. unfold inS, wrapS.
  assert (2 ^ w = 2 * 2 ^ (w - 1)) as E.
  { rewrite <-Z.pow_succ_r by lia. f_equal. lia. }
  pose proof (Z.mod_pos_bound (z + 2 ^ (w - 1)) (2 ^ w) ltac:(apply pow2_pos; lia)).
  lia.
Qed.

#[export] Hint Resolve wrapU_range wrapS_range : lorie.

(** ** Bits *)

Lemma land_ones_mod x n : 0 ≤ n → Z.land x (Z.ones n) = x mod 2 ^ n.
Proof. apply Z.land_ones. Qed.

(** Disjoint [or] is addition: the low part [y] fits below the shift. *)
Lemma lor_shiftl_add x y n :
  0 ≤ n → 0 ≤ y < 2 ^ n → Z.lor (Z.shiftl x n) y = x * 2 ^ n + y.
Proof.
  intros Hn Hy. rewrite <-Z.shiftl_mul_pow2 by lia.
  symmetry.
  rewrite <-Z.lxor_lor, <-Z.add_nocarry_lxor; [done| |];
    (apply Z.bits_inj'; intros i Hi; rewrite Z.land_spec, Z.bits_0;
     destruct (Z.ltb_spec i n);
     [rewrite Z.shiftl_spec_low by lia; done
     |rewrite <-(Z.mod_small y (2 ^ n)) by lia;
      rewrite Z.mod_pow2_bits_high by lia; apply andb_false_r]).
Qed.

(** A decidable predicate that holds of every byte, checked by evaluation. *)
Definition bytes : list Z := Z.of_nat <$> seq 0 256.

Lemma byte_forall (P : Z → bool) :
  forallb P bytes = true → ∀ b, inU 8 b → P b = true.
Proof.
  intros H b Hb. unfold inU in Hb. change (2 ^ 8) with 256 in Hb.
  rewrite forallb_forall in H. apply H.
  replace b with (Z.of_nat (Z.to_nat b)) by lia.
  apply list_elem_of_In, list_elem_of_fmap_2, elem_of_seq. lia.
Qed.

(** ** Byte representation *)

(** The [n] little-endian bytes of an integer, and their value. *)
Fixpoint le_bytes (n : nat) (z : Z) : list Z :=
  match n with
  | O => []
  | S n' => z mod 256 :: le_bytes n' (z / 256)
  end.

Fixpoint le_value (l : list Z) : Z :=
  match l with
  | [] => 0
  | b :: l' => b + 256 * le_value l'
  end.

Lemma length_le_bytes n z : length (le_bytes n z) = n.
Proof. revert z; induction n as [|n IH]; intros z; simpl; [done|]. by rewrite IH. Qed.

Lemma le_value_bytes n z : le_value (le_bytes n z) = z mod 2 ^ (8 * Z.of_nat n).
Proof.
  revert z; induction n as [|n IH]; intros z.
  { simpl. by rewrite Z.mod_1_r. }
  cbn [le_bytes le_value]. rewrite IH.
  replace (2 ^ (8 * Z.of_nat (S n))) with (256 * 2 ^ (8 * Z.of_nat n)).
  - rewrite Z.rem_mul_r by (try apply Z.pow_pos_nonneg; lia). lia.
  - rewrite Nat2Z.inj_succ. replace (8 * Z.succ (Z.of_nat n)) with (8 + 8 * Z.of_nat n) by lia.
    by rewrite Z.pow_add_r by lia.
Qed.

(** A 32-bit signed integer survives its four bytes. *)
Lemma s32_le_bytes z : inS 32 z → s32 (le_value (le_bytes 4 z)) = z.
Proof.
  intros H. rewrite le_value_bytes. unfold wrapS.
  change (8 * Z.of_nat 4) with 32. change (32 - 1) with 31.
  rewrite Zplus_mod_idemp_l. unfold inS in H. change (32 - 1) with 31 in H.
  rewrite Z.mod_small; [lia|]. change (2 ^ 32) with (2 * 2 ^ 31). lia.
Qed.

(** ** C strings *)

(** The characters of the string that starts a memory block: those before the
    first NUL. *)
Fixpoint cstr (mem : list Z) : list Z :=
  match mem with
  | [] => []
  | c :: mem' => if c =? 0 then [] else c :: cstr mem'
  end.

Definition nul_free (l : list Z) : Prop := Forall (λ c, c ≠ 0) l.

Lemma cstr_app s mem : nul_free s → cstr (s ++ 0 :: mem) = s.
Proof.
  induction 1 as [|c s Hc _ IH]; simpl; [done|].
  rewrite (proj2 (Z.eqb_neq c 0)) by done. by rewrite IH.
Qed.

Lemma cstr_nul_free mem : nul_free (cstr mem).
Proof.
  induction mem as [|c mem IH]; simpl; [constructor|].
  destruct (Z.eqb_spec c 0); by constructor.
Qed.

(** ** Lists *)

(** The index of the first element that satisfies a test. *)
Fixpoint index_of {A} (p : A → bool) (l : list A) : option nat :=
  match l with
  | [] => None
  | x :: l' => if p x then Some 0%nat else S <$> index_of p l'
  end.

Lemma index_of_Some {A} (p : A → bool) l i :
  index_of p l = Some i → ∃ x, l !! i = Some x ∧ p x = true.
Proof.
  revert i; induction l as [|x l IH]; intros i; simpl; [done|].
  destruct (p x) eqn:E; [intros [= <-]; eauto|].
  destruct (index_of p l) as [j|]; simpl; [|done].
  intros [= <-]. by apply IH.
Qed.

Lemma index_of_None {A} (p : A → bool) l :
  index_of p l = None ↔ Forall (λ x, p x = false) l.
Proof.
  induction l as [|x l IH]; simpl; [done|].
  destruct (p x) eqn:E; [split; [done|inv 1; congruence]|].
  rewrite Forall_cons. destruct (index_of p l); simpl; [|tauto].
  split; [done|]. intros [_ H]. by apply IH in H.
Qed.

Lemma index_of_lt {A} (p : A → bool) l i :
  index_of p l = Some i → (i < length l)%nat.
Proof.
  intros H. destruct (index_of_Some _ _ _ H) as (x & Hx & _).
  by apply lookup_lt_Some in Hx.
Qed.

Lemma index_of_alter {A} (p : A → bool) (f : A → A) l i :
  (∀ x, p (f x) = p x) → index_of p (alter f i l) = index_of p l.
Proof.
  intros Hf. revert i. induction l as [|x l IH]; intros [|i]; simpl; try done.
  - by rewrite Hf.
  - by rewrite <-(IH i).
Qed.

(** Deletion of an index closes the gap, as [memmove] does. *)
Lemma delete_lookup {A} (l : list A) i x :
  l !! i = Some x → ∃ l1 l2, l = l1 ++ x :: l2 ∧ length l1 = i ∧ delete i l = l1 ++ l2.
Proof.
  intros H. apply list_elem_of_split_length in H as (l1 & l2 & -> & ->).
  exists l1, l2. split_and!; [done..|]. by rewrite delete_middle.
Qed.

Lemma delete_insert_same {A} (l : list A) i x : delete i (<[i := x]> l) = delete i l.
Proof.
  revert i; induction l as [|y l IH]; intros [|i]; simpl; try done.
  f_equal. apply IH.
Qed.

Lemma filter_all {A} (P : A → Prop) `{!∀ x, Decision (P x)} l :
  Forall P l → filter P l = l.
Proof.
  induction 1 as [|x l Hx _ IH]; [done|]. by rewrite filter_cons_True, IH.
Qed.

Lemma Forall_filter {A} (P Q : A → Prop) `{!∀ x, Decision (P x)} l :
  Forall Q l → Forall Q (filter P l).
Proof.
  rewrite !Forall_forall. intros Hl x. rewrite list_elem_of_filter. intros [_ Hx]. by apply Hl.
Qed.

(** ** Memory blocks *)

(** A store into a block of cells: out of range is undefined behaviour. *)
Definition wr {A} (mem : list A) (i : nat) (v : A) : option (list A) :=
  if decide (i < length mem)%nat then Some (<[i:=v]> mem) else None.

Lemma lookup_app_plus {A} (l k : list A) i : (l ++ k) !! (length l + i)%nat = k !! i.
Proof. rewrite lookup_app_r by lia. f_equal. lia. Qed.

Lemma lookup_app_0 {A} (l k : list A) : (l ++ k) !! length l = k !! 0%nat.
Proof. rewrite <-(Nat.add_0_r (length l)). apply lookup_app_plus. Qed.

Lemma wr_app {A} (l k : list A) (x y : A) :
  wr (l ++ x :: k) (length l) y = Some (l ++ y :: k).
Proof.
  unfold wr. rewrite decide_True by (rewrite length_app; simpl; lia).
  f_equal. by rewrite insert_app_r_alt, Nat.sub_diag by lia.
Qed.

(** ** Tactics *)

(** Split the [if]s, [match]es and boolean comparisons of a goal. *)
Ltac case_goal :=
  match goal with
  | |- context [match ?x with _ => _ end] =>
    lazymatch x with
    | context [match _ with _ => _ end] => fail
    | _ => destruct x eqn:?
    end
  end.

Ltac case_hyp :=
  match goal with
  | H : context [match ?x with _ => _ end] |- _ =>
    lazymatch x with
    | context [match _ with _ => _ end] => fail
    | _ => destruct x eqn:?
    end
  end.

(** Turn boolean arithmetic hypotheses into propositions. *)
Ltac bool_to_prop :=
  repeat match goal with
  | H : (_ =? _) = true |- _ => apply Z.eqb_eq in H
  | H : (_ =? _) = false |- _ => apply Z.eqb_neq in H
  | H : (_ <? _) = true |- _ => apply Z.ltb_lt in H
  | H : (_ <? _) = false |- _ => apply Z.ltb_ge in H
  | H : (_ <=? _) = true |- _ => apply Z.leb_le in H
  | H : (_ <=? _) = false |- _ => apply Z.leb_gt in H
  | H : (_ && _) = true |- _ => apply andb_true_iff in H as [??]
  | H : (_ || _) = false |- _ => apply orb_false_iff in H as [??]
  | H : negb _ = true |- _ => apply negb_true_iff in H
  | H : negb _ = false |- _ => apply negb_false_iff in H
  end.

(** Run a monadic term: unfold the monad and the state accessors. *)
Ltac mrun :=
  cbv delta [mbind mret M_bind M_ret get gets modify ub skip of_option];
  cbn [set_field fst snd].
Lemma bind_run {S A B} (m : M S A) (k : A → M S B) s a s' :
  m s = Some (a, s') → (m ≫= k) s = k a s'.
Proof. intros E. mrun. by rewrite E. Qed.

(** One step of a run, by the equation of its first action. *)
Lemma bind_get {S B} (k : S → M S B) s : (get ≫= k) s = k s s.
Proof. done. Qed.
Lemma bind_modify {S B} f (k : () → M S B) s : (modify f ≫= k) s = k () (f s).
Proof. done. Qed.
Lemma bind_when_true {S B} (m : M S ()) (k : () → M S B) s : (when true m ≫= k) s = (m ≫= k) s.
Proof. done. Qed.

Lemma bind_mret {S A B} (a : A) (k : A → M S B) s : ((mret a : M S A) ≫= k) s = k a s.
Proof. done. Qed.
Lemma bind_skip {S B} (k : () → M S B) s : (skip ≫= k) s = k () s.
Proof. done. Qed.
Lemma bind_bind {S A B D} (m : M S A) (f : A → M S B) (g : B → M S D) s :
  ((m ≫= f) ≫= g) s = (m ≫= λ a, f a ≫= g) s.
Proof. mrun. by destruct (m s) as [[]|]. Qed.

Tactic Notation "mstep" uconstr(E) := rewrite (bind_run _ _ _ _ _ E); cbv beta zeta.

Tactic Notation "mrun" "in" hyp(H) :=
  cbv delta [mbind mret M_bind M_ret get gets modify ub skip of_option] in H;
  cbn [set_field fst snd] in H.

(** ** Specifications of state transformers *)

(** Total correctness: from a state in [P] the code runs to its end without
    undefined behaviour, in [Q]. *)
Definition triple {S A} (P : S → Prop) (m : M S A) (Q : A → S → Prop) : Prop :=
  ∀ s, P s → ∃ a s', m s = Some (a, s') ∧ Q a s'.

(** A run whose first result is known. *)
Lemma ex_run {S A B} (a : A) (s : S) (P : S → B → Prop) :
  (∃ b, P s b) → ∃ s1 b, Some (a, s) = Some (a, s1) ∧ P s1 b.
Proof. intros [b H]. eauto. Qed.

(** Preservation of an invariant by every run that returns. *)
Definition preserves {S A} (I : S → Prop) (m : M S A) : Prop :=
  ∀ s a s', I s → m s = Some (a, s') → I s'.

Section triple.
Context {S : Type}.
Implicit Types P I : S → Prop.

Lemma triple_ret {A} P (a : A) (Q : A → S → Prop) :
  (∀ s, P s → Q a s) → triple P (mret a) Q.
Proof. intros H s Hs. eexists _, _. split; [done|auto]. Qed.

Lemma triple_bind {A B} P (m : M S A) (R' : A → S → Prop) (f : A → M S B) Q :
  triple P m R' → (∀ a, triple (R' a) (f a) Q) → triple P (m ≫= f) Q.
Proof.
  intros Hm Hf s Hs. destruct (Hm s Hs) as (a & s1 & E & H1).
  destruct (Hf a s1 H1) as (b & s2 & E2 & H2).
  exists b, s2. split; [|done]. mrun. by rewrite E.
Qed.

Lemma triple_get P (Q : S → S → Prop) : (∀ s, P s → Q s s) → triple P get Q.
Proof. intros H s Hs. eexists _, _. split; [done|auto]. Qed.

Lemma triple_gets {A} P (f : S → A) Q : (∀ s, P s → Q (f s) s) → triple P (gets f) Q.
Proof. intros H s Hs. eexists _, _. split; [done|auto]. Qed.

Lemma triple_modify P f (Q : () → S → Prop) :
  (∀ s, P s → Q () (f s)) → triple P (modify f) Q.
Proof. intros H s Hs. eexists _, _. split; [done|auto]. Qed.

Lemma triple_skip P (Q : () → S → Prop) : (∀ s, P s → Q () s) → triple P skip Q.
Proof. intros H s Hs. eexists _, _. split; [done|auto]. Qed.

Lemma triple_weaken {A} P P' (m : M S A) (Q Q' : A → S → Prop) :
  triple P' m Q' → (∀ s, P s → P' s) → (∀ a s, Q' a s → Q a s) → triple P m Q.
Proof. intros H HP HQ s Hs. destruct (H s (HP s Hs)) as (a & s' & ? & ?). eauto. Qed.

Lemma triple_pre {A} (P : S → Prop) (φ : Prop) (m : M S A) Q :
  (∀ s, P s → φ) → (φ → triple P m Q) → triple P m Q.
Proof. intros Hφ H s Hs. by apply (H (Hφ s Hs)). Qed.

Lemma preserves_bind {A B} I (m : M S A) (f : A → M S B) :
  preserves I m → (∀ a, preserves I (f a)) → preserves I (m ≫= f).
Proof.
  intros Hm Hf s b s' Hs. mrun. destruct (m s) as [[a s1]|] eqn:E; [|done].
  intros E2. eapply Hf, E2. eapply Hm, E. done.
Qed.

Lemma preserves_ret {A} I (a : A) : preserves I (mret a).
Proof. by intros s b s' Hs [= _ <-]. Qed.
Lemma preserves_get I : preserves I get.
Proof. by intros s b s' Hs [= _ <-]. Qed.
Lemma preserves_gets {A} I (f : S → A) : preserves I (gets f).
Proof. by intros s b s' Hs [= _ <-]. Qed.
Lemma preserves_skip I : preserves I skip.
Proof. by intros s b s' Hs [= _ <-]. Qed.
Lemma preserves_ub {A} I : preserves I (ub (A:=A)).
Proof. by intros s b s' Hs. Qed.
Lemma preserves_of_option {A} I (o : option A) : preserves I (of_option o).
Proof. intros s b s' Hs. destruct o; [by intros [= _ <-]|done]. Qed.
Lemma preserves_modify I f : (∀ s, I s → I (f s)) → preserves I (modify f).
Proof. intros H s b s' Hs [= _ <-]. auto. Qed.
Lemma preserves_if {A} I (b : bool) (m1 m2 : M S A) :
  preserves I m1 → preserves I m2 → preserves I (if b then m1 else m2).
Proof. intros ??. by destruct b. Qed.
Lemma preserves_when I (b : bool) (m : M S ()) :
  preserves I m → preserves I (when b m).
Proof. destruct b; [done|]. intros _. apply preserves_skip. Qed.
Lemma preserves_for_each {A} I (l : list A) (f : A → M S ()) :
  (∀ x, preserves I (f x)) → preserves I (for_each l f).
Proof.
  intros H. induction l as [|x l IH]; [apply preserves_skip|].
  apply preserves_bind; [done|]. intros. apply IH.
Qed.
End triple.

#[export] Hint Resolve preserves_ret preserves_get preserves_gets preserves_skip
  preserves_ub preserves_of_option preserves_if preserves_when preserves_for_each : lorie.

(** Decompose a preservation goal along the structure of the code. *)
Ltac preserve_step :=
  match goal with
  | |- preserves _ (mbind _ _) => apply preserves_bind; [|intros ?]
  | |- preserves _ (if _ then _ else _) => apply preserves_if
  | |- preserves _ (when _ _) => apply preserves_when
  | |- preserves _ (match ?x with _ => _ end) => destruct x eqn:?
  | |- preserves _ (let _ := _ in _) => cbv zeta
  | |- preserves _ _ => solve [auto with lorie]
  end.
Ltac preserve := repeat preserve_step.
