(* ===== verification/Text.v ===== *)
(** * Clipboard text conversion

    The five helpers at the top of [lorie/clipboard.c]: line-ending filter,
    Latin-1 to UTF-8, the UTF-8 validity scan, the UTF-8 decoder and UTF-8 to
    Latin-1.  Memory is a list of byte values; a load or store outside the
    list is undefined behaviour ([None]).  [size_t] has 64 bits.

    The reference is RFC 3629: [utf8_encode] is the encoding of a list of
    code points.  The theorems show what the helpers do on well-formed input,
    that they stay inside their buffers there, and that the Latin-1
    conversions invert one another. *)

From S2P Require Import Prelude.

(** ** The code *)

(** [lorieConvertLF(src, dst, bytes)]: copy all but carriage returns. *)
Fixpoint lorieConvertLF_loop (n i j : nat) (src dst : list Z) : option (list Z) :=
  match n with
  | O => Some dst
  | S n' =>
    c ← src !! i;
    if c =? 13 then lorieConvertLF_loop n' (S i) j src dst
    else dst' ← wr dst j c; lorieConvertLF_loop n' (S i) (S j) src dst'
  end.

Definition lorieConvertLF (src dst : list Z) (bytes : nat) : option (list Z) :=
  lorieConvertLF_loop bytes 0 0 src dst.

(** [lorieLatin1ToUTF8(out, in)]: [o] is the write position. *)
Fixpoint lorieLatin1ToUTF8 (out : list Z) (o : nat) (inp : list Z) : option (list Z) :=
  match inp with
  | [] => None
  | c :: inp' =>
    if c =? 0 then Some out
    else if c <? 128 then
      out' ← wr out o c; lorieLatin1ToUTF8 out' (S o) inp'
    else
      out1 ← wr out o (u8 (0xc2 + Z.b2z (0xbf <? c)));
      out2 ← wr out1 (S o) (u8 (Z.land c 0x3f + 0x80));
      lorieLatin1ToUTF8 out2 (S (S o)) inp'
  end.

(** [lorieCheckUTF8(utf, size)].  The loop condition loads [utf[ix]] before it
    compares [ix] with [size]; the look-ahead loads are not bounded by [size]. *)
Fixpoint lorieCheckUTF8_loop (fuel : nat) (utf : list Z) (size ix : nat) : option bool :=
  match fuel with
  | O => None
  | S fuel' =>
    c ← utf !! ix;
    if (c =? 0) || negb (Z.of_nat ix <? Z.of_nat size) then Some true
    else if truthy (Z.land c 0x80) then
      c1 ← utf !! (ix + 1)%nat;
      if negb (Z.land c1 0xc0 =? 0x80) then Some false
      else if Z.land c 0xe0 =? 0xe0 then
        c2 ← utf !! (ix + 2)%nat;
        if negb (Z.land c2 0xc0 =? 0x80) then Some false
        else if Z.land c 0xf0 =? 0xf0 then
          if negb (Z.land c 0xf8 =? 0xf0) then Some false
          else
            c3 ← utf !! (ix + 3)%nat;
            if negb (Z.land c3 0xc0 =? 0x80) then Some false
            else lorieCheckUTF8_loop fuel' utf size (ix + 4)
        else lorieCheckUTF8_loop fuel' utf size (ix + 3)
      else lorieCheckUTF8_loop fuel' utf size (ix + 2)
    else lorieCheckUTF8_loop fuel' utf size (ix + 1)
  end.

(** Every iteration loads a cell at a larger index, so one step per cell and
    one more is enough. *)
Definition lorieCheckUTF8 (utf : list Z) (size : nat) : option bool :=
  lorieCheckUTF8_loop (S (length utf)) utf size 0.

(** The [while (count--)] loop of [lorieUtf8ToUCS4] and what follows it. *)
Fixpoint lorieUtf8ToUCS4_cont (count : nat) (src : list Z) (max consumed dst : Z)
  : option (Z * Z) :=
  match count with
  | O => Some (consumed, if (0xd800 <=? dst) && (dst <? 0xe000) then 0xfffd else dst)
  | S count' =>
    let consumed := consumed + 1 in
    if max =? 0 then Some (consumed, 0xfffd)
    else
      match src with
      | [] => None
      | c :: src' =>
        if negb (Z.land c 0xc0 =? 0x80) then Some (consumed, 0xfffd)
        else lorieUtf8ToUCS4_cont count' src' (max - 1) consumed
               (Z.lor (u32 (Z.shiftl dst 6)) (Z.land c 0x3f))
      end
  end.

(** The [while] loop of the invalid-lead branch. *)
Fixpoint lorieUtf8ToUCS4_skip (src : list Z) (max consumed : Z) : option Z :=
  if max <=? 0 then Some consumed
  else
    match src with
    | [] => None
    | c :: src' =>
      if Z.land c 0xc0 =? 0x80 then lorieUtf8ToUCS4_skip src' (max - 1) (consumed + 1)
      else Some consumed
    end.

(** [lorieUtf8ToUCS4(src, max, dst)]: the number of bytes consumed and [*dst]. *)
Definition lorieUtf8ToUCS4 (src : list Z) (max : Z) : option (Z * Z) :=
  if max =? 0 then Some (0, 0xfffd)
  else
    match src with
    | [] => None
    | c :: src' =>
      if Z.land c 0x80 =? 0 then lorieUtf8ToUCS4_cont 0 src' (max - 1) 1 c
      else if Z.land c 0xe0 =? 0xc0 then
        lorieUtf8ToUCS4_cont 1 src' (max - 1) 1 (Z.land c 0x1f)
      else if Z.land c 0xf0 =? 0xe0 then
        lorieUtf8ToUCS4_cont 2 src' (max - 1) 1 (Z.land c 0x0f)
      else if Z.land c 0xf8 =? 0xf0 then
        lorieUtf8ToUCS4_cont 3 src' (max - 1) 1 (Z.land c 0x07)
      else
        consumed ← lorieUtf8ToUCS4_skip src' (max - 1) 1;
        Some (consumed, 0xfffd)
    end.

(** [lorieUtf8ToLatin1(src)]: the loop that measures the output. *)
Fixpoint lorieUtf8ToLatin1_size (fuel : nat) (inp : list Z) (in_len sz : Z) : option Z :=
  match fuel with
  | O => None
  | S fuel' =>
    if negb (0 <? in_len) then Some sz
    else
      match inp with
      | [] => None
      | c :: _ =>
        if c =? 0 then Some sz
        else
          '(len, _) ← lorieUtf8ToUCS4 inp in_len;
          lorieUtf8ToLatin1_size fuel' (drop (Z.to_nat len) inp) (u64 (in_len - len)) (sz + 1)
      end
  end.

(** The loop that fills it. *)
Fixpoint lorieUtf8ToLatin1_fill (fuel : nat) (inp : list Z) (in_len : Z)
    (out : list Z) (position : nat) : option (list Z) :=
  match fuel with
  | O => None
  | S fuel' =>
    if negb (0 <? in_len) then Some out
    else
      match inp with
      | [] => None
      | c :: _ =>
        if c =? 0 then Some out
        else
          '(len, ucs) ← lorieUtf8ToUCS4 inp in_len;
          out' ← wr out position (if 0xff <? ucs then 63 else u8 ucs);
          lorieUtf8ToLatin1_fill fuel' (drop (Z.to_nat len) inp) (u64 (in_len - len))
            out' (S position)
      end
  end.

(** [in_len = -1] for the first pass and [4.294967295E9] for the second; the
    result is the [strdup] of the buffer. *)
Definition lorieUtf8ToLatin1 (src : list Z) : option (list Z) :=
  sz ← lorieUtf8ToLatin1_size (S (length src)) src (u64 (-1)) 0;
  out ← lorieUtf8ToLatin1_fill (S (length src)) src 4294967295
          (replicate (Z.to_nat sz + 1) 0) 0;
  Some (cstr out).

(** ** The reference: RFC 3629 *)

(** A Unicode scalar value. *)
Definition scalar (cp : Z) : Prop :=
  0 ≤ cp < 0x110000 ∧ ¬ (0xd800 ≤ cp < 0xe000).

Definition utf8_encode_cp (cp : Z) : list Z :=
  if cp <? 0x80 then [cp]
  else if cp <? 0x800 then [0xc0 + cp / 64; 0x80 + cp mod 64]
  else if cp <? 0x10000 then
    [0xe0 + cp / 4096; 0x80 + (cp / 64) mod 64; 0x80 + cp mod 64]
  else
    [0xf0 + cp / 262144; 0x80 + (cp / 4096) mod 64;
     0x80 + (cp / 64) mod 64; 0x80 + cp mod 64].

Definition utf8_encode (cps : list Z) : list Z := cps ≫= utf8_encode_cp.

(** What a Latin-1 reader sees of a code point. *)
Definition latin1_of (cp : Z) : Z := if 0xff <? cp then 63 else cp.

(** ** Byte classes *)

Lemma ascii_bits b : 0 ≤ b < 0x80 → Z.land b 0x80 = 0.
Proof.
  intros H. assert (inU 8 b) as Hb by (unfold inU; lia).
  pose proof (byte_forall (λ b, implb (b <? 0x80) (Z.land b 0x80 =? 0))
                eq_refl b Hb) as P. cbv beta in P.
  rewrite (proj2 (Z.ltb_lt b 0x80)) in P by lia. by apply Z.eqb_eq in P.
Qed.

Lemma cont_bits x : 0 ≤ x < 64 →
  Z.land (0x80 + x) 0xc0 = 0x80 ∧ Z.land (0x80 + x) 0x3f = x.
Proof.
  intros H. assert (inU 8 x) as Hx by (unfold inU; lia).
  pose proof (byte_forall (λ x, implb (x <? 64)
    ((Z.land (0x80 + x) 0xc0 =? 0x80) && (Z.land (0x80 + x) 0x3f =? x)))
    eq_refl x Hx) as P. cbv beta in P.
  rewrite (proj2 (Z.ltb_lt x 64)) in P by lia. cbn [implb] in P. by bool_to_prop.
Qed.

Lemma lead2_bits x : 0 ≤ x < 32 →
  Z.land (0xc0 + x) 0x80 = 0x80 ∧ Z.land (0xc0 + x) 0xe0 = 0xc0
  ∧ Z.land (0xc0 + x) 0x1f = x.
Proof.
  intros H. assert (inU 8 x) as Hx by (unfold inU; lia).
  pose proof (byte_forall (λ x, implb (x <? 32)
    ((Z.land (0xc0 + x) 0x80 =? 0x80) && (Z.land (0xc0 + x) 0xe0 =? 0xc0)
     && (Z.land (0xc0 + x) 0x1f =? x))) eq_refl x Hx) as P. cbv beta in P.
  rewrite (proj2 (Z.ltb_lt x 32)) in P by lia. cbn [implb] in P. by bool_to_prop.
Qed.

Lemma lead3_bits x : 0 ≤ x < 16 →
  Z.land (0xe0 + x) 0x80 = 0x80 ∧ Z.land (0xe0 + x) 0xe0 = 0xe0
  ∧ Z.land (0xe0 + x) 0xf0 = 0xe0 ∧ Z.land (0xe0 + x) 0x0f = x.
Proof.
  intros H. assert (inU 8 x) as Hx by (unfold inU; lia).
  pose proof (byte_forall (λ x, implb (x <? 16)
    ((Z.land (0xe0 + x) 0x80 =? 0x80) && (Z.land (0xe0 + x) 0xe0 =? 0xe0)
     && (Z.land (0xe0 + x) 0xf0 =? 0xe0) && (Z.land (0xe0 + x) 0x0f =? x)))
    eq_refl x Hx) as P. cbv beta in P.
  rewrite (proj2 (Z.ltb_lt x 16)) in P by lia. cbn [implb] in P. by bool_to_prop.
Qed.

Lemma lead4_bits x : 0 ≤ x < 8 →
  Z.land (0xf0 + x) 0x80 = 0x80 ∧ Z.land (0xf0 + x) 0xe0 = 0xe0
  ∧ Z.land (0xf0 + x) 0xf0 = 0xf0 ∧ Z.land (0xf0 + x) 0xf8 = 0xf0
  ∧ Z.land (0xf0 + x) 0x07 = x.
Proof.
  intros H. assert (inU 8 x) as Hx by (unfold inU; lia).
  pose proof (byte_forall (λ x, implb (x <? 8)
    ((Z.land (0xf0 + x) 0x80 =? 0x80) && (Z.land (0xf0 + x) 0xe0 =? 0xe0)
     && (Z.land (0xf0 + x) 0xf0 =? 0xf0) && (Z.land (0xf0 + x) 0xf8 =? 0xf0)
     && (Z.land (0xf0 + x) 0x07 =? x))) eq_refl x Hx) as P. cbv beta in P.
  rewrite (proj2 (Z.ltb_lt x 8)) in P by lia. cbn [implb] in P. by bool_to_prop.
Qed.

(** One step of the decoder's accumulator. *)
Lemma push_bits d x : 0 ≤ d < 1048576 → 0 ≤ x < 64 →
  Z.lor (u32 (Z.shiftl d 6)) x = d * 64 + x.
Proof.
  intros Hd Hx.
  rewrite wrapU_id.
  - by rewrite lor_shiftl_add.
  - unfold inU. rewrite Z.shiftl_mul_pow2 by lia. lia.
Qed.

(** The shape of an encoded scalar: the four cases with their ranges. *)
Variant enc_spec (cp : Z) : list Z → Prop :=
  | Enc1 : 0 ≤ cp < 0x80 → enc_spec cp [cp]
  | Enc2 a b : 2 ≤ a < 32 → 0 ≤ b < 64 → cp = a * 64 + b →
      enc_spec cp [0xc0 + a; 0x80 + b]
  | Enc3 a b c : 0 ≤ a < 16 → 0 ≤ b < 64 → 0 ≤ c < 64 → cp = (a * 64 + b) * 64 + c →
      enc_spec cp [0xe0 + a; 0x80 + b; 0x80 + c]
  | Enc4 a b c d : 0 ≤ a < 8 → 0 ≤ b < 64 → 0 ≤ c < 64 → 0 ≤ d < 64 →
      cp = ((a * 64 + b) * 64 + c) * 64 + d →
      enc_spec cp [0xf0 + a; 0x80 + b; 0x80 + c; 0x80 + d].

Lemma encP cp : scalar cp → enc_spec cp (utf8_encode_cp cp).
Proof.
  intros [Hcp _]. unfold utf8_encode_cp.
  repeat case_goal; bool_to_prop; [apply Enc1|apply Enc2|apply Enc3|apply Enc4];
    Z.to_euclidean_division_equations; lia.
Qed.

(** Decide the mask comparisons of a lead and its continuation bytes. *)
Ltac mask_simpl :=
  repeat match goal with
  | H : Z.land ?a ?m = ?v |- context [Z.land ?a ?m] => rewrite H
  end;
  cbv [truthy]; cbn [Z.eqb Pos.eqb negb orb andb].

(** ** The decoder on well-formed input *)

(** Decoding inverts the encoding: the scan consumes exactly the bytes of the
    code point and returns it. *)
Lemma decode_encode cp rest max :
  scalar cp → Z.of_nat (length (utf8_encode_cp cp)) ≤ max →
  lorieUtf8ToUCS4 (utf8_encode_cp cp ++ rest) max
    = Some (Z.of_nat (length (utf8_encode_cp cp)), cp).
Proof.
  intros Hs Hmax. pose proof Hs as [_ Hsur].
  destruct (encP cp Hs) as [H|a b Ha Hb ->|a b c Ha Hb Hc ->|a b c d Ha Hb Hc Hd ->];
    cbn [app length] in *; unfold lorieUtf8ToUCS4;
    rewrite (proj2 (Z.eqb_neq max 0)) by lia.
  - rewrite (ascii_bits cp H). simpl. repeat case_goal; bool_to_prop; try done; lia.
  - destruct (lead2_bits a ltac:(lia)) as (?&?&?), (cont_bits b Hb) as [??].
    mask_simpl. cbn [lorieUtf8ToUCS4_cont].
    rewrite (proj2 (Z.eqb_neq (max - 1) 0)) by lia. mask_simpl.
    rewrite push_bits by lia. repeat case_goal; bool_to_prop; try done; lia.
  - destruct (lead3_bits a ltac:(lia)) as (?&?&?&?),
      (cont_bits b Hb) as [??], (cont_bits c Hc) as [??].
    mask_simpl. cbn [lorieUtf8ToUCS4_cont].
    rewrite (proj2 (Z.eqb_neq (max - 1) 0)) by lia. mask_simpl.
    rewrite (proj2 (Z.eqb_neq (max - 1 - 1) 0)) by lia. mask_simpl.
    rewrite (push_bits a b), (push_bits (a * 64 + b) c) by lia.
    repeat case_goal; bool_to_prop; try done; lia.
  - destruct (lead4_bits a ltac:(lia)) as (?&?&?&?&?),
      (cont_bits b Hb) as [??], (cont_bits c Hc) as [??], (cont_bits d Hd) as [??].
    mask_simpl. cbn [lorieUtf8ToUCS4_cont].
    rewrite (proj2 (Z.eqb_neq (max - 1) 0)) by lia. mask_simpl.
    rewrite (proj2 (Z.eqb_neq (max - 1 - 1) 0)) by lia. mask_simpl.
    rewrite (proj2 (Z.eqb_neq (max - 1 - 1 - 1) 0)) by lia. mask_simpl.
    rewrite (push_bits a b), (push_bits (a * 64 + b) c),
      (push_bits ((a * 64 + b) * 64 + c) d) by lia.
    repeat case_goal; bool_to_prop; try done; lia.
Qed.

Definition text (cps : list Z) : Prop := Forall (λ cp, scalar cp ∧ cp ≠ 0) cps.

Lemma encode_cp_head cp : scalar cp → cp ≠ 0 →
  ∃ b bs, utf8_encode_cp cp = b :: bs ∧ b ≠ 0.
Proof. intros Hs Hn. destruct (encP cp Hs); eexists _, _; split; eauto; lia. Qed.

Lemma encode_cp_length cp : scalar cp → (1 ≤ length (utf8_encode_cp cp) ≤ 4)%nat.
Proof. intros Hs. destruct (encP cp Hs); simpl; lia. Qed.

Lemma utf8_encode_cons cp cps :
  utf8_encode (cp :: cps) = utf8_encode_cp cp ++ utf8_encode cps.
Proof. done. Qed.

(** One iteration of either loop of [lorieUtf8ToLatin1]. *)
Lemma drop_encode cp rest : drop (Z.to_nat (Z.of_nat (length (utf8_encode_cp cp))))
    (utf8_encode_cp cp ++ rest) = rest.
Proof. by rewrite Nat2Z.id, drop_app_length. Qed.

Lemma latin1_size_encode cps : ∀ fuel junk in_len sz,
  text cps → (length cps < fuel)%nat →
  Z.of_nat (length (utf8_encode cps)) < in_len < 2 ^ 64 →
  lorieUtf8ToLatin1_size fuel (utf8_encode cps ++ 0 :: junk) in_len sz
    = Some (sz + Z.of_nat (length cps)).
Proof.
  induction cps as [|cp cps IH]; intros [|fuel] junk in_len sz Ht Hf Hl;
    simpl in Hf; try lia.
  - cbn. rewrite (proj2 (Z.ltb_lt 0 in_len)) by (simpl in Hl; lia). simpl. f_equal. lia.
  - inv Ht as [|? ? [Hs Hn] Ht']. rewrite utf8_encode_cons in *.
    rewrite length_app in Hl.
    destruct (encode_cp_head cp Hs Hn) as (b & bs & E & Hb).
    pose proof (decode_encode cp (utf8_encode cps ++ 0 :: junk) in_len Hs ltac:(lia)) as D.
    cbn [lorieUtf8ToLatin1_size]. rewrite (proj2 (Z.ltb_lt 0 in_len)) by lia.
    rewrite <-app_assoc. remember (utf8_encode_cp cp ++ _) as inp eqn:Ei.
    assert (inp = b :: (bs ++ utf8_encode cps ++ 0 :: junk)) as Eb by (by rewrite Ei, E).
    rewrite Eb at 1. cbn [negb]. rewrite (proj2 (Z.eqb_neq b 0)) by done.
    rewrite D. cbn [mbind option_bind]. rewrite Ei, drop_encode.
    pose proof (encode_cp_length cp Hs).
    rewrite wrapU_id by (unfold inU; lia).
    rewrite IH by (auto; lia). f_equal. simpl. lia.
Qed.

Lemma latin1_fill_encode cps : ∀ fuel junk in_len done,
  text cps → (length cps < fuel)%nat →
  Z.of_nat (length (utf8_encode cps)) < in_len < 2 ^ 64 →
  lorieUtf8ToLatin1_fill fuel (utf8_encode cps ++ 0 :: junk) in_len
      (done ++ replicate (length cps + 1) 0) (length done)
    = Some (done ++ (latin1_of <$> cps) ++ [0]).
Proof.
  induction cps as [|cp cps IH]; intros [|fuel] junk in_len done Ht Hf Hl;
    simpl in Hf; try lia.
  - cbn. rewrite (proj2 (Z.ltb_lt 0 in_len)) by (simpl in Hl; lia). done.
  - inv Ht as [|? ? [Hs Hn] Ht']. rewrite utf8_encode_cons in *.
    rewrite length_app in Hl.
    destruct (encode_cp_head cp Hs Hn) as (b & bs & E & Hb).
    pose proof (decode_encode cp (utf8_encode cps ++ 0 :: junk) in_len Hs ltac:(lia)) as D.
    cbn [lorieUtf8ToLatin1_fill]. rewrite (proj2 (Z.ltb_lt 0 in_len)) by lia.
    rewrite <-app_assoc. remember (utf8_encode_cp cp ++ _) as inp eqn:Ei.
    assert (inp = b :: (bs ++ utf8_encode cps ++ 0 :: junk)) as Eb by (by rewrite Ei, E).
    rewrite Eb at 1. cbn [negb]. rewrite (proj2 (Z.eqb_neq b 0)) by done.
    rewrite D. cbn [mbind option_bind]. rewrite Ei, drop_encode.
    cbn [length Nat.add replicate]. rewrite wr_app. cbn [mbind option_bind].
    pose proof (encode_cp_length cp Hs).
    rewrite (wrapU_id 64) by (unfold inU; lia).
    replace (S (length done)) with (length (done ++ [latin1_of cp]))
      by (rewrite length_app; simpl; lia).
    assert ((if 0xff <? cp then 63 else u8 cp) = latin1_of cp) as ->.
    { unfold latin1_of. case_goal; [done|]. bool_to_prop. destruct Hs as [? _].
      apply wrapU_id. unfold inU. lia. }
    change (done ++ latin1_of cp :: replicate (length cps + 1) 0)
      with (done ++ [latin1_of cp] ++ replicate (length cps + 1) 0).
    rewrite app_assoc, IH by (auto; lia). by rewrite <-app_assoc.
Qed.

Lemma utf8_encode_length cps : text cps → (length cps ≤ length (utf8_encode cps))%nat.
Proof.
  induction 1 as [|cp cps [Hs _] _ IH]; [done|].
  rewrite utf8_encode_cons, length_app. pose proof (encode_cp_length cp Hs).
  simpl. lia.
Qed.

Lemma latin1_of_nul_free cps : text cps → nul_free (latin1_of <$> cps).
Proof.
  intros H. apply Forall_fmap, (Forall_impl _ _ _ H).
  intros cp [_ ?]. unfold compose, latin1_of. case_goal; lia.
Qed.

(** [lorieUtf8ToLatin1] on well-formed text: every code point becomes one
    Latin-1 byte, those above U+00FF a question mark. *)
Lemma utf8ToLatin1_text cps junk :
  text cps → Z.of_nat (length (utf8_encode cps)) < 4294967295 →
  lorieUtf8ToLatin1 (utf8_encode cps ++ 0 :: junk) = Some (latin1_of <$> cps).
Proof.
  intros Ht Hl. unfold lorieUtf8ToLatin1.
  pose proof (utf8_encode_length cps Ht).
  rewrite latin1_size_encode; [|done|rewrite length_app; lia|].
  2:{ change (u64 (-1)) with (2 ^ 64 - 1). lia. }
  cbn [mbind option_bind]. rewrite Z.add_0_l, Nat2Z.id.
  pose proof (latin1_fill_encode cps (S (length (utf8_encode cps ++ 0 :: junk)))
                junk 4294967295 [] Ht) as F. cbn [app length] in F.
  rewrite F; [|rewrite length_app; lia|lia].
  cbn [mbind option_bind]. f_equal. by apply cstr_app, latin1_of_nul_free.
Qed.

(** ** Latin-1 to UTF-8 *)

Definition latin1 (s : list Z) : Prop := Forall (λ c, 0 < c < 256) s.

Lemma latin1_text s : latin1 s → text s.
Proof.
  intros H. apply (Forall_impl _ _ _ H). intros c ?.
  split; [|lia]. unfold scalar. lia.
Qed.

Lemma latin1_of_id s : latin1 s → latin1_of <$> s = s.
Proof.
  induction 1 as [|c s Hc _ IH]; [done|]. rewrite fmap_cons, IH. f_equal.
  unfold latin1_of. case_goal; [bool_to_prop; lia|done].
Qed.

(** A high byte becomes the two bytes of its code point. *)
Lemma latin1_pair c : 128 ≤ c < 256 →
  utf8_encode_cp c = [u8 (0xc2 + Z.b2z (0xbf <? c)); u8 (Z.land c 0x3f + 0x80)].
Proof.
  intros Hc. assert (inU 8 c) as Hb by (unfold inU; lia).
  pose proof (byte_forall (λ c, implb (128 <=? c)
    (bool_decide (utf8_encode_cp c =
       [u8 (0xc2 + Z.b2z (0xbf <? c)); u8 (Z.land c 0x3f + 0x80)]))) eq_refl c Hb) as P.
  cbv beta in P. rewrite (proj2 (Z.leb_le 128 c)) in P by lia.
  by apply bool_decide_eq_true in P.
Qed.

Lemma latin1ToUTF8_encode s : ∀ done n junk,
  latin1 s → (2 * length s ≤ n)%nat →
  lorieLatin1ToUTF8 (done ++ replicate n 0) (length done) (s ++ 0 :: junk)
    = Some (done ++ utf8_encode s ++ replicate (n - length (utf8_encode s)) 0).
Proof.
  induction s as [|c s IH]; intros done n junk Hs Hn.
  { simpl. by rewrite Nat.sub_0_r. }
  inv Hs as [|? ? Hc Hs']. simpl in Hn. rewrite utf8_encode_cons.
  destruct n as [|[|n]]; try lia.
  cbn [app lorieLatin1ToUTF8]. rewrite (proj2 (Z.eqb_neq c 0)) by lia.
  destruct (Z.ltb_spec c 128).
  - assert (utf8_encode_cp c = [c]) as ->.
    { unfold utf8_encode_cp. by rewrite (proj2 (Z.ltb_lt c 0x80)) by lia. }
    cbn [replicate]. rewrite wr_app. cbn [mbind option_bind].
    pose proof (IH (done ++ [c]) (S n) junk Hs' ltac:(lia)) as F.
    rewrite length_app in F. cbn [length replicate] in F.
    rewrite Nat.add_1_r, <-!app_assoc in F. cbn [app] in F. rewrite F.
    done.
  - rewrite latin1_pair by lia. cbn [replicate]. rewrite wr_app. cbn [mbind option_bind].
    set (b1 := u8 (0xc2 + _)). set (b2 := u8 (_ + 0x80)).
    pose proof (wr_app (done ++ [b1]) (replicate n 0) 0 b2) as W.
    rewrite length_app, <-!app_assoc in W. cbn [length app] in W.
    rewrite Nat.add_1_r in W. rewrite W. cbn [mbind option_bind].
    pose proof (IH (done ++ [b1; b2]) n junk Hs' ltac:(lia)) as F.
    rewrite length_app, <-!app_assoc in F. cbn [length app] in F.
    rewrite Nat.add_comm in F. cbn [Nat.add] in F. rewrite F.
    cbn [app length]. repeat f_equal.
Qed.

Lemma utf8_encode_nul_free s : text s → nul_free (utf8_encode s).
Proof.
  induction 1 as [|cp s [Hs Hn] _ IH]; [constructor|].
  rewrite utf8_encode_cons. apply Forall_app; split; [|done].
  destruct (encP cp Hs); repeat constructor; lia.
Qed.

(** The output block of [lorieHandleSelection]: [(n + 1) * 2] zeroed bytes for
    [n] input bytes are enough, and it holds the encoding as a C string. *)
Lemma latin1ToUTF8_block s n junk :
  latin1 s → (length s ≤ n)%nat →
  ∃ out, lorieLatin1ToUTF8 (replicate ((n + 1) * 2) 0) 0 (s ++ 0 :: junk) = Some out
    ∧ length out = ((n + 1) * 2)%nat ∧ cstr out = utf8_encode s
    ∧ ∃ k, out = utf8_encode s ++ 0 :: replicate k 0.
Proof.
  intros Hs Hn.
  pose proof (latin1ToUTF8_encode s [] ((n + 1) * 2) junk Hs ltac:(lia)) as F.
  cbn [app length] in F. rewrite F.
  assert (length (utf8_encode s) ≤ 2 * length s)%nat as L.
  { clear -Hs. induction Hs as [|c s Hc _ IH]; [done|].
    rewrite utf8_encode_cons, length_app. cbn [length].
    enough (length (utf8_encode_cp c) ≤ 2)%nat by lia.
    unfold utf8_encode_cp. repeat case_goal; bool_to_prop; simpl; lia. }
  destruct ((n + 1) * 2 - length (utf8_encode s))%nat as [|k] eqn:E; [lia|].
  eexists. split_and!; [done|rewrite length_app, length_replicate; lia| |by exists k].
  cbn [replicate]. by apply cstr_app, utf8_encode_nul_free, latin1_text.
Qed.

(** ** Line endings *)

Definition not_cr (c : Z) : Prop := c ≠ 13.
#[export] Instance not_cr_dec c : Decision (not_cr c).
Proof. unfold not_cr. solve_decision. Defined.

Lemma convertLF_loop_spec n : ∀ pre rest done k,
  (n ≤ length rest)%nat → (n ≤ k)%nat →
  lorieConvertLF_loop n (length pre) (length done) (pre ++ rest) (done ++ replicate k 0)
    = Some (done ++ filter not_cr (take n rest)
            ++ replicate (k - length (filter not_cr (take n rest))) 0).
Proof.
  induction n as [|n IH]; intros pre rest done k E Hk.
  { simpl. by rewrite Nat.sub_0_r. }
  destruct rest as [|c rest]; simpl in E; [lia|].
  cbn [lorieConvertLF_loop]. rewrite lookup_app_0.
  cbn [lookup list_lookup mbind option_bind].
  pose proof (IH (pre ++ [c]) rest) as F. rewrite length_app, <-app_assoc in F.
  cbn [length app] in F. rewrite Nat.add_1_r in F. cbn [take].
  destruct (Z.eqb_spec c 13) as [->|Hc].
  - rewrite filter_cons_False by (unfold not_cr; lia). apply F; lia.
  - destruct k as [|k]; [lia|]. cbn [replicate]. rewrite wr_app. cbn [mbind option_bind].
    rewrite filter_cons_True by done.
    specialize (F (done ++ [c]) k). rewrite length_app, <-!app_assoc in F.
    cbn [length app] in F. rewrite Nat.add_1_r in F. rewrite F by lia. done.
Qed.

(** [lorieConvertLF] into a zeroed block one byte longer than the source. *)
Lemma convertLF_spec src tail :
  lorieConvertLF (src ++ tail) (replicate (length src + 1) 0) (length src)
    = Some (filter not_cr src
            ++ replicate (length src + 1 - length (filter not_cr src)) 0).
Proof.
  pose proof (convertLF_loop_spec (length src) [] (src ++ tail) [] (length src + 1)) as F.
  cbn [app length] in F. unfold lorieConvertLF.
  rewrite F, take_app_length by (rewrite ?length_app; lia). done.
Qed.

Lemma cstr_filter_cr l : cstr (filter not_cr l) = filter not_cr (cstr l).
Proof.
  induction l as [|c l IH]; [done|]. cbn [cstr].
  destruct (Z.eqb_spec c 0) as [->|Hc].
  - by rewrite filter_cons_True by (unfold not_cr; lia).
  - destruct (decide (not_cr c)).
    + rewrite !filter_cons_True by done. cbn [cstr].
      rewrite (proj2 (Z.eqb_neq c 0)) by done. by rewrite IH.
    + by rewrite !filter_cons_False by done.
Qed.

Lemma cstr_zeros l k : cstr (l ++ replicate (S k) 0) = cstr l.
Proof.
  induction l as [|c l IH]; [done|]. cbn [app cstr]. case_goal; [done|]. by rewrite IH.
Qed.

Lemma filter_cr_length l : (length (filter not_cr l) ≤ length l)%nat.
Proof. apply length_filter. Qed.

(** The filtered block read as a C string: the source up to its first NUL,
    without carriage returns. *)
Lemma convertLF_cstr src tail :
  ∃ out, lorieConvertLF (src ++ tail) (replicate (length src + 1) 0) (length src) = Some out
    ∧ length out = (length src + 1)%nat
    ∧ cstr out = filter not_cr (cstr src)
    ∧ ∃ k, out = filter not_cr src ++ 0 :: replicate k 0.
Proof.
  rewrite convertLF_spec. eexists. split; [done|].
  pose proof (filter_cr_length src).
  destruct (length src + 1 - length (filter not_cr src))%nat as [|k] eqn:E; [lia|].
  split_and!; [rewrite length_app, length_replicate; lia| |by exists k].
  by rewrite cstr_zeros, cstr_filter_cr.
Qed.

(** Dropping carriage returns from the bytes or from the code points is the
    same: no other code point has the byte 13 in its encoding. *)
Lemma filter_cr_encode cps :
  text cps → filter not_cr (utf8_encode cps) = utf8_encode (filter not_cr cps).
Proof.
  induction 1 as [|cp cps [Hs _] _ IH]; [done|].
  rewrite utf8_encode_cons, filter_app, IH.
  destruct (decide (not_cr cp)) as [Hc|Hc].
  - rewrite (filter_cons_True not_cr) by done. rewrite utf8_encode_cons. f_equal.
    destruct (encP cp Hs);
      by rewrite ?filter_cons_True by (unfold not_cr in *; lia).
  - rewrite (filter_cons_False not_cr cp) by done. unfold not_cr in Hc.
    destruct (decide (cp = 13)) as [->|]; [done|lia].
Qed.

(** ** The validity scan *)

(** Over the encoding of a text the scan advances to its end. *)
Lemma checkUTF8_loop_advance cps : ∀ fuel pre rest size,
  text cps → (length cps ≤ fuel)%nat →
  (length pre + length (utf8_encode cps) ≤ size)%nat →
  lorieCheckUTF8_loop fuel (pre ++ utf8_encode cps ++ rest) size (length pre)
    = lorieCheckUTF8_loop (fuel - length cps) (pre ++ utf8_encode cps ++ rest) size
        (length pre + length (utf8_encode cps)).
Proof.
  induction cps as [|cp cps IH]; intros fuel pre rest size Ht Hf Hz.
  { simpl. by rewrite Nat.sub_0_r, Nat.add_0_r. }
  destruct fuel as [|fuel]; simpl in Hf; [lia|].
  inv Ht as [|? ? [Hs Hn] Ht']. rewrite utf8_encode_cons in *.
  rewrite length_app in *. pose proof (encode_cp_length cp Hs) as L.
  pose proof (IH fuel (pre ++ utf8_encode_cp cp) rest size Ht' ltac:(lia)
                ltac:(rewrite length_app; lia)) as F.
  rewrite length_app, <-!app_assoc in F. rewrite <-Nat.add_assoc in F.
  rewrite <-!app_assoc. cbn [length Nat.sub]. rewrite <-F. clear F.
  cbn [lorieCheckUTF8_loop]. rewrite lookup_app_0, !lookup_app_plus.
  assert (negb (Z.of_nat (length pre) <? Z.of_nat size) = false) as -> by
    (apply negb_false_iff, Z.ltb_lt; lia).
  destruct (encP cp Hs) as [H|a b Ha Hb ->|a b c Ha Hb Hc ->|a b c d Ha Hb Hc Hd ->];
    cbn [app lookup list_lookup mbind option_bind length] in *;
    (rewrite (proj2 (Z.eqb_neq _ 0)) by lia); cbn [orb].
  - by rewrite (ascii_bits cp H).
  - destruct (lead2_bits a ltac:(lia)) as (?&?&?), (cont_bits b Hb) as [??].
    by mask_simpl.
  - destruct (lead3_bits a ltac:(lia)) as (?&?&?&?),
      (cont_bits b Hb) as [??], (cont_bits c Hc) as [??].
    by mask_simpl.
  - destruct (lead4_bits a ltac:(lia)) as (?&?&?&?&?),
      (cont_bits b Hb) as [??], (cont_bits c Hc) as [??], (cont_bits d Hd) as [??].
    by mask_simpl.
Qed.

Lemma checkUTF8_advance cps rest :
  text cps →
  ∃ fuel, lorieCheckUTF8 (utf8_encode cps ++ rest) (length (utf8_encode cps))
    = lorieCheckUTF8_loop (S fuel) (utf8_encode cps ++ rest)
        (length (utf8_encode cps)) (length (utf8_encode cps)).
Proof.
  intros Ht. pose proof (utf8_encode_length cps Ht).
  exists (length (utf8_encode cps ++ rest) - length cps)%nat.
  pose proof (checkUTF8_loop_advance cps (S (length (utf8_encode cps ++ rest))) []
    rest (length (utf8_encode cps)) Ht) as F.
  cbn [app length] in F. unfold lorieCheckUTF8. rewrite F; rewrite ?length_app; try lia.
  f_equal. lia.
Qed.

(** A block with a readable byte behind the text. *)
Lemma checkUTF8_block cps b rest :
  text cps →
  lorieCheckUTF8 (utf8_encode cps ++ b :: rest) (length (utf8_encode cps)) = Some true.
Proof.
  intros Ht. destruct (checkUTF8_advance cps (b :: rest) Ht) as [fuel ->].
  cbn [lorieCheckUTF8_loop]. rewrite lookup_app_0. simpl.
  by rewrite Z.ltb_irrefl, orb_true_r.
Qed.

(** The decoder skips one byte too many after a truncated sequence. *)
Lemma decode_truncated lead rest max :
  0xc2 ≤ lead < 0xf5 → 1 < max →
  lorieUtf8ToUCS4 (lead :: 0 :: rest) max = Some (2, 0xfffd).
Proof.
  intros Hl Hm. unfold lorieUtf8ToUCS4. rewrite (proj2 (Z.eqb_neq max 0)) by lia.
  assert (inU 8 lead) as Hb by (unfold inU; lia).
  pose proof (byte_forall (λ b, implb ((0xc2 <=? b) && (b <? 0xf5))
    (negb (Z.land b 0x80 =? 0) && ((Z.land b 0xe0 =? 0xc0) || (Z.land b 0xf0 =? 0xe0)
      || (Z.land b 0xf8 =? 0xf0)))) eq_refl lead Hb) as P. cbv beta in P.
  rewrite (proj2 (Z.leb_le 0xc2 lead)), (proj2 (Z.ltb_lt lead 0xf5)) in P by lia.
  cbn [andb implb] in P. apply andb_true_iff in P as [P1 P2].
  apply negb_true_iff in P1. rewrite P1.
  destruct (Z.land lead 0xe0 =? 0xc0), (Z.land lead 0xf0 =? 0xe0),
    (Z.land lead 0xf8 =? 0xf0); try done; cbn [lorieUtf8ToUCS4_cont];
    by rewrite (proj2 (Z.eqb_neq (max - 1) 0)) by lia.
Qed.

(** ** Properties *)

(** Latin-1 clipboard text sent out as UTF-8 and converted back is
    unchanged: for every NUL-free Latin-1 string, [lorieLatin1ToUTF8] fills its
    [2 * (n + 1)] byte block without leaving it and [lorieUtf8ToLatin1] of that
    block is the original string. *)
Theorem latin1_utf8_roundtrip s :
  latin1 s → Z.of_nat (length s) < 2 ^ 30 →
  ∃ out, lorieLatin1ToUTF8 (replicate ((length s + 1) * 2) 0) 0 (s ++ [0]) = Some out
    ∧ lorieUtf8ToLatin1 out = Some s.
Proof.
  intros Hs Hl.
  destruct (latin1ToUTF8_block s (length s) [] Hs ltac:(lia)) as (out & E & L & _ & k & ->).
  rewrite length_app in L. exists (utf8_encode s ++ 0 :: replicate k 0). split; [done|].
  rewrite utf8ToLatin1_text by (auto using latin1_text; lia).
  by rewrite latin1_of_id.
Qed.

Lemma latin1_utf8_roundtrip_witness :
  ∃ out, lorieLatin1ToUTF8 (replicate 8 0) 0 [72; 233; 191; 0] = Some out
    ∧ lorieUtf8ToLatin1 out = Some [72; 233; 191].
Proof.
  apply (latin1_utf8_roundtrip [72; 233; 191]);
    [repeat constructor; lia|simpl; lia].
Defined.

(** On well-formed UTF-8 (any list of nonzero scalar values, shorter than
    4 GiB) [lorieUtf8ToLatin1] terminates inside its buffers and yields one
    byte per code point, a question mark for those outside Latin-1. *)
Theorem utf8ToLatin1_correct cps tail :
  text cps → Z.of_nat (length (utf8_encode cps)) < 4294967295 →
  lorieUtf8ToLatin1 (utf8_encode cps ++ 0 :: tail) = Some (latin1_of <$> cps).
Proof. apply utf8ToLatin1_text. Qed.

Lemma utf8ToLatin1_correct_witness :
  lorieUtf8ToLatin1 (utf8_encode [65; 0x20ac; 0x1f600; 0xe9] ++ [0]) = Some [65; 63; 63; 0xe9].
Proof.
  apply (utf8ToLatin1_correct [65; 0x20ac; 0x1f600; 0xe9] []).
  - repeat constructor; lia.
  - vm_compute. done.
Defined.

(** [lorieCheckUTF8] accepts every well-formed text in a block with one
    byte behind it, whatever its value, and reads nothing beyond that byte. *)
Theorem checkUTF8_accepts cps b :
  text cps →
  lorieCheckUTF8 (utf8_encode cps ++ [b]) (length (utf8_encode cps)) = Some true.
Proof. apply checkUTF8_block. Qed.

Lemma checkUTF8_accepts_witness :
  lorieCheckUTF8 (utf8_encode [0x7ff; 0xffff; 0x10ffff] ++ [0]) 9 = Some true.
Proof. apply (checkUTF8_accepts [0x7ff; 0xffff; 0x10ffff] 0). repeat constructor; lia. Defined.

(** In a block of exactly [size] bytes, which is how the server stores a
    property, [lorieCheckUTF8] always loads the byte behind the end: the loop
    condition dereferences [utf[ix]] before it compares [ix] with [size]. *)
Theorem checkUTF8_overreads cps :
  text cps →
  lorieCheckUTF8 (utf8_encode cps) (length (utf8_encode cps)) = None.
Proof.
  intros Ht. destruct (checkUTF8_advance cps [] Ht) as [fuel F].
  rewrite app_nil_r in F. rewrite F. cbn [lorieCheckUTF8_loop].
  by rewrite (proj2 (lookup_ge_None (utf8_encode cps) (length (utf8_encode cps)))) by done.
Qed.

Lemma checkUTF8_overreads_witness : lorieCheckUTF8 [104; 105] 2 = None.
Proof. apply (checkUTF8_overreads [104; 105]). repeat constructor; lia. Defined.

(** A lead byte directly before the terminating NUL makes
    [lorieUtf8ToLatin1] step over the NUL and read past the string:
    [lorieUtf8ToUCS4] counts the byte that ended the sequence as consumed. *)
Theorem utf8ToLatin1_truncated_overreads lead :
  0xc2 ≤ lead < 0xf5 → lorieUtf8ToLatin1 [lead; 0] = None.
Proof.
  intros Hl. unfold lorieUtf8ToLatin1. cbn [length lorieUtf8ToLatin1_size].
  change (u64 (-1)) with 18446744073709551615.
  rewrite decode_truncated by lia. cbn [Z.ltb Z.compare negb].
  rewrite (proj2 (Z.eqb_neq lead 0)) by lia. vm_compute. done.
Qed.

Lemma utf8ToLatin1_truncated_overreads_witness : lorieUtf8ToLatin1 [0xc3; 0] = None.
Proof. apply (utf8ToLatin1_truncated_overreads 0xc3). lia. Defined.

(** [lorieConvertLF], called with a zeroed block one byte longer than the
    source, stays inside it and leaves the source up to its first NUL without
    its carriage returns. *)
Theorem convertLF_correct src tail :
  ∃ out, lorieConvertLF (src ++ tail) (replicate (length src + 1) 0) (length src) = Some out
    ∧ length out = (length src + 1)%nat
    ∧ cstr out = filter not_cr (cstr src).
Proof. destruct (convertLF_cstr src tail) as (out & ? & ? & ? & _); eauto. Qed.
