(* ===== verification/Ancil.v ===== *)
(** * Stream sockets with descriptor passing

    A connected [AF_UNIX] stream as the receiver sees it: the bytes in flight,
    each with the descriptor that was attached to it by [SCM_RIGHTS], if any.
    [ancil_send_fd] and [ancil_recv_fd] occur twice in the sources, in
    [lorie/shm/shmem.c] and [lorie/buffer.c]; the bodies are the same.

    The kernel renumbers a descriptor when the receiver gets it; [install]
    stands for that. *)

From S2P Require Import Prelude.

Definition stream := list (Z * option Z).

(** [write(sock, buf, n)] of a whole buffer. *)
Definition sock_write (bs : list Z) : M stream () :=
  modify (λ st, st ++ ((λ b, (b, None)) <$> bs)).

(** [read(sock, buf, n)] from a connection the other side has finished with: at
    most [n] bytes, fewer when the stream holds fewer, none at its end.
    Descriptors attached to bytes that are read without a control buffer are
    dropped. *)
Definition sock_read (n : nat) : M stream (list Z) :=
  λ st, Some ((take n st).*1, drop n st).

(** One byte, ['!'], carries the descriptor. *)
Definition ancil_send_fd (ok : bool) (fd : Z) : M stream Z :=
  if ok then modify (λ st, st ++ [(33, Some fd)]) ;; mret 0 else mret (-1).

(** [recvmsg] fills at most one byte and one descriptor; the descriptor cell
    holds -1 before the call and after a [recvmsg] at the end of the stream. *)
Definition ancil_recv_fd (install : Z → Z) : M stream Z :=
  st ← get;
  match st with
  | [] => mret (-1)
  | (_, rights) :: st' =>
    modify (λ _, st') ;;
    mret (match rights with Some fd => install fd | None => -1 end)
  end.

(** The same calls on a connection that stays open and blocks, as [socketpair]
    makes it: they wait while nothing is there, and have no result then.  A
    [read] that finds fewer bytes than it asks for returns them. *)
Definition conn_read (n : nat) : M stream (list Z) := λ st,
  match n, st with
  | S _, [] => None
  | _, _ => sock_read n st
  end.

Definition conn_recv_fd (install : Z → Z) : M stream Z := λ st,
  match st with
  | [] => None
  | _ :: _ => ancil_recv_fd install st
  end.

Lemma sock_read_app bs rest :
  sock_read (length bs) (((λ b, (b, None)) <$> bs) ++ rest) = Some (bs, rest).
Proof.
  unfold sock_read. rewrite take_app_length', drop_app_length' by (by rewrite length_fmap).
  f_equal. f_equal. rewrite <-list_fmap_compose. apply list_fmap_id.
Qed.

Lemma conn_read_app bs rest :
  conn_read (length bs) (((λ b, (b, None)) <$> bs) ++ rest) = Some (bs, rest).
Proof. rewrite <-sock_read_app. by destruct bs. Qed.

(** What is there is returned, if something is. *)
Lemma conn_read_some n st : st ≠ [] → conn_read n st = Some ((take n st).*1, drop n st).
Proof. by destruct n, st. Qed.

Lemma sock_read_write_empty bs :
  (sock_write bs ;; sock_read (length bs)) [] = Some (bs, []).
Proof. mrun. unfold sock_write. mrun. rewrite <-(app_nil_r (_ <$> bs)). apply sock_read_app. Qed.

(** A descriptor that was sent is received, renumbered. *)
Lemma ancil_recv_send install fd rest :
  ancil_recv_fd install ((33, Some fd) :: rest) = Some (install fd, rest).
Proof. done. Qed.
