(* ===== verification/Shmem.v ===== *)
(** * System V shared memory over ashmem ([lorie/shm/shmem.c])

    The emulation of [shmget], [shmat], [shmdt] and [shmctl].  The state is the
    file's static variables: the table [shmem] (its length is [shmem_amount]),
    the mutex, the socket id and the pid it was made for, the listening thread
    and the counter, together with the symbolic links [/tmp/ashv_key_<key>]
    and a log of the descriptors closed and the ranges unmapped.

    What the kernel answers is the argument [env]: process id, page size, the
    results of [socket], [bind], [listen], [mmap], ashmem and the System V
    syscalls, and the reply of a remote process.  A link holds the decimal
    print of a shmid and is only ever read back by [atoi]; it is kept as that
    number.  Allocation succeeds.

    Locking a mutex this thread holds is a self-deadlock and has no result. *)

From stdpp Require Import gmap.
From S2P Require Import Prelude Ancil.

(** ** Data *)

Record shmem_t := mk_shmem_t {
  id : Z;                   (** socket id in the high half, counter in the low *)
  addr : Z;                 (** 0 is NULL *)
  descriptor : Z;
  size : Z;
  markedForDeletion : bool;
  key : Z
}.
#[export] Instance shmem_t_eta : Settable shmem_t :=
  λ r, mk_shmem_t (id r) (addr r) (descriptor r) (size r) (markedForDeletion r) (key r).

Record state := mk_state {
  shmem : list shmem_t;
  mutex : bool;
  syscall_supported : Z;
  ashv_local_socket_id : Z;
  ashv_pid_setup : Z;
  ashv_listening_thread_id : Z;
  shmem_counter : Z;
  links : gmap Z Z;
  errno : Z;
  closed : list Z;
  unmapped : list (Z * Z)
}.
#[export] Instance state_eta : Settable state :=
  λ r, mk_state (shmem r) (mutex r) (syscall_supported r) (ashv_local_socket_id r)
         (ashv_pid_setup r) (ashv_listening_thread_id r) (shmem_counter r) (links r)
         (errno r) (closed r) (unmapped r).

Definition init_state : state := mk_state [] false 0 0 0 0 0 ∅ 0 [] [].

(** What a connection to another process's socket yields. *)
Record remote_reply := mk_remote_reply {
  rr_socket : Z;            (** [socket()] *)
  rr_connect : Z;           (** [connect()] *)
  rr_send : Z;              (** bytes [send()] took of the 4-byte shmid *)
  rr_stream : stream;       (** what can be read back *)
  rr_install : Z → Z;       (** number of a received descriptor here *)
  rr_size : Z → Z           (** [ioctl(fd, ASHMEM_GET_SIZE)] *)
}.

Record env := mk_env {
  getpid : Z;
  getpagesize : Z;
  geteuid : Z;
  getegid : Z;
  socket_fd : Z;            (** [socket()] of the listening socket *)
  bind_ok : Z → bool;       (** [bind()] to the name of a socket id *)
  listen_ok : bool;
  thread_id : Z;            (** what [pthread_create] stores *)
  remote : Z → remote_reply;          (** by socket id *)
  ashmem_open : Z;          (** [open(/dev/ashmem)] *)
  ashmem_set_name : Z;      (** [ioctl(ASHMEM_SET_NAME)] *)
  ashmem_set_size : Z;      (** [ioctl(ASHMEM_SET_SIZE)] *)
  mmap : Z → Z → Z → Z → Z; (** [mmap()] of address, size, protection,
                                descriptor; -1 is [MAP_FAILED] *)
  symlink_race : nat → option Z;      (** a link another process makes first *)
  symlink_ok : nat → bool;  (** [symlink()] does not fail for another reason *)
  sys_shmget : Z → Z → Z → Z;
  sys_shmat : Z → Z → Z → Z;
  sys_shmdt : Z → Z;
  sys_shmctl : Z → Z → Z
}.

Definition EINVAL : Z := 22.
Definition ENOMEM : Z := 12.
Definition ENOSYS : Z := 38.
Definition IPC_PRIVATE : Z := 0.
Definition IPC_RMID : Z := 0.
Definition IPC_STAT : Z := 2.

(** ** Helpers *)

Definition pthread_mutex_lock : M state () :=
  s ← get; if mutex s then ub else modify (λ s, s <| mutex := true |>).
Definition pthread_mutex_unlock : M state () := modify (λ s, s <| mutex := false |>).
Definition close_fd (fd : Z) : M state () := modify (λ s, s <| closed ::= λ c, c ++ [fd] |>).
Definition set_errno (e : Z) : M state () := modify (λ s, s <| errno := e |>).

(** [shmem[idx]] for reading and for assignment. *)
Definition shmem_at (idx : nat) : M state shmem_t :=
  s ← get; of_option (shmem s !! idx).
Definition shmem_set (idx : nat) (f : shmem_t → shmem_t) : M state () :=
  e ← shmem_at idx; modify (λ s, s <| shmem ::= λ l, <[idx := f e]> l |>).

Definition android_shmem_sysv_shm_force (enable : Z) : M state () :=
  modify (λ s, s <| syscall_supported := enable |>).

(** [strstr(buf, pat) != NULL]. *)
Fixpoint strstr (buf pat : list Z) : bool :=
  bool_decide (pat `prefix_of` buf) ||
  match buf with [] => false | _ :: buf' => strstr buf' pat end.

Definition TracerPid : list Z := [84; 114; 97; 99; 101; 114; 80; 105; 100; 58].

(** [isProot()]: [status] is the text of [/proc/self/status], [None] when it
    cannot be opened.  With [tracer_str] set the [||] returns at once; with
    [tracer_str == NULL] the next operand is [sscanf(NULL, ...)]. *)
Definition isProot (status : option (list Z)) : option bool :=
  match status with
  | None => Some false
  | Some buf => if strstr buf TracerPid then Some false else None
  end.

(** The constructor: [probe_errno] is [errno] after the probing syscall. *)
Definition check_syscall_support (status : option (list Z)) (probe_errno : Z) : M state () :=
  proot ← of_option (isProot status);
  if negb proot then skip
  else
    set_errno probe_errno ;;
    when (negb (probe_errno =? ENOSYS)) (modify (λ s, s <| syscall_supported := 1 |>)).

(** ** Identifiers *)

(** [ashv_local_socket_id * 0x10000 + counter]: the sum is unsigned and is
    converted to [int]. *)
Definition ashv_shmid_from_counter (socket_id counter : Z) : Z :=
  s32 (socket_id * 0x10000 + counter).

(** C division truncates towards zero. *)
Definition ashv_socket_id_from_shmid (shmid : Z) : Z := Z.quot shmid 0x10000.

Definition ashv_find_local_index (l : list shmem_t) (shmid : Z) : option nat :=
  index_of (λ e, id e =? shmid) l.

(** ** Process bookkeeping *)

Definition ashv_check_pid (e : env) : M state () :=
  s ← get;
  if ashv_pid_setup s =? 0 then modify (λ s, s <| ashv_pid_setup := getpid e |>)
  else if negb (ashv_pid_setup s =? getpid e) then
    modify (λ s, s <| ashv_pid_setup := getpid e |> <| ashv_local_socket_id := 0 |>
                   <| ashv_listening_thread_id := 0 |> <| shmem := [] |>) ;;
    pthread_mutex_unlock
  else skip.

(** [android_shmem_delete(idx)]: descriptor 0 is taken for "none". *)
Definition android_shmem_delete (idx : nat) : M state () :=
  e ← shmem_at idx;
  when (truthy (descriptor e)) (close_fd (descriptor e)) ;;
  modify (λ s, s <| shmem ::= λ l, delete idx l |>).

(** One turn of the loop of [ashv_thread_function]: [received] are the bytes
    [recv] returned, the result is what is written to the peer. *)
Definition ashv_thread_serve (received : list Z) (send_ok : bool) : M state stream :=
  if negb (Z.of_nat (length received) =? 4) then mret []
  else
    let shmid := s32 (le_value received) in
    pthread_mutex_lock ;;
    s ← get;
    out ← match ashv_find_local_index (shmem s) shmid with
          | Some idx =>
            e ← shmem_at idx;
            of_option (snd <$> (sock_write (le_bytes 4 (key e)) ;;
                                ancil_send_fd send_ok (descriptor e)) [])
          | None => mret []
          end;
    pthread_mutex_unlock ;;
    mret out.

(** The accept loop over the connections that arrive. *)
Fixpoint ashv_thread_function (conns : list (list Z * bool)) : M state (list stream) :=
  match conns with
  | [] => mret []
  | (received, send_ok) :: conns' =>
    out ← ashv_thread_serve received send_ok;
    outs ← ashv_thread_function conns';
    mret (out :: outs)
  end.

Definition ashmem_get_size_region (r : remote_reply) (fd : Z) : Z := rr_size r fd.

(** [ashv_read_remote_segment(shmid)]: the index of the new entry, [None] for
    -1.  The listening thread of this process takes the mutex to answer: a
    request to our own socket while we hold it never gets its reply. *)
Definition ashv_read_remote_segment (e : env) (shmid : Z) : M state (option nat) :=
  let socket_id := ashv_socket_id_from_shmid shmid in
  let r := remote e socket_id in
  if rr_socket r =? -1 then mret None
  else if negb (rr_connect r =? 0) then close_fd (rr_socket r) ;; mret None
  else if negb (rr_send r =? 4) then close_fd (rr_socket r) ;; mret None
  else
    s ← get;
    if mutex s && truthy (ashv_listening_thread_id s)
       && (socket_id =? ashv_local_socket_id s) then ub
    else
      '(keybytes, rest) ← of_option (sock_read 4 (rr_stream r));
      if negb (Z.of_nat (length keybytes) =? 4) then close_fd (rr_socket r) ;; mret None
      else
        '(fd, _) ← of_option (ancil_recv_fd (rr_install r) rest);
        if fd <? 0 then close_fd (rr_socket r) ;; mret None
        else
          close_fd (rr_socket r) ;;
          let sz := ashmem_get_size_region r fd in
          if (sz =? 0) || (sz =? -1) then mret None
          else
            modify (λ s, s <| shmem ::= λ l, l ++
              [mk_shmem_t shmid 0 fd (u64 sz) false (s32 (le_value keybytes))] |>) ;;
            mret (Some (length (shmem s))).

(** ** The four entry points *)

(** The bind loop of [shmget]: the first free socket id from the pid on. *)
Fixpoint shmget_bind (e : env) (n : nat) (i : Z) : option Z :=
  match n with
  | O => None
  | S n' =>
    let socket_id := Z.land (getpid e + i) 0xffff in
    if bind_ok e socket_id then Some socket_id else shmget_bind e n' (i + 1)
  end.

(** [if (!ashv_listening_thread_id) { ... }]: [false] where it returns -1. *)
Definition shmget_listen (e : env) : M state bool :=
  s ← get;
  if truthy (ashv_listening_thread_id s) then mret true
  else if socket_fd e =? 0 then set_errno EINVAL ;; mret false
  else
    match shmget_bind e 4096 0 with
    | None =>
      modify (λ s, s <| ashv_local_socket_id := 0 |>) ;; set_errno ENOMEM ;; mret false
    | Some socket_id =>
      modify (λ s, s <| ashv_local_socket_id := socket_id |>) ;;
      if negb (listen_ok e) then set_errno ENOMEM ;; mret false
      else modify (λ s, s <| ashv_listening_thread_id := thread_id e |>) ;; mret true
    end.

(** The next identifier: the counter wraps around at 15 bits. *)
Definition next_shmid : M state Z :=
  modify (λ s, s <| shmem_counter ::= λ c, Z.land (c + 1) 0x7fff |>) ;;
  gets (λ s, ashv_shmid_from_counter (ashv_local_socket_id s) (shmem_counter s)).

(** [if (shmid == -1) { ... }]: an identifier is drawn once. *)
Definition take_shmid (shmid : Z) : M state Z :=
  if shmid =? -1 then next_shmid else mret shmid.

Inductive key_result :=
  | Opened (shmid : Z)   (** the key is in use: return its segment *)
  | Owned (shmid : Z).   (** the link is ours *)

(** The [while (true)] loop of [shmget]; [i] counts its turns. *)
Fixpoint shmget_key (fuel : nat) (e : env) (i : nat) (key shmid : Z) : M state key_result :=
  match fuel with
  | O => ub
  | S fuel' =>
    s ← get;
    found ← match links s !! key with
            | None => mret None
            | Some v =>
              r ← (if v =? 0 then mret None
                   else match ashv_find_local_index (shmem s) v with
                        | Some idx => mret (Some idx)
                        | None => ashv_read_remote_segment e v
                        end);
              match r with
              | Some idx => mret (Some idx)
              | None => modify (λ s, s <| links ::= delete key |>) ;; mret None
              end
            end;
    match found with
    | Some idx => ent ← shmem_at idx; mret (Opened (id ent))
    | None =>
      shmid' ← take_shmid shmid;
      match symlink_race e i with
      | Some v =>
        modify (λ s, s <| links ::= insert key v |>) ;;
        shmget_key fuel' e (S i) key shmid'
      | None =>
        if symlink_ok e i then
          modify (λ s, s <| links ::= insert key shmid' |>) ;; mret (Owned shmid')
        else shmget_key fuel' e (S i) key shmid'
      end
    end
  end.

(** [ashmem_create_region]: the descriptor, or a negative number. *)
Definition ashmem_create_region (e : env) : M state Z :=
  if ashmem_open e <? 0 then mret (ashmem_open e)
  else if ashmem_set_name e <? 0 then close_fd (ashmem_open e) ;; mret (ashmem_set_name e)
  else if ashmem_set_size e <? 0 then close_fd (ashmem_open e) ;; mret (ashmem_set_size e)
  else mret (ashmem_open e).

Definition ROUND_UP (n s : Z) : Z := u64 (u64 (n + s - 1) / s * s).

(** The part of [shmget] behind the loop. *)
Definition shmget_create (e : env) (key size shmid : Z) : M state Z :=
  shmid' ← take_shmid shmid;
  let size' := ROUND_UP size (getpagesize e) in
  fd ← ashmem_create_region e;
  if fd <? 0 then pthread_mutex_unlock ;; mret (-1)
  else
    modify (λ s, s <| shmem ::= λ l,
      l ++ [mk_shmem_t shmid' 0 fd size' false key] |>) ;;
    pthread_mutex_unlock ;;
    mret shmid'.

Definition shmget (fuel : nat) (e : env) (key size flags : Z) : M state Z :=
  s ← get;
  if truthy (syscall_supported s) then
    let size' := if 2 ^ 63 - 1 <? size then 2 ^ 64 - 1 else size in
    mret (sys_shmget e key size' flags)
  else
    ashv_check_pid e ;;
    listening ← shmget_listen e;
    if negb listening then mret (-1)
    else
      pthread_mutex_lock ;;
      if negb (key =? IPC_PRIVATE) then
        r ← shmget_key fuel e 0 key (-1);
        match r with
        | Opened shmid => pthread_mutex_unlock ;; mret shmid
        | Owned shmid => shmget_create e key size shmid
        end
      else shmget_create e key size (-1).

(** The part of [shmat] with the entry at hand. *)
Definition shmat_attach (e : env) (idx : nat) (shmaddr shmflg : Z) : M state Z :=
  ent ← shmem_at idx;
  let a := mmap e shmaddr (size ent)
             (Z.lor 1 (if shmflg =? 0 then 2 else 0)) (descriptor ent) in
  when (addr ent =? 0)
    (shmem_set idx (λ ent, ent <| addr := if a =? -1 then 0 else a |>)) ;;
  ent' ← shmem_at idx;
  pthread_mutex_unlock ;;
  mret (if truthy (addr ent') then addr ent' else -1).

Definition shmat (e : env) (shmid shmaddr shmflg : Z) : M state Z :=
  s ← get;
  if truthy (syscall_supported s) then mret (sys_shmat e shmid shmaddr shmflg)
  else
    ashv_check_pid e ;;
    let socket_id := ashv_socket_id_from_shmid shmid in
    pthread_mutex_lock ;;
    s ← get;
    idx ← match ashv_find_local_index (shmem s) shmid with
          | Some idx => mret (Some idx)
          | None =>
            if negb (socket_id =? ashv_local_socket_id s)
            then ashv_read_remote_segment e shmid else mret None
          end;
    match idx with
    | None => pthread_mutex_unlock ;; set_errno EINVAL ;; mret (-1)
    | Some idx => shmat_attach e idx shmaddr shmflg
    end.

(** The body of the loop of [shmdt] for the matching entry. *)
Definition shmdt_detach (i : nat) : M state Z :=
  ent ← shmem_at i;
  modify (λ s, s <| unmapped ::= λ u, u ++ [(addr ent, size ent)] |>) ;;
  shmem_set i (λ ent, ent <| addr := 0 |>) ;;
  s ← get;
  when (markedForDeletion ent
        || negb (ashv_socket_id_from_shmid (id ent) =? ashv_local_socket_id s))
    (android_shmem_delete i) ;;
  pthread_mutex_unlock ;;
  mret 0.

Definition shmdt (e : env) (shmaddr : Z) : M state Z :=
  s ← get;
  if truthy (syscall_supported s) then mret (sys_shmdt e shmaddr)
  else
    ashv_check_pid e ;;
    pthread_mutex_lock ;;
    s ← get;
    match index_of (λ ent, addr ent =? shmaddr) (shmem s) with
    | Some i => shmdt_detach i
    | None => pthread_mutex_unlock ;; mret 0
    end.

Record shmid_ds := mk_shmid_ds {
  shm_segsz : Z; shm_nattch : Z; shm_key : Z; shm_uid : Z; shm_gid : Z;
  shm_cuid : Z; shm_cgid : Z; shm_mode : Z; shm_seq : Z
}.

(** The part of [IPC_RMID] with the entry at hand. *)
Definition shmctl_rmid (idx : nat) : M state (Z * option shmid_ds) :=
  ent ← shmem_at idx;
  (if truthy (addr ent)
   then shmem_set idx (λ ent, ent <| markedForDeletion := true |>)
   else android_shmem_delete idx) ;;
  pthread_mutex_unlock ;;
  mret (0, None).

(** [shmctl]: the return value and what is stored through [buf]. *)
Definition shmctl (e : env) (shmid cmd : Z) (buf : bool) : M state (Z * option shmid_ds) :=
  s ← get;
  if truthy (syscall_supported s) then mret (sys_shmctl e shmid cmd, None)
  else
    ashv_check_pid e ;;
    if cmd =? IPC_RMID then
      pthread_mutex_lock ;;
      s ← get;
      match ashv_find_local_index (shmem s) shmid with
      | None => pthread_mutex_unlock ;; mret (0, None)
      | Some idx => shmctl_rmid idx
      end
    else if cmd =? IPC_STAT then
      if negb buf then set_errno EINVAL ;; mret (-1, None)
      else
        pthread_mutex_lock ;;
        s ← get;
        match ashv_find_local_index (shmem s) shmid with
        | None => pthread_mutex_unlock ;; set_errno EINVAL ;; mret (-1, None)
        | Some idx =>
          ent ← shmem_at idx;
          pthread_mutex_unlock ;;
          mret (0, Some (mk_shmid_ds (size ent) 1 (key ent) (geteuid e) (getegid e)
                           (geteuid e) (getegid e) 438 1))
        end
    else set_errno EINVAL ;; mret (-1, None).

(** Run the code and project the fields of updated records. *)
Ltac srun :=
  mrun;
  cbn [shmem mutex syscall_supported ashv_local_socket_id ashv_pid_setup
       ashv_listening_thread_id shmem_counter links errno closed unmapped
       id addr descriptor size markedForDeletion key].
Tactic Notation "srun" "in" hyp(H) :=
  mrun in H;
  cbn [shmem mutex syscall_supported ashv_local_socket_id ashv_pid_setup
       ashv_listening_thread_id shmem_counter links errno closed unmapped
       id addr descriptor size markedForDeletion key] in H.

(** ** Invariant of the static variables *)

(** A segment marked for deletion is still attached; the counter has 15 bits
    and the socket id 16. *)
Definition entry_wf (ent : shmem_t) : Prop := markedForDeletion ent = true → addr ent ≠ 0.

Definition tbl_wf (s : state) : Prop :=
  Forall entry_wf (shmem s) ∧ inU 15 (shmem_counter s) ∧ inU 16 (ashv_local_socket_id s).

Lemma land_low w x : 0 ≤ w → inU w (Z.land x (Z.ones w)).
Proof. intros. rewrite Z.land_ones by lia. apply Z.mod_pos_bound, pow2_pos. lia. Qed.

Lemma tbl_wf_lock : preserves tbl_wf pthread_mutex_lock.
Proof. unfold pthread_mutex_lock. preserve. by apply preserves_modify. Qed.
Lemma tbl_wf_unlock : preserves tbl_wf pthread_mutex_unlock.
Proof. by apply preserves_modify. Qed.
Lemma tbl_wf_close fd : preserves tbl_wf (close_fd fd).
Proof. by apply preserves_modify. Qed.
Lemma tbl_wf_errno n : preserves tbl_wf (set_errno n).
Proof. by apply preserves_modify. Qed.
Lemma tbl_wf_at i : preserves tbl_wf (shmem_at i).
Proof. unfold shmem_at. preserve. Qed.
#[local] Hint Resolve tbl_wf_lock tbl_wf_unlock tbl_wf_close tbl_wf_errno tbl_wf_at : lorie.

Lemma tbl_wf_check_pid e : preserves tbl_wf (ashv_check_pid e).
Proof.
  unfold ashv_check_pid. preserve; apply preserves_modify; intros s (?&?&?); [done|].
  split_and!; [constructor|done|]. unfold inU. simpl. lia.
Qed.

Lemma tbl_wf_append ent : entry_wf ent →
  preserves tbl_wf (modify (λ s, s <| shmem ::= λ l, l ++ [ent] |>)).
Proof.
  intros H. apply preserves_modify. intros s (?&?&?). split_and!; [|done..].
  apply Forall_app. split; [done|]. by constructor.
Qed.

Lemma tbl_wf_delete i : preserves tbl_wf (android_shmem_delete i).
Proof.
  unfold android_shmem_delete. preserve. apply preserves_modify.
  intros s (?&?&?). split_and!; [|done..]. by apply Forall_delete.
Qed.

Lemma tbl_wf_set i f : (∀ ent, entry_wf ent → entry_wf (f ent)) →
  preserves tbl_wf (shmem_set i f).
Proof.
  intros Hf s a s' (Hs&?&?). unfold shmem_set, shmem_at. srun.
  destruct (shmem s !! i) as [ent|] eqn:E; [|done]. intros [= _ <-].
  split_and!; [|done..]. apply Forall_insert; [done|].
  apply Hf. by eapply Forall_lookup_1 in Hs.
Qed.

Lemma tbl_wf_remote e shmid : preserves tbl_wf (ashv_read_remote_segment e shmid).
Proof.
  unfold ashv_read_remote_segment. preserve. by apply tbl_wf_append.
Qed.

Lemma tbl_wf_next : preserves tbl_wf next_shmid.
Proof.
  unfold next_shmid. preserve. apply preserves_modify. intros s (?&?&?).
  split_and!; [done| |done]. by apply (land_low 15).
Qed.
Lemma tbl_wf_take shmid : preserves tbl_wf (take_shmid shmid).
Proof. unfold take_shmid. pose proof tbl_wf_next. preserve. Qed.
#[local] Hint Resolve tbl_wf_check_pid tbl_wf_delete tbl_wf_remote tbl_wf_take : lorie.

Lemma shmget_bind_Some e n i sid :
  shmget_bind e n i = Some sid → inU 16 sid ∧ bind_ok e sid = true.
Proof.
  revert i; induction n as [|n IH]; intros i; simpl; [done|].
  destruct (bind_ok e (Z.land (getpid e + i) 65535)) eqn:E; [|apply IH].
  intros [= Hs]. subst sid. split; [by apply (land_low 16)|done].
Qed.

Lemma tbl_wf_listen e : preserves tbl_wf (shmget_listen e).
Proof.
  unfold shmget_listen. preserve; apply preserves_modify; intros s (?&?&?);
    (split_and!; [done..|]); simpl; try done.
  by eapply shmget_bind_Some.
Qed.

Lemma tbl_wf_key fuel : ∀ e i key shmid, preserves tbl_wf (shmget_key fuel e i key shmid).
Proof.
  induction fuel as [|fuel IH]; intros e i key shmid; cbn [shmget_key]; preserve;
    try apply IH; by apply preserves_modify.
Qed.

Lemma tbl_wf_region e : preserves tbl_wf (ashmem_create_region e).
Proof. unfold ashmem_create_region. preserve. Qed.
#[local] Hint Resolve tbl_wf_region : lorie.

(** A region, or an error that left nothing open. *)
Lemma region_run e s :
  ∃ fd s', ashmem_create_region e s = Some (fd, s')
    ∧ s' = (s <| closed := closed s' |>) ∧ (0 ≤ fd → closed s' = closed s).
Proof.
  unfold ashmem_create_region, close_fd. srun. repeat case_goal; srun; bool_to_prop;
    eexists _, _; (split; [done|]); (split; [by destruct s|]); intros; simpl; try done; lia.
Qed.

Lemma tbl_wf_create e key size shmid : preserves tbl_wf (shmget_create e key size shmid).
Proof. unfold shmget_create. preserve. by apply tbl_wf_append. Qed.
#[local] Hint Resolve tbl_wf_listen tbl_wf_key tbl_wf_create : lorie.

Lemma tbl_wf_shmget fuel e key size flags : preserves tbl_wf (shmget fuel e key size flags).
Proof. unfold shmget. preserve. Qed.

(** Code that starts by reading an entry may use that it is the entry. *)
Lemma tbl_wf_at_bind {A} i (m : shmem_t → M state A) :
  (∀ ent s a s', tbl_wf s → shmem s !! i = Some ent → entry_wf ent →
                 m ent s = Some (a, s') → tbl_wf s') →
  preserves tbl_wf (ent ← shmem_at i; m ent).
Proof.
  intros H s a s' Hs. unfold shmem_at. srun.
  destruct (shmem s !! i) as [ent|] eqn:E; [|done]. intros Hm.
  eapply H; eauto. destruct Hs as [Hs _]. by eapply Forall_lookup_1 in Hs.
Qed.

Lemma tbl_wf_insert s i ent :
  tbl_wf s → entry_wf ent → tbl_wf (s <| shmem ::= λ l, <[i := ent]> l |>).
Proof. intros (?&?&?) ?. split_and!; [|done..]. by apply Forall_insert. Qed.

Lemma shmem_set_run s i f ent :
  shmem s !! i = Some ent →
  shmem_set i f s = Some ((), s <| shmem ::= λ l, <[i := f ent]> l |>).
Proof. intros E. unfold shmem_set, shmem_at. srun. by rewrite E. Qed.

Lemma shmem_at_run s i ent : shmem s !! i = Some ent → shmem_at i s = Some (ent, s).
Proof. intros E. unfold shmem_at. srun. by rewrite E. Qed.

(** The descriptors a deletion closes. *)
Definition closes (ent : shmem_t) : list Z :=
  if truthy (descriptor ent) then [descriptor ent] else [].

Lemma android_shmem_delete_run s i ent :
  shmem s !! i = Some ent →
  android_shmem_delete i s
    = Some ((), s <| closed := closed s ++ closes ent |> <| shmem := delete i (shmem s) |>).
Proof.
  intros E. unfold android_shmem_delete. srun. rewrite (shmem_at_run _ _ _ E).
  unfold when, closes, close_fd. destruct (truthy _); [done|].
  srun. rewrite app_nil_r. by destruct s.
Qed.

(** [shmdt] destroys a marked segment and one that belongs to another process. *)
Definition dt_deletes (s : state) (ent : shmem_t) : bool :=
  markedForDeletion ent
  || negb (ashv_socket_id_from_shmid (id ent) =? ashv_local_socket_id s).

Lemma shmdt_detach_run s i ent :
  shmem s !! i = Some ent →
  shmdt_detach i s = Some (0,
    s <| unmapped := unmapped s ++ [(addr ent, size ent)] |>
      <| closed := closed s ++ (if dt_deletes s ent then closes ent else []) |>
      <| shmem := if dt_deletes s ent then delete i (shmem s)
                  else <[i := ent <| addr := 0 |>]> (shmem s) |>
      <| mutex := false |>).
Proof.
  intros E. unfold shmdt_detach. srun. rewrite (shmem_at_run _ _ _ E). srun.
  rewrite (shmem_set_run _ i _ ent) by done. srun.
  fold (dt_deletes s ent). unfold when. destruct (dt_deletes s ent).
  - rewrite (android_shmem_delete_run _ i (ent <| addr := 0 |>)).
    + srun. unfold pthread_mutex_unlock. srun. by rewrite delete_insert_same.
    + apply list_lookup_insert_eq. by eapply lookup_lt_Some.
  - srun. unfold pthread_mutex_unlock. srun. by rewrite app_nil_r.
Qed.

Lemma shmctl_rmid_run s i ent :
  shmem s !! i = Some ent →
  shmctl_rmid i s = Some ((0, None),
    (if truthy (addr ent)
     then s <| shmem := <[i := ent <| markedForDeletion := true |>]> (shmem s) |>
     else s <| closed := closed s ++ closes ent |> <| shmem := delete i (shmem s) |>)
    <| mutex := false |>).
Proof.
  intros E. unfold shmctl_rmid. srun. rewrite (shmem_at_run _ _ _ E). srun.
  destruct (truthy (addr ent)).
  - by rewrite (shmem_set_run _ _ _ _ E).
  - by rewrite (android_shmem_delete_run _ _ _ E).
Qed.

Lemma shmat_attach_run e s i ent a f :
  shmem s !! i = Some ent →
  let m := mmap e a (size ent) (Z.lor 1 (if f =? 0 then 2 else 0)) (descriptor ent) in
  let a' := if addr ent =? 0 then (if m =? -1 then 0 else m) else addr ent in
  shmat_attach e i a f s = Some (if truthy a' then a' else -1,
    s <| shmem := <[i := ent <| addr := a' |>]> (shmem s) |> <| mutex := false |>).
Proof.
  intros E m a'. unfold shmat_attach. srun. rewrite (shmem_at_run _ _ _ E). srun.
  fold m. unfold when, a'. destruct (Z.eqb_spec (addr ent) 0) as [Ha|Ha].
  - rewrite (shmem_set_run _ _ _ _ E). srun.
    erewrite shmem_at_run by (apply list_lookup_insert_eq; by eapply lookup_lt_Some).
    done.
  - srun. rewrite (shmem_at_run _ _ _ E). srun. unfold pthread_mutex_unlock. srun.
    rewrite list_insert_id by (by destruct ent). done.
Qed.

(** A conditional first action whose result state is known to be good. *)
Lemma tbl_wf_bind_run {A B} (m : M state A) (f : A → M state B) s a s1 b s' :
  m s = Some (a, s1) → tbl_wf s1 → preserves tbl_wf (f a) →
  (m ≫= f) s = Some (b, s') → tbl_wf s'.
Proof. intros E H1 Hf. srun. rewrite E. by apply Hf. Qed.

Lemma tbl_wf_attach e idx a f : preserves tbl_wf (shmat_attach e idx a f).
Proof.
  apply tbl_wf_at_bind. intros ent s r s' Hs E He. cbv zeta. unfold when.
  destruct (Z.eqb_spec (addr ent) 0) as [Ha|].
  - apply (tbl_wf_bind_run _ _ _ _ _ _ _ (shmem_set_run _ _ _ _ E)); [|preserve].
    apply tbl_wf_insert; [done|]. intros Hm. by destruct (He Hm).
  - apply (tbl_wf_bind_run _ _ s () s); [done..|preserve].
Qed.

Lemma tbl_wf_detach i : preserves tbl_wf (shmdt_detach i).
Proof.
  intros s r s' (Hs&?&?) Hr. destruct (shmem s !! i) as [ent|] eqn:E.
  2:{ revert Hr. unfold shmdt_detach, shmem_at. srun. by rewrite E. }
  rewrite (shmdt_detach_run _ _ _ E) in Hr. simplify_eq/=. split_and!; [|done..].
  simpl. destruct (dt_deletes s ent) eqn:Ed; [by apply Forall_delete|].
  apply Forall_insert; [done|]. intros Hm. unfold dt_deletes in Ed. simpl in Hm.
  by rewrite Hm in Ed.
Qed.

Lemma tbl_wf_rmid i : preserves tbl_wf (shmctl_rmid i).
Proof.
  intros s r s' (Hs&?&?) Hr. destruct (shmem s !! i) as [ent|] eqn:E.
  2:{ revert Hr. unfold shmctl_rmid, shmem_at. srun. by rewrite E. }
  rewrite (shmctl_rmid_run _ _ _ E) in Hr. simplify_eq/=.
  unfold truthy. destruct (Z.eqb_spec (addr ent) 0); simpl; split_and!; try done.
  - by apply Forall_delete.
  - apply Forall_insert; [done|]. by intros _.
Qed.
#[local] Hint Resolve tbl_wf_attach tbl_wf_detach tbl_wf_rmid : lorie.

Lemma tbl_wf_shmat e shmid a f : preserves tbl_wf (shmat e shmid a f).
Proof. unfold shmat. preserve. Qed.
Lemma tbl_wf_shmdt e a : preserves tbl_wf (shmdt e a).
Proof. unfold shmdt. preserve. Qed.
Lemma tbl_wf_shmctl e shmid cmd b : preserves tbl_wf (shmctl e shmid cmd b).
Proof. unfold shmctl. preserve. Qed.
Lemma tbl_wf_serve r b : preserves tbl_wf (ashv_thread_serve r b).
Proof. unfold ashv_thread_serve. preserve. Qed.
Lemma tbl_wf_force n : preserves tbl_wf (android_shmem_sysv_shm_force n).
Proof. by apply preserves_modify. Qed.

(** ** Steps and reachable states *)

(** Any call of the interface, by any process in the fork tree ([env] carries
    the pid), and any connection served by the listening thread. *)
Inductive step (s s' : state) : Prop :=
  | step_shmget fuel e k sz fl r : shmget fuel e k sz fl s = Some (r, s') → step s s'
  | step_shmat e shmid a fl r : shmat e shmid a fl s = Some (r, s') → step s s'
  | step_shmdt e a r : shmdt e a s = Some (r, s') → step s s'
  | step_shmctl e shmid cmd b r : shmctl e shmid cmd b s = Some (r, s') → step s s'
  | step_serve rcv b r : ashv_thread_serve rcv b s = Some (r, s') → step s s'
  | step_force n r : android_shmem_sysv_shm_force n s = Some (r, s') → step s s'.

Lemma step_tbl_wf s s' : step s s' → tbl_wf s → tbl_wf s'.
Proof.
  intros [] ?.
  - by eapply tbl_wf_shmget.
  - by eapply tbl_wf_shmat.
  - by eapply tbl_wf_shmdt.
  - by eapply tbl_wf_shmctl.
  - by eapply tbl_wf_serve.
  - by eapply tbl_wf_force.
Qed.

(** ** The mutex *)

Definition unlocked (s : state) : Prop := mutex s = false.

(** Code that runs from the released to the released mutex. *)
Abbreviation balanced m := (triple unlocked m (λ _, unlocked)).

Lemma check_pid_unlocked e : balanced (ashv_check_pid e).
Proof.
  intros s Hs. unfold ashv_check_pid. srun. repeat case_goal; srun; eexists _, _;
    (split; [done|]); done.
Qed.

Lemma balanced_errno n {A} (a : A) : balanced (set_errno n ;; mret a).
Proof. intros s Hs. by eexists _, _. Qed.

(** After the pid check: take the mutex, run [m], which releases it. *)
Lemma balanced_locked {A} (m : M state A) :
  triple (λ s, mutex s = true) m (λ _, unlocked) → balanced (pthread_mutex_lock ;; m).
Proof.
  intros Hm s Hs. unfold pthread_mutex_lock. srun. rewrite Hs. srun. by apply Hm.
Qed.

Lemma balanced_entry {A} e (sys : A) (m : M state A) :
  balanced m →
  balanced (s ← get; if truthy (syscall_supported s) then mret sys
                     else ashv_check_pid e ;; m).
Proof.
  intros Hm s Hs. srun. destruct (truthy _); [by eexists _, _|].
  by apply (triple_bind _ _ _ _ _ (check_pid_unlocked e) (λ _, Hm)).
Qed.

Lemma remote_total e shmid s :
  ashv_socket_id_from_shmid shmid ≠ ashv_local_socket_id s →
  ∃ r s', ashv_read_remote_segment e shmid s = Some (r, s') ∧ mutex s' = mutex s
    ∧ ashv_local_socket_id s' = ashv_local_socket_id s
    ∧ (∀ i, r = Some i → (i < length (shmem s'))%nat).
Proof.
  intros Hne. unfold ashv_read_remote_segment, close_fd. srun.
  pose proof (proj2 (Z.eqb_neq _ _) Hne) as Hq. unfold ancil_recv_fd, sock_read.
  repeat (case_goal; srun; rewrite ?Hq, ?andb_false_r; srun); simplify_eq/=;
    eexists _, _; (split; [done|]); split_and!; try done;
    intros i [= <-]; simpl; rewrite length_app; simpl; lia.
Qed.

Lemma find_lookup l shmid i :
  ashv_find_local_index l shmid = Some i → ∃ ent, l !! i = Some ent ∧ id ent = shmid.
Proof.
  intros H. apply index_of_Some in H as (ent & E & Hid). bool_to_prop. eauto.
Qed.

Lemma shmdt_balanced e a : balanced (shmdt e a).
Proof.
  apply balanced_entry, balanced_locked. intros s Hs. srun.
  destruct (index_of _ _) as [i|] eqn:E; [|by eexists _, _].
  apply index_of_Some in E as (ent & E & _).
  rewrite (shmdt_detach_run _ _ _ E). by eexists _, _.
Qed.

Lemma shmat_balanced e shmid a f : balanced (shmat e shmid a f).
Proof.
  apply balanced_entry, balanced_locked. intros s Hs. srun.
  assert (∃ r s1, (match ashv_find_local_index (shmem s) shmid with
          | Some idx => mret (Some idx)
          | None =>
            if negb (ashv_socket_id_from_shmid shmid =? ashv_local_socket_id s)
            then ashv_read_remote_segment e shmid else mret None
          end) s = Some (r, s1) ∧ (∀ i, r = Some i → (i < length (shmem s1))%nat))
    as (r & s1 & E & Hr).
  { destruct (ashv_find_local_index _ _) as [i|] eqn:E.
    - eexists _, _. split; [done|]. intros ? [= <-]. by eapply index_of_lt.
    - destruct (Z.eqb_spec (ashv_socket_id_from_shmid shmid) (ashv_local_socket_id s)).
      + by eexists _, _.
      + destruct (remote_total e shmid s) as (r & s1 & ? & _ & _ & ?); eauto. }
  srun in E. rewrite E. destruct r as [i|]; [|by eexists _, _].
  destruct (lookup_lt_is_Some_2 (shmem s1) i (Hr i eq_refl)) as [ent Hent].
  rewrite (shmat_attach_run _ _ _ _ _ _ Hent). by eexists _, _.
Qed.

Lemma shmctl_balanced e shmid cmd b : balanced (shmctl e shmid cmd b).
Proof.
  apply balanced_entry. destruct (cmd =? IPC_RMID); [|destruct (cmd =? IPC_STAT)].
  - apply balanced_locked. intros s Hs. srun.
    destruct (ashv_find_local_index _ _) as [i|] eqn:E; [|by eexists _, _].
    apply find_lookup in E as (ent & E & _). rewrite (shmctl_rmid_run _ _ _ E).
    by eexists _, _.
  - destruct b; [|by intros s Hs; eexists _, _].
    apply balanced_locked. intros s Hs. srun.
    destruct (ashv_find_local_index _ _) as [i|] eqn:E; [|by eexists _, _].
    apply find_lookup in E as (ent & E & _). srun.
    rewrite (shmem_at_run _ _ _ E). by eexists _, _.
  - intros s Hs. by eexists _, _.
Qed.

Lemma serve_balanced r b : balanced (ashv_thread_serve r b).
Proof.
  unfold ashv_thread_serve. destruct (negb _); [by intros s Hs; eexists _, _|].
  cbv zeta. apply balanced_locked. intros s Hs. srun.
  destruct (ashv_find_local_index _ _) as [i|] eqn:E; [|by eexists _, _].
  apply find_lookup in E as (ent & E & _). srun.
  rewrite (shmem_at_run _ _ _ E). destruct b; by eexists _, _.
Qed.

(** ** The key loop of [shmget] *)

(** The link of a key does not name a segment of our own socket that is gone
    from the table. *)
Definition link_live (s : state) (v : Z) : Prop :=
  v = 0 ∨ is_Some (ashv_find_local_index (shmem s) v)
  ∨ ashv_socket_id_from_shmid v ≠ ashv_local_socket_id s.

(** One look at the link: an open segment, or the link is gone. *)
Lemma key_lookup_total e k s :
  (∀ v, links s !! k = Some v → link_live s v) →
  ∃ r s1, (match links s !! k with
           | None => mret None
           | Some v =>
             r ← (if v =? 0 then mret None
                  else match ashv_find_local_index (shmem s) v with
                       | Some idx => mret (Some idx)
                       | None => ashv_read_remote_segment e v
                       end);
             match r with
             | Some idx => mret (Some idx)
             | None => modify (λ s, s <| links ::= delete k |>) ;; mret None
             end
           end) s = Some (r, s1)
    ∧ mutex s1 = mutex s ∧ ashv_local_socket_id s1 = ashv_local_socket_id s
    ∧ (∀ i, r = Some i → is_Some (shmem s1 !! i)) ∧ (r = None → links s1 !! k = None).
Proof.
  intros Hl. destruct (links s !! k) as [v|] eqn:Ek; [|by eexists _, _].
  destruct (Z.eqb_spec v 0) as [->|Hv].
  { srun. eexists _, _. split; [done|]. simpl. split_and!; try done.
    intros _. apply lookup_delete_eq. }
  destruct (ashv_find_local_index (shmem s) v) as [i|] eqn:Ef.
  { srun. eexists _, _. split; [done|]. split_and!; try done.
    intros ? [= <-]. apply find_lookup in Ef as (ent & -> & _). eauto. }
  destruct (Hl v eq_refl) as [?|[[? Hs]|Hne]]; [done|by rewrite Ef in Hs|].
  destruct (remote_total e v s Hne) as (r & s1 & E & Hm & Hi & Hlt).
  srun. rewrite E. destruct r as [i|]; srun.
  - eexists _, _. split; [done|]. split_and!; try done.
    intros ? [= <-]. by apply lookup_lt_is_Some_2, Hlt.
  - eexists _, _. split; [done|]. simpl. split_and!; try done.
    intros _. apply lookup_delete_eq.
Qed.

(** The loop ends once another process stops making the link first and
    [symlink] works: at turn [n] at the latest. *)
Lemma shmget_key_total e k n : ∀ fuel i shmid s,
  symlink_race e n = None → symlink_ok e n = true → (i ≤ n)%nat → (n - i < fuel)%nat →
  (∀ j v, symlink_race e j = Some v →
     v = 0 ∨ ashv_socket_id_from_shmid v ≠ ashv_local_socket_id s) →
  (∀ v, links s !! k = Some v → link_live s v) →
  ∃ r s', shmget_key fuel e i k shmid s = Some (r, s') ∧ mutex s' = mutex s.
Proof.
  intros fuel; induction fuel as [|fuel IH]; intros i shmid s Hn Hok Hi Hf Hr Hl; [lia|].
  destruct (key_lookup_total e k s Hl) as (r & s1 & E & Hm & Hid & Hsome & Hnone).
  cbn [shmget_key]. srun. srun in E. rewrite E. destruct r as [idx|].
  { destruct (Hsome idx eq_refl) as [ent Hent]. srun. rewrite (shmem_at_run _ _ _ Hent).
    by eexists _, _. }
  specialize (Hnone eq_refl).
  assert (∃ shmid' s2, take_shmid shmid s1 = Some (shmid', s2)
    ∧ mutex s2 = mutex s ∧ ashv_local_socket_id s2 = ashv_local_socket_id s
    ∧ links s2 = links s1) as (shmid' & s2 & E2 & Hm2 & Hid2 & Hl2).
  { unfold take_shmid. destruct (shmid =? -1); eexists _, _; (split; [done|]);
      by rewrite <-Hid. }
  rewrite E2.
  destruct (symlink_race e i) as [v|] eqn:Er.
  - srun. destruct (IH (S i) shmid' (s2 <| links ::= insert k v |>)) as (r & s' & E' & Hm');
      [done..|destruct (decide (i = n)); [congruence|lia]|
       destruct (decide (i = n)); [congruence|lia]| | |].
    + simpl. by rewrite Hid2.
    + simpl. intros w. rewrite lookup_insert_eq. intros [= <-].
      unfold link_live. simpl. rewrite Hid2. destruct (Hr i v Er); auto.
    + srun in E'. rewrite E'. eexists _, _. split; [done|]. by rewrite Hm'.
  - destruct (symlink_ok e i) eqn:Es; [srun; by eexists _, _|].
    destruct (IH (S i) shmid' s2) as (r & s' & E' & Hm');
      [done..|destruct (decide (i = n)); [congruence|lia]|
       destruct (decide (i = n)); [congruence|lia]| | |].
    + by rewrite Hid2.
    + intros w. by rewrite Hl2, Hnone.
    + rewrite E'. eexists _, _. split; [done|]. by rewrite Hm'.
Qed.

(** A process that has its socket and its listening thread. *)
Definition listening (e : env) (s : state) : Prop :=
  syscall_supported s = 0 ∧ mutex s = false ∧ getpid e ≠ 0
  ∧ ashv_pid_setup s = getpid e ∧ ashv_listening_thread_id s ≠ 0.

Lemma check_pid_same e s :
  getpid e ≠ 0 → ashv_pid_setup s = getpid e → ashv_check_pid e s = Some ((), s).
Proof.
  intros Hp E. unfold ashv_check_pid. srun. rewrite E.
  rewrite (proj2 (Z.eqb_neq _ 0) Hp), Z.eqb_refl. done.
Qed.

(** [shmget] of a listening process, unfolded to the locked part. *)
Lemma shmget_listening fuel e k sz fl s :
  listening e s →
  shmget fuel e k sz fl s
  = (if negb (k =? IPC_PRIVATE) then
       r ← shmget_key fuel e 0 k (-1);
       match r with
       | Opened shmid => pthread_mutex_unlock ;; mret shmid
       | Owned shmid => shmget_create e k sz shmid
       end
     else shmget_create e k sz (-1)) (s <| mutex := true |>).
Proof.
  intros (Hs & Hm & Hp & Hpid & Ht). unfold shmget, truthy. srun. rewrite Hs.
  cbn [Z.eqb negb]. rewrite (check_pid_same _ _ Hp Hpid).
  unfold shmget_listen, truthy, pthread_mutex_lock. srun.
  rewrite (proj2 (Z.eqb_neq _ 0) Ht). srun. cbn [negb]. by rewrite Hm, Hs.
Qed.

Lemma shmget_create_run e k sz shmid s :
  ∃ r s', shmget_create e k sz shmid s = Some (r, s') ∧ mutex s' = false.
Proof.
  unfold shmget_create, take_shmid, next_shmid.
  destruct (shmid =? -1); srun;
    match goal with |- context [ashmem_create_region e ?x] =>
      destruct (region_run e x) as (fd & s1 & -> & _) end;
    destruct (fd <? 0); by eexists _, _.
Qed.

(** ** Properties *)

(** Identifiers: the socket id is recovered from a shmid exactly when it
    fits in 15 bits.  For the upper half of the 16-bit socket ids the shmid is
    negative and truncating division yields another id. *)
Theorem shmid_socket_id_roundtrip sid c :
  inU 16 sid → inU 15 c →
  ashv_socket_id_from_shmid (ashv_shmid_from_counter sid c) = sid ↔ sid < 0x8000.
Proof.
  unfold inU, ashv_socket_id_from_shmid, ashv_shmid_from_counter, wrapS.
  change (2 ^ 16) with 65536. change (2 ^ 15) with 32768.
  change (2 ^ 32) with 4294967296. change (2 ^ (32 - 1)) with 2147483648.
  intros Hs Hc. split.
  - intros E. destruct (Z.lt_ge_cases sid 0x8000); [done|]. exfalso.
    assert ((sid * 65536 + c + 2147483648) mod 4294967296
            = sid * 65536 + c + 2147483648 - 4294967296) as R.
    { symmetry. apply (Z.mod_unique _ _ 1); lia. }
    rewrite R in E. Z.to_euclidean_division_equations. lia.
  - intros Hlt. rewrite Z.mod_small by lia.
    Z.to_euclidean_division_equations. lia.
Qed.

Lemma shmid_socket_id_roundtrip_witness :
  ashv_socket_id_from_shmid (ashv_shmid_from_counter 0x7abc 5) = 0x7abc ↔ 0x7abc < 0x8000.
Proof. apply (shmid_socket_id_roundtrip 0x7abc 5); unfold inU; lia. Defined.

(** C3: In every state the library can reach, by any calls, forks and remote
    requests in any order, a segment marked for deletion is still attached (so
    its detach will destroy it), the counter has 15 bits and the socket id 16. *)
Theorem reachable_wf s : rtc step init_state s → tbl_wf s.
Proof.
  intros H. remember init_state as s0 eqn:E0.
  assert (tbl_wf s0) as H0.
  { subst s0. split_and!; [constructor|unfold inU; simpl; lia..]. }
  clear E0. induction H as [|s1 s2 s3 Hstep _ IH]; [done|].
  by apply IH, (step_tbl_wf s1).
Qed.

Definition demo_env : env :=
  mk_env 1234 4096 10 10 5 (λ _, true) true 77 (λ _, mk_remote_reply (-1) 0 0 [] (λ x, x) (λ _, 0))
    9 0 0 (λ _ _ _ _, 0x7000) (λ _, None) (λ _, true)
    (λ _ _ _, -1) (λ _ _ _, -1) (λ _, -1) (λ _ _, -1).

Definition run_state {A} (o : option (A * state)) : state :=
  match o with Some (_, s) => s | None => init_state end.

Definition demo_created : state := run_state (shmget 3 demo_env 42 100 0 init_state).
Definition demo_attached : state :=
  run_state (shmat demo_env (ashv_shmid_from_counter 1234 1) 0 0 demo_created).

Lemma demo_created_run :
  shmget 3 demo_env 42 100 0 init_state
    = Some (ashv_shmid_from_counter 1234 1, demo_created).
Proof. vm_compute. done. Qed.

Lemma reachable_wf_witness : tbl_wf demo_created.
Proof.
  apply (reachable_wf demo_created). eapply rtc_once, step_shmget, demo_created_run.
Defined.

(** The mutex discipline of [shmat], [shmdt], [shmctl] and the listening
    thread: called with the mutex free, each of them runs to its end on every
    path, without an out-of-range table access and without locking twice, and
    leaves the mutex free. *)
Theorem entry_points_release_mutex e shmid a fl cmd b rcv :
  balanced (shmat e shmid a fl) ∧ balanced (shmdt e a)
  ∧ balanced (shmctl e shmid cmd b) ∧ balanced (ashv_thread_serve rcv b).
Proof.
  split_and!; [apply shmat_balanced|apply shmdt_balanced|apply shmctl_balanced
              |apply serve_balanced].
Qed.

(** [shmget] of a listening process terminates and leaves the mutex free,
    provided the link of the key is not a leftover of one of our own destroyed
    segments and other processes stop interfering with the link at some turn
    [n] of the loop. *)
Theorem shmget_terminates e k sz fl s n fuel :
  listening e s →
  symlink_race e n = None → symlink_ok e n = true → (n < fuel)%nat →
  (∀ j v, symlink_race e j = Some v →
     v = 0 ∨ ashv_socket_id_from_shmid v ≠ ashv_local_socket_id s) →
  (∀ v, links s !! k = Some v → link_live s v) →
  ∃ r s', shmget fuel e k sz fl s = Some (r, s') ∧ mutex s' = false.
Proof.
  intros Hli Hn Hok Hf Hr Hl. rewrite shmget_listening by done.
  destruct (k =? IPC_PRIVATE); cbn [negb]; [apply shmget_create_run|].
  destruct (shmget_key_total e k n fuel 0 (-1) (s <| mutex := true |>))
    as (r & s1 & E & Hm); [done..|lia|lia|done|done|].
  srun. srun in E. rewrite E. destruct r; [by eexists _, _|apply shmget_create_run].
Qed.

Lemma shmget_terminates_witness :
  ∃ r s', shmget 1 demo_env 43 10 0 demo_created = Some (r, s') ∧ mutex s' = false.
Proof.
  apply (shmget_terminates demo_env 43 10 0 demo_created 0 1); try done.
  lia.
Defined.

Lemma index_of_snoc {A} (p : A → bool) l x :
  p x = true → ∃ i, index_of p (l ++ [x]) = Some i.
Proof.
  intros H. destruct (index_of p (l ++ [x])) as [i|] eqn:E; [eauto|].
  apply index_of_None, Forall_app in E as [_ E]. inv E. congruence.
Qed.

(** The variables the locked part of [shmget] leaves alone. *)
Definition frame (s0 s : state) : Prop :=
  syscall_supported s = syscall_supported s0 ∧ ashv_pid_setup s = ashv_pid_setup s0
  ∧ ashv_listening_thread_id s = ashv_listening_thread_id s0
  ∧ ashv_local_socket_id s = ashv_local_socket_id s0.

Lemma frame_remote s0 e v : preserves (frame s0) (ashv_read_remote_segment e v).
Proof. unfold ashv_read_remote_segment, close_fd. preserve; by apply preserves_modify. Qed.
Lemma frame_take s0 shmid : preserves (frame s0) (take_shmid shmid).
Proof. unfold take_shmid, next_shmid. preserve; by apply preserves_modify. Qed.
Lemma frame_at s0 i : preserves (frame s0) (shmem_at i).
Proof. unfold shmem_at. preserve. Qed.
Lemma frame_unlock s0 : preserves (frame s0) pthread_mutex_unlock.
Proof. by apply preserves_modify. Qed.
#[local] Hint Resolve frame_remote frame_take frame_at frame_unlock : lorie.

Lemma frame_key s0 fuel : ∀ e i k shmid, preserves (frame s0) (shmget_key fuel e i k shmid).
Proof.
  induction fuel as [|fuel IH]; intros e i k shmid; cbn [shmget_key]; preserve;
    try apply IH; by apply preserves_modify.
Qed.

Lemma frame_create s0 e k sz shmid : preserves (frame s0) (shmget_create e k sz shmid).
Proof.
  unfold shmget_create, ashmem_create_region, close_fd. preserve; by apply preserves_modify.
Qed.

Lemma remote_Some e v s idx s' :
  ashv_read_remote_segment e v s = Some (Some idx, s') →
  ∃ ent, shmem s' = shmem s ++ [ent] ∧ id ent = v ∧ idx = length (shmem s)
         ∧ links s' = links s.
Proof.
  unfold ashv_read_remote_segment, close_fd, ancil_recv_fd, sock_read. srun.
  repeat (case_goal; srun); intros; simplify_eq/=; eauto.
Qed.

Lemma find_snoc l ent v : id ent = v → is_Some (ashv_find_local_index (l ++ [ent]) v).
Proof.
  intros <-. destruct (index_of_snoc (λ e, id e =? id ent) l ent) as [i E].
  - apply Z.eqb_refl.
  - exists i. apply E.
Qed.

(** The sentinel -1 is never drawn: the low half of an identifier has 15 bits. *)
Lemma take_shmid_run shmid s :
  ∃ v s', take_shmid shmid s = Some (v, s') ∧ v ≠ -1 ∧ links s' = links s
    ∧ shmem s' = shmem s.
Proof.
  unfold take_shmid. destruct (Z.eqb_spec shmid (-1)); [|by eexists _, _].
  unfold next_shmid. srun. eexists _, _. split; [done|]. split; [|done].
  unfold ashv_shmid_from_counter, wrapS.
  pose proof (land_low 15 (shmem_counter s + 1) ltac:(lia)) as Hc. unfold inU in Hc.
  change (Z.ones 15) with 0x7fff in Hc. change (2 ^ 15) with 32768 in Hc.
  change (2 ^ 32) with (65536 * 65536). change (2 ^ (32 - 1)) with (32768 * 65536).
  set (c := Z.land _ _) in *. intros E.
  assert ((ashv_local_socket_id s * 65536 + c + 32768 * 65536) mod (65536 * 65536)
          = 32767 * 65536 + 65535) as E' by lia.
  rewrite Z.rem_mul_r in E' by lia.
  replace (ashv_local_socket_id s * 65536 + c + 32768 * 65536)
    with (c + (ashv_local_socket_id s + 32768) * 65536) in E' by lia.
  rewrite Z.mod_add, (Z.mod_small c) in E' by lia.
  pose proof (Z.mod_pos_bound ((c + (ashv_local_socket_id s + 32768) * 65536) / 65536) 65536).
  lia.
Qed.

(** What the loop leaves behind: the link names the result. *)
Lemma shmget_key_post fuel e k : ∀ i shmid s r s',
  shmget_key fuel e i k shmid s = Some (r, s') →
  match r with
  | Opened v => links s' !! k = Some v ∧ is_Some (ashv_find_local_index (shmem s') v)
  | Owned v => links s' !! k = Some v ∧ v ≠ -1
  end.
Proof.
  induction fuel as [|fuel IH]; intros i shmid s r s'; cbn [shmget_key]; [done|].
  assert (∀ s1, (shmid' ← take_shmid shmid;
      match symlink_race e i with
      | Some v =>
        modify (λ s, s <| links ::= insert k v |>) ;; shmget_key fuel e (S i) k shmid'
      | None =>
        if symlink_ok e i then
          modify (λ s, s <| links ::= insert k shmid' |>) ;; mret (Owned shmid')
        else shmget_key fuel e (S i) k shmid'
      end) s1 = Some (r, s') →
      match r with
      | Opened v => links s' !! k = Some v ∧ is_Some (ashv_find_local_index (shmem s') v)
      | Owned v => links s' !! k = Some v ∧ v ≠ -1
      end) as Hown.
  { intros s1. srun. destruct (take_shmid_run shmid s1) as (v & s2 & -> & Hv & _).
    destruct (symlink_race e i); srun; [by intros E%IH|].
    destruct (symlink_ok e i); srun; [|by intros E%IH].
    intros [= <- <-]. simpl. by rewrite lookup_insert_eq. }
  srun. srun in Hown.
  destruct (links s !! k) as [v|] eqn:Ek; [|srun; apply Hown].
  destruct (Z.eqb_spec v 0) as [->|Hv]; [srun; apply Hown|].
  destruct (ashv_find_local_index (shmem s) v) as [idx|] eqn:Ef.
  { pose proof (find_lookup _ _ _ Ef) as (ent & E & Hid). srun.
    rewrite (shmem_at_run _ _ _ E). srun. intros; simplify_eq/=. eauto. }
  destruct (ashv_read_remote_segment e v s) as [[[idx|] s1]|] eqn:Er; srun;
    [|apply Hown|done].
  destruct (remote_Some _ _ _ _ _ Er) as (ent & El & Hid & -> & Hl).
  rewrite (shmem_at_run s1 (length (shmem s)) ent)
    by (by rewrite El, lookup_app_0). srun. intros [= <- <-].
  rewrite Hl, El, Hid. split; [done|]. by apply find_snoc.
Qed.

Lemma shmget_post fuel e k sz fl s shmid s' :
  listening e s → k ≠ IPC_PRIVATE →
  shmget fuel e k sz fl s = Some (shmid, s') → shmid ≠ -1 →
  listening e s' ∧ links s' !! k = Some shmid
  ∧ is_Some (ashv_find_local_index (shmem s') shmid).
Proof.
  intros Hli Hk Hr Hs. rewrite shmget_listening in Hr by done.
  rewrite (proj2 (Z.eqb_neq _ _) Hk) in Hr. cbn [negb] in Hr. srun in Hr.
  destruct (shmget_key _ _ _ _ _ _) as [[r s1]|] eqn:E; [|done].
  pose proof (shmget_key_post _ _ _ _ _ _ _ _ E) as Hp.
  assert (frame s s1) as (F1&F2&F3&F4) by (eapply frame_key; [|exact E]; done).
  destruct Hli as (L1&L2&L3&L4&L5). destruct r as [v|v].
  - unfold pthread_mutex_unlock in Hr. srun in Hr. simplify_eq/=.
    split; [|done]. unfold listening. simpl. by rewrite F1, F2, F3.
  - destruct Hp as [Hp Hv]. unfold shmget_create, take_shmid in Hr. srun in Hr.
    rewrite (proj2 (Z.eqb_neq _ _) Hv) in Hr. srun in Hr.
    destruct (region_run e s1) as (fd & s2 & E2 & Hs2 & _). rewrite E2 in Hr. rewrite Hs2 in *.
    destruct (fd <? 0); srun in Hr; simplify_eq/=.
    split_and!; [unfold listening; simpl; by rewrite F1, F2, F3|done|].
    by apply find_snoc.
Qed.

(** The key names one segment: once [shmget] has returned a segment for a
    key, every later [shmget] of the key by that process returns the same
    identifier, and changes nothing. *)
Theorem shmget_same_key fuel e k sz fl s shmid s' fuel' e' sz' fl' :
  listening e s → k ≠ IPC_PRIVATE →
  shmget fuel e k sz fl s = Some (shmid, s') → shmid ≠ -1 → shmid ≠ 0 →
  getpid e' = getpid e →
  shmget (S fuel') e' k sz' fl' s' = Some (shmid, s').
Proof.
  intros Hli Hk Hr H1 H0 Hp.
  destruct (shmget_post _ _ _ _ _ _ _ _ Hli Hk Hr H1) as (Hli' & Hl & [i Hi]).
  assert (listening e' s') as Hli2 by (unfold listening in *; by rewrite Hp).
  rewrite shmget_listening by done. rewrite (proj2 (Z.eqb_neq _ _) Hk).
  cbn [negb shmget_key]. srun. rewrite Hl, (proj2 (Z.eqb_neq _ _) H0), Hi. srun.
  apply find_lookup in Hi as (ent & E & Hid).
  rewrite (shmem_at_run _ i ent) by done. unfold pthread_mutex_unlock. srun.
  rewrite Hid. destruct Hli' as (_ & Hm & _). destruct s'. simpl in *. by subst.
Qed.

Lemma shmget_same_key_witness :
  ∃ shmid s', shmget 3 demo_env 43 100 0 demo_created = Some (shmid, s')
    ∧ shmget 1 demo_env 43 999 0 s' = Some (shmid, s').
Proof.
  eexists _, _. split; [vm_compute; reflexivity|].
  eapply (shmget_same_key 3 demo_env 43 100 0 demo_created); try done.
Defined.

(** A request to our own socket while we hold the mutex never returns. *)
Lemma remote_self_deadlock e v s :
  mutex s = true → ashv_listening_thread_id s ≠ 0 →
  ashv_socket_id_from_shmid v = ashv_local_socket_id s →
  rr_socket (remote e (ashv_local_socket_id s)) ≠ -1 →
  rr_connect (remote e (ashv_local_socket_id s)) = 0 →
  rr_send (remote e (ashv_local_socket_id s)) = 4 →
  ashv_read_remote_segment e v s = None.
Proof.
  intros Hm Ht Hsid R1 R2 R3. unfold ashv_read_remote_segment, truthy.
  rewrite Hsid, R2, R3, (proj2 (Z.eqb_neq _ _) R1). cbn [Z.eqb Pos.eqb negb]. srun.
  by rewrite Hm, (proj2 (Z.eqb_neq _ _) Ht), Z.eqb_refl.
Qed.

(** A key cannot be used again after its segment was destroyed: the link
    [/tmp/ashv_key_<key>] survives [IPC_RMID], so the next [shmget] of the key
    takes our own identifier for a remote one and asks our own listening
    thread while it holds the mutex that thread needs.  (Socket id in the
    lower half, so that the identifier leads back to our socket.) *)
Theorem shmget_after_rmid_deadlocks e k sz fl s v fuel :
  listening e s → k ≠ IPC_PRIVATE → links s !! k = Some v → v ≠ 0 →
  ashv_socket_id_from_shmid v = ashv_local_socket_id s →
  ashv_find_local_index (shmem s) v = None →
  rr_socket (remote e (ashv_local_socket_id s)) ≠ -1 →
  rr_connect (remote e (ashv_local_socket_id s)) = 0 →
  rr_send (remote e (ashv_local_socket_id s)) = 4 →
  shmget fuel e k sz fl s = None.
Proof.
  intros Hli Hk Hl Hv Hsid Hf R1 R2 R3. rewrite shmget_listening by done.
  rewrite (proj2 (Z.eqb_neq _ _) Hk). cbn [negb]. srun.
  destruct fuel as [|fuel]; [done|]. cbn [shmget_key]. srun.
  rewrite Hl, (proj2 (Z.eqb_neq _ _) Hv), Hf.
  destruct Hli as (_&_&_&_&Ht). by rewrite remote_self_deadlock.
Qed.

Definition demo_loop_env : env :=
  mk_env 1234 4096 10 10 5 (λ _, true) true 77
    (λ _, mk_remote_reply 6 0 4 [] (λ x, x) (λ _, 0))
    9 0 0 (λ _ _ _ _, 0x7000) (λ _, None) (λ _, true)
    (λ _ _ _, -1) (λ _ _ _, -1) (λ _, -1) (λ _ _, -1).

Definition demo_removed : state :=
  run_state (shmctl demo_loop_env (ashv_shmid_from_counter 1234 1) IPC_RMID false demo_created).

Lemma shmget_after_rmid_deadlocks_witness :
  shmget 10 demo_loop_env 42 100 0 demo_removed = None.
Proof.
  apply (shmget_after_rmid_deadlocks demo_loop_env 42 100 0 demo_removed
           (ashv_shmid_from_counter 1234 1) 10); vm_compute; try done; split_and!; done.
Defined.

(** [IPC_RMID] of an attached segment only marks it: the entry, its
    descriptor and its mapping stay; the next [shmdt] of its address unmaps it,
    removes the entry and closes the descriptor, once. *)
Theorem rmid_then_detach e s i ent :
  listening e s → shmem s !! i = Some ent →
  ashv_find_local_index (shmem s) (id ent) = Some i →
  index_of (λ x, addr x =? addr ent) (shmem s) = Some i →
  addr ent ≠ 0 → descriptor ent ≠ 0 →
  ∃ s1 s2,
    shmctl e (id ent) IPC_RMID false s = Some ((0, None), s1)
    ∧ shmem s1 = <[i := ent <| markedForDeletion := true |>]> (shmem s)
    ∧ closed s1 = closed s ∧ unmapped s1 = unmapped s
    ∧ shmdt e (addr ent) s1 = Some (0, s2)
    ∧ shmem s2 = delete i (shmem s)
    ∧ closed s2 = closed s ++ [descriptor ent]
    ∧ unmapped s2 = unmapped s ++ [(addr ent, size ent)].
Proof.
  intros Hli E Hf Ha Hn Hd. pose proof Hli as (L1&L2&L3&L4&L5).
  set (ent' := ent <| markedForDeletion := true |>).
  set (s1 := s <| shmem := <[i := ent']> (shmem s) |>).
  assert (shmctl e (id ent) IPC_RMID false s = Some ((0, None), s1)) as E1.
  { unfold shmctl, truthy. srun. rewrite L1. cbn [Z.eqb negb].
    rewrite (check_pid_same _ _ L3 L4), Z.eqb_refl.
    unfold pthread_mutex_lock. srun. rewrite L2. srun.
    rewrite Hf, (shmctl_rmid_run _ i ent) by done. unfold truthy.
    rewrite (proj2 (Z.eqb_neq _ _) Hn). subst s1. destruct s. simpl in *. by subst. }
  assert (i < length (shmem s))%nat as Hlt by (by eapply lookup_lt_Some).
  assert (shmem s1 !! i = Some ent') as Ei by (by apply list_lookup_insert_eq).
  assert (index_of (λ x, addr x =? addr ent) (shmem s1) = Some i) as Ha'.
  { subst s1. simpl. clear -Ha E. revert i Ha E.
    induction (shmem s) as [|x l IH]; intros [|i]; simpl; try done.
    - intros _ [= ->]. by rewrite Z.eqb_refl.
    - destruct (addr x =? addr ent); [done|].
      destruct (index_of _ l) as [j|] eqn:Ej; [|done]. simpl. intros [= ->] E.
      by rewrite (IH i). }
  eexists s1, _. split; [done|]. split; [done|]. split; [done|]. split; [done|].
  unfold shmdt, truthy. srun. change (syscall_supported s1) with (syscall_supported s).
  rewrite L1. cbn [Z.eqb negb].
  rewrite check_pid_same by done. unfold pthread_mutex_lock. srun.
  change (mutex s1) with (mutex s). rewrite L2. srun.
  rewrite Ha', (shmdt_detach_run _ i ent') by done. split; [done|].
  unfold dt_deletes, closes, truthy. simpl. rewrite (proj2 (Z.eqb_neq _ _) Hd). simpl.
  by rewrite delete_insert_same.
Qed.

Lemma rmid_then_detach_witness :
  ∃ s1 s2,
    shmctl demo_env (ashv_shmid_from_counter 1234 1) IPC_RMID false demo_attached
      = Some ((0, None), s1)
    ∧ shmdt demo_env 0x7000 s1 = Some (0, s2) ∧ shmem s2 = [] ∧ closed s2 = [9].
Proof.
  destruct (rmid_then_detach demo_env demo_attached 0
    (mk_shmem_t (ashv_shmid_from_counter 1234 1) 0x7000 9 4096 false 42))
    as (s1 & s2 & E1 & _ & _ & _ & E2 & E3 & E4 & _);
    [vm_compute; split_and!; done|vm_compute; done..|].
  exists s1, s2. split_and!; done.
Defined.

(** ** Segments of other processes *)

(** The answer of the listening thread for a segment it has. *)
Lemma serve_run srv shmid i ent :
  mutex srv = false → inS 32 shmid →
  ashv_find_local_index (shmem srv) shmid = Some i → shmem srv !! i = Some ent →
  ashv_thread_serve (le_bytes 4 shmid) true srv
  = Some (((λ b, (b, None)) <$> le_bytes 4 (key ent)) ++ [(33, Some (descriptor ent))], srv).
Proof.
  intros Hm Hs Hf E. unfold ashv_thread_serve. rewrite length_le_bytes.
  change (Z.of_nat 4 =? 4) with true. cbn [negb]. rewrite s32_le_bytes by done.
  unfold pthread_mutex_lock, pthread_mutex_unlock. srun. rewrite Hm. srun. rewrite Hf. srun.
  rewrite (shmem_at_run _ i ent) by done. destruct srv. simpl in *. by subst.
Qed.

(** A connection to another process, or to a socket nobody of ours serves. *)
Definition foreign (s : state) (shmid : Z) : Prop :=
  ashv_socket_id_from_shmid shmid ≠ ashv_local_socket_id s.

(** C34: A segment travels between processes: what the owner's listening thread
    writes for a shmid is what the other process needs to enter the segment
    into its own table under the same shmid and key, with the descriptor the
    kernel installed for it and the size the kernel reports, and the owner's
    state is as before. *)
Theorem remote_segment_transfer srv shmid i ent :
  mutex srv = false → inS 32 shmid → inS 32 (key ent) →
  ashv_find_local_index (shmem srv) shmid = Some i → shmem srv !! i = Some ent →
  ∃ out, ashv_thread_serve (le_bytes 4 shmid) true srv = Some (out, srv) ∧
  ∀ e c, let r := remote e (ashv_socket_id_from_shmid shmid) in
    foreign c shmid → rr_stream r = out →
    rr_socket r ≠ -1 → rr_connect r = 0 → rr_send r = 4 →
    0 ≤ rr_install r (descriptor ent) →
    rr_size r (rr_install r (descriptor ent)) ∉ [0; -1] →
    ashv_read_remote_segment e shmid c = Some (Some (length (shmem c)),
      c <| closed := closed c ++ [rr_socket r] |>
        <| shmem := shmem c ++
             [mk_shmem_t shmid 0 (rr_install r (descriptor ent))
                (u64 (rr_size r (rr_install r (descriptor ent)))) false (key ent)] |>).
Proof.
  intros Hm Hs Hk Hf E. eexists. split; [by apply (serve_run _ _ i)|].
  intros e c r Hfo Hst H1 H2 H3 Hfd Hsz.
  unfold ashv_read_remote_segment, close_fd, ashmem_get_size_region. fold r.
  rewrite (proj2 (Z.eqb_neq _ _) H1), H2, H3. cbn [Z.eqb Pos.eqb negb]. srun.
  rewrite (proj2 (Z.eqb_neq _ _) Hfo), andb_false_r. srun. rewrite Hst.
  rewrite <-(length_le_bytes 4 (key ent)) at 1. rewrite sock_read_app, length_le_bytes.
  change (Z.of_nat 4 =? 4) with true. cbn [negb]. srun.
  rewrite ancil_recv_send. srun. rewrite (proj2 (Z.ltb_ge _ _)) by done. srun.
  rewrite !not_elem_of_cons in Hsz. destruct Hsz as (Hz1 & Hz2 & _).
  rewrite (proj2 (Z.eqb_neq _ _) Hz1), (proj2 (Z.eqb_neq _ _) Hz2). cbn [orb]. srun.
  by rewrite s32_le_bytes.
Qed.

Definition demo_client_env (out : stream) : env :=
  mk_env 99 4096 10 10 5 (λ _, true) true 78
    (λ _, mk_remote_reply 6 0 4 out (λ fd, fd + 100) (λ _, 4096))
    9 0 0 (λ _ _ _ _, 0x7000) (λ _, None) (λ _, true)
    (λ _ _ _, -1) (λ _ _ _, -1) (λ _, -1) (λ _ _, -1).

Lemma remote_segment_transfer_witness :
  ∃ out, let shmid := ashv_shmid_from_counter 1234 1 in
    ashv_thread_serve (le_bytes 4 shmid) true demo_created = Some (out, demo_created)
    ∧ (shmem ∘ snd) <$> ashv_read_remote_segment (demo_client_env out) shmid init_state
      = Some [mk_shmem_t shmid 0 109 4096 false 42].
Proof.
  destruct (remote_segment_transfer demo_created (ashv_shmid_from_counter 1234 1) 0
    (mk_shmem_t (ashv_shmid_from_counter 1234 1) 0 9 4096 false 42))
    as (out & E & H); [vm_compute; done..|].
  exists out. split; [done|]. rewrite (H (demo_client_env out)); try done.
  rewrite !not_elem_of_cons, elem_of_nil. simpl. split_and!; try done. intros [].
Defined.

(** A child after [fork] starts afresh: its first [shmdt], [shmat] or
    [shmctl] forgets the inherited table, socket id and listening thread, also
    when the parent held the mutex at the time of the fork, and does not wait
    for that mutex. *)
Theorem fork_child_starts_afresh e s a :
  syscall_supported s = 0 → ashv_pid_setup s ≠ 0 → ashv_pid_setup s ≠ getpid e →
  ∃ s', shmdt e a s = Some (0, s') ∧ shmem s' = [] ∧ ashv_local_socket_id s' = 0
    ∧ ashv_listening_thread_id s' = 0 ∧ mutex s' = false
    ∧ ashv_pid_setup s' = getpid e ∧ closed s' = closed s ∧ unmapped s' = unmapped s.
Proof.
  intros Hs Hp Hne. unfold shmdt, truthy. srun. rewrite Hs. cbn [Z.eqb negb].
  unfold ashv_check_pid. srun.
  rewrite (proj2 (Z.eqb_neq _ _) Hp), (proj2 (Z.eqb_neq _ _) Hne). cbn [negb]. srun.
  unfold pthread_mutex_unlock, pthread_mutex_lock. srun. by eexists.
Qed.

Lemma fork_child_starts_afresh_witness :
  ∃ s', shmdt (demo_client_env []) 0x7000 (demo_attached <| mutex := true |>) = Some (0, s')
    ∧ shmem s' = [] ∧ mutex s' = false.
Proof.
  destruct (fork_child_starts_afresh (demo_client_env [])
    (demo_attached <| mutex := true |>) 0x7000) as (s' & E & ? & _ & _ & ? & _);
    [vm_compute; done..|].
  exists s'. split_and!; done.
Defined.
