(* ===== verification/Dix.v ===== *)
(** * The part of the X server's dix layer the clipboard uses

    Selections ([xserver/dix/selection.c]), window properties
    ([xserver/dix/property.c]), the server clock ([dispatch.c], [dixutils.c]),
    window lookup and event delivery to clients.

    A client is its index; [serverClient] is 0 and a null [ClientPtr] is
    [None].  [clients] holds the client records that are allocated, with their
    [errorValue]: any access to another client is a use of freed memory and
    has no result.  A window is its XID.  Property data are the units of the
    property's format.  Allocation succeeds; the answers of the security hooks
    ([XaceHook...]) and of the clock are the argument [denv].

    The callbacks on selection changes belong to other components, whose state
    contains the state of this one ([HasDix]). *)

From stdpp Require Import gmap.
From S2P Require Import Prelude.

(** ** Data *)

Record TimeStamp := mk_TimeStamp { months : Z; milliseconds : Z }.

Record Selection := mk_Selection {
  selection : Z;
  lastTimeChanged : TimeStamp;
  window : Z;
  pWin : option Z;
  client : option Z
}.
#[export] Instance Selection_eta : Settable Selection :=
  λ r, mk_Selection (selection r) (lastTimeChanged r) (window r) (pWin r) (client r).

Record PropertyRec := mk_PropertyRec {
  propertyName : Z; type : Z; format : Z; data : list Z
}.

Record WindowRec := mk_WindowRec { owner : Z; userProps : list PropertyRec }.
#[export] Instance WindowRec_eta : Settable WindowRec :=
  λ r, mk_WindowRec (owner r) (userProps r).

Inductive xEvent :=
  | SelectionRequest (time owner requestor selection target property : Z)
  | SelectionNotify (time requestor selection target property : Z)
  | SelectionClear (time window atom : Z).

Record dix := mk_dix {
  CurrentSelections : list Selection;
  windows : gmap Z WindowRec;
  clients : gmap Z Z;
  currentTime : TimeStamp;
  events : list (Z * xEvent);       (** written to clients, oldest first *)
  propEvents : list (Z * Z)         (** [PropertyNotify]: window and atom *)
}.
#[export] Instance dix_eta : Settable dix :=
  λ r, mk_dix (CurrentSelections r) (windows r) (clients r) (currentTime r) (events r)
         (propEvents r).

Record denv := mk_denv {
  GetTimeInMillis : Z;
  lastAtom : Z;
  root : Z;                                (** [pScreenPtr->root->drawable.id] *)
  XaceHookSelectionAccess : Z → Z → Z → Z; (** client, selection, access mode *)
  XaceHookPropertyAccess : Z → Z → Z → Z → Z
}.

Definition None_ : Z := 0.
Definition serverClient : Z := 0.
Definition Success : Z := 0.
Definition BadWindow : Z := 3.
Definition BadAtom : Z := 5.
Definition BadMatch : Z := 8.
Definition BadAlloc : Z := 11.

Definition DixReadAccess : Z := 1.
Definition DixWriteAccess : Z := 2.
Definition DixDestroyAccess : Z := 4.
Definition DixCreateAccess : Z := 8.
Definition DixGetAttrAccess : Z := 16.
Definition DixSetAttrAccess : Z := 32.
Definition DixPostAccess : Z := 2 ^ 27.

(** ** Clock *)

Definition CompareTimeStamps (a b : TimeStamp) : comparison :=
  if months a <? months b then Lt
  else if months b <? months a then Gt
  else if milliseconds a <? milliseconds b then Lt
  else if milliseconds b <? milliseconds a then Gt
  else Eq.

Definition HALFMONTH : Z := 2 ^ 31.

(** [months] and [milliseconds] are [CARD32]. *)
Definition ClientTimeToServerTime (c : Z) (currentTime : TimeStamp) : TimeStamp :=
  if c =? 0 then currentTime
  else if milliseconds currentTime <? c then
    mk_TimeStamp (if HALFMONTH <? c - milliseconds currentTime
                  then u32 (months currentTime - 1) else months currentTime) c
  else if c <? milliseconds currentTime then
    mk_TimeStamp (if HALFMONTH <? milliseconds currentTime - c
                  then u32 (months currentTime + 1) else months currentTime) c
  else mk_TimeStamp (months currentTime) c.

Definition UpdateCurrentTimeIf (e : denv) : M dix () :=
  d ← get;
  let now := currentTime d in
  let systime :=
    mk_TimeStamp (if GetTimeInMillis e <? milliseconds now then u32 (months now + 1)
                  else months now) (GetTimeInMillis e) in
  match CompareTimeStamps systime now with
  | Gt => modify (λ d, d <| currentTime := systime |>)
  | _ => skip
  end.

(** The input queue [UpdateCurrentTime] also drains is not part of this state. *)
Definition UpdateCurrentTime (e : denv) : M dix () := UpdateCurrentTimeIf e.

(** ** Clients and windows *)

Definition live (d : dix) (c : Z) : bool := bool_decide (is_Some (clients d !! c)).

Definition set_errorValue (c v : Z) : M dix () :=
  d ← get;
  if live d c then modify (λ d, d <| clients ::= insert c v |>) else ub.

Definition WriteEventsToClient (pClient : option Z) (ev : xEvent) : M dix () :=
  match pClient with
  | None => skip
  | Some c =>
    if c =? serverClient then skip
    else
      d ← get;
      if live d c then modify (λ d, d <| events ::= λ l, l ++ [(c, ev)] |>) else ub
  end.

Definition ValidAtom (e : denv) (atom : Z) : bool :=
  negb (atom =? None_) && (atom <=? lastAtom e).

(** [dixLookupWindow]: the XID names a window or there is none. *)
Definition dixLookupWindow (id c : Z) : M dix Z :=
  d ← get;
  match windows d !! id with
  | Some _ => mret Success
  | None => set_errorValue c id ;; mret BadWindow
  end.

(** ** Selections *)

(** The result is the code and the selection's place in the list. *)
Definition dixLookupSelection (e : denv) (name c mode : Z) : M dix (Z * option nat) :=
  set_errorValue c name ;;
  d ← get;
  match index_of (λ s, selection s =? name) (CurrentSelections d) with
  | Some i => mret (XaceHookSelectionAccess e c name mode, Some i)
  | None => mret (BadMatch, None)
  end.

Definition sel_at (i : nat) : M dix Selection :=
  d ← get; of_option (CurrentSelections d !! i).
Definition sel_set (i : nat) (f : Selection → Selection) : M dix () :=
  modify (λ d, d <| CurrentSelections ::= alter f i |>).

(** A selection record as [calloc] leaves it, put in front of the list. *)
Definition sel_push (name : Z) : M dix () :=
  modify (λ d, d <| CurrentSelections ::= λ l,
    mk_Selection name (mk_TimeStamp 0 0) None_ None None :: l |>).

Inductive SelectionCallbackKind :=
  | SelectionSetOwner | SelectionWindowDestroy | SelectionClientClose.

(** A component whose state contains the dix state. *)
Class HasDix (S : Type) := {
  dix_of : S → dix;
  set_dix : dix → S → S;
  dix_of_set : ∀ d s, dix_of (set_dix d s) = d
}.

Definition onDix {S} `{HasDix S} {A} (m : M dix A) : M S A := λ s,
  match m (dix_of s) with
  | Some (a, d) => Some (a, set_dix d s)
  | None => None
  end.

Section callbacks.
Context {S : Type} `{HasDix S}.
(** What [CallCallbacks(&SelectionCallback, ...)] runs: the selection's
    place and the kind. *)
Context (SelectionCallback : nat → SelectionCallbackKind → M S ()).

Definition disown (i : nat) : M dix () :=
  sel_set i (λ s, s <| pWin := None |> <| window := None_ |> <| client := None |>).

Fixpoint delete_from_selections (test : Selection → bool) (kind : SelectionCallbackKind)
    (n i : nat) : M S () :=
  match n with
  | O => skip
  | Datatypes.S n' =>
    s ← onDix (sel_at i);
    (if test s then SelectionCallback i kind ;; onDix (disown i) else skip) ;;
    delete_from_selections test kind n' (Datatypes.S i)
  end.

Definition DeleteWindowFromAnySelections (w : Z) : M S () :=
  s ← get;
  delete_from_selections (λ x, bool_decide (pWin x = Some w)) SelectionWindowDestroy
    (length (CurrentSelections (dix_of s))) 0.

Definition DeleteClientFromAnySelections (c : Z) : M S () :=
  s ← get;
  delete_from_selections (λ x, bool_decide (client x = Some c)) SelectionClientClose
    (length (CurrentSelections (dix_of s))) 0.

(** The part of [ProcSetSelectionOwner] behind the checks: [idx] is the
    place of the selection record. *)
Definition set_owner (time : TimeStamp) (w : Z) (pw : option Z) (c : Z) (idx : nat) : M S Z :=
  onDix (sel_set idx (λ s, s <| lastTimeChanged := time |> <| window := w |> <| pWin := pw |>
                             <| client := match pw with Some _ => Some c | None => None end |>)) ;;
  SelectionCallback idx SelectionSetOwner ;;
  mret Success.

Definition ProcSetSelectionOwner (e : denv) (c w name t : Z) : M S Z :=
  onDix (UpdateCurrentTime e) ;;
  s ← get;
  let now := currentTime (dix_of s) in
  let time := ClientTimeToServerTime t now in
  match CompareTimeStamps time now with
  | Gt => mret Success
  | _ =>
    rc ← (if negb (w =? None_) then onDix (dixLookupWindow w c) else mret Success);
    if negb (rc =? Success) then mret rc
    else
      let pw := if w =? None_ then None else Some w in
      if negb (ValidAtom e name) then onDix (set_errorValue c name) ;; mret BadAtom
      else
        '(rc, found) ← onDix (dixLookupSelection e name c DixSetAttrAccess);
        if rc =? Success then
          i ← of_option found;
          sel ← onDix (sel_at i);
          match CompareTimeStamps time (lastTimeChanged sel) with
          | Lt => mret Success
          | _ =>
            (match client sel with
             | Some c' =>
               if bool_decide (pw = None) || negb (c' =? c) then
                 onDix (WriteEventsToClient (Some c')
                   (SelectionClear (milliseconds time) (window sel) (selection sel)))
               else skip
             | None => skip
             end) ;;
            set_owner time w pw c i
          end
        else if rc =? BadMatch then
          let rc := XaceHookSelectionAccess e c name (Z.lor DixCreateAccess DixSetAttrAccess) in
          if negb (rc =? Success) then mret rc
          else onDix (sel_push name) ;; set_owner time w pw c 0
        else mret rc
  end.

(** The windows of a client, and their destruction. *)
Definition windows_of (c : Z) (d : dix) : list Z :=
  (filter (λ p, owner (p.2) = c) (map_to_list (windows d))).*1.

Definition destroy_window (w : Z) : M S () :=
  DeleteWindowFromAnySelections w ;;
  onDix (modify (λ d, d <| windows ::= delete w |>)).

(** [CloseDownClient] for a client that retains nothing: its selections, its
    resources, then the record itself. *)
Definition CloseDownClient (c : Z) : M S () :=
  DeleteClientFromAnySelections c ;;
  s ← get;
  for_each (windows_of c (dix_of s)) destroy_window ;;
  onDix (modify (λ d, d <| clients ::= delete c |>)).
End callbacks.

(** [ProcConvertSelection], the handler the clipboard replaces.  A client of
    this state is never [clientGone]: it is live or freed. *)
Definition ProcConvertSelection (e : denv) (c requestor sel target property time : Z) : M dix Z :=
  rc ← dixLookupWindow requestor c;
  if negb (rc =? Success) then mret rc
  else if negb (ValidAtom e sel && ValidAtom e target
                && ((property =? None_) || ValidAtom e property)) then
    set_errorValue c property ;; mret BadAtom
  else
    when (time =? 0) (UpdateCurrentTime e) ;;
    '(rc, found) ← dixLookupSelection e sel c DixReadAccess;
    let refuse :=
      WriteEventsToClient (Some c) (SelectionNotify time requestor sel target None_) ;;
      mret Success in
    if negb (rc =? Success) && negb (rc =? BadMatch) then mret rc
    else if rc =? Success then
      i ← of_option found;
      s ← sel_at i;
      match client s with
      | Some c' =>
        if negb (window s =? None_) && negb (c' =? serverClient) then
          WriteEventsToClient (Some c')
            (SelectionRequest time (window s) requestor sel target property) ;;
          mret Success
        else refuse
      | None => refuse
      end
    else refuse.

(** ** Properties *)

Definition find_prop (name : Z) (l : list PropertyRec) : option PropertyRec :=
  head (filter (λ p, propertyName p = name) l).

Definition dixLookupProperty (e : denv) (w name c mode : Z) : M dix (Z * option PropertyRec) :=
  set_errorValue c name ;;
  d ← get;
  win ← of_option (windows d !! w);
  match find_prop name (userProps win) with
  | Some p => mret (XaceHookPropertyAccess e c w name mode, Some p)
  | None => mret (BadMatch, None)
  end.

(** Replace the first property of that name. *)
Fixpoint replace_prop (p : PropertyRec) (l : list PropertyRec) : list PropertyRec :=
  match l with
  | [] => []
  | q :: l' => if propertyName q =? propertyName p then p :: l' else q :: replace_prop p l'
  end.

Definition upd_props (w : Z) (f : list PropertyRec → list PropertyRec) : M dix () :=
  modify (λ d, d <| windows ::= alter (λ win, win <| userProps ::= f |>) w |>).

Definition deliverPropertyNotifyEvent (e : denv) (w name : Z) : M dix () :=
  UpdateCurrentTimeIf e ;;
  modify (λ d, d <| propEvents ::= λ l, l ++ [(w, name)] |>).

(** [dixChangeWindowProperty(..., PropModeReplace, ..., TRUE)]. *)
Definition dixChangeWindowProperty (e : denv) (c w name type format : Z) (value : list Z)
  : M dix Z :=
  let p := mk_PropertyRec name type format value in
  '(rc, old) ← dixLookupProperty e w name c DixWriteAccess;
  if rc =? BadMatch then
    let rc := XaceHookPropertyAccess e c w name (Z.lor DixCreateAccess DixWriteAccess) in
    if negb (rc =? Success) then set_errorValue c name ;; mret rc
    else
      upd_props w (cons p) ;;
      deliverPropertyNotifyEvent e w name ;; mret Success
  else if rc =? Success then
    let rc := XaceHookPropertyAccess e c w name (Z.lor DixWriteAccess DixPostAccess) in
    if negb (rc =? Success) then mret rc
    else
      upd_props w (replace_prop p) ;;
      deliverPropertyNotifyEvent e w name ;; mret Success
  else mret rc.

(** ** Frames *)

(** What the calls below leave alone: the selections, which clients and
    windows exist; [evs] is what they write to clients. *)
Record frames (d : dix) (evs : list (Z * xEvent)) (d' : dix) : Prop := mk_frames {
  fr_sel : CurrentSelections d' = CurrentSelections d;
  fr_live : ∀ c, live d' c = live d c;
  fr_win : ∀ w, is_Some (windows d' !! w) ↔ is_Some (windows d !! w);
  fr_ev : events d' = events d ++ evs
}.

Lemma frames_refl d : frames d [] d.
Proof. split; [done..|by rewrite app_nil_r]. Qed.

Lemma frames_trans d1 d2 d3 ev1 ev2 :
  frames d1 ev1 d2 → frames d2 ev2 d3 → frames d1 (ev1 ++ ev2) d3.
Proof.
  intros [S1 L1 W1 E1] [S2 L2 W2 E2]. split.
  - by rewrite S2.
  - intros c. by rewrite L2.
  - intros w. by rewrite W2.
  - by rewrite E2, E1, app_assoc.
Qed.

Lemma frames_nil d1 d2 d3 ev : frames d1 [] d2 → frames d2 ev d3 → frames d1 ev d3.
Proof. apply frames_trans. Qed.
#[export] Hint Resolve frames_refl : lorie.

Lemma set_errorValue_run c v d :
  live d c = true → ∃ d', set_errorValue c v d = Some ((), d') ∧ frames d [] d'
    ∧ windows d' = windows d.
Proof.
  intros Hl. unfold set_errorValue. mrun. rewrite Hl. eexists. split; [done|].
  split; [|done]. split; [done| |done|by rewrite app_nil_r].
  intros c'. unfold live in *. simpl. apply bool_decide_ext.
  destruct (decide (c = c')) as [->|]; [|by rewrite lookup_insert_ne].
  rewrite lookup_insert_eq. apply bool_decide_eq_true in Hl. split; [done|eauto].
Qed.

Lemma dixLookupWindow_run w c d :
  live d c = true →
  ∃ rc d', dixLookupWindow w c d = Some (rc, d') ∧ frames d [] d' ∧ windows d' = windows d
    ∧ rc = (if windows d !! w is Some _ then Success else BadWindow).
Proof.
  intros Hl. unfold dixLookupWindow. mrun. destruct (windows d !! w) eqn:E.
  - eexists _, _. split; [done|]. auto with lorie.
  - destruct (set_errorValue_run c w d Hl) as (d' & -> & Hf & Hw).
    eexists _, _. split; [done|]. auto.
Qed.

Lemma dixLookupSelection_run e name c mode d :
  live d c = true →
  ∃ rc o d', dixLookupSelection e name c mode d = Some ((rc, o), d') ∧ frames d [] d'
    ∧ windows d' = windows d
    ∧ o = index_of (λ s, selection s =? name) (CurrentSelections d)
    ∧ rc = (if o is Some _ then XaceHookSelectionAccess e c name mode else BadMatch).
Proof.
  intros Hl. unfold dixLookupSelection. mrun.
  destruct (set_errorValue_run c name d Hl) as (d' & -> & Hf & Hw).
  rewrite (fr_sel _ _ _ Hf). destruct (index_of _ _) eqn:E; eexists _, _, _;
    (split; [done|]); auto.
Qed.

Lemma WriteEvents_run c ev d :
  live d c = true → c ≠ serverClient →
  ∃ d', WriteEventsToClient (Some c) ev d = Some ((), d') ∧ frames d [(c, ev)] d'
    ∧ windows d' = windows d.
Proof.
  intros Hl Hc. unfold WriteEventsToClient. rewrite (proj2 (Z.eqb_neq _ _) Hc). mrun.
  rewrite Hl. eexists. split; [done|]. done.
Qed.

Lemma UpdateCurrentTimeIf_run e d :
  ∃ d', UpdateCurrentTimeIf e d = Some ((), d') ∧ frames d [] d' ∧ windows d' = windows d.
Proof.
  unfold UpdateCurrentTimeIf. mrun. destruct (CompareTimeStamps _ _);
    eexists; (split; [done|]); (split; [|done]); try apply frames_refl.
  split; [done..|by rewrite app_nil_r].
Qed.

Lemma find_prop_cons p l : find_prop (propertyName p) (p :: l) = Some p.
Proof. unfold find_prop. by rewrite filter_cons_True. Qed.

Lemma find_prop_replace p q l :
  find_prop (propertyName p) l = Some q →
  find_prop (propertyName p) (replace_prop p l) = Some p.
Proof.
  unfold find_prop. induction l as [|r l IH]; [done|]. cbn [replace_prop].
  destruct (Z.eqb_spec (propertyName r) (propertyName p)) as [E|E].
  - intros _. by rewrite filter_cons_True.
  - by rewrite !filter_cons_False by done.
Qed.

(** The property of a window. *)
Definition prop_of (d : dix) (w name : Z) : option PropertyRec :=
  win ← windows d !! w; find_prop name (userProps win).

Lemma upd_props_run e w p f d win :
  windows d !! w = Some win →
  find_prop (propertyName p) (f (userProps win)) = Some p →
  ∃ d', (upd_props w f ;; deliverPropertyNotifyEvent e w (propertyName p) ;; mret Success) d
      = Some (Success, d')
    ∧ frames d [] d' ∧ prop_of d' w (propertyName p) = Some p.
Proof.
  intros Hw Hp. unfold upd_props, deliverPropertyNotifyEvent. mrun.
  match goal with |- context [UpdateCurrentTimeIf e ?d] =>
    destruct (UpdateCurrentTimeIf_run e d) as (d2 & -> & Hf2 & Hw2) end.
  eexists. split; [done|]. simpl in Hw2. split.
  - destruct Hf2 as [S2 L2 W2 E2]. split; simpl in *; [done..| |done].
    intros w'. rewrite W2. destruct (decide (w' = w)) as [->|];
      [|by rewrite lookup_alter_ne].
    rewrite lookup_alter_eq, Hw. split; eauto.
  - unfold prop_of. simpl. by rewrite Hw2, lookup_alter_eq, Hw.
Qed.

(** The outcome of a property change: on success the property is there. *)
Definition change_post (e : denv) (c w : Z) (p : PropertyRec) (d : dix) (rc : Z) (d' : dix)
  : Prop :=
  frames d [] d'
  ∧ (rc = Success → prop_of d' w (propertyName p) = Some p)
  ∧ ((∀ m, XaceHookPropertyAccess e c w (propertyName p) m = Success) → rc = Success).

Lemma change_denied e c w p d m d' :
  XaceHookPropertyAccess e c w (propertyName p) m ≠ Success → frames d [] d' →
  change_post e c w p d (XaceHookPropertyAccess e c w (propertyName p) m) d'.
Proof. intros H Hf. split_and!; [done|by intros ?|by intros Ha]. Qed.

(** The branch that adds a new property. *)
Lemma add_prop_run e c w p d m :
  live d c = true → is_Some (windows d !! w) →
  let rc := XaceHookPropertyAccess e c w (propertyName p) m in
  ∃ rc' d', (if negb (rc =? Success) then set_errorValue c (propertyName p) ;; mret rc
             else upd_props w (cons p) ;;
                  deliverPropertyNotifyEvent e w (propertyName p) ;; mret Success) d
      = Some (rc', d') ∧ change_post e c w p d rc' d'.
Proof.
  intros Hl [win Hw] rc. destruct (Z.eqb_spec rc Success) as [E|E]; cbn [negb].
  - destruct (upd_props_run e w p (cons p) d win Hw (find_prop_cons p _)) as (d' & -> & ? & ?).
    eexists _, _. split; [done|]. by split_and!.
  - mrun. destruct (set_errorValue_run c (propertyName p) d Hl) as (d' & -> & Hf' & _).
    eexists _, _. split; [done|]. by apply change_denied.
Qed.

Lemma dixChangeWindowProperty_run e c w name ty fmt value d :
  live d c = true → is_Some (windows d !! w) →
  ∃ rc d', dixChangeWindowProperty e c w name ty fmt value d = Some (rc, d')
    ∧ change_post e c w (mk_PropertyRec name ty fmt value) d rc d'.
Proof.
  intros Hl Hw. set (p := mk_PropertyRec name ty fmt value).
  unfold dixChangeWindowProperty, dixLookupProperty. fold p. mrun.
  destruct (set_errorValue_run c name d Hl) as (d1 & -> & Hf & Hw1).
  assert (∀ rc d2, change_post e c w p d1 rc d2 → change_post e c w p d rc d2) as Hstep.
  { intros rc d2 (?&?&?). split_and!; [by apply (frames_nil _ _ _ _ Hf)|done..]. }
  assert (live d1 c = true) as Hl1 by (by rewrite (fr_live _ _ _ Hf)).
  rewrite <-Hw1 in Hw.
  pose proof (add_prop_run e c w p d1 (Z.lor DixCreateAccess DixWriteAccess) Hl1 Hw)
    as (rc & d2 & E2 & H2%Hstep). mrun in E2. change (propertyName p) with name in E2.
  destruct Hw as [win Hwin]. mrun. rewrite Hwin. mrun.
  destruct (find_prop name (userProps win)) as [q|] eqn:Eq; [|by eexists _, _].
  destruct (_ =? BadMatch); [by eexists _, _|].
  destruct (Z.eqb_spec (XaceHookPropertyAccess e c w name DixWriteAccess) Success) as [E|E].
  - destruct (Z.eqb_spec (XaceHookPropertyAccess e c w name
      (Z.lor DixWriteAccess DixPostAccess)) Success) as [E3|E3]; cbn [negb].
    + destruct (upd_props_run e w p (replace_prop p) d1 win Hwin (find_prop_replace p q _ Eq))
        as (d3 & E4 & ? & ?). mrun in E4. change (propertyName p) with name in E4. rewrite E4.
      eexists _, _. split; [done|]. apply Hstep. by split_and!.
    + eexists _, _. split; [done|]. by apply (change_denied e c w p).
  - eexists _, _. split; [done|]. by apply (change_denied e c w p).
Qed.
