(* ===== verification/Clipboard.v ===== *)
(** * Clipboard synchronisation ([lorie/clipboard.c])

    Both directions between the Android clipboard and the X selection
    CLIPBOARD.  Towards Android: a client takes the selection, the server asks
    it for TARGETS and then for the text, which arrives as a property of the
    root window with a [SendEvent].  Towards X: the Android side announces new
    data, the server takes the selection, and requests of clients wait in the
    list [lorieDataTargetHead] until the data has arrived.

    The state is the file's static variables next to the dix state, and two
    logs: what was sent to the Android side ([lorieSendClipboardData]) and how
    often its data was requested ([lorieRequestClipboard]).

    [cachedData] and the data of the Android side are memory blocks that hold a
    C string.  The data of a property lies in a block of exactly its size;
    [heap_tail] are the bytes the allocator leaves readable behind it. *)

From stdpp Require Import gmap.
From S2P Require Import Prelude Text Dix.

Record LorieDataTarget := mk_LorieDataTarget {
  ldt_client : Z; ldt_selection : Z; ldt_target : Z; ldt_property : Z;
  ldt_requestor : Z; ldt_time : Z
}.

Record cenv := mk_cenv {
  de : denv;
  xaTIMESTAMP : Z; xaTEXT : Z; xaCLIPBOARD : Z; xaTARGETS : Z; xaSTRING : Z;
  xaUTF8_STRING : Z;
  heap_tail : list Z
}.

Record clip := mk_clip {
  xs : dix;
  clipboardEnabled : bool;
  cachedData : option (list Z);
  lorieDataTargetHead : list LorieDataTarget;
  requested : nat;
  sent : list (list Z)
}.
#[export] Instance clip_eta : Settable clip :=
  λ r, mk_clip (xs r) (clipboardEnabled r) (cachedData r) (lorieDataTargetHead r)
         (requested r) (sent r).

#[export] Program Instance clip_dix : HasDix clip :=
  {| dix_of := xs; set_dix := λ d s, s <| xs := d |> |}.
Next Obligation. done. Qed.

Definition XA_ATOM : Z := 4.
Definition XA_INTEGER : Z := 19.
Definition XA_STRING : Z := 31.

(** The string a block holds; a block without NUL is read past its end. *)
Definition c_string (mem : list Z) : option (list Z) :=
  if existsb (Z.eqb 0) mem then Some (cstr mem) else None.

Definition lorieEnableClipboardSync (enable : bool) : M clip () :=
  modify (λ s, s <| clipboardEnabled := enable |>).

Definition lorieSendClipboardData (mem : list Z) : M clip () :=
  text ← of_option (c_string mem);
  modify (λ s, s <| sent ::= λ l, l ++ [text] |>).

Definition lorieRequestClipboard : M clip () :=
  modify (λ s, s <| requested ::= S |>).

(** ** From X to Android *)

Definition lorieSelectionRequest (e : cenv) (sel target : Z) : M clip () :=
  s ← get;
  if negb (clipboardEnabled s) then skip
  else
    '(rc, found) ← onDix (dixLookupSelection (de e) sel serverClient DixGetAttrAccess);
    if negb (rc =? Success) then skip
    else
      i ← of_option found;
      pSel ← onDix (sel_at i);
      onDix (d ← get;
             WriteEventsToClient (client pSel)
               (SelectionRequest (milliseconds (currentTime d)) (window pSel) (root (de e))
                  sel target target)).

Fixpoint lorieHasAtom (atom : Z) (l : list Z) : bool :=
  match l with
  | [] => false
  | a :: l' => if a =? atom then true else lorieHasAtom atom l'
  end.

Definition lorieHandleSelection (e : cenv) (target : Z) : M clip () :=
  if negb (target =? xaTARGETS e) && negb (target =? xaSTRING e)
     && negb (target =? xaUTF8_STRING e) then skip
  else
    '(rc, found) ← onDix (dixLookupProperty (de e) (root (de e)) target serverClient
                            DixReadAccess);
    if negb (rc =? Success) then skip
    else
      prop ← of_option found;
      let size := length (data prop) in
      let mem := data prop ++ heap_tail e in
      if (target =? xaTARGETS e) && (type prop =? XA_ATOM) && (format prop =? 32) then
        if lorieHasAtom (xaUTF8_STRING e) (data prop)
        then lorieSelectionRequest e (xaCLIPBOARD e) (xaUTF8_STRING e)
        else if lorieHasAtom (xaSTRING e) (data prop)
        then lorieSelectionRequest e (xaCLIPBOARD e) (xaSTRING e)
        else skip
      else if (target =? xaSTRING e) && (type prop =? xaSTRING e) && (format prop =? 8) then
        filtered ← of_option (lorieConvertLF mem (replicate (size + 1) 0) size);
        utf8 ← of_option (lorieLatin1ToUTF8 (replicate ((size + 1) * 2) 0) 0 filtered);
        lorieSendClipboardData utf8
      else if (target =? xaUTF8_STRING e) && (type prop =? xaUTF8_STRING e)
              && (format prop =? 8) then
        ok ← of_option (lorieCheckUTF8 mem size);
        if negb ok then skip
        else
          filtered ← of_option (lorieConvertLF mem (replicate (size + 1) 0) size);
          lorieSendClipboardData filtered
      else skip.

(** The handler of [X_SendEvent]; [orig] is the one it replaced. *)
Definition lorieProcSendEvent (orig : Z → xEvent → M clip Z) (e : cenv) (c : Z) (ev : xEvent)
  : M clip Z :=
  s ← get;
  (match ev with
   | SelectionNotify _ requestor sel target property =>
     if clipboardEnabled s && (requestor =? root (de e)) && (sel =? xaCLIPBOARD e)
        && (target =? property)
     then lorieHandleSelection e target else skip
   | _ => skip
   end) ;;
  orig c ev.

Definition lorieSelectionCallback (e : cenv) (i : nat) (kind : SelectionCallbackKind)
  : M clip () :=
  s ← get;
  sel ← onDix (sel_at i);
  match kind with
  | SelectionSetOwner =>
    if clipboardEnabled s && (selection sel =? xaCLIPBOARD e)
       && negb (bool_decide (client sel = Some serverClient))
    then lorieSelectionRequest e (xaCLIPBOARD e) (xaTARGETS e) else skip
  | _ => skip
  end.

(** ** From Android to X *)

Definition notify (c : Z) (time requestor sel target property : Z) : M clip () :=
  onDix (WriteEventsToClient (Some c) (SelectionNotify time requestor sel target property)).

(** What [lorieConvertSelection] does for the target, up to the notification:
    [inl rc] is an early return. *)
Definition convert_target (e : cenv) (c sel target property requestor time : Z)
    (pSel : Selection) (data : option (list Z)) : M clip (Z + ()) :=
  let change type format value :=
    rc ← onDix (dixChangeWindowProperty (de e) serverClient requestor
                  (if property =? None_ then target else property) type format value);
    mret (if rc =? Success then inr () else inl rc) in
  if target =? xaTARGETS e then
    change XA_ATOM 32
      [xaTARGETS e; xaTIMESTAMP e; xaSTRING e; xaTEXT e; xaUTF8_STRING e]
  else if target =? xaTIMESTAMP e then
    change XA_INTEGER 32 [milliseconds (lastTimeChanged pSel)]
  else
    match data with
    | None =>
      if negb (target =? xaSTRING e) && negb (target =? xaTEXT e)
         && negb (target =? xaUTF8_STRING e) then mret (inl BadMatch)
      else
        modify (λ s, s <| lorieDataTargetHead ::=
          cons (mk_LorieDataTarget c sel target property requestor time) |>) ;;
        lorieRequestClipboard ;;
        mret (inl Success)
    | Some mem =>
      if (target =? xaSTRING e) || (target =? xaTEXT e) then
        latin1 ← of_option (lorieUtf8ToLatin1 mem);
        change XA_STRING 8 latin1
      else if target =? xaUTF8_STRING e then
        text ← of_option (c_string mem);
        change (xaUTF8_STRING e) 8 text
      else mret (inl BadMatch)
    end.

Definition lorieConvertSelection (e : cenv) (c sel target property requestor time : Z)
    (data : option (list Z)) : M clip Z :=
  '(rc, found) ← onDix (dixLookupSelection (de e) sel c DixGetAttrAccess);
  if negb (rc =? Success) then mret rc
  else
    rc ← onDix (dixLookupWindow requestor c);
    if negb (rc =? Success) then mret rc
    else
      i ← of_option found;
      pSel ← onDix (sel_at i);
      r ← convert_target e c sel target property requestor time pSel data;
      match r with
      | inl rc => mret rc
      | inr _ => notify c time requestor sel target property ;; mret Success
      end.

(** The handler of [X_ConvertSelection]; [orig] is the one it replaced. *)
Definition lorieProcConvertSelection (orig : Z → Z → Z → Z → Z → Z → M clip Z) (e : cenv)
    (c requestor sel target property time : Z) : M clip Z :=
  rc ← onDix (dixLookupWindow requestor c);
  if negb (rc =? Success) then mret rc
  else if negb (ValidAtom (de e) sel && ValidAtom (de e) target
                && ((property =? None_) || ValidAtom (de e) property)) then
    onDix (set_errorValue c property) ;; mret BadAtom
  else
    '(rc, found) ← onDix (dixLookupSelection (de e) sel c DixReadAccess);
    ours ← (if negb (rc =? Success) then mret false
            else
              i ← of_option found;
              pSel ← onDix (sel_at i);
              mret (bool_decide (client pSel = Some serverClient)
                    && (window pSel =? root (de e))));
    if (ours : bool) then
      s ← get;
      rc ← lorieConvertSelection e c sel target property requestor time (cachedData s);
      when (negb (rc =? Success)) (notify c time requestor sel target None_) ;;
      mret Success
    else orig c requestor sel target property time.

(** The part of [lorieOwnSelection] with the record at hand. *)
Definition grab_selection (e : cenv) (i : nat) : M clip Z :=
  onDix (d ← get;
         sel_set i (λ s, s <| lastTimeChanged := currentTime d |> <| window := root (de e) |>
                           <| pWin := Some (root (de e)) |> <| client := Some serverClient |>)) ;;
  lorieSelectionCallback e i SelectionSetOwner ;;
  mret Success.

(** [SelectionClear] to the owner of an existing record. *)
Definition clear_owner (pSel : Selection) : M clip () :=
  match client pSel with
  | Some c =>
    if negb (c =? serverClient) then
      onDix (d ← get;
             WriteEventsToClient (Some c)
               (SelectionClear (milliseconds (currentTime d)) (window pSel) (selection pSel)))
    else skip
  | None => skip
  end.

Definition lorieOwnSelection (e : cenv) (sel : Z) : M clip Z :=
  '(rc, found) ← onDix (dixLookupSelection (de e) sel serverClient DixSetAttrAccess);
  if rc =? Success then
    i ← of_option found;
    pSel ← onDix (sel_at i);
    clear_owner pSel ;;
    grab_selection e i
  else if rc =? BadMatch then
    let rc := XaceHookSelectionAccess (de e) serverClient sel
                (Z.lor DixCreateAccess DixSetAttrAccess) in
    if negb (rc =? Success) then mret rc
    else onDix (sel_push sel) ;; grab_selection e 0
  else mret rc.

Definition lorieHandleClipboardAnnounce (e : cenv) : M clip () :=
  modify (λ s, s <| cachedData := None |>) ;;
  _ ← lorieOwnSelection e (xaCLIPBOARD e);
  skip.

(** One turn of the loop of [lorieHandleClipboardData] for the head. *)
Definition serve_target (e : cenv) (t : LorieDataTarget) : M clip () :=
  s ← get;
  rc ← lorieConvertSelection e (ldt_client t) (ldt_selection t) (ldt_target t)
         (ldt_property t) (ldt_requestor t) (ldt_time t) (cachedData s);
  when (negb (rc =? Success))
    (notify (ldt_client t) (ldt_time t) (ldt_requestor t) (ldt_selection t) (ldt_target t)
       None_).

(** The [while] loop: [next] is read after the conversion. *)
Fixpoint serve_targets (fuel : nat) (e : cenv) : M clip () :=
  match fuel with
  | O => ub
  | S fuel' =>
    s ← get;
    match lorieDataTargetHead s with
    | [] => skip
    | t :: _ =>
      serve_target e t ;;
      modify (λ s, s <| lorieDataTargetHead ::= tail |>) ;;
      serve_targets fuel' e
    end
  end.

Definition lorieHandleClipboardData (fuel : nat) (e : cenv) (mem : option (list Z))
  : M clip () :=
  modify (λ s, s <| cachedData := mem |>) ;;
  serve_targets fuel e.

(** ** Frames *)

(** The clipboard variables are as before; dix has written [evs]. *)
Record cframes (s : clip) (evs : list (Z * xEvent)) (s' : clip) : Prop := mk_cframes {
  cf_dix : frames (xs s) evs (xs s');
  cf_enabled : clipboardEnabled s' = clipboardEnabled s;
  cf_cached : cachedData s' = cachedData s;
  cf_head : lorieDataTargetHead s' = lorieDataTargetHead s;
  cf_requested : requested s' = requested s;
  cf_sent : sent s' = sent s
}.

Lemma cframes_trans s1 s2 s3 ev1 ev2 :
  cframes s1 ev1 s2 → cframes s2 ev2 s3 → cframes s1 (ev1 ++ ev2) s3.
Proof.
  intros [D1 ?????] [D2 ?????]. split; [by eapply frames_trans|congruence..].
Qed.

Lemma cframes_nil s1 s2 s3 ev : cframes s1 [] s2 → cframes s2 ev s3 → cframes s1 ev s3.
Proof. apply cframes_trans. Qed.

Lemma cframes_set s d evs : frames (xs s) evs d → cframes s evs (s <| xs := d |>).
Proof. by intros ?. Qed.

Lemma onDix_run {A} (m : M dix A) (s : clip) a d :
  m (xs s) = Some (a, d) → onDix m s = Some (a, s <| xs := d |>).
Proof. intros E. unfold onDix. simpl. by rewrite E. Qed.

(** A client that a pending request can be answered to. *)
Definition reachable_client (s : clip) (c : Z) : Prop :=
  live (xs s) c = true ∧ c ≠ serverClient.
Definition server_up (s : clip) : Prop := live (xs s) serverClient = true.

Lemma reachable_cframes s evs s' c :
  cframes s evs s' → reachable_client s c → reachable_client s' c.
Proof. intros [D _ _ _ _ _] [? ?]. split; [|done]. by rewrite (fr_live _ _ _ D). Qed.
Lemma server_cframes s evs s' : cframes s evs s' → server_up s → server_up s'.
Proof. intros [D _ _ _ _ _] ?. unfold server_up. by rewrite (fr_live _ _ _ D). Qed.

Lemma notify_run s c time req sel target property :
  reachable_client s c →
  ∃ s', notify c time req sel target property s = Some ((), s')
    ∧ cframes s [(c, SelectionNotify time req sel target property)] s'
    ∧ windows (xs s') = windows (xs s).
Proof.
  intros [Hl Hc]. unfold notify.
  destruct (WriteEvents_run c (SelectionNotify time req sel target property) (xs s) Hl Hc)
    as (d & E & Hf & Hw). rewrite (onDix_run _ _ _ _ E). eexists. split; [done|].
  split; [by apply cframes_set|done].
Qed.

(** ** Answering a request *)

(** The C string of a well-formed text. *)
Definition holds_text (mem cps : list Z) : Prop :=
  text cps ∧ Z.of_nat (length (utf8_encode cps)) < 4294967295
  ∧ ∃ tl, mem = utf8_encode cps ++ 0 :: tl.

Lemma holds_text_latin1 mem cps :
  holds_text mem cps → lorieUtf8ToLatin1 mem = Some (latin1_of <$> cps).
Proof. intros (Ht & Hl & tl & ->). by apply utf8ToLatin1_text. Qed.

Lemma holds_text_c_string mem cps :
  holds_text mem cps → c_string mem = Some (utf8_encode cps).
Proof.
  intros (Ht & Hl & tl & ->). unfold c_string.
  rewrite existsb_app, orb_true_r, cstr_app by (by apply utf8_encode_nul_free). done.
Qed.

Definition real_property (target property : Z) : Z :=
  if property =? None_ then target else property.

(** The property a request is answered with, [None] for an unknown target. *)
Definition answer (e : cenv) (target property : Z) (pSel : Selection) (cps : list Z)
  : option PropertyRec :=
  let p := mk_PropertyRec (real_property target property) in
  if target =? xaTARGETS e then
    Some (p XA_ATOM 32 [xaTARGETS e; xaTIMESTAMP e; xaSTRING e; xaTEXT e; xaUTF8_STRING e])
  else if target =? xaTIMESTAMP e then
    Some (p XA_INTEGER 32 [milliseconds (lastTimeChanged pSel)])
  else if (target =? xaSTRING e) || (target =? xaTEXT e) then
    Some (p XA_STRING 8 (latin1_of <$> cps))
  else if target =? xaUTF8_STRING e then Some (p (xaUTF8_STRING e) 8 (utf8_encode cps))
  else None.

(** Every security hook consents. *)
Definition permissive (e : denv) : Prop :=
  (∀ c n m, XaceHookSelectionAccess e c n m = Success)
  ∧ (∀ c w n m, XaceHookPropertyAccess e c w n m = Success).

(** The targets whose answer needs the Android side. *)
Definition text_target (e : cenv) (target : Z) : Prop :=
  target ≠ xaTARGETS e ∧ target ≠ xaTIMESTAMP e
  ∧ target ∈ [xaSTRING e; xaTEXT e; xaUTF8_STRING e].

Ltac drun := mrun; cbn [xs clipboardEnabled cachedData lorieDataTargetHead requested sent].
Tactic Notation "drun" "in" hyp(H) :=
  mrun in H; cbn [xs clipboardEnabled cachedData lorieDataTargetHead requested sent] in H.

(** The outcome of [convert_target] when it does not queue the request. *)
Definition target_post (e : cenv) (target property requestor : Z) (pSel : Selection)
    (cps : list Z) (s : clip) (r : Z + ()) (s' : clip) : Prop :=
  cframes s [] s' ∧ r ≠ inl Success
  ∧ (r = inr () → is_Some (answer e target property pSel cps)
       ∧ prop_of (xs s') requestor (real_property target property)
         = answer e target property pSel cps)
  ∧ (permissive (de e) → is_Some (answer e target property pSel cps) → r = inr ()).

Lemma change_answer e target property requestor pSel cps s ty fmt value :
  server_up s → is_Some (windows (xs s) !! requestor) →
  answer e target property pSel cps
    = Some (mk_PropertyRec (real_property target property) ty fmt value) →
  ∃ r s', (rc ← onDix (dixChangeWindowProperty (de e) serverClient requestor
                (real_property target property) ty fmt value);
           mret (if rc =? Success then inr () else inl rc)) s = Some (r, s')
    ∧ target_post e target property requestor pSel cps s r s'.
Proof.
  intros Hs Hw Ha.
  destruct (dixChangeWindowProperty_run (de e) serverClient requestor
    (real_property target property) ty fmt value (xs s) Hs Hw)
    as (rc & d & E & Hf & Hok & Hp). drun. rewrite (onDix_run _ _ _ _ E).
  eexists _, _. split; [done|]. unfold target_post. rewrite Ha. simpl in *.
  destruct (Z.eqb_spec rc Success);
    (split_and!; [by apply cframes_set|by congruence|..]).
  - intros _. rewrite Hok by done. eauto.
  - done.
  - done.
  - intros [_ Hx] _. destruct n. by apply Hp.
Qed.

Lemma target_refused e target property requestor pSel cps s :
  answer e target property pSel cps = None →
  target_post e target property requestor pSel cps s (inl BadMatch) s.
Proof.
  intros Ha. split_and!; [|done|done|].
  - split; [apply frames_refl|done..].
  - rewrite Ha. by intros _ [? ?].
Qed.

Lemma convert_target_data e c sel target property requestor time pSel data cps s :
  (∀ mem, data = Some mem → holds_text mem cps) →
  (data = None → ¬ text_target e target) →
  server_up s → is_Some (windows (xs s) !! requestor) →
  ∃ r s', convert_target e c sel target property requestor time pSel data s = Some (r, s')
    ∧ target_post e target property requestor pSel cps s r s'.
Proof.
  intros Hd Hn Hs Hw.
  pose proof (λ ty fmt value, change_answer e target property requestor pSel cps s ty fmt
                value Hs Hw) as Hchange.
  pose proof (target_refused e target property requestor pSel cps s) as Href.
  drun in Hchange. unfold convert_target, answer, real_property in *. drun.
  destruct (target =? xaTARGETS e) eqn:E1; [by apply Hchange|].
  destruct (target =? xaTIMESTAMP e) eqn:E2; [by apply Hchange|].
  bool_to_prop. destruct data as [mem|].
  - specialize (Hd mem eq_refl).
    rewrite (holds_text_latin1 _ _ Hd), (holds_text_c_string _ _ Hd). drun.
    destruct ((target =? xaSTRING e) || (target =? xaTEXT e)) eqn:E3; [by apply Hchange|].
    destruct (target =? xaUTF8_STRING e) eqn:E4; [by apply Hchange|].
    eexists _, _. split; [done|]. by apply Href.
  - specialize (Hn eq_refl).
    assert ((target =? xaSTRING e) = false ∧ (target =? xaTEXT e) = false
            ∧ (target =? xaUTF8_STRING e) = false) as (E3 & E4 & E5).
    { rewrite !Z.eqb_neq. split_and!; intros ->; apply Hn;
        (split_and!; [done..|set_solver]). }
    rewrite E3, E4, E5 in *. cbn [negb andb orb] in *.
    eexists _, _. split; [done|]. by apply Href.
Qed.

(** The selection record of a name. *)
Definition lookup_selection (d : dix) (name : Z) : option Selection :=
  i ← index_of (λ s, selection s =? name) (CurrentSelections d); CurrentSelections d !! i.

(** A lookup of the selection that finds it and is allowed. *)
Lemma lookup_granted e name c mode s rc o :
  rc = (if o is Some _ then XaceHookSelectionAccess e c name mode else BadMatch) →
  o = index_of (λ x, selection x =? name) (CurrentSelections (xs s)) → rc = Success →
  ∃ i pSel, o = Some i ∧ CurrentSelections (xs s) !! i = Some pSel
    ∧ lookup_selection (xs s) name = Some pSel.
Proof.
  intros Hrc Ho Hs. destruct o as [i|]; [|by subst].
  symmetry in Ho. destruct (index_of_Some _ _ _ Ho) as (pSel & E & _).
  exists i, pSel. split_and!; [done..|]. unfold lookup_selection. by rewrite Ho.
Qed.

Lemma sel_at_run (s : clip) i pSel :
  CurrentSelections (xs s) !! i = Some pSel → onDix (sel_at i) s = Some (pSel, s).
Proof.
  intros E. unfold onDix, sel_at. mrun. simpl. rewrite E. by destruct s.
Qed.

Lemma onLookupSelection e name c mode s :
  live (xs s) c = true →
  ∃ rc o s1, onDix (dixLookupSelection e name c mode) s = Some ((rc, o), s1)
    ∧ cframes s [] s1 ∧ windows (xs s1) = windows (xs s)
    ∧ o = index_of (λ x, selection x =? name) (CurrentSelections (xs s))
    ∧ rc = (if o is Some _ then XaceHookSelectionAccess e c name mode else BadMatch).
Proof.
  intros Hl. destruct (dixLookupSelection_run e name c mode (xs s) Hl)
    as (rc & o & d & E & Hf & Hw & Ho & Hrc).
  rewrite (onDix_run _ _ _ _ E). eexists _, _, _. split; [done|].
  split; [by apply cframes_set|done].
Qed.

(** A lookup does not look at the clock. *)
Lemma lookup_selection_time e name c mode s r s1 :
  onDix (dixLookupSelection e name c mode) s = Some (r, s1) →
  currentTime (xs s1) = currentTime (xs s).
Proof.
  unfold onDix, dixLookupSelection, set_errorValue. drun. cbn [dix_of set_dix clip_dix].
  destruct (live (xs s) c); [|done]. drun. simpl.
  destruct (index_of _ _); intros [= <- <-]; done.
Qed.

Lemma onLookupWindow w c s :
  live (xs s) c = true →
  ∃ rc s1, onDix (dixLookupWindow w c) s = Some (rc, s1)
    ∧ cframes s [] s1 ∧ windows (xs s1) = windows (xs s)
    ∧ rc = (if windows (xs s) !! w is Some _ then Success else BadWindow).
Proof.
  intros Hl. destruct (dixLookupWindow_run w c (xs s) Hl) as (rc & d & E & Hf & Hw & Hrc).
  rewrite (onDix_run _ _ _ _ E). eexists _, _. split; [done|].
  split; [by apply cframes_set|done].
Qed.

Lemma cframes_live s evs s' c : cframes s evs s' → live (xs s') c = live (xs s) c.
Proof. intros [D _ _ _ _ _]. apply (fr_live _ _ _ D). Qed.
Lemma cframes_sel s evs s' :
  cframes s evs s' → CurrentSelections (xs s') = CurrentSelections (xs s).
Proof. intros [D _ _ _ _ _]. apply (fr_sel _ _ _ D). Qed.

(** The outcome of [lorieConvertSelection] when it does not queue the request:
    on [Success], and only then, one notification that names the property,
    and the property holds the answer. *)
Definition convert_post (e : cenv) (c sel target property requestor time : Z)
    (cps : list Z) (s : clip) (rc : Z) (s' : clip) : Prop :=
  cframes s (if rc =? Success
             then [(c, SelectionNotify time requestor sel target property)] else []) s'
  ∧ (rc = Success → ∃ pSel, lookup_selection (xs s) sel = Some pSel
       ∧ is_Some (answer e target property pSel cps)
       ∧ prop_of (xs s') requestor (real_property target property)
         = answer e target property pSel cps)
  ∧ (permissive (de e) → is_Some (windows (xs s) !! requestor) →
     (∃ pSel, lookup_selection (xs s) sel = Some pSel
       ∧ is_Some (answer e target property pSel cps)) → rc = Success).

Lemma convert_early e c sel target property requestor time cps s rc s' :
  cframes s [] s' → rc ≠ Success →
  (permissive (de e) → ¬ (is_Some (windows (xs s) !! requestor)
                          ∧ is_Some (lookup_selection (xs s) sel))) →
  convert_post e c sel target property requestor time cps s rc s'.
Proof.
  intros Hf Hrc Hp. split_and!.
  - by rewrite (proj2 (Z.eqb_neq _ _) Hrc).
  - done.
  - intros H1 H2 (pSel & H3 & _). destruct (Hp H1). rewrite H3. eauto.
Qed.

Lemma convert_selection_run e c sel target property requestor time data cps s :
  (∀ mem, data = Some mem → holds_text mem cps) →
  (data = None → ¬ text_target e target) →
  server_up s → reachable_client s c →
  ∃ rc s', lorieConvertSelection e c sel target property requestor time data s = Some (rc, s')
    ∧ convert_post e c sel target property requestor time cps s rc s'.
Proof.
  intros Hd Hn Hs Hc. unfold lorieConvertSelection. drun.
  destruct (onLookupSelection (de e) sel c DixGetAttrAccess s (proj1 Hc))
    as (rc & o & s1 & -> & F1 & W1 & Ho & Hrc). drun.
  destruct (Z.eqb_spec rc Success) as [E1|E1]; cbn [negb].
  2:{ drun. eexists _, _. split; [done|]. apply convert_early; [done..|].
      intros [Hp _] [_ [pSel Hl]]. apply E1. rewrite Hrc. unfold lookup_selection in Hl.
      rewrite <-Ho in Hl. destruct o; [apply Hp|done]. }
  destruct (lookup_granted _ _ _ _ _ _ _ Hrc Ho E1) as (i & pSel & -> & Ei & Hl).
  destruct (onLookupWindow requestor c s1) as (rc2 & s2 & -> & F2 & W2 & Hrc2).
  { rewrite (cframes_live _ _ _ _ F1). apply Hc. }
  pose proof (cframes_nil _ _ _ _ F1 F2) as F. rewrite W1 in Hrc2. drun.
  destruct (windows (xs s) !! requestor) as [win|] eqn:Ew; subst rc2.
  2:{ change (BadWindow =? Success) with false. drun. eexists _, _. split; [done|]. apply convert_early; [done..|].
      rewrite Ew. by intros _ [[? ?] _]. }
  change (Success =? Success) with true. cbn [negb].
  drun. rewrite (sel_at_run s2 i pSel) by (by rewrite (cframes_sel _ _ _ F)).
  destruct (convert_target_data e c sel target property requestor time pSel data cps s2 Hd Hn)
    as (r & s3 & -> & F3 & Hr & Hok & Hp).
  { by eapply server_cframes. }
  { rewrite W2, W1, Ew. eauto. }
  pose proof (cframes_nil _ _ _ _ F F3) as F'.
  destruct r as [rc3|[]].
  - drun. eexists _, _. split; [done|]. split_and!.
    + by rewrite (proj2 (Z.eqb_neq rc3 Success)) by congruence.
    + intros ->. done.
    + intros Hpe _ (pSel' & E' & Ha). rewrite Hl in E'. simplify_eq. by specialize (Hp Hpe Ha).
  - drun. destruct (notify_run s3 c time requestor sel target property) as (s4 & -> & F4 & W4).
    { by eapply reachable_cframes. }
    eexists _, _. split; [done|]. split_and!; [by apply (cframes_nil _ _ _ _ F')| |done].
    intros _. exists pSel. destruct (Hok eq_refl) as [? Ha]. split_and!; [done..|].
    rewrite <-Ha. unfold prop_of. by rewrite W4.
Qed.

(** ** The waiting requests *)

(** The notification a waiting request gets: its own property, or [None] for a
    refusal. *)
Definition answered (t : LorieDataTarget) (p : Z * xEvent) : Prop :=
  p.1 = ldt_client t ∧ ∃ property, property ∈ [ldt_property t; None_]
  ∧ p.2 = SelectionNotify (ldt_time t) (ldt_requestor t) (ldt_selection t) (ldt_target t)
            property.

Lemma serve_target_run e t mem cps s :
  cachedData s = Some mem → holds_text mem cps → server_up s →
  reachable_client s (ldt_client t) →
  ∃ s' ev, serve_target e t s = Some ((), s') ∧ cframes s [ev] s' ∧ answered t ev.
Proof.
  intros Hm Ht Hs Hc. unfold serve_target. drun.
  destruct (convert_selection_run e (ldt_client t) (ldt_selection t) (ldt_target t)
    (ldt_property t) (ldt_requestor t) (ldt_time t) (cachedData s) cps s)
    as (rc & s1 & -> & F & _); [by intros; simplify_eq|by rewrite Hm|done..|].
  unfold when. destruct (rc =? Success); cbn [negb].
  - drun. eexists _, _. split; [done|]. split; [done|]. split; [done|].
    eexists. split; [|done]. set_solver.
  - destruct (notify_run s1 (ldt_client t) (ldt_time t) (ldt_requestor t) (ldt_selection t)
      (ldt_target t) None_) as (s2 & E & F2 & _); [by eapply reachable_cframes|].
    eexists _, _. split; [done|]. split; [by apply (cframes_nil _ _ _ _ F)|].
    split; [done|]. eexists. split; [|done]. set_solver.
Qed.

Lemma serve_targets_run e mem cps : ∀ l fuel s,
  lorieDataTargetHead s = l → cachedData s = Some mem → holds_text mem cps → server_up s →
  Forall (λ t, reachable_client s (ldt_client t)) l → (length l < fuel)%nat →
  ∃ s' evs, serve_targets fuel e s = Some ((), s')
    ∧ lorieDataTargetHead s' = [] ∧ cachedData s' = Some mem ∧ requested s' = requested s
    ∧ events (xs s') = events (xs s) ++ evs ∧ Forall2 answered l evs.
Proof.
  intros l. induction l as [|t l IH]; intros [|fuel] s Hl Hm Ht Hs Hc Hf; simpl in Hf;
    try lia; cbn [serve_targets]; drun; rewrite Hl.
  { drun. eexists s, []. split_and!; try done. by rewrite app_nil_r. }
  inv Hc as [|? ? Hc1 Hc2].
  destruct (serve_target_run e t mem cps s Hm Ht Hs Hc1) as (s1 & ev & E & F & Ha).
  drun. rewrite E. drun. pose proof F as [D _ Hcd Hh Hrq _]. rewrite Hh, Hl. simpl.
  destruct (IH fuel (s1 <| lorieDataTargetHead := l |>)) as (s2 & evs & E2 & H1 & H2 & H3 & H4 & H5);
    simpl; [done|congruence|done|exact (server_cframes _ _ _ F Hs)| |lia|].
  { apply (Forall_impl _ _ _ Hc2). intros t' Ht'. exact (reachable_cframes _ _ _ _ F Ht'). }
  simpl in *. rewrite E2. eexists s2, (ev :: evs). split_and!; try done; [congruence| |by constructor].
  rewrite H4, (fr_ev _ _ _ D). by rewrite <-app_assoc.
Qed.

(** C2: Every waiting request is answered, once: when the Android side
    delivers a well-formed text, [lorieHandleClipboardData] terminates, leaves
    no request waiting, caches the text, and sends exactly one
    [SelectionNotify] per waiting request, to the client that made it, with
    its time, requestor, selection and target, and with its property or
    [None]. *)
Theorem clipboard_data_answers_all fuel e mem cps s :
  holds_text mem cps → server_up s →
  Forall (λ t, reachable_client s (ldt_client t)) (lorieDataTargetHead s) →
  (length (lorieDataTargetHead s) < fuel)%nat →
  ∃ s' evs, lorieHandleClipboardData fuel e (Some mem) s = Some ((), s')
    ∧ lorieDataTargetHead s' = [] ∧ cachedData s' = Some mem ∧ requested s' = requested s
    ∧ events (xs s') = events (xs s) ++ evs ∧ Forall2 answered (lorieDataTargetHead s) evs.
Proof.
  intros Ht Hs Hc Hf. unfold lorieHandleClipboardData. drun.
  pose proof (serve_targets_run e mem cps (lorieDataTargetHead s) fuel
                (s <| cachedData := Some mem |>)) as H. simpl in H. by apply H.
Qed.

(** ** A concrete server *)

Definition demo_denv : denv := mk_denv 5000 400 1 (λ _ _ _, Success) (λ _ _ _ _, Success).
Definition demo_cenv : cenv := mk_cenv demo_denv 301 302 303 304 31 305 [0].

(** Client 7 with window 70; client 8 with window 80, owner of CLIPBOARD. *)
Definition demo_dix : dix :=
  mk_dix [mk_Selection 303 (mk_TimeStamp 0 100) 80 (Some 80) (Some 8)]
    {[1 := mk_WindowRec 0 []; 70 := mk_WindowRec 7 []; 80 := mk_WindowRec 8 []]}
    {[0 := 0; 7 := 0; 8 := 0]} (mk_TimeStamp 0 4000) [] [].
Definition demo_clip : clip := mk_clip demo_dix true None [] 0 [].

Definition clip_state {A} (r : option (A * clip)) : clip :=
  match r with Some (_, s) => s | None => demo_clip end.

Definition no_orig (c requestor sel target property time : Z) : M clip Z := mret Success.

(** After an announcement and a request of client 7 for UTF8_STRING. *)
Definition demo_announced : clip := clip_state (lorieHandleClipboardAnnounce demo_cenv demo_clip).
Definition demo_waiting : clip :=
  clip_state (lorieProcConvertSelection no_orig demo_cenv 7 70 303 305 400 99 demo_announced).

Lemma clipboard_data_answers_all_witness :
  ∃ s' evs, lorieHandleClipboardData 2 demo_cenv (Some [104; 105; 0]) demo_waiting = Some ((), s')
    ∧ lorieDataTargetHead s' = []
    ∧ events (xs s') = [(8, SelectionClear 4000 80 303)] ++ evs
    ∧ Forall2 answered [mk_LorieDataTarget 7 303 305 400 70 99] evs.
Proof.
  destruct (clipboard_data_answers_all 2 demo_cenv [104; 105; 0] [104; 105] demo_waiting)
    as (s' & evs & E & E1 & _ & _ & E4 & E5).
  - split_and!; [repeat constructor; lia|vm_compute; done|by exists []].
  - vm_compute. done.
  - vm_compute. repeat constructor; done.
  - vm_compute. lia.
  - exists s', evs. by split_and!.
Defined.

(** ** A request for the selection we own *)

(** The selection exists, is ours, and the hooks let the client see it. *)
Definition owned_by_us (e : cenv) (s : clip) (sel : Z) : Prop :=
  ∃ pSel, lookup_selection (xs s) sel = Some pSel
    ∧ client pSel = Some serverClient ∧ window pSel = root (de e).

(** Up to the point where [lorieProcConvertSelection] calls
    [lorieConvertSelection]. *)
Lemma proc_convert_ours orig e c requestor sel target property time s :
  permissive (de e) → owned_by_us e s sel → live (xs s) c = true →
  is_Some (windows (xs s) !! requestor) → ValidAtom (de e) sel = true →
  ValidAtom (de e) target = true → ((property =? None_) || ValidAtom (de e) property) = true →
  ∃ s1, cframes s [] s1 ∧ windows (xs s1) = windows (xs s) ∧
    lorieProcConvertSelection orig e c requestor sel target property time s
    = (rc ← lorieConvertSelection e c sel target property requestor time (cachedData s1);
       when (negb (rc =? Success)) (notify c time requestor sel target None_) ;;
       mret Success) s1.
Proof.
  intros [Hp _] (pSel & Hl & Hcl & Hwi) Hc [win Hw] V1 V2 V3.
  unfold lorieProcConvertSelection. drun.
  destruct (onLookupWindow requestor c s Hc) as (rc & s1 & -> & F1 & W1 & ->). rewrite Hw.
  change (Success =? Success) with true. cbn [negb]. rewrite V1, V2, V3. cbn [andb negb]. drun.
  destruct (onLookupSelection (de e) sel c DixReadAccess s1) as (rc & o & s2 & -> & F2 & W2 & Ho & ->).
  { by rewrite (cframes_live _ _ _ _ F1). }
  rewrite (cframes_sel _ _ _ F1) in Ho. unfold lookup_selection in Hl. rewrite <-Ho in Hl.
  destruct o as [i|]; [|done]. simpl in Hl. rewrite Hp. drun.
  change (Success =? Success) with true. cbn [negb]. drun.
  pose proof (cframes_nil _ _ _ _ F1 F2) as F.
  rewrite (sel_at_run s2 i pSel) by (by rewrite (cframes_sel _ _ _ F)). drun.
  rewrite Hcl, Hwi, Z.eqb_refl. rewrite bool_decide_eq_true_2 by done. cbn [andb]. drun.
  exists s2. split_and!; [done|by rewrite W2|done].
Qed.

(** A text target without data is queued. *)
Lemma convert_selection_queue e c sel target property requestor time s :
  permissive (de e) → is_Some (lookup_selection (xs s) sel) → live (xs s) c = true →
  is_Some (windows (xs s) !! requestor) → text_target e target →
  ∃ s1, cframes s [] s1 ∧
    lorieConvertSelection e c sel target property requestor time None s
    = Some (Success, s1 <| lorieDataTargetHead ::=
              cons (mk_LorieDataTarget c sel target property requestor time) |>
              <| requested ::= S |>).
Proof.
  intros [Hp _] [pSel Hl] Hc [win Hw] (T1 & T2 & T3).
  unfold lorieConvertSelection. drun.
  destruct (onLookupSelection (de e) sel c DixGetAttrAccess s Hc)
    as (rc & o & s1 & -> & F1 & W1 & Ho & ->).
  unfold lookup_selection in Hl. rewrite <-Ho in Hl. destruct o as [i|]; [|done].
  simpl in Hl. rewrite Hp. drun. change (Success =? Success) with true. cbn [negb].
  destruct (onLookupWindow requestor c s1) as (rc & s2 & -> & F2 & W2 & ->).
  { by rewrite (cframes_live _ _ _ _ F1). }
  rewrite W1, Hw. change (Success =? Success) with true. cbn [negb]. drun.
  pose proof (cframes_nil _ _ _ _ F1 F2) as F.
  rewrite (sel_at_run s2 i pSel) by (by rewrite (cframes_sel _ _ _ F)). drun.
  exists s2. split; [done|]. unfold convert_target, lorieRequestClipboard. drun.
  rewrite (proj2 (Z.eqb_neq _ _) T1), (proj2 (Z.eqb_neq _ _) T2).
  assert (negb (target =? xaSTRING e) && negb (target =? xaTEXT e)
          && negb (target =? xaUTF8_STRING e) = false) as ->; [|done].
  rewrite !elem_of_cons in T3. destruct T3 as [->|[->|[->|[]%elem_of_nil]]];
    rewrite Z.eqb_refl; cbn [negb]; by rewrite ?andb_false_r.
Qed.

(** A request for the clipboard we own is answered at once or waits, never
    both and never neither: it either gets exactly one [SelectionNotify] to
    the requesting client (its property, or [None] for a refusal) and nothing
    is queued, or there is no data yet for its text target, it is put in front
    of the waiting requests, and the Android side is asked for its data once. *)
Theorem convert_request_answered_or_queued orig e c requestor sel target property time s cps :
  permissive (de e) → owned_by_us e s sel → server_up s → reachable_client s c →
  is_Some (windows (xs s) !! requestor) → ValidAtom (de e) sel = true →
  ValidAtom (de e) target = true → ((property =? None_) || ValidAtom (de e) property) = true →
  (∀ mem, cachedData s = Some mem → holds_text mem cps) →
  let t := mk_LorieDataTarget c sel target property requestor time in
  ∃ s', lorieProcConvertSelection orig e c requestor sel target property time s
      = Some (Success, s') ∧
    ((∃ ev, cframes s [ev] s' ∧ answered t ev)
     ∨ (cachedData s = None ∧ text_target e target ∧ events (xs s') = events (xs s)
        ∧ lorieDataTargetHead s' = t :: lorieDataTargetHead s
        ∧ requested s' = S (requested s) ∧ cachedData s' = None)).
Proof.
  intros Hp Ho Hs Hc Hw V1 V2 V3 Hd t.
  destruct (proc_convert_ours orig e c requestor sel target property time s)
    as (s1 & F1 & W1 & ->); try done; [apply Hc|].
  pose proof (cf_cached _ _ _ F1) as Hcd.
  destruct (decide (cachedData s = None ∧ text_target e target)) as [[Hn Htt]|Hnot].
  - destruct Ho as (pSel & Hl & _).
    destruct (convert_selection_queue e c sel target property requestor time s1)
      as (s2 & F2 & E); [done| | |by rewrite W1|done|].
    { unfold lookup_selection in *. rewrite (cframes_sel _ _ _ F1), Hl. eauto. }
    { rewrite (cframes_live _ _ _ _ F1). apply Hc. }
    pose proof (cframes_nil _ _ _ _ F1 F2) as [D _ HC HH HR _]. drun. rewrite Hcd, Hn, E.
    eexists. split; [done|]. right. simpl. pose proof (fr_ev _ _ _ D) as Hev.
    rewrite app_nil_r in Hev. rewrite HH, HR, HC, Hn. by split_and!.
  - destruct (convert_selection_run e c sel target property requestor time (cachedData s1) cps s1)
      as (rc & s2 & E & F2 & _).
    { by rewrite Hcd. }
    { rewrite Hcd. tauto. }
    { by eapply server_cframes. }
    { by eapply reachable_cframes. }
    pose proof (cframes_nil _ _ _ _ F1 F2) as F. drun. rewrite E. unfold when.
    destruct (rc =? Success); cbn [negb]; drun.
    + eexists. split; [done|]. left. eexists. split; [done|]. split; [done|].
      eexists. split; [|done]. set_solver.
    + destruct (notify_run s2 c time requestor sel target None_) as (s3 & -> & F3 & _).
      { by eapply reachable_cframes. }
      eexists. split; [done|]. left. eexists. split; [by apply (cframes_nil _ _ _ _ F)|].
      split; [done|]. eexists. split; [|done]. set_solver.
Qed.

Lemma convert_request_answered_or_queued_witness :
  ∃ s', lorieProcConvertSelection no_orig demo_cenv 7 70 303 305 400 99 demo_announced
      = Some (Success, s')
    ∧ ((∃ ev, cframes demo_announced [ev] s') ∨ requested s' = S (requested demo_announced)).
Proof.
  destruct (convert_request_answered_or_queued no_orig demo_cenv 7 70 303 305 400 99
    demo_announced []) as (s' & E & H).
  - by vm_compute.
  - eexists. vm_compute. done.
  - vm_compute. done.
  - vm_compute. done.
  - vm_compute. eauto.
  - vm_compute. done.
  - vm_compute. done.
  - vm_compute. done.
  - by intros mem [=].
  - exists s'. split; [exact E|].
    destruct H as [(ev & F & _)|(_ & _ & _ & _ & R & _)]; [left; by exists ev|by right].
Defined.

(** ** Paste: from the request to the data *)

(** The property a text request is answered with. *)
Definition text_answer (e : cenv) (target property : Z) (cps : list Z) : PropertyRec :=
  if (target =? xaSTRING e) || (target =? xaTEXT e)
  then mk_PropertyRec (real_property target property) XA_STRING 8 (latin1_of <$> cps)
  else mk_PropertyRec (real_property target property) (xaUTF8_STRING e) 8 (utf8_encode cps).

Lemma answer_text e target property pSel cps :
  text_target e target → answer e target property pSel cps = Some (text_answer e target property cps).
Proof.
  intros (T1 & T2 & T3). unfold answer, text_answer.
  rewrite (proj2 (Z.eqb_neq _ _) T1), (proj2 (Z.eqb_neq _ _) T2).
  destruct (_ || _) eqn:E; [done|]. bool_to_prop. rewrite !elem_of_cons in T3.
  destruct T3 as [?|[?|[->|[]%elem_of_nil]]]; [done..|]. by rewrite Z.eqb_refl.
Qed.

Lemma prop_of_set_head s l w n :
  prop_of (xs (s <| lorieDataTargetHead := l |>)) w n = prop_of (xs s) w n.
Proof. done. Qed.

(** C1: Paste works end to end: a client asks for the text of the clipboard we
    own when nothing is cached, the request waits, and when the Android side
    delivers a text the client's window holds it under the property the client
    named (Latin-1 for STRING and TEXT, the UTF-8 bytes for UTF8_STRING) and
    the client gets exactly one notification, which names that property. *)
Theorem paste_end_to_end orig e c requestor sel target property time s mem cps :
  permissive (de e) → owned_by_us e s sel → server_up s → reachable_client s c →
  is_Some (windows (xs s) !! requestor) → ValidAtom (de e) sel = true →
  ValidAtom (de e) target = true → ((property =? None_) || ValidAtom (de e) property) = true →
  cachedData s = None → lorieDataTargetHead s = [] → text_target e target →
  holds_text mem cps →
  ∃ s1 s2, lorieProcConvertSelection orig e c requestor sel target property time s
      = Some (Success, s1)
    ∧ lorieHandleClipboardData 2 e (Some mem) s1 = Some ((), s2)
    ∧ events (xs s2) = events (xs s) ++ [(c, SelectionNotify time requestor sel target property)]
    ∧ prop_of (xs s2) requestor (real_property target property)
      = Some (text_answer e target property cps)
    ∧ lorieDataTargetHead s2 = [].
Proof.
  intros Hp Ho Hs Hc Hw V1 V2 V3 Hn Hh Htt Ht.
  destruct (proc_convert_ours orig e c requestor sel target property time s)
    as (s1 & F1 & W1 & ->); try done; [apply Hc|].
  destruct Ho as (pSel & Hl & _).
  destruct (convert_selection_queue e c sel target property requestor time s1)
    as (s2 & F2 & E); [done| | |by rewrite W1|done|].
  { unfold lookup_selection in *. rewrite (cframes_sel _ _ _ F1), Hl. eauto. }
  { rewrite (cframes_live _ _ _ _ F1). apply Hc. }
  pose proof (cframes_nil _ _ _ _ F1 F2) as F. pose proof F as [D _ HC HH HR _].
  drun. rewrite (cf_cached _ _ _ F1), Hn, E. apply ex_run.
  unfold lorieHandleClipboardData. cbn [serve_targets]. drun. rewrite HH, Hh. drun.
  unfold serve_target. cbn [ldt_client ldt_selection ldt_target ldt_property ldt_requestor ldt_time].
  drun.
  match goal with |- context [lorieConvertSelection _ _ _ _ _ _ _ _ ?s] =>
    destruct (convert_selection_run e c sel target property requestor time (Some mem) cps s)
      as (rc & s3 & -> & F3 & Hprop & Hok) end.
  { by intros ? [= <-]. } { done. }
  { exact (server_cframes _ _ _ F Hs). } { exact (reachable_cframes _ _ _ _ F Hc). }
  assert (rc = Success) as ->.
  { apply Hok; simpl; [done|by apply (fr_win _ _ _ D)|]. exists pSel.
    rewrite (answer_text _ _ _ _ _ Htt).
    unfold lookup_selection in *. rewrite (fr_sel _ _ _ D), Hl. eauto. }
  destruct (Hprop eq_refl) as (pSel' & _ & _ & Hpr). rewrite answer_text in Hpr by done.
  change (Success =? Success) with true in F3 |- *. destruct F3 as [D3 _ HC3 HH3 HR3 _].
  cbn [negb when]. drun. simpl in *. rewrite HH3. simpl. eexists. split; [done|]. split_and!; try done.
  simpl. rewrite (fr_ev _ _ _ D3). simpl. by rewrite (fr_ev _ _ _ D), app_nil_r.
Qed.

Lemma paste_end_to_end_witness :
  ∃ s1 s2, lorieProcConvertSelection no_orig demo_cenv 7 70 303 31 0 99 demo_announced
      = Some (Success, s1)
    ∧ lorieHandleClipboardData 2 demo_cenv (Some [195; 169; 0]) s1 = Some ((), s2)
    ∧ prop_of (xs s2) 70 31 = Some (mk_PropertyRec 31 XA_STRING 8 [233]).
Proof.
  destruct (paste_end_to_end no_orig demo_cenv 7 70 303 31 0 99 demo_announced
    [195; 169; 0] [233]) as (s1 & s2 & E1 & E2 & _ & E3 & _).
  - by vm_compute.
  - eexists. vm_compute. done.
  - vm_compute. done.
  - vm_compute. done.
  - vm_compute. eauto.
  - vm_compute. done.
  - vm_compute. done.
  - vm_compute. done.
  - vm_compute. done.
  - vm_compute. done.
  - split_and!; [vm_compute; done..|set_solver].
  - split_and!; [repeat constructor; lia|vm_compute; done|by exists []].
  - exists s1, s2. by split_and!.
Defined.

(** ** A client that goes away *)

(** Code that leaves the waiting requests alone. *)
Definition waiting (l : list LorieDataTarget) (s : clip) : Prop := lorieDataTargetHead s = l.

Lemma waiting_onDix {A} l (m : M dix A) : preserves (waiting l) (onDix m).
Proof.
  intros s a s' Hs. unfold onDix. destruct (m (dix_of s)) as [[? ?]|]; [|done].
  by intros [= _ <-].
Qed.
#[local] Hint Resolve waiting_onDix : lorie.

Lemma waiting_callback l e i k : preserves (waiting l) (lorieSelectionCallback e i k).
Proof. unfold lorieSelectionCallback, lorieSelectionRequest. preserve. Qed.
#[local] Hint Resolve waiting_callback : lorie.

Lemma waiting_delete l e test kind n : ∀ i,
  preserves (waiting l) (delete_from_selections (lorieSelectionCallback e) test kind n i).
Proof.
  induction n as [|n IH]; intros i; cbn [delete_from_selections]; preserve.
Qed.
#[local] Hint Resolve waiting_delete : lorie.

Lemma close_down_post e c s s' :
  CloseDownClient (lorieSelectionCallback e) c s = Some ((), s') →
  lorieDataTargetHead s' = lorieDataTargetHead s ∧ live (xs s') c = false.
Proof.
  intros H. split.
  - assert (preserves (waiting (lorieDataTargetHead s))
      (CloseDownClient (lorieSelectionCallback e) c)) as Hp; [|by eapply Hp].
    unfold CloseDownClient, DeleteClientFromAnySelections. preserve.
    apply preserves_for_each. intros w. unfold destroy_window, DeleteWindowFromAnySelections.
    preserve.
  - revert H. unfold CloseDownClient. mrun.
    destruct (DeleteClientFromAnySelections _ c s) as [[? s1]|]; [|done].
    destruct (for_each _ _ s1) as [[? s2]|]; [|done]. intros [= <-].
    unfold live. simpl. rewrite lookup_delete_eq. apply bool_decide_eq_false.
    by intros [? ?].
Qed.

(** A waiting request outlives its client: nothing removes it when the
    client disconnects, so the next clipboard data uses the freed client
    record.  (Stated for the request that is served first.) *)
Theorem waiting_request_of_closed_client fuel e t l s s' mem :
  lorieDataTargetHead s = t :: l →
  CloseDownClient (lorieSelectionCallback e) (ldt_client t) s = Some ((), s') →
  lorieHandleClipboardData fuel e mem s' = None.
Proof.
  intros Hh Hcl. destruct (close_down_post _ _ _ _ Hcl) as [Hh' Hl].
  unfold lorieHandleClipboardData. drun. destruct fuel as [|fuel]; [done|].
  cbn [serve_targets]. drun. rewrite Hh', Hh. drun.
  unfold serve_target, lorieConvertSelection, dixLookupSelection, set_errorValue, onDix. drun.
  cbn [dix_of clip_dix xs]. unfold live in *. simpl. by rewrite Hl.
Qed.

Lemma waiting_request_of_closed_client_witness :
  ∃ s', CloseDownClient (lorieSelectionCallback demo_cenv) 7 demo_waiting = Some ((), s')
    ∧ lorieHandleClipboardData 5 demo_cenv (Some [104; 105; 0]) s' = None.
Proof.
  eexists. split; [vm_compute; reflexivity|].
  apply (waiting_request_of_closed_client 5 demo_cenv
    (mk_LorieDataTarget 7 303 305 400 70 99) [] demo_waiting); vm_compute; reflexivity.
Defined.

(** ** Copy: text from a client to the Android side *)

Definition atoms_distinct (e : cenv) : Prop :=
  NoDup [xaTIMESTAMP e; xaTEXT e; xaCLIPBOARD e; xaTARGETS e; xaSTRING e; xaUTF8_STRING e].

Lemma atoms_text e : atoms_distinct e →
  xaTARGETS e ≠ xaSTRING e ∧ xaTARGETS e ≠ xaUTF8_STRING e ∧ xaSTRING e ≠ xaUTF8_STRING e.
Proof. unfold atoms_distinct. rewrite !NoDup_cons, !not_elem_of_cons. tauto. Qed.

Lemma send_run s mem txt :
  c_string mem = Some txt →
  lorieSendClipboardData mem s = Some ((), s <| sent ::= λ l, l ++ [txt] |>).
Proof. intros E. unfold lorieSendClipboardData. drun. by rewrite E. Qed.

Lemma c_string_app l tl : nul_free l → c_string (l ++ 0 :: tl) = Some l.
Proof. intros H. unfold c_string. by rewrite existsb_app, orb_true_r, cstr_app. Qed.

(** The text the property of the root window holds: Latin-1 bytes under
    STRING, UTF-8 under UTF8_STRING. *)
Definition clipboard_property (e : cenv) (cps : list Z) (p : PropertyRec) : Prop :=
  (p = mk_PropertyRec (xaSTRING e) (xaSTRING e) 8 cps ∧ latin1 cps)
  ∨ (p = mk_PropertyRec (xaUTF8_STRING e) (xaUTF8_STRING e) 8 (utf8_encode cps) ∧ text cps).

Lemma lookup_prop_run e s name p :
  permissive (de e) → server_up s → prop_of (xs s) (root (de e)) name = Some p →
  ∃ s1, onDix (dixLookupProperty (de e) (root (de e)) name serverClient DixReadAccess) s
      = Some ((Success, Some p), s1) ∧ cframes s [] s1.
Proof.
  intros [_ Hp] Hs Hpr. unfold prop_of in Hpr. unfold dixLookupProperty.
  destruct (windows (xs s) !! root (de e)) as [win|] eqn:Ew; [|done]. simpl in Hpr.
  destruct (set_errorValue_run serverClient name (xs s) Hs) as (d & E & Hf & Hw).
  exists (s <| xs := d |>). split; [|by apply cframes_set]. apply onDix_run. mrun.
  rewrite E. mrun. rewrite Hw, Ew. mrun. rewrite Hpr. mrun. by rewrite Hp.
Qed.

Lemma filter_cr_latin1 s : latin1 s → latin1 (filter not_cr s).
Proof. apply Forall_filter. Qed.

Lemma handle_selection_text e s p cps :
  atoms_distinct e → permissive (de e) → server_up s → heap_tail e ≠ [] →
  clipboard_property e cps p → prop_of (xs s) (root (de e)) (propertyName p) = Some p →
  ∃ s1, cframes s [] s1 ∧
    lorieHandleSelection e (propertyName p) s
    = Some ((), s1 <| sent ::= λ l, l ++ [utf8_encode (filter not_cr cps)] |>).
Proof.
  intros Hd Hp Hs Ht Hcp Hpr.
  destruct (atoms_text e Hd) as (D1 & D2 & D3).
  destruct (lookup_prop_run e s (propertyName p) p Hp Hs Hpr) as (s1 & E & F).
  exists s1. split; [done|]. unfold lorieHandleSelection.
  destruct Hcp as [[-> Hl]|[-> Hte]]; cbn [propertyName type format data] in *.
  - rewrite (proj2 (Z.eqb_neq (xaSTRING e) (xaTARGETS e))), Z.eqb_refl by done.
    cbn [negb andb]. drun. rewrite E. change (Success =? Success) with true. cbn [negb]. drun.
    change (8 =? 32) with false. rewrite ?andb_false_r, Z.eqb_refl.
    cbn [propertyName type format data].
    rewrite Z.eqb_refl. cbn [andb]. change (8 =? 8) with true. drun.
    destruct (convertLF_cstr cps (heap_tail e)) as (out & -> & _ & _ & k & ->). drun.
    destruct (latin1ToUTF8_block (filter not_cr cps) (length cps) (replicate k 0))
      as (utf & -> & _ & _ & k' & ->); [by apply filter_cr_latin1|by apply filter_cr_length|].
    drun. apply send_run, c_string_app, utf8_encode_nul_free, latin1_text. by apply filter_cr_latin1.
  - rewrite (proj2 (Z.eqb_neq (xaUTF8_STRING e) (xaTARGETS e))),
      (proj2 (Z.eqb_neq (xaUTF8_STRING e) (xaSTRING e))), Z.eqb_refl by done.
    cbn [negb andb]. drun. rewrite E. change (Success =? Success) with true. cbn [negb]. drun.
    cbn [propertyName type format data]. rewrite Z.eqb_refl.
    cbn [andb]. change (8 =? 8) with true. drun.
    destruct (heap_tail e) as [|b tl] eqn:Et; [done|].
    rewrite checkUTF8_block by done. drun. cbn [negb]. drun.
    destruct (convertLF_cstr (utf8_encode cps) (b :: tl)) as (out & -> & _ & _ & k & ->). drun.
    rewrite filter_cr_encode by done. apply send_run, c_string_app, utf8_encode_nul_free.
    by apply Forall_filter.
Qed.

(** C35: Copy reaches the Android side: when the owner of CLIPBOARD has stored a
    text as a property of the root window (Latin-1 under STRING or UTF-8 under
    UTF8_STRING) and sends the notification for it, exactly that text without
    its carriage returns is handed over, as UTF-8, once, and the replaced
    handler runs as before.  (With one readable byte behind the property's
    data, which the validity scan loads.) *)
Theorem copy_reaches_android orig e c time s p cps :
  atoms_distinct e → permissive (de e) → server_up s → heap_tail e ≠ [] →
  clipboardEnabled s = true → clipboard_property e cps p →
  prop_of (xs s) (root (de e)) (propertyName p) = Some p →
  let ev := SelectionNotify time (root (de e)) (xaCLIPBOARD e) (propertyName p) (propertyName p) in
  ∃ s1, lorieProcSendEvent orig e c ev s = orig c ev s1
    ∧ sent s1 = sent s ++ [utf8_encode (filter not_cr cps)]
    ∧ events (xs s1) = events (xs s) ∧ lorieDataTargetHead s1 = lorieDataTargetHead s.
Proof.
  intros Hd Hp Hs Ht He Hcp Hpr ev.
  destruct (handle_selection_text e s p cps) as (s1 & F & E); try done.
  unfold lorieProcSendEvent, ev. drun. rewrite He, !Z.eqb_refl. cbn [andb]. rewrite E.
  eexists. split; [done|]. simpl. destruct F as [D _ _ HH _ HS]. rewrite HS. split_and!; try done.
  by rewrite (fr_ev _ _ _ D), app_nil_r.
Qed.

Definition demo_text : PropertyRec := mk_PropertyRec 305 305 8 (utf8_encode [0x20ac; 13; 10]).
Definition demo_copied : clip :=
  demo_clip <| xs := demo_dix <| windows ::= insert 1 (mk_WindowRec 0 [demo_text]) |> |>.
Definition no_send (c : Z) (ev : xEvent) : M clip Z := mret Success.

Lemma demo_atoms : atoms_distinct demo_cenv.
Proof. apply (bool_decide_unpack _). vm_compute. done. Qed.

Lemma copy_reaches_android_witness :
  ∃ s1, lorieProcSendEvent no_send demo_cenv 8 (SelectionNotify 0 1 303 305 305) demo_copied
      = Some (Success, s1) ∧ sent s1 = [[226; 130; 172; 10]].
Proof.
  destruct (copy_reaches_android no_send demo_cenv 8 0 demo_copied demo_text [0x20ac; 13; 10])
    as (s1 & E & E2 & _).
  - apply demo_atoms.
  - by vm_compute.
  - vm_compute. done.
  - done.
  - done.
  - right. split; [done|]. repeat constructor; lia.
  - vm_compute. done.
  - exists s1. split; [exact E|]. exact E2.
Defined.

(** ** Ownership *)

Lemma lookup_selection_Some d name pSel :
  lookup_selection d name = Some pSel →
  ∃ i, index_of (λ x, selection x =? name) (CurrentSelections d) = Some i
    ∧ CurrentSelections d !! i = Some pSel ∧ selection pSel = name.
Proof.
  unfold lookup_selection. destruct (index_of _ _) as [i|] eqn:E; [|done]. simpl. intros Hl.
  destruct (index_of_Some _ _ _ E) as (p & E2 & Hp). bool_to_prop.
  exists i. split_and!; [done..|]. congruence.
Qed.

(** The notice the previous owner of a selection gets. *)
Definition clear_notice (now name : Z) (prev : option Selection) : list (Z * xEvent) :=
  match prev with
  | Some pSel =>
    match client pSel with
    | Some c => if c =? serverClient then [] else [(c, SelectionClear now (window pSel) name)]
    | None => []
    end
  | None => []
  end.

(** Previous owners are clients that are still there. *)
Definition owners_live (s : clip) : Prop :=
  ∀ pSel c, pSel ∈ CurrentSelections (xs s) → client pSel = Some c → live (xs s) c = true.

(** The grab itself: the callback that runs at its end sees our own client and
    does nothing. *)
Lemma grab_run e s i pSel :
  CurrentSelections (xs s) !! i = Some pSel →
  ∃ s', grab_selection e i s = Some (Success, s')
    ∧ s' = s <| xs := xs s <| CurrentSelections ::= alter (λ x,
          x <| lastTimeChanged := currentTime (xs s) |> <| window := root (de e) |>
            <| pWin := Some (root (de e)) |> <| client := Some serverClient |>) i |> |>.
Proof.
  intros E. eexists. split; [|done]. unfold grab_selection, onDix, sel_set. drun.
  cbn [dix_of set_dix clip_dix]. unfold lorieSelectionCallback. drun.
  erewrite sel_at_run by (simpl; by rewrite list_lookup_alter_eq, E). drun.
  cbn [client]. rewrite bool_decide_eq_true_2 by done. cbn [negb]. by rewrite andb_false_r.
Qed.

Lemma owners_live_frames s d : frames (xs s) [] d → owners_live s → owners_live (s <| xs := d |>).
Proof.
  intros [S1 L1 _ _] H pSel c. simpl. rewrite S1, L1. apply H.
Qed.

(** Telling the previous owner. *)
Lemma clear_run s pSel now :
  pSel ∈ CurrentSelections (xs s) → owners_live s →
  ∃ s1, clear_owner pSel s = Some ((), s1)
    ∧ (milliseconds (currentTime (xs s)) = now →
       cframes s (clear_notice now (selection pSel) (Some pSel)) s1)
    ∧ currentTime (xs s1) = currentTime (xs s).
Proof.
  intros Hin Ho. unfold clear_notice, clear_owner. destruct (client pSel) as [c|] eqn:Ec.
  2:{ eexists. split; [done|]. split; [|done]. intros _. split; [apply frames_refl|done..]. }
  destruct (Z.eqb_spec c serverClient) as [Hc|Hc]; cbn [negb].
  { eexists. split; [done|]. split; [|done]. intros _. split; [apply frames_refl|done..]. }
  unfold onDix, WriteEventsToClient. drun. rewrite (proj2 (Z.eqb_neq _ _) Hc).
  cbn [dix_of set_dix clip_dix]. rewrite (Ho pSel c Hin Ec). eexists. split; [done|].
  split; [|done]. intros <-. apply cframes_set. done.
Qed.

(** An announcement makes the clipboard ours: whatever the state of
    CLIPBOARD, afterwards the server owns it through the root window, the
    stale cache is gone, the previous owner was told once, and nobody is asked
    for its text: taking the selection does not feed our own data back. *)
Theorem announce_takes_selection e s :
  permissive (de e) → server_up s → owners_live s →
  ∃ s', lorieHandleClipboardAnnounce e s = Some ((), s')
    ∧ owned_by_us e s' (xaCLIPBOARD e) ∧ cachedData s' = None
    ∧ events (xs s') = events (xs s)
        ++ clear_notice (milliseconds (currentTime (xs s))) (xaCLIPBOARD e)
             (lookup_selection (xs s) (xaCLIPBOARD e))
    ∧ lorieDataTargetHead s' = lorieDataTargetHead s
    ∧ requested s' = requested s ∧ sent s' = sent s.
Proof.
  intros [Hp _] Hs Ho. unfold lorieHandleClipboardAnnounce, lorieOwnSelection. drun.
  set (s0 := mk_clip _ _ _ _ _ _).
  destruct (onLookupSelection (de e) (xaCLIPBOARD e) serverClient DixSetAttrAccess s0 Hs)
    as (rc & o & s1 & E0 & F1 & W1 & Hi & ->). rewrite E0.
  pose proof (lookup_selection_time _ _ _ _ _ _ _ E0) as Hnow. clear E0.
  unfold lookup_selection. change (xs s0) with (xs s) in *. rewrite <-Hi.
  destruct o as [i|]; simpl.
  - rewrite Hp. change (Success =? Success) with true. drun.
    destruct (index_of_Some _ _ _ (eq_sym Hi)) as (pSel & E & Hn). bool_to_prop. rewrite E.
    rewrite (sel_at_run s1 i pSel) by (by rewrite (cframes_sel _ _ _ F1)).
    destruct (clear_run s1 pSel (milliseconds (currentTime (xs s)))) as (s2 & E2 & F2 & _).
    { rewrite (cframes_sel _ _ _ F1). by eapply list_elem_of_lookup_2. }
    { intros q c. rewrite (cframes_sel _ _ _ F1), (cframes_live _ _ _ _ F1). apply Ho. }
    rewrite <-Hnow in F2 at 1. specialize (F2 eq_refl). rewrite Hn in F2.
    pose proof (cframes_nil _ _ _ _ F1 F2) as [D _ HC HH HR HS]. rewrite E2.
    destruct (grab_run e s2 i pSel) as (s3 & -> & ->).
    { by rewrite (fr_sel _ _ _ D). }
    eexists. split; [done|]. simpl. split_and!;
      [|by rewrite HC|apply D|by rewrite HH|by rewrite HR|by rewrite HS].
    eexists. split; [|split].
    + unfold lookup_selection. simpl. rewrite index_of_alter, (fr_sel _ _ _ D) by done.
      change (xs s0) with (xs s). rewrite <-Hi. simpl. by rewrite list_lookup_alter_eq, E.
    + done.
    + done.
  - rewrite Hp. change (BadMatch =? Success) with false. change (BadMatch =? BadMatch) with true.
    change (Success =? Success) with true. cbn [negb]. drun. unfold sel_push, onDix. drun.
    destruct (grab_run e (s1 <| xs := xs s1 <| CurrentSelections ::= cons
      (mk_Selection (xaCLIPBOARD e) (mk_TimeStamp 0 0) None_ None None) |> |>) 0
      (mk_Selection (xaCLIPBOARD e) (mk_TimeStamp 0 0) None_ None None)) as (s3 & E & ->); [done|].
    simpl in E. cbn [dix_of set_dix clip_dix]. drun. rewrite E.
    pose proof F1 as [D _ HC HH HR HS].
    eexists. split; [done|]. simpl. split_and!;
      [|by rewrite HC|apply D|by rewrite HH|by rewrite HR|by rewrite HS].
    eexists. split; [|split].
    + unfold lookup_selection. simpl. by rewrite Z.eqb_refl.
    + done.
    + done.
Qed.

Lemma announce_takes_selection_witness :
  ∃ s', lorieHandleClipboardAnnounce demo_cenv demo_clip = Some ((), s')
    ∧ owned_by_us demo_cenv s' 303
    ∧ events (xs s') = [(8, SelectionClear 4000 80 303)].
Proof.
  destruct (announce_takes_selection demo_cenv demo_clip) as (s' & E & H1 & _ & H2 & _).
  - by vm_compute.
  - vm_compute. done.
  - intros pSel c Hin. simpl in Hin. rewrite list_elem_of_singleton in Hin. subst.
    by intros [= <-].
  - exists s'. split_and!; done.
Defined.

(** ** Installation *)

Section init.
(** Request handlers, those of the server and the two of this file. *)
Context {handler : Type} (lorieConvert lorieSend : handler).

Record hooks := mk_hooks {
  ProcConvert : handler;              (** [ProcVector[X_ConvertSelection]] *)
  ProcSend : handler;                 (** [ProcVector[X_SendEvent]] *)
  origProcConvertSelection : option handler;
  origProcSendEvent : option handler;
  SelectionCallbacks : nat            (** times ours is registered *)
}.

(** [lorieInitClipboard()] after the atoms are made; a failing [AddCallback]
    ends the server. *)
Definition lorieInitClipboard (AddCallback_ok : bool) (h : hooks) : option hooks :=
  let h1 := match origProcConvertSelection h with
            | Some _ => h
            | None => mk_hooks lorieConvert (ProcSend h) (Some (ProcConvert h))
                        (origProcSendEvent h) (SelectionCallbacks h)
            end in
  let h2 := match origProcSendEvent h1 with
            | Some _ => h1
            | None => mk_hooks (ProcConvert h1) lorieSend (origProcConvertSelection h1)
                        (Some (ProcSend h1)) (SelectionCallbacks h1)
            end in
  if AddCallback_ok
  then Some (mk_hooks (ProcConvert h2) (ProcSend h2) (origProcConvertSelection h2)
               (origProcSendEvent h2) (S (SelectionCallbacks h2)))
  else None.

Definition fresh_hooks (pc ps : handler) : hooks := mk_hooks pc ps None None 0.

(** The handlers can be installed again at every server generation: after
    any number of calls, at least one, the dispatch table holds our two
    handlers and the saved ones are the server's own, so that a request we
    pass on never comes back to us. *)
Theorem init_clipboard_keeps_originals pc ps n :
  ∃ h, Nat.iter (S n) (λ o, h ← o; lorieInitClipboard true h) (Some (fresh_hooks pc ps))
       = Some h
    ∧ ProcConvert h = lorieConvert ∧ ProcSend h = lorieSend
    ∧ origProcConvertSelection h = Some pc ∧ origProcSendEvent h = Some ps.
Proof.
  induction n as [|n (h & E & <- & <- & E1 & E2)]; [by eexists|].
  change (Nat.iter (S (S n)) ?f ?x) with (f (Nat.iter (S n) f x)). rewrite E. simpl.
  unfold lorieInitClipboard. rewrite E1, E2. by eexists.
Qed.
End init.
