(* ===== verification/Buffer.v ===== *)
(** * Shareable pixel buffers ([lorie/buffer.c], [lorie/buffer.h])

    A [LorieBuffer] is a reference-counted record over one of three kinds of
    memory: a heap block, a mapped file descriptor, or an Android hardware
    buffer.  The state [bst] is the heap of buffer records, the static id
    counter and the lists buffers can be linked into, next to a ledger of the
    resources the code owns: open descriptors, mappings, heap blocks (with
    their pixels), hardware-buffer references, textures and EGL images.
    Pointers are integers, 0 is [NULL]; using a record that is not in the heap
    is undefined behaviour.

    What the system answers is the argument [benv].  [sizeof(LorieBuffer)]
    bytes written to a socket are one message holding the record, the way
    both processes, which run the same library, see it. *)

From stdpp Require Import gmap.
From S2P Require Import Prelude.

(** ** Data *)

Definition LORIEBUFFER_REGULAR : Z := 1.
Definition LORIEBUFFER_FD : Z := 2.
Definition LORIEBUFFER_AHARDWAREBUFFER : Z := 3.
Definition FORMAT_R8G8B8X8 : Z := 2.
Definition FORMAT_B8G8R8A8 : Z := 5.
Definition ENODEV : Z := 19.
Definition EEXIST : Z := 17.
Definition ENOENT : Z := 2.
Definition ENOSYS : Z := 38.

Record LorieBuffer_Desc := mk_Desc {
  width : Z; height : Z; stride : Z; format : Z; type : Z; id : Z;
  buffer : Z;               (** the [AHardwareBuffer*] *)
  data : Z                  (** where the pixels are mapped *)
}.
#[export] Instance Desc_eta : Settable LorieBuffer_Desc :=
  λ r, mk_Desc (width r) (height r) (stride r) (format r) (type r) (id r) (buffer r) (data r).

Record LorieBuffer := mk_LorieBuffer {
  refcount : Z;
  desc : LorieBuffer_Desc;
  locked : bool;
  lockedData : Z;
  fd : Z;
  size : Z;
  offset : Z;
  glid : Z;                 (** the texture name *)
  image : Z;
  gpuCopyPending : Z
}.
#[export] Instance LorieBuffer_eta : Settable LorieBuffer :=
  λ r, mk_LorieBuffer (refcount r) (desc r) (locked r) (lockedData r) (fd r) (size r)
         (offset r) (glid r) (image r) (gpuCopyPending r).

(** What travels over the socket between the two processes. *)
Inductive msg :=
  | MStruct (b : LorieBuffer)
  | MFd (fd : Z)
  | MAhb (h : Z).

Record bst := mk_bst {
  heap : gmap Z LorieBuffer;        (** allocated buffer records *)
  next_id : Z;                      (** [static uint64_t id] of [allocate] *)
  lists : gmap Z (list Z);          (** [xorg_list]s of buffers, by their head *)
  fds : gset Z;
  maps : gmap Z Z;                  (** mapped address and length *)
  blocks : gmap Z (list Z);         (** memory behind a pointer, as pixels *)
  ahbs : gmap Z Z;                  (** references we hold *)
  textures : gset Z;
  images : gset Z;
  sock : list msg
}.
#[export] Instance bst_eta : Settable bst :=
  λ r, mk_bst (heap r) (next_id r) (lists r) (fds r) (maps r) (blocks r) (ahbs r)
         (textures r) (images r) (sock r).

(** The width, height, stride and format [AHardwareBuffer_describe] reports. *)
Record ahb_desc := mk_ahb_desc { a_width : Z; a_height : Z; a_stride : Z; a_format : Z }.

Record benv := mk_benv {
  api26 : bool;                     (** [__builtin_available(android 26)] *)
  page_size : Z;
  ASharedMemory_create : Z;
  memfd_create : Z;
  open_ashmem : Z;
  ioctl_set_name : Z;
  ioctl_set_size : Z;
  dup_fd : Z → Z;
  mmap_at : Z → Z → Z;              (** descriptor, offset; 0 or -1 is a failure *)
  malloc_data : Z;                  (** address of a new heap block; 0 fails *)
  malloc_buffer : Z;                (** address of a new record; 0 fails *)
  ahb_allocate : Z → Z → Z → Z * Z; (** width, height, format: error and handle *)
  ahb_describe : Z → ahb_desc;
  ahb_lock : Z → Z * Z;             (** error and address *)
  ahb_unlock : Z → Z;
  ahb_recv : Z → Z;                 (** handle of a received hardware buffer *)
  recv_fd : Z → Z;                  (** number of a received descriptor *)
  egl_context : bool;               (** [eglGetCurrentContext()] *)
  egl_display : bool;               (** [eglGetCurrentDisplay()] *)
  egl_native : bool;                (** [eglGetNativeClientBufferANDROID] exists *)
  egl_create_image : Z → Z;
  gl_gen_texture : Z;
  blt_ok : bool                     (** [pixman_blt] has an implementation *)
}.

(** ** The ledger *)

Definition open_fd (f : Z) : M bst () := modify (λ s, s <| fds ::= union {[f]} |>).
(** [close] of a number that is not open fails and changes nothing. *)
Definition close_fd (f : Z) : M bst () := modify (λ s, s <| fds ::= λ x, x ∖ {[f]} |>).
Definition free_block (p : Z) : M bst () :=
  if p =? 0 then skip
  else s ← get; if blocks s !! p is Some _ then modify (λ s, s <| blocks ::= delete p |>) else ub.
Definition add_map (p len : Z) (pixels : list Z) : M bst () :=
  modify (λ s, s <| maps ::= insert p len |> <| blocks ::= insert p pixels |>).
Definition munmap (p : Z) : M bst () :=
  modify (λ s, s <| maps ::= delete p |> <| blocks ::= delete p |>).
Definition ahb_acquire (h : Z) : M bst () :=
  modify (λ s, s <| ahbs ::= insert h (default 0 (ahbs s !! h) + 1) |>).
Definition ahb_release (h : Z) : M bst () :=
  s ← get;
  match ahbs s !! h with
  | Some n => if n =? 1 then modify (λ s, s <| ahbs ::= delete h |>)
              else modify (λ s, s <| ahbs ::= insert h (n - 1) |>)
  | None => ub
  end.

(** The record behind a pointer. *)
Definition deref (p : Z) : M bst LorieBuffer := s ← get; of_option (heap s !! p).
Definition upd (p : Z) (f : LorieBuffer → LorieBuffer) : M bst () :=
  b ← deref p; modify (λ s, s <| heap ::= insert p (f b) |>).
Definition upd_desc (p : Z) (f : LorieBuffer_Desc → LorieBuffer_Desc) : M bst () :=
  upd p (λ b, b <| desc ::= f |>).

(** A product of two [int]s; overflow is undefined. *)
Definition int_mul (a b : Z) : option Z :=
  let r := a * b in
  if (- 2 ^ 31 <=? r) && (r <? 2 ^ 31) then Some r else None.

(** [a * b * sizeof(uint32_t)]: the [int] product is converted to [size_t]. *)
Definition pixel_bytes (a b : Z) : option Z := r ← int_mul a b; Some (u64 (u64 r * 4)).

(** ** Counters *)

Definition LorieBuffer_gpuCopyPendingInc (p : Z) : M bst () :=
  if p =? 0 then skip else upd p (λ b, b <| gpuCopyPending ::= λ n, s32 (n + 1) |>).
Definition LorieBuffer_gpuCopyPendingDec (p : Z) : M bst () :=
  if p =? 0 then skip else upd p (λ b, b <| gpuCopyPending ::= λ n, s32 (n - 1) |>).
Definition LorieBuffer_hasGpuCopyPending (p : Z) : M bst bool :=
  if p =? 0 then mret false else b ← deref p; mret (truthy (gpuCopyPending b)).

(** ** Lists *)

(** [xorg_list_del(&buffer->link)]: out of whatever list it is in. *)
Definition xorg_list_del (p : Z) : M bst () :=
  modify (λ s, s <| lists ::= fmap (filter (λ q, q ≠ p)) |>).
(** [xorg_list_add(&buffer->link, list)]: behind the head. *)
Definition xorg_list_add (p l : Z) : M bst () :=
  modify (λ s, s <| lists ::= alter (cons p) l |>).

Definition LorieBuffer_addToList (p l : Z) : M bst () :=
  if (p =? 0) || (l =? 0) then skip
  else _ ← deref p; xorg_list_del p ;; xorg_list_add p l.

Definition LorieBuffer_removeFromList (p : Z) : M bst () :=
  if p =? 0 then skip else _ ← deref p; xorg_list_del p.

Definition LorieBufferList_first (l : Z) : M bst Z :=
  s ← get;
  match lists s !! l with
  | Some (p :: _) => mret p
  | Some [] => mret 0
  | None => ub
  end.

Fixpoint find_by_id (ps : list Z) (i : Z) : M bst Z :=
  match ps with
  | [] => mret 0
  | p :: ps' => b ← deref p; if id (desc b) =? i then mret p else find_by_id ps' i
  end.

Definition LorieBufferList_findById (l i : Z) : M bst Z :=
  s ← get;
  match lists s !! l with
  | Some ps => find_by_id ps i
  | None => ub
  end.

(** ** Creation *)

Definition alignToPage (e : benv) (sz : Z) : Z :=
  Z.land (u64 (sz + page_size e - 1)) (Z.lnot (page_size e - 1)).

(** [LorieBuffer_createRegion]: shared memory, memfd or ashmem, in this order. *)
Definition LorieBuffer_createRegion (e : benv) (sz : Z) : M bst Z :=
  let f := if api26 e then ASharedMemory_create e else -1 in
  if 0 <=? f then open_fd f ;; mret f
  else if 0 <=? memfd_create e then open_fd (memfd_create e) ;; mret (memfd_create e)
  else if open_ashmem e <? 0 then mret (open_ashmem e)
  else
    let f := open_ashmem e in
    open_fd f ;;
    if ioctl_set_name e <? 0 then close_fd f ;; mret (ioctl_set_name e)
    else if ioctl_set_size e <? 0 then close_fd f ;; mret (ioctl_set_size e)
    else mret f.

Definition acceptable (w h format : Z) : bool :=
  ((format =? FORMAT_B8G8R8A8) || (format =? FORMAT_R8G8B8X8)) && (0 <? w) && (0 <? h).

(** The end of [allocate]: the record moves to the heap. *)
Definition alloc_record (e : benv) (b : LorieBuffer) : M bst Z :=
  let d := desc b in
  if malloc_buffer e =? 0 then
    (if type d =? LORIEBUFFER_REGULAR then free_block (data d)
     else if type d =? LORIEBUFFER_FD then munmap (data d) ;; close_fd (fd b)
     else if type d =? LORIEBUFFER_AHARDWAREBUFFER
     then when (api26 e) (ahb_release (buffer d)) else skip) ;;
    mret 0
  else
    modify (λ s, s <| heap ::= insert (malloc_buffer e) b |>) ;;
    mret (malloc_buffer e).

(** The static [allocate]; the caller's pixels of a mapped descriptor are
    whatever is in it, [contents]. *)
Definition allocate (e : benv) (contents : list Z) (w st h format type buf f sz off : Z)
    (takeFd : bool) : M bst Z :=
  s ← get;
  modify (λ s, s <| next_id ::= λ i, u64 (i + 1) |>) ;;
  let f' := if takeFd then f else dup_fd e f in
  when (negb takeFd && (0 <=? f')) (open_fd f') ;;
  let d := mk_Desc w h st (u8 format) (u8 type) (next_id s) buf 0 in
  let b := mk_LorieBuffer 1 d false 0 f' sz off 0 0 0 in
  if negb (type =? LORIEBUFFER_AHARDWAREBUFFER) && negb (acceptable w h format) then mret 0
  else if type =? LORIEBUFFER_REGULAR then
    n ← of_option (pixel_bytes st h);
    if malloc_data e =? 0 then mret 0
    else
      modify (λ s, s <| blocks ::= insert (malloc_data e) (replicate (Z.to_nat (n / 4)) 0) |>) ;;
      alloc_record e (b <| desc := d <| data := malloc_data e |> |>)
  else if type =? LORIEBUFFER_FD then
    if f' <? 0 then mret 0
    else
      let p := mmap_at e f' off in
      if (p =? 0) || (p =? -1) then close_fd f' ;; mret 0
      else
        add_map p sz contents ;;
        alloc_record e (b <| desc := d <| data := p |> |>)
  else if type =? LORIEBUFFER_AHARDWAREBUFFER then
    if buf =? 0 then mret 0
    else
      let a := if api26 e then ahb_describe e buf else mk_ahb_desc 0 0 0 0 in
      alloc_record e (b <| desc := d <| width := s32 (a_width a) |> <| height := s32 (a_height a) |>
                             <| stride := s32 (a_stride a) |> <| Buffer.format := u8 (a_format a) |> |>)
  else mret 0.

Definition LorieBuffer_allocate (e : benv) (w h format type : Z) : M bst Z :=
  if type =? LORIEBUFFER_FD then
    n ← of_option (pixel_bytes w h);
    let sz := alignToPage e n in
    f ← LorieBuffer_createRegion e sz;
    if f <? 0 then mret 0
    else allocate e (replicate (Z.to_nat (sz / 4)) 0) w w h format type 0 f sz 0 true
  else if type =? LORIEBUFFER_AHARDWAREBUFFER then
    let '(err, hb) := if api26 e then ahb_allocate e w h format else (-1, 0) in
    when (err =? 0) (ahb_acquire hb) ;;
    allocate e [] w w h format type (if err =? 0 then hb else 0) (-1) 0 0 true
  else allocate e [] w w h format type 0 (-1) 0 0 true.

Definition LorieBuffer_wrapFileDescriptor (e : benv) (contents : list Z)
    (w st h format f off : Z) : M bst Z :=
  n ← of_option (pixel_bytes st h);
  allocate e contents w st h format LORIEBUFFER_FD 0 f n off false.

Definition LorieBuffer_wrapAHardwareBuffer (e : benv) (buf : Z) : M bst Z :=
  allocate e [] 0 0 0 0 LORIEBUFFER_AHARDWAREBUFFER buf (-1) 0 0 false.

(** ** Conversion *)

(** [pixman_blt] of [w * h] 32-bit pixels between blocks with their strides;
    outside a block is undefined. *)
Fixpoint blt_row (w : nat) (src dst : list Z) (si di : nat) : option (list Z) :=
  match w with
  | O => Some dst
  | S w' =>
    v ← src !! si;
    dst' ← wr dst di v;
    blt_row w' src dst' (S si) (S di)
  end.

Fixpoint blt_rows (h w : nat) (src dst : list Z) (sst dst_st si di : nat) : option (list Z) :=
  match h with
  | O => Some dst
  | S h' =>
    dst' ← blt_row w src dst si di;
    blt_rows h' w src dst' sst dst_st (si + sst) (di + dst_st)
  end.

Definition pixman_blt (e : benv) (sp dp sst dst_st w h : Z) : M bst () :=
  if negb (blt_ok e) then skip
  else
    s ← get;
    src ← of_option (blocks s !! sp);
    dst ← of_option (blocks s !! dp);
    dst' ← of_option (blt_rows (Z.to_nat h) (Z.to_nat w) src dst (Z.to_nat sst)
                        (Z.to_nat dst_st) 0 0);
    modify (λ s, s <| blocks ::= insert dp dst' |>).

Definition LorieBuffer_convert (e : benv) (p ty fmt : Z) : M bst () :=
  if p =? 0 then skip
  else
    b ← deref p;
    let d := desc b in
    if negb (type d =? LORIEBUFFER_REGULAR)
       || (negb (ty =? LORIEBUFFER_FD) && negb (ty =? LORIEBUFFER_AHARDWAREBUFFER))
       || (negb (fmt =? FORMAT_R8G8B8X8) && negb (fmt =? FORMAT_B8G8R8A8))
    then skip
    else if ty =? LORIEBUFFER_FD then
      n ← of_option (pixel_bytes (stride d) (height d));
      let sz := alignToPage e n in
      f ← LorieBuffer_createRegion e sz;
      if f <? 0 then skip
      else
        let a := mmap_at e f 0 in
        if (a =? 0) || (a =? -1) then close_fd f
        else
          add_map a sz (replicate (Z.to_nat (sz / 4)) 0) ;;
          pixman_blt e (data d) a (stride d) (stride d) (width d) (height d) ;;
          free_block (data d) ;;
          upd p (λ b, b <| desc := d <| type := ty |> <| format := fmt |> <| data := a |> |>
                        <| fd := f |> <| size := sz |> <| offset := 0 |>
                        <| lockedData := 0 |> <| locked := false |>)
    else
      let '(err, h) := if api26 e then ahb_allocate e (width d) (height d) fmt else (-1, 0) in
      if negb (err =? 0) then skip
      else
        ahb_acquire h ;;
        let a := ahb_describe e h in
        (let '(lerr, addr) := ahb_lock e h in
         if lerr =? 0 then
           modify (λ s, s <| blocks ::= insert addr
             (replicate (Z.to_nat (a_stride a * a_height a)) 0) |>) ;;
           pixman_blt e (data d) addr (stride d) (s32 (a_stride a)) (width d) (height d)
         else skip) ;;
        free_block (data d) ;;
        upd p (λ b, b <| desc := d <| type := ty |> <| format := fmt |>
                           <| stride := s32 (a_stride a) |> <| buffer := h |> <| data := 0 |> |>
                      <| lockedData := 0 |> <| locked := false |>).

(** ** References *)

(** [acquire] adds to the [int] at the start of the record, whose low half is
    [refcount]; the carry ends in padding. *)
Definition LorieBuffer_acquire (p : Z) : M bst () :=
  if p =? 0 then skip else upd p (λ b, b <| refcount ::= λ n, s16 (n + 1) |>).

Definition __LorieBuffer_free (e : benv) (p : Z) : M bst () :=
  if p =? 0 then skip
  else
    b ← deref p;
    xorg_list_del p ;;
    when (egl_context e) (modify (λ s, s <| textures ::= λ t, t ∖ {[glid b]} |>)) ;;
    when (egl_display e && truthy (image b))
      (modify (λ s, s <| images ::= λ t, t ∖ {[image b]} |>)) ;;
    (if type (desc b) =? LORIEBUFFER_REGULAR then free_block (data (desc b))
     else if type (desc b) =? LORIEBUFFER_FD then
       munmap (data (desc b)) ;; close_fd (fd b)
     else if type (desc b) =? LORIEBUFFER_AHARDWAREBUFFER then
       when (api26 e) (ahb_release (buffer (desc b)))
     else skip) ;;
    modify (λ s, s <| heap ::= delete p |>).

Definition LorieBuffer_release (e : benv) (p : Z) : M bst () :=
  if p =? 0 then skip
  else
    b ← deref p;
    upd p (λ b, b <| refcount ::= λ n, s16 (n - 1) |>) ;;
    if refcount b =? 1 then __LorieBuffer_free e p else skip.

(** ** Access *)

Definition no_desc : LorieBuffer_Desc := mk_Desc 0 0 0 0 0 0 0 0.

Definition LorieBuffer_description (p : Z) : M bst LorieBuffer_Desc :=
  if p =? 0 then mret no_desc else b ← deref p; mret (desc b).

(** [LorieBuffer_lock]: the return value and [*out], [None] where it is not
    stored. *)
Definition LorieBuffer_lock (e : benv) (p : Z) : M bst (Z * option Z) :=
  if p =? 0 then mret (ENODEV, None)
  else
    b ← deref p;
    if locked b then mret (EEXIST, Some (lockedData b))
    else
      let '(ret, addr) :=
        if (type (desc b) =? LORIEBUFFER_REGULAR) || (type (desc b) =? LORIEBUFFER_FD)
        then (0, data (desc b))
        else if (type (desc b) =? LORIEBUFFER_AHARDWAREBUFFER) && api26 e
        then ahb_lock e (buffer (desc b))
        else (0, lockedData b) in
      upd p (λ b, b <| lockedData := addr |> <| locked := true |>) ;;
      mret (ret, Some addr).

Definition LorieBuffer_unlock (e : benv) (p : Z) : M bst Z :=
  if p =? 0 then mret ENODEV
  else
    b ← deref p;
    if negb (locked b) then mret ENOENT
    else
      let ret := if (type (desc b) =? LORIEBUFFER_AHARDWAREBUFFER) && api26 e
                 then ahb_unlock e (buffer (desc b)) else 0 in
      upd p (λ b, b <| lockedData := 0 |> <| locked := false |>) ;;
      mret ret.

(** ** Transfer *)

Definition LorieBuffer_sendHandleToUnixSocket (e : benv) (p socketFd : Z) : M bst () :=
  if (socketFd <? 0) || (p =? 0) then skip
  else
    b ← deref p;
    modify (λ s, s <| sock ::= λ l, l ++ [MStruct b] |>) ;;
    if type (desc b) =? LORIEBUFFER_FD
    then modify (λ s, s <| sock ::= λ l, l ++ [MFd (fd b)] |>)
    else if type (desc b) =? LORIEBUFFER_AHARDWAREBUFFER
    then when (api26 e) (modify (λ s, s <| sock ::= λ l, l ++ [MAhb (buffer (desc b))] |>))
    else skip.

(** What the process knows before [read]: all zero but for the reset fields. *)
Definition recv_blank : LorieBuffer := mk_LorieBuffer 1 no_desc false 0 (-1) 0 0 0 0 0.

(** [read(socketFd, &buffer, sizeof(buffer))] fills the whole record. *)
Definition read_struct : M bst LorieBuffer :=
  s ← get;
  match sock s with
  | MStruct b :: rest => modify (λ s, s <| sock := rest |>) ;; mret b
  | _ => mret recv_blank
  end.

Definition recv_descriptor (e : benv) : M bst Z :=
  s ← get;
  match sock s with
  | MFd f :: rest =>
    modify (λ s, s <| sock := rest |>) ;; open_fd (recv_fd e f) ;; mret (recv_fd e f)
  | _ => mret (-1)
  end.

Definition recv_ahb (e : benv) : M bst (option Z) :=
  s ← get;
  match sock s with
  | MAhb h :: rest =>
    modify (λ s, s <| sock := rest |>) ;; ahb_acquire (ahb_recv e h) ;; mret (Some (ahb_recv e h))
  | _ => mret None
  end.

(** The end of the function: [want] is [outBuffer != NULL].  The result is what
    [*outBuffer] is set to, [None] where it keeps its value. *)
Definition recv_finish (e : benv) (want : bool) (b : LorieBuffer) : M bst (option Z) :=
  let ret := if want then malloc_buffer e else 0 in
  if ret =? 0 then
    when (0 <=? fd b) (close_fd (fd b)) ;;
    when (negb (buffer (desc b) =? 0) && api26 e) (ahb_release (buffer (desc b))) ;;
    mret None
  else
    modify (λ s, s <| heap ::= insert ret b |>) ;;
    mret (Some ret).

Definition LorieBuffer_recvHandleFromUnixSocket (e : benv) (contents : list Z) (socketFd : Z)
    (want : bool) : M bst (option Z) :=
  if socketFd <? 0 then mret None
  else
    b0 ← read_struct;
    let b := b0 <| image := 0 |> in
    let fail := mret (if want then Some 0 else None) in
    if type (desc b) =? LORIEBUFFER_FD then
      n ← of_option (pixel_bytes (stride (desc b)) (height (desc b)));
      f ← recv_descriptor e;
      if f =? -1 then fail
      else
        let a := mmap_at e f 0 in
        if (a =? 0) || (a =? -1) then close_fd f ;; fail
        else
          add_map a n contents ;;
          recv_finish e want (b <| fd := f |> <| desc := desc b <| data := a |> |>)
    else if type (desc b) =? LORIEBUFFER_AHARDWAREBUFFER then
      h ← (if api26 e then recv_ahb e else mret None);
      recv_finish e want
        (match h with Some h => b <| desc := desc b <| buffer := h |> |> | None => b end)
    else recv_finish e want b.

(** ** GL *)

Definition LorieBuffer_attachToGL (e : benv) (p : Z) : M bst () :=
  if negb (egl_display e) || (p =? 0) then skip
  else
    b ← deref p;
    let make := (image b =? 0) && truthy (buffer (desc b)) && egl_native e in
    let im := if make then egl_create_image e (buffer (desc b)) else image b in
    when (make && truthy im) (modify (λ s, s <| images ::= union {[im]} |>)) ;;
    modify (λ s, s <| textures ::= union {[gl_gen_texture e]} |>) ;;
    upd p (λ b, b <| image := im |> <| glid := gl_gen_texture e |>).

(** The pixels [LorieBuffer_bindTexture] uploads, if any. *)
Definition LorieBuffer_bindTexture (p : Z) : M bst (option (Z * list Z)) :=
  if p =? 0 then mret None
  else
    b ← deref p;
    if type (desc b) =? LORIEBUFFER_FD then
      s ← get;
      px ← of_option (blocks s !! data (desc b));
      mret (Some (glid b, px))
    else mret None.

Definition LorieBuffer_getGLTextureId (p : Z) : M bst Z :=
  if p =? 0 then mret 0 else b ← deref p; mret (glid b).

Definition LorieBuffer_isRgba (p : Z) : M bst bool :=
  d ← LorieBuffer_description p; mret (negb (format d =? FORMAT_B8G8R8A8)).

Definition LorieBuffer_recvAHardwareBufferHandleFromUnixSocket (e : benv) : M bst (Z * option Z) :=
  if api26 e then h ← recv_ahb e; mret (if h is Some _ then 0 else -1, h)
  else mret (- ENOSYS, None).

(** ** Running the code *)

Ltac brun :=
  mrun;
  cbn [heap next_id lists fds maps blocks ahbs textures images sock
       width height stride format type id buffer data
       refcount desc locked lockedData fd size offset glid image gpuCopyPending].
Tactic Notation "brun" "in" hyp(H) :=
  mrun in H;
  cbn [heap next_id lists fds maps blocks ahbs textures images sock
       width height stride format type id buffer data
       refcount desc locked lockedData fd size offset glid image gpuCopyPending] in H.

(** Decide comparisons between the buffer types. *)
Ltac tysimp :=
  change (u8 LORIEBUFFER_REGULAR) with LORIEBUFFER_REGULAR;
  change (u8 LORIEBUFFER_FD) with LORIEBUFFER_FD;
  change (u8 LORIEBUFFER_AHARDWAREBUFFER) with LORIEBUFFER_AHARDWAREBUFFER;
  change (LORIEBUFFER_REGULAR =? LORIEBUFFER_REGULAR) with true;
  change (LORIEBUFFER_REGULAR =? LORIEBUFFER_FD) with false;
  change (LORIEBUFFER_REGULAR =? LORIEBUFFER_AHARDWAREBUFFER) with false;
  change (LORIEBUFFER_FD =? LORIEBUFFER_REGULAR) with false;
  change (LORIEBUFFER_FD =? LORIEBUFFER_FD) with true;
  change (LORIEBUFFER_FD =? LORIEBUFFER_AHARDWAREBUFFER) with false;
  change (LORIEBUFFER_AHARDWAREBUFFER =? LORIEBUFFER_REGULAR) with false;
  change (LORIEBUFFER_AHARDWAREBUFFER =? LORIEBUFFER_FD) with false;
  change (LORIEBUFFER_AHARDWAREBUFFER =? LORIEBUFFER_AHARDWAREBUFFER) with true;
  cbn [negb andb orb].

Lemma deref_run s p b : heap s !! p = Some b → deref p s = Some (b, s).
Proof. intros E. unfold deref. brun. by rewrite E. Qed.

Lemma upd_run s p b f :
  heap s !! p = Some b → upd p f s = Some ((), s <| heap ::= insert p (f b) |>).
Proof. intros E. unfold upd. brun. by rewrite (deref_run _ _ _ E). Qed.

(** ** Sizes *)

(** For a page size that is a power of two, the mask arithmetic of
    [alignToPage] rounds up to the next multiple. *)
Lemma align_div k n :
  0 ≤ k → Z.land n (Z.lnot (2 ^ k - 1)) = n / 2 ^ k * 2 ^ k.
Proof.
  intros Hk. rewrite <-Z.ldiff_land. replace (2 ^ k - 1) with (Z.ones k).
  - rewrite Z.ldiff_ones_r by done. rewrite Z.shiftl_mul_pow2, Z.shiftr_div_pow2 by done. done.
  - rewrite Z.ones_equiv. lia.
Qed.

Lemma alignToPage_multiple e k sz :
  0 ≤ k < 64 → page_size e = 2 ^ k → 0 ≤ sz → sz + page_size e ≤ 2 ^ 64 →
  ∃ q, alignToPage e sz = q * 2 ^ k ∧ sz ≤ q * 2 ^ k < sz + 2 ^ k.
Proof.
  intros Hk Hp Hs Hb. unfold alignToPage. rewrite Hp in *.
  assert (0 < 2 ^ k) by (apply pow2_pos; lia).
  rewrite wrapU_id by (unfold inU; lia). rewrite align_div by lia.
  eexists. split; [done|].
  pose proof (Z.mul_div_le (sz + 2 ^ k - 1) (2 ^ k)).
  pose proof (Z.mul_succ_div_gt (sz + 2 ^ k - 1) (2 ^ k)). nia.
Qed.

(** [alignToPage] yields the least multiple of the page size that is not
    below the size, for every size that leaves room for one page below
    [SIZE_MAX]. *)
Theorem alignToPage_least e k sz :
  0 ≤ k < 64 → page_size e = 2 ^ k → 0 ≤ sz → sz + page_size e ≤ 2 ^ 64 →
  (page_size e | alignToPage e sz) ∧ sz ≤ alignToPage e sz < sz + page_size e
  ∧ ∀ m, (page_size e | m) → sz ≤ m → alignToPage e sz ≤ m.
Proof.
  intros Hk Hp Hs Hb. destruct (alignToPage_multiple e k sz Hk Hp Hs Hb) as (q & -> & Hq).
  rewrite Hp. assert (0 < 2 ^ k) by (apply pow2_pos; lia). split_and!; [by exists q|lia|lia|].
  intros m [r ->] Hm. apply Z.mul_le_mono_nonneg_r; [lia|].
  enough (q < r + 1) by lia. apply (Z.mul_lt_mono_pos_r (2 ^ k)); lia.
Qed.

Definition demo_benv : benv :=
  mk_benv true 4096 20 (-1) (-1) 0 0 (λ f, f + 100) (λ f o, 0x70000 + f) 0x1000 0x2000
    (λ _ _ _, (0, 9)) (λ _, mk_ahb_desc 3 2 4 5) (λ _, (0, 0x90000)) (λ _, 0) (λ h, h)
    (λ f, f + 50) true true true (λ _, 77) 5 true.

Lemma alignToPage_least_witness :
  (4096 | alignToPage demo_benv 5000) ∧ 5000 ≤ alignToPage demo_benv 5000 < 5000 + 4096.
Proof.
  destruct (alignToPage_least demo_benv 12 5000) as (H1 & H2 & _); [lia|done|lia|vm_compute; done|].
  by split.
Defined.

(** ** Allocation and release *)

(** What a program owns, without the buffer records' own bookkeeping. *)
Definition ledger (s : bst) : gset Z * gmap Z Z * gmap Z (list Z) * gmap Z Z :=
  (fds s, maps s, blocks s, ahbs s).

(** The addresses, descriptors and handles the system hands out are not in
    use. *)
Definition fresh (e : benv) (s : bst) : Prop :=
  heap s !! malloc_buffer e = None ∧ blocks s !! malloc_data e = None
  ∧ (∀ f o, 0 ≤ f → (maps s !! mmap_at e f o = None) ∧ (blocks s !! mmap_at e f o = None))
  ∧ (∀ f, f ∈ [ASharedMemory_create e; memfd_create e; open_ashmem e] → f ∉ fds s)
  ∧ (∀ w h f, ahbs s !! (ahb_allocate e w h f).2 = None)
  ∧ (filter (λ q, q ≠ malloc_buffer e) <$> lists s) = lists s
  ∧ 0 ∉ textures s.

(** [s'] is [s] with the memory of the buffer [b] added to the ledger. *)
Inductive owns (e : benv) (b : LorieBuffer) (s s' : bst) : Prop :=
  | owns_regular px :
      type (desc b) = LORIEBUFFER_REGULAR → data (desc b) ≠ 0 →
      blocks s !! data (desc b) = None →
      blocks s' = <[data (desc b) := px]> (blocks s) →
      fds s' = fds s → maps s' = maps s → ahbs s' = ahbs s → owns e b s s'
  | owns_fd px :
      type (desc b) = LORIEBUFFER_FD → fd b ∉ fds s →
      blocks s !! data (desc b) = None → maps s !! data (desc b) = None →
      blocks s' = <[data (desc b) := px]> (blocks s) →
      maps s' = <[data (desc b) := size b]> (maps s) →
      fds s' = {[fd b]} ∪ fds s → ahbs s' = ahbs s → owns e b s s'
  | owns_ahb :
      type (desc b) = LORIEBUFFER_AHARDWAREBUFFER → api26 e = true →
      ahbs s !! buffer (desc b) = None → ahbs s' = <[buffer (desc b) := 1]> (ahbs s) →
      fds s' = fds s → maps s' = maps s → blocks s' = blocks s → owns e b s s'.

(** Freeing a buffer gives back exactly its memory. *)
Lemma free_owned e p b s s' :
  p ≠ 0 → heap s !! p = None → heap s' = <[p := b]> (heap s) → owns e b s s' →
  ∃ s2, __LorieBuffer_free e p s' = Some ((), s2) ∧ ledger s2 = ledger s ∧ heap s2 = heap s
    ∧ lists s2 = (filter (λ q, q ≠ p) <$> lists s')
    ∧ next_id s2 = next_id s' ∧ sock s2 = sock s'.
Proof.
  intros Hp Hh Hh' Ho. unfold __LorieBuffer_free. rewrite (proj2 (Z.eqb_neq _ _) Hp). brun.
  rewrite (deref_run s' p b) by (by rewrite Hh', lookup_insert_eq).
  unfold xorg_list_del, when. brun.
  destruct Ho as [px T Hd Hb Eb Ef Em Ea|px T Hf Hb Hm Eb Em Ef Ea|T Ha Hb Ea Ef Em Eb]; rewrite T;
    destruct (egl_context e), (egl_display e && truthy (image b)); brun;
    unfold ledger, free_block, munmap, close_fd, ahb_release, when;
    cbn [LORIEBUFFER_REGULAR LORIEBUFFER_FD LORIEBUFFER_AHARDWAREBUFFER Z.eqb Pos.eqb]; brun;
    rewrite ?(proj2 (Z.eqb_neq _ _) Hd), ?Ha; brun; rewrite ?Eb, ?Ea, ?lookup_insert_eq; brun;
    (eexists; split; [done|]); simpl;
    rewrite ?Hh', ?Ef, ?Em, ?Eb, ?Ea, ?delete_insert_id by done; try done;
    (split; [|done]); f_equal; f_equal; f_equal; set_solver.
Qed.

(** The descriptor [createRegion] returns is open, and was not. *)
Lemma createRegion_run e sz s :
  fresh e s →
  ∃ f s', LorieBuffer_createRegion e sz s = Some (f, s')
    ∧ (0 ≤ f → (f ∉ fds s) ∧ s' = (s <| fds ::= union {[f]} |>))
    ∧ (f < 0 → s' = s).
Proof.
  intros (_ & _ & _ & Hf & _). unfold LorieBuffer_createRegion, open_fd, close_fd. brun.
  assert (∀ f, f ∉ fds s → ({[f]} ∪ fds s) ∖ {[f]} = fds s) as Hc by (intros; set_solver).
  repeat case_goal; brun; bool_to_prop; eexists _, _; (split; [done|]); split; intros; simpl;
    try lia; try (split; [apply Hf; set_solver|done]);
    try (rewrite Hc by (apply Hf; set_solver)); by destruct s.
Qed.

Definition known_type (ty : Z) : Prop :=
  ty ∈ [LORIEBUFFER_REGULAR; LORIEBUFFER_FD; LORIEBUFFER_AHARDWAREBUFFER].

(** A successful [LorieBuffer_allocate]. *)
Lemma allocate_owns e w h fmt ty s p s' :
  fresh e s → LorieBuffer_allocate e w h fmt ty s = Some (p, s') → p ≠ 0 →
  ∃ b, heap s' = <[p := b]> (heap s) ∧ heap s !! p = None ∧ p = malloc_buffer e
    ∧ refcount b = 1 ∧ id (desc b) = next_id s ∧ next_id s' = u64 (next_id s + 1)
    ∧ lists s' = lists s ∧ owns e b s s'.
Proof.
  intros Hfr. pose proof Hfr as (Hh & Hb & Hm & _ & Ha & _).
  unfold LorieBuffer_allocate, allocate, alloc_record. brun.
  destruct (Z.eqb_spec ty LORIEBUFFER_FD) as [->|H2].
  - destruct (pixel_bytes w h) as [n|]; brun; [|done].
    destruct (createRegion_run e (alignToPage e n) s Hfr) as (f & s1 & -> & Hf & Hf').
    destruct (Z.ltb_spec f 0); brun; [by intros; simplify_eq|].
    destruct (Hf ltac:(lia)) as [Hnf ->]. cbn [negb andb when]. brun. tysimp.
    destruct (acceptable w h fmt); cbn [negb andb]; brun; [|by intros [= <- <-]].
    destruct (Hm f 0) as [Hm1 Hm2]; [lia|].
    destruct (_ || _); unfold close_fd, add_map; brun; [by intros [= <- <-]|].
    destruct (malloc_buffer e =? 0) eqn:Emb; tysimp; brun.
    { unfold munmap, close_fd. brun. by intros [= <- <-]. }
    intros [= <- <-] _. eexists. split_and!; [done..|]. by eapply owns_fd.
  - destruct (Z.eqb_spec ty LORIEBUFFER_AHARDWAREBUFFER) as [->|H3].
    + destruct (api26 e) eqn:Eapi.
      2:{ brun. cbn [Z.eqb when]. brun. tysimp. by intros [= <- <-]. }
      specialize (Ha w h fmt).
      destruct (ahb_allocate e w h fmt) as [err hb]. simpl in Ha.
      destruct (err =? 0); unfold ahb_acquire, when; brun; tysimp; brun;
        [|by intros [= <- <-]].
      destruct (hb =? 0); brun; [by intros [= <- <-]|].
      destruct (malloc_buffer e =? 0) eqn:Emb; tysimp; brun.
      { unfold ahb_release. brun. rewrite lookup_insert_eq. repeat case_goal; brun;
          intros; by simplify_eq. }
      intros [= <- <-] _. eexists. split_and!; [done..|]. apply owns_ahb; simpl; try done.
      by rewrite Ha.
    + cbn [negb andb when]. brun.
      destruct (acceptable w h fmt); cbn [negb andb]; brun; [|by intros [= <- <-]].
      destruct (Z.eqb_spec ty LORIEBUFFER_REGULAR) as [->|H1]; brun; [|by intros [= <- <-]].
      destruct (pixel_bytes w h) as [n|]; brun; [|done].
      destruct (malloc_data e =? 0) eqn:Emd; brun; [by intros [= <- <-]|].
      destruct (malloc_buffer e =? 0) eqn:Emb; tysimp; brun.
      { unfold free_block. rewrite Emd. brun. rewrite lookup_insert_eq. brun.
        by intros [= <- <-]. }
      intros [= <- <-] _. eexists. split_and!; [done..|].
      eapply owns_regular; simpl; try done. by apply Z.eqb_neq.
Qed.

(** ** Reference counts *)

Inductive ref_op := Acquire | Release.

Definition run_ref (e : benv) (p : Z) (op : ref_op) : M bst () :=
  match op with
  | Acquire => LorieBuffer_acquire p
  | Release => LorieBuffer_release e p
  end.

Definition run_refs (e : benv) (p : Z) (ops : list ref_op) : M bst () :=
  for_each ops (run_ref e p).

(** The references held after a sequence of operations. *)
Fixpoint held (n : Z) (ops : list ref_op) : Z :=
  match ops with
  | [] => n
  | Acquire :: ops' => held (n + 1) ops'
  | Release :: ops' => held (n - 1) ops'
  end.

(** Callers that keep to the rules: nobody touches the buffer after the last
    reference is gone, and there are never more than [INT16_MAX]. *)
Fixpoint disciplined (n : Z) (ops : list ref_op) : Prop :=
  match ops with
  | [] => True
  | Acquire :: ops' => 0 < n < 2 ^ 15 - 1 ∧ disciplined (n + 1) ops'
  | Release :: ops' => 0 < n ∧ disciplined (n - 1) ops'
  end.

(** Ownership is about the memory only. *)
Lemma owns_ext e b b' s s1 s2 :
  owns e b s s1 → desc b' = desc b → fd b' = fd b → size b' = size b →
  ledger s2 = ledger s1 → owns e b' s s2.
Proof.
  unfold ledger. intros Ho Ed Ef Es [= E1 E2 E3 E4].
  destruct Ho; [eapply owns_regular|eapply owns_fd|eapply owns_ahb];
    rewrite ?Ed, ?Ef, ?Es, ?E1, ?E2, ?E3, ?E4; done.
Qed.

Lemma owns_env e e' b s s' : api26 e' = api26 e → owns e b s s' → owns e' b s s'.
Proof.
  intros Ha []; [by eapply owns_regular|by eapply owns_fd|].
  apply owns_ahb; try done. by rewrite Ha.
Qed.

Lemma s16_small n : - 2 ^ 15 ≤ n < 2 ^ 15 → s16 n = n.
Proof. intros H. apply wrapS_id; [lia|]. unfold inS. simpl. lia. Qed.

(** One release: the last one frees. *)
Lemma release_run e p b s0 s :
  p ≠ 0 → heap s0 !! p = None → heap s = <[p := b]> (heap s0) → owns e b s0 s →
  0 < refcount b < 2 ^ 15 →
  ∃ s2, LorieBuffer_release e p s = Some ((), s2) ∧
    if refcount b =? 1
    then ledger s2 = ledger s0 ∧ heap s2 = heap s0 ∧ lists s2 = (filter (λ q, q ≠ p) <$> lists s)
    else s2 = (s <| heap := <[p := b <| refcount := refcount b - 1 |>]> (heap s0) |>).
Proof.
  intros Hp Hn Hh Ho Hr. unfold LorieBuffer_release. rewrite (proj2 (Z.eqb_neq _ _) Hp). brun.
  assert (heap s !! p = Some b) as Hl by (by rewrite Hh, lookup_insert_eq).
  rewrite (deref_run _ _ _ Hl), (upd_run _ _ _ _ Hl). brun.
  rewrite s16_small by lia. rewrite Hh, insert_insert_eq.
  destruct (Z.eqb_spec (refcount b) 1) as [E|E]; [|by eexists].
  set (b' := mk_LorieBuffer _ _ _ _ _ _ _ _ _ _). set (s1 := mk_bst _ _ _ _ _ _ _ _ _ _).
  destruct (free_owned e p b' s0 s1) as (s2 & E2 & H1 & H2 & H3 & _); try done.
  - by apply (owns_ext _ b _ _ s).
  - exists s2. by split_and!.
Qed.

(** C4: The reference count is exact: whatever disciplined sequence of
    [acquire] and [release] runs on a buffer, no step fails; while references
    are held the record is in place with exactly that count and its memory
    untouched, and the release of the last one gives back the memory, once,
    and removes the record. *)
Theorem refcount_exact e p b s0 ops s :
  p ≠ 0 → heap s0 !! p = None → heap s = <[p := b]> (heap s0) → owns e b s0 s →
  0 < refcount b < 2 ^ 15 → disciplined (refcount b) ops →
  ∃ s2, run_refs e p ops s = Some ((), s2) ∧
    if held (refcount b) ops =? 0
    then ledger s2 = ledger s0 ∧ heap s2 = heap s0
    else ledger s2 = ledger s
         ∧ heap s2 = <[p := b <| refcount := held (refcount b) ops |>]> (heap s0).
Proof.
  intros Hp Hn. revert b s. induction ops as [|op ops IH]; intros b s Hh Ho Hr Hd.
  { eexists. split; [done|]. cbn [held]. rewrite (proj2 (Z.eqb_neq _ _)) by lia.
    split; [done|]. rewrite Hh. by destruct b. }
  unfold run_refs in *. cbn [for_each held]. brun. destruct op; cbn [run_ref disciplined held] in *.
  - destruct Hd as [Hr' Hd]. unfold LorieBuffer_acquire.
    rewrite (proj2 (Z.eqb_neq _ _) Hp).
    rewrite (upd_run s p b) by (by rewrite Hh, lookup_insert_eq). brun.
    rewrite s16_small by lia. rewrite Hh, insert_insert_eq.
    destruct (IH (b <| refcount := refcount b + 1 |>)
      (s <| heap := <[p := b <| refcount := refcount b + 1 |>]> (heap s0) |>))
      as (s2 & E & H); simpl; try done; [by apply (owns_ext _ b _ _ s)|lia|].
    simpl in E. rewrite E. eexists. split; [done|]. exact H.
  - destruct Hd as [Hr' Hd].
    destruct (release_run e p b s0 s Hp Hn Hh Ho Hr) as (s1 & -> & H1).
    destruct (Z.eqb_spec (refcount b) 1) as [E|E].
    + rewrite E in *. change (1 - 1) with 0 in *. destruct ops as [|[] ops]; simpl in Hd; try lia.
      eexists. split; [done|]. simpl. tauto.
    + subst s1. destruct (IH (b <| refcount := refcount b - 1 |>)
        (s <| heap := <[p := b <| refcount := refcount b - 1 |>]> (heap s0) |>))
        as (s2 & E2 & H); simpl; try done; [by apply (owns_ext _ b _ _ s)|lia|].
      simpl in E2. rewrite E2. eexists. split; [done|]. exact H.
Qed.

Definition demo_bst : bst := mk_bst ∅ 0 {[1 := []]} {[3]} ∅ ∅ ∅ ∅ ∅ [].

Definition buf_state {A} (r : option (A * bst)) : bst :=
  match r with Some (_, s) => s | None => demo_bst end.

Definition demo_fd_buffer : bst :=
  buf_state (LorieBuffer_allocate demo_benv 3 2 FORMAT_B8G8R8A8 LORIEBUFFER_FD demo_bst).
Definition demo_b : LorieBuffer :=
  mk_LorieBuffer 1 (mk_Desc 3 2 3 5 2 0 0 458772) false 0 20 4096 0 0 0 0.

Lemma refcount_exact_witness :
  ∃ s2, run_refs demo_benv 0x2000 [Acquire; Release; Acquire; Release; Release] demo_fd_buffer
      = Some ((), s2) ∧ ledger s2 = ledger demo_bst ∧ heap s2 = heap demo_bst.
Proof.
  destruct (refcount_exact demo_benv 0x2000 demo_b demo_bst
    [Acquire; Release; Acquire; Release; Release] demo_fd_buffer) as (s2 & E & H).
  - done.
  - done.
  - vm_compute. done.
  - eapply owns_fd; vm_compute; try done.
  - vm_compute. done.
  - simpl. lia.
  - exists s2. split; [done|]. exact H.
Defined.

(** Allocation does not leak: a buffer of any kind that
    [LorieBuffer_allocate] returned and that is released right away leaves the
    descriptors, mappings, heap blocks, hardware-buffer references, records
    and lists as they were before the allocation, whatever GL state the
    releasing thread has. *)
Theorem allocate_release_no_leak e e' w h fmt ty s p s' :
  fresh e s → api26 e' = api26 e →
  LorieBuffer_allocate e w h fmt ty s = Some (p, s') → p ≠ 0 →
  ∃ s2, LorieBuffer_release e' p s' = Some ((), s2)
    ∧ ledger s2 = ledger s ∧ heap s2 = heap s ∧ lists s2 = lists s.
Proof.
  intros Hfr Hapi E Hp.
  destruct (allocate_owns _ _ _ _ _ _ _ _ Hfr E Hp) as (b & Hh & Hn & -> & Hr & _ & _ & Hl & Ho).
  destruct (release_run e' (malloc_buffer e) b s s') as (s2 & E2 & H); try done.
  { by eapply owns_env. }
  { rewrite Hr. lia. }
  rewrite Hr in H. destruct H as (H1 & H2 & H3). exists s2. split_and!; try done.
  rewrite H3, Hl. apply Hfr.
Qed.

Lemma demo_fresh : fresh demo_benv demo_bst.
Proof.
  split_and!; try done.
  intros f Hf. vm_compute in Hf |- *. set_unfold. naive_solver.
Qed.

Lemma allocate_release_no_leak_witness :
  ∃ s2, LorieBuffer_release demo_benv 0x2000 demo_fd_buffer = Some ((), s2)
    ∧ ledger s2 = ledger demo_bst.
Proof.
  destruct (allocate_release_no_leak demo_benv demo_benv 3 2 FORMAT_B8G8R8A8 LORIEBUFFER_FD
    demo_bst 0x2000 demo_fd_buffer) as (s2 & E & H & _); [apply demo_fresh|done..|].
  by exists s2.
Defined.

(** Wrapping a descriptor with a format the buffer does not accept fails,
    but the duplicate of the descriptor made before the check stays open. *)
Theorem wrap_bad_format_leaks e px w st h fmt f off s n :
  acceptable w h fmt = false → pixel_bytes st h = Some n →
  0 ≤ dup_fd e f → dup_fd e f ∉ fds s →
  ∃ s', LorieBuffer_wrapFileDescriptor e px w st h fmt f off s = Some (0, s')
    ∧ fds s' = {[dup_fd e f]} ∪ fds s ∧ fds s' ≠ fds s ∧ heap s' = heap s ∧ maps s' = maps s.
Proof.
  intros Ha Hn Hd Hnew. unfold LorieBuffer_wrapFileDescriptor, allocate. brun. rewrite Hn. brun.
  rewrite (proj2 (Z.leb_le 0 _) Hd), Ha. tysimp. unfold when, open_fd. brun.
  eexists. split; [done|]. simpl. split_and!; try done.
  intros Heq. apply Hnew. rewrite <-Heq. set_solver.
Qed.

Lemma wrap_bad_format_leaks_witness :
  ∃ s', LorieBuffer_wrapFileDescriptor demo_benv [] 3 3 2 1 3 0 demo_bst = Some (0, s')
    ∧ fds s' = {[103]} ∪ fds demo_bst.
Proof.
  destruct (wrap_bad_format_leaks demo_benv [] 3 3 2 1 3 0 demo_bst 24) as (s' & E & H & _);
    [done..| |by exists s'].
  apply (bool_decide_unpack _). vm_compute. done.
Defined.

(** ** Locking *)

(** The lock protocol of a buffer in plain memory: the first lock returns
    the address of the pixels, a second one fails with [EEXIST] and returns the
    same address without changing anything, unlocking restores the buffer as
    it was, and unlocking again fails with [ENOENT]. *)
Theorem lock_protocol e p b s :
  p ≠ 0 → heap s !! p = Some b → locked b = false → lockedData b = 0 →
  type (desc b) ∈ [LORIEBUFFER_REGULAR; LORIEBUFFER_FD] →
  ∃ s1, LorieBuffer_lock e p s = Some ((0, Some (data (desc b))), s1)
    ∧ LorieBuffer_lock e p s1 = Some ((EEXIST, Some (data (desc b))), s1)
    ∧ LorieBuffer_unlock e p s1 = Some (0, s)
    ∧ LorieBuffer_unlock e p s = Some (ENOENT, s).
Proof.
  intros Hp Hh Hl Hd Ht.
  assert ((type (desc b) =? LORIEBUFFER_REGULAR) || (type (desc b) =? LORIEBUFFER_FD) = true
          ∧ (type (desc b) =? LORIEBUFFER_AHARDWAREBUFFER) = false) as [T1 T2].
  { set_unfold. destruct Ht as [->|[->|[]]]; done. }
  unfold LorieBuffer_lock, LorieBuffer_unlock. rewrite (proj2 (Z.eqb_neq _ _) Hp). brun.
  rewrite (deref_run _ _ _ Hh), Hl, T1. brun. rewrite (upd_run _ _ _ _ Hh). brun.
  eexists. split; [done|].
  set (b1 := mk_LorieBuffer _ _ _ _ _ _ _ _ _ _). set (s1 := mk_bst _ _ _ _ _ _ _ _ _ _).
  assert (heap s1 !! p = Some b1) as Hh1 by apply lookup_insert_eq.
  rewrite (deref_run _ _ _ Hh1). cbn [locked lockedData b1]. split; [done|].
  split; [|done]. cbn [negb type desc b1]. rewrite T2. brun. rewrite (upd_run _ _ _ _ Hh1). brun.
  subst s1. simpl. rewrite insert_insert_eq, insert_id; [by destruct s|].
  rewrite Hh. subst b1. destruct b. simpl in *. by subst.
Qed.

Lemma lock_protocol_witness :
  ∃ s1, LorieBuffer_lock demo_benv 0x2000 demo_fd_buffer = Some ((0, Some 458772), s1)
    ∧ LorieBuffer_unlock demo_benv 0x2000 s1 = Some (0, demo_fd_buffer).
Proof.
  destruct (lock_protocol demo_benv 0x2000 demo_b demo_fd_buffer) as (s1 & E1 & _ & E2 & _);
    [done|vm_compute; done|done|done|vm_compute; set_solver|].
  by exists s1.
Defined.

(** ** Transfer between the processes *)

(** A mapped buffer crosses the socket: what
    [LorieBuffer_sendHandleToUnixSocket] writes, the other process receives as
    a record with the same size, format and id, its own descriptor and a
    mapping of it; nothing is left in the socket.  The mapping starts at
    offset 0 whatever the sender's offset, and the reference count, lock flag
    and size of the record are the sender's. *)
Theorem send_receive_fd e e' px p b s r sf rf :
  0 ≤ sf → 0 ≤ rf → p ≠ 0 → heap s !! p = Some b → type (desc b) = LORIEBUFFER_FD →
  sock s = [] → sock r = [] →
  is_Some (pixel_bytes (stride (desc b)) (height (desc b))) →
  recv_fd e' (fd b) ≠ -1 → mmap_at e' (recv_fd e' (fd b)) 0 ∉ [0; -1] → malloc_buffer e' ≠ 0 →
  ∃ s', LorieBuffer_sendHandleToUnixSocket e p sf s = Some ((), s') ∧
  ∃ r', LorieBuffer_recvHandleFromUnixSocket e' px rf true (r <| sock := sock s' |>)
      = Some (Some (malloc_buffer e'), r')
    ∧ heap r' !! malloc_buffer e' = Some (b <| image := 0 |> <| fd := recv_fd e' (fd b) |>
        <| desc := desc b <| data := mmap_at e' (recv_fd e' (fd b)) 0 |> |>)
    ∧ fds r' = {[recv_fd e' (fd b)]} ∪ fds r
    ∧ blocks r' !! mmap_at e' (recv_fd e' (fd b)) 0 = Some px
    ∧ sock r' = [].
Proof.
  intros Hsf Hrf Hp Hh Ht Hs Hr [n Hn] Hfd Hmap Hmal.
  unfold LorieBuffer_sendHandleToUnixSocket.
  rewrite (proj2 (Z.ltb_ge sf 0) Hsf), (proj2 (Z.eqb_neq _ _) Hp). cbn [orb]. brun.
  rewrite (deref_run _ _ _ Hh). brun. rewrite Ht. tysimp. brun. rewrite Hs.
  eexists. split; [done|]. simpl.
  unfold LorieBuffer_recvHandleFromUnixSocket, read_struct, recv_descriptor, open_fd, add_map,
    recv_finish. rewrite (proj2 (Z.ltb_ge rf 0) Hrf). brun. rewrite Ht. tysimp. brun.
  rewrite Hn. brun. rewrite (proj2 (Z.eqb_neq _ _) Hfd).
  rewrite !not_elem_of_cons in Hmap. destruct Hmap as (M1 & M2 & _).
  rewrite (proj2 (Z.eqb_neq _ _) M1), (proj2 (Z.eqb_neq _ _) M2). cbn [orb]. brun.
  rewrite (proj2 (Z.eqb_neq _ _) Hmal). brun. eexists. split; [done|].
  simpl. rewrite !lookup_insert_eq. done.
Qed.

Lemma send_receive_fd_witness :
  ∃ s', LorieBuffer_sendHandleToUnixSocket demo_benv 0x2000 4 demo_fd_buffer = Some ((), s') ∧
  ∃ r', LorieBuffer_recvHandleFromUnixSocket demo_benv [] 5 true (demo_bst <| sock := sock s' |>)
      = Some (Some 0x2000, r') ∧ fds r' = {[70]} ∪ fds demo_bst.
Proof.
  destruct (send_receive_fd demo_benv demo_benv [] 0x2000 demo_b demo_fd_buffer demo_bst 4 5)
    as (s' & E & r' & E2 & _ & E3 & _); try done.
  - apply (bool_decide_unpack _). vm_compute. done.
  - exists s'. split; [done|]. by exists r'.
Defined.

(** ** Conversion keeps the picture *)

Lemma wr_run {A} (l : list A) i v : (i < length l)%nat → wr l i v = Some (<[i := v]> l).
Proof. intros H. unfold wr. by rewrite decide_True. Qed.

Lemma blt_row_spec src : ∀ w dst si di,
  (si + w ≤ length src)%nat → (di + w ≤ length dst)%nat →
  ∃ dst', blt_row w src dst si di = Some dst' ∧ length dst' = length dst
    ∧ (∀ x, (x < w)%nat → dst' !! (di + x)%nat = src !! (si + x)%nat)
    ∧ (∀ i, (i < di)%nat ∨ (di + w ≤ i)%nat → dst' !! i = dst !! i).
Proof.
  induction w as [|w IH]; intros dst si di Hs Hd; cbn [blt_row].
  { eexists. split_and!; [done..|lia|done]. }
  destruct (lookup_lt_is_Some_2 src si ltac:(lia)) as [v Hv]. rewrite Hv. cbn [mbind option_bind].
  rewrite wr_run by lia. cbn [mbind option_bind].
  destruct (IH (<[di := v]> dst) (S si) (S di)) as (dst' & E & L & Hin & Hout);
    rewrite ?length_insert; [lia..|].
  exists dst'. rewrite length_insert in L. split_and!; [done..| |].
  - intros [|x] Hx.
    + rewrite !Nat.add_0_r, Hv, Hout by lia. rewrite list_lookup_insert_eq by lia. done.
    + specialize (Hin x ltac:(lia)). by rewrite !Nat.add_succ_r.
  - intros i Hi. rewrite Hout by lia. by rewrite list_lookup_insert_ne by lia.
Qed.

Lemma blt_rows_spec src w sst dst_st : ∀ h dst si di,
  (w ≤ sst)%nat → (w ≤ dst_st)%nat →
  (si + h * sst ≤ length src)%nat → (di + h * dst_st ≤ length dst)%nat →
  ∃ dst', blt_rows h w src dst sst dst_st si di = Some dst' ∧ length dst' = length dst
    ∧ (∀ x y, (x < w)%nat → (y < h)%nat →
         dst' !! (di + y * dst_st + x)%nat = src !! (si + y * sst + x)%nat)
    ∧ (∀ i, (i < di)%nat → dst' !! i = dst !! i).
Proof.
  induction h as [|h IH]; intros dst si di W1 W2 Hs Hd; cbn [blt_rows].
  { eexists. split_and!; [done..|lia|done]. }
  destruct (blt_row_spec src w dst si di) as (d1 & -> & L1 & Hin & Hout); [lia..|].
  cbn [mbind option_bind].
  destruct (IH d1 (si + sst)%nat (di + dst_st)%nat) as (d2 & E & L2 & Hin2 & Hout2); [lia..|].
  exists d2. split_and!; [done|lia| |].
  - intros x [|y] Hx Hy.
    + rewrite Hout2 by lia. rewrite Nat.mul_0_l, !Nat.add_0_r. by apply Hin.
    + rewrite <-(Nat.add_assoc di), <-(Nat.add_assoc si).
      specialize (Hin2 x y Hx ltac:(lia)).
      replace (di + (S y * dst_st + x))%nat with (di + dst_st + y * dst_st + x)%nat by lia.
      replace (si + (S y * sst + x))%nat with (si + sst + y * sst + x)%nat by lia. done.
  - intros i Hi. rewrite Hout2 by lia. apply Hout. lia.
Qed.

(** The pixel in column [x] of row [y]. *)
Definition pixel (px : list Z) (st : Z) (x y : nat) : option Z :=
  px !! (y * Z.to_nat st + x)%nat.

(** The calls of a conversion that succeed. *)
Lemma create_region_run e sz s :
  api26 e = true → 0 ≤ ASharedMemory_create e →
  LorieBuffer_createRegion e sz s
  = Some (ASharedMemory_create e, s <| fds ::= union {[ASharedMemory_create e]} |>).
Proof.
  intros Ha Hf. unfold LorieBuffer_createRegion. rewrite Ha. by rewrite (proj2 (Z.leb_le 0 _) Hf).
Qed.

Lemma add_map_run p len px s :
  add_map p len px s = Some ((), s <| maps ::= insert p len |> <| blocks ::= insert p px |>).
Proof. done. Qed.

Lemma blt_run e sp dp sst dst_st w h src dst dst' s :
  blt_ok e = true → blocks s !! sp = Some src → blocks s !! dp = Some dst →
  blt_rows (Z.to_nat h) (Z.to_nat w) src dst (Z.to_nat sst) (Z.to_nat dst_st) 0 0 = Some dst' →
  pixman_blt e sp dp sst dst_st w h s = Some ((), s <| blocks ::= insert dp dst' |>).
Proof.
  intros Hb Hs Hd Hr. unfold pixman_blt. rewrite Hb. cbn [negb]. mrun. by rewrite Hs, Hd, Hr.
Qed.

Lemma free_block_run p px s :
  p ≠ 0 → blocks s !! p = Some px → free_block p s = Some ((), s <| blocks ::= delete p |>).
Proof. intros Hp E. unfold free_block. rewrite (proj2 (Z.eqb_neq _ _) Hp). mrun. by rewrite E. Qed.

(** Converting a heap buffer to shared memory keeps the picture: when the
    region and its mapping can be made, the buffer afterwards is a mapped one
    with the new format, the same size, stride and id, every pixel is where it
    was, the heap block is freed and the buffer is unlocked. *)
Theorem convert_keeps_picture e k p b px fmt s :
  fresh e s → p ≠ 0 → heap s !! p = Some b → type (desc b) = LORIEBUFFER_REGULAR →
  fmt ∈ [FORMAT_R8G8B8X8; FORMAT_B8G8R8A8] → blt_ok e = true →
  0 ≤ k < 32 → page_size e = 2 ^ k →
  0 < width (desc b) ≤ stride (desc b) → 0 < height (desc b) →
  stride (desc b) * height (desc b) < 2 ^ 31 →
  data (desc b) ≠ 0 → blocks s !! data (desc b) = Some px →
  length px = Z.to_nat (stride (desc b) * height (desc b)) →
  api26 e = true → 0 ≤ ASharedMemory_create e →
  mmap_at e (ASharedMemory_create e) 0 ∉ [0; -1; data (desc b)] →
  ∃ s' b' px', LorieBuffer_convert e p LORIEBUFFER_FD fmt s = Some ((), s')
    ∧ heap s' !! p = Some b' ∧ type (desc b') = LORIEBUFFER_FD ∧ format (desc b') = fmt
    ∧ width (desc b') = width (desc b) ∧ height (desc b') = height (desc b)
    ∧ stride (desc b') = stride (desc b) ∧ id (desc b') = id (desc b)
    ∧ locked b' = false ∧ blocks s' !! data (desc b) = None
    ∧ blocks s' !! data (desc b') = Some px'
    ∧ ∀ x y, (x < Z.to_nat (width (desc b)))%nat → (y < Z.to_nat (height (desc b)))%nat →
        pixel px' (stride (desc b)) x y = pixel px (stride (desc b)) x y.
Proof.
  intros Hfr Hp Hh Ht Hfmt Hblt Hk Hps Hw Hhe Hov Hd Hpx Hlen Hapi Hfd Hmap.
  set (n := stride (desc b) * height (desc b)) in *.
  assert (0 < n) by (subst n; nia).
  assert (pixel_bytes (stride (desc b)) (height (desc b)) = Some (n * 4)) as Hn.
  { unfold pixel_bytes, int_mul. fold n. rewrite (proj2 (Z.leb_le _ _)), (proj2 (Z.ltb_lt _ _)) by nia.
    cbn [andb mbind option_bind]. f_equal. 
    rewrite (wrapU_id 64 n), wrapU_id; [done|unfold inU; lia..]. }
  assert (2 ^ k ≤ 2 ^ 32) by (apply Z.pow_le_mono_r; lia).
  destruct (alignToPage_multiple e k (n * 4)) as (q & Hq & Hqb);
    [lia|done|lia|rewrite Hps; lia|].
  rewrite !not_elem_of_cons in Hmap. destruct Hmap as (M1 & M2 & M3 & _).
  destruct (blt_rows_spec px (Z.to_nat (width (desc b))) (Z.to_nat (stride (desc b)))
    (Z.to_nat (stride (desc b))) (Z.to_nat (height (desc b)))
    (replicate (Z.to_nat (alignToPage e (n * 4) / 4)) 0) 0 0) as (px' & Hblt' & _ & Hpix & _).
  { lia. } { lia. }
  { rewrite Hlen. nia. }
  { rewrite length_replicate, Hq. enough (n ≤ q * 2 ^ k / 4) by nia. apply Z.div_le_lower_bound; lia. }
  unfold LorieBuffer_convert. rewrite (proj2 (Z.eqb_neq _ _) Hp). mstep (deref_run _ _ _ Hh).
  rewrite Ht, Hn. tysimp.
  assert (negb (fmt =? FORMAT_R8G8B8X8) && negb (fmt =? FORMAT_B8G8R8A8) = false) as ->.
  { set_unfold. destruct Hfmt as [->|[->|[]]]; done. }
  cbn [negb orb andb]. cbv iota. mstep (eq_refl (of_option (Some (n * 4)) s)).
  mstep (create_region_run e (alignToPage e (n * 4)) s Hapi Hfd).
  rewrite (proj2 (Z.ltb_ge _ _) Hfd), (proj2 (Z.eqb_neq _ _) M1), (proj2 (Z.eqb_neq _ _) M2).
  cbn [orb]. cbv iota.
  mstep (add_map_run _ _ _ _).
  erewrite bind_run by (eapply blt_run; [exact Hblt|simpl; rewrite lookup_insert_ne by done;
    exact Hpx|simpl; apply lookup_insert_eq|exact Hblt']); cbv beta.
  erewrite bind_run by (eapply free_block_run; [exact Hd|]; simpl;
    rewrite !lookup_insert_ne by done; exact Hpx); cbv beta.
  eexists _, _, px'. split; [by apply upd_run|]. simpl.
  rewrite lookup_insert_eq. split; [done|]. simpl. split_and!; try done.
  - apply lookup_delete_eq.
  - rewrite lookup_delete_ne by done. apply lookup_insert_eq.
Qed.

Definition demo_regular : bst :=
  demo_bst <| heap := {[9 := mk_LorieBuffer 1 (mk_Desc 2 2 3 5 1 4 0 0x3000) false 0 (-1) 0 0 0 0 0]} |>
           <| blocks := {[0x3000 := [1; 2; 0; 3; 4; 0]]} |>.

Lemma convert_keeps_picture_witness :
  ∃ s' b' px', LorieBuffer_convert demo_benv 9 LORIEBUFFER_FD FORMAT_B8G8R8A8 demo_regular
      = Some ((), s')
    ∧ heap s' !! 9 = Some b' ∧ blocks s' !! data (desc b') = Some px'
    ∧ pixel px' 3 1 1 = Some 4.
Proof.
  destruct (convert_keeps_picture demo_benv 12 9
    (mk_LorieBuffer 1 (mk_Desc 2 2 3 5 1 4 0 0x3000) false 0 (-1) 0 0 0 0 0)
    [1; 2; 0; 3; 4; 0] FORMAT_B8G8R8A8 demo_regular)
    as (s' & b' & px' & E & H1 & _ & _ & _ & _ & _ & _ & _ & _ & H2 & H3); try done.
  - split_and!; try done.
    + intros f o Hf. split; [done|]. simpl. apply lookup_singleton_ne. lia.
    + intros f Hf. vm_compute in Hf |- *. set_unfold. naive_solver.
  - set_solver.
  - apply (bool_decide_unpack _). vm_compute. done.
  - exists s', b', px'. split_and!; [done..|].
    refine (eq_trans (H3 1%nat 1%nat _ _) _); [vm_compute; lia..|done].
Defined.

(** ** Lists *)

(** A buffer is in one list at a time: adding it to a list takes it out of
    the one it was in, puts it in front, and from then on the first entry and
    the search by its id find it. *)
Theorem addToList_moves p l ps b s :
  p ≠ 0 → l ≠ 0 → heap s !! p = Some b → lists s !! l = Some ps →
  ∃ s', LorieBuffer_addToList p l s = Some ((), s')
    ∧ lists s' !! l = Some (p :: filter (λ q, q ≠ p) ps)
    ∧ (∀ l' ps', l' ≠ l → lists s' !! l' = Some ps' → p ∉ ps')
    ∧ LorieBufferList_first l s' = Some (p, s')
    ∧ LorieBufferList_findById l (id (desc b)) s' = Some (p, s').
Proof.
  intros Hp Hl Hh Hls. unfold LorieBuffer_addToList.
  rewrite (proj2 (Z.eqb_neq _ _) Hp), (proj2 (Z.eqb_neq _ _) Hl). cbn [orb]. brun.
  rewrite (deref_run _ _ _ Hh). unfold xorg_list_del, xorg_list_add. brun.
  eexists. split; [done|]. simpl.
  assert (alter (cons p) l (filter (λ q, q ≠ p) <$> lists s) !! l
          = Some (p :: filter (λ q, q ≠ p) ps)) as E.
  { by rewrite lookup_alter_eq, lookup_fmap, Hls. }
  split_and!; [done| | |].
  - intros l' ps' Hne. rewrite lookup_alter_ne, lookup_fmap by done.
    destruct (lists s !! l') as [qs|]; [|done]. intros [= <-].
    rewrite list_elem_of_filter. by intros [? _].
  - unfold LorieBufferList_first. brun. by rewrite E.
  - unfold LorieBufferList_findById. brun. rewrite E. cbn [find_by_id]. brun.
    rewrite (deref_run _ p b) by done. by rewrite Z.eqb_refl.
Qed.

Lemma addToList_moves_witness :
  ∃ s', LorieBuffer_addToList 0x2000 1 demo_fd_buffer = Some ((), s')
    ∧ LorieBufferList_findById 1 0 s' = Some (0x2000, s').
Proof.
  destruct (addToList_moves 0x2000 1 [] demo_b demo_fd_buffer) as (s' & E & _ & _ & _ & H);
    [done|done|vm_compute; done..|].
  exists s'. by split.
Defined.

(** ** Identifiers *)

(** Identifiers of local buffers are below the counter and differ. *)
Definition ids_unique (s : bst) : Prop :=
  0 ≤ next_id s < 2 ^ 64 ∧
  (∀ p b, heap s !! p = Some b → 0 ≤ id (desc b) < next_id s) ∧
  (∀ p q b c, heap s !! p = Some b → heap s !! q = Some c →
     id (desc b) = id (desc c) → p = q).

(** Every buffer a process allocates gets an id no other buffer of it has,
    and the invariant is kept, up to [2^64] allocations. *)
Theorem allocate_ids_unique e w h fmt ty s p s' :
  fresh e s → ids_unique s → next_id s < 2 ^ 64 - 1 →
  LorieBuffer_allocate e w h fmt ty s = Some (p, s') → p ≠ 0 → ids_unique s'.
Proof.
  intros Hfr (I1 & I2 & I3) Hn E Hp.
  destruct (allocate_owns _ _ _ _ _ _ _ _ Hfr E Hp) as (b & Hh & Hno & _ & _ & Hid & Hnx & _).
  rewrite wrapU_id in Hnx by (unfold inU; lia). unfold ids_unique. rewrite Hh, Hnx.
  split_and!; [lia|lia| |].
  - intros q c. destruct (decide (q = p)) as [->|].
    + rewrite lookup_insert_eq. intros [= <-]. lia.
    + rewrite lookup_insert_ne by done. intros Hq%I2. lia.
  - intros q r c d. destruct (decide (q = p)) as [->|], (decide (r = p)) as [->|];
      rewrite ?lookup_insert_eq, ?lookup_insert_ne by done; try done.
    + intros [= <-] Hr%I2. lia.
    + intros Hq%I2 [= <-]. lia.
    + apply I3.
Qed.

Lemma allocate_ids_unique_witness : ids_unique demo_fd_buffer.
Proof.
  apply (allocate_ids_unique demo_benv 3 2 FORMAT_B8G8R8A8 LORIEBUFFER_FD demo_bst 0x2000);
    [apply demo_fresh| |vm_compute; done|vm_compute; done|done].
  split_and!; [vm_compute; done..| |]; by intros *.
Defined.
