(* ===== verification/Xkb.v ===== *)
(** * Keymaps: looking up keysyms and actions ([lorie/InputXKB.c])

    The keymap as the server keeps it ([xserver/include/xkbstr.h]), the two
    lookups [XkbTranslateKeyCode] and [XkbKeyActionPtr], the reverse search
    [lorieKeysymToKeycode], case conversion ([xserver/xkb/xkbUtils.c]) and the
    change of a key's type ([xserver/xkb/XKBMisc.c]) for the one way the
    program calls it.

    All of it reads the keymap only, so it is written as functions of the
    keymap; a read outside a table is undefined behaviour ([None]).  The syms
    and the actions of a key are kept with the key. *)

From S2P Require Import Prelude.

(** ** Data *)

Record kt_entry := mk_kt_entry { e_active : bool; e_mask : Z; e_level : nat }.

Record key_type := mk_key_type {
  t_mask : Z;                     (** [mods.mask] *)
  t_map : list kt_entry;          (** [map], empty where it is [NULL] *)
  t_preserve : option (list Z);   (** masks, one per map entry *)
  t_levels : nat
}.

Record action := mk_action { a_type : Z; a_flags : Z; a_mask : Z }.

Record sym_map := mk_sym_map {
  group_info : Z;
  gwidth : nat;                   (** columns per group *)
  kt_index : list nat;            (** the type of each of the four groups *)
  syms : list Z;
  acts : option (list action)     (** [None]: [XkbKeyHasActions] is false *)
}.
#[export] Instance sym_map_eta : Settable sym_map :=
  λ r, mk_sym_map (group_info r) (gwidth r) (kt_index r) (syms r) (acts r).

Record xkb_controls := mk_xkb_controls {
  num_groups : Z;
  groups_wrap : Z;
  internal_mask : Z;              (** [internal.mask] *)
  ignore_lock_mask : Z;           (** [ignore_lock.mask] *)
  enabled_ctrls : Z
}.
#[export] Instance xkb_controls_eta : Settable xkb_controls :=
  λ r, mk_xkb_controls (num_groups r) (groups_wrap r) (internal_mask r) (ignore_lock_mask r)
         (enabled_ctrls r).

Record xkb_desc := mk_xkb_desc {
  min_key_code : nat;
  max_key_code : nat;
  types : list key_type;
  keys : list sym_map;            (** by keycode *)
  modmap : list Z;
  names : option (list (list Z)); (** four characters per keycode *)
  indicators : list Z;            (** atoms of the indicator names *)
  ctrls : option xkb_controls;
  compat_groups : option (list Z) (** masks of [compat->groups], four *)
}.
#[export] Instance xkb_desc_eta : Settable xkb_desc :=
  λ r, mk_xkb_desc (min_key_code r) (max_key_code r) (types r) (keys r) (modmap r) (names r)
         (indicators r) (ctrls r) (compat_groups r).

Definition NoSymbol : Z := 0.
Definition ShiftMask : Z := 1.
Definition LockMask : Z := 2.
Definition XkbClampIntoRange : Z := 0x40.
Definition XkbRedirectIntoRange : Z := 0x80.
Definition XkbSA_SetMods : Z := 1.
Definition XkbSA_LockMods : Z := 3.
Definition XkbSA_UseModMapMods : Z := 4.
Definition XkbAlphabeticIndex : nat := 2.

(** ** Groups *)

Definition XkbNumGroups (g : Z) : Z := Z.land g 0x0f.
Definition XkbSetNumGroups (g n : Z) : Z := Z.lor (Z.land g 0xf0) (Z.land n 0x0f).
Definition XkbGroupForCoreState (s : Z) : Z := Z.land (Z.shiftr s 13) 3.
Definition XkbBuildCoreState (m g : Z) : Z :=
  Z.lor (Z.shiftl (Z.land g 3) 13) (Z.land m 0xff).

Definition XkbKeycodeInRange (d : xkb_desc) (key : nat) : bool :=
  (min_key_code d <=? key)%nat && (key <=? max_key_code d)%nat.

(** The effective group of a key, for a key that has groups. *)
Definition effective_group (sm : sym_map) (mods : Z) : Z :=
  let n := XkbNumGroups (group_info sm) in
  let g := XkbGroupForCoreState mods in
  if g <? n then g
  else
    let act := Z.land (group_info sm) 0xc0 in
    if act =? XkbClampIntoRange then n - 1
    else if act =? XkbRedirectIntoRange then
      let g' := Z.shiftr (Z.land (group_info sm) 0x30) 4 in
      if n <=? g' then 0 else g'
    else g mod n.

(** The shift level: the first active map entry whose modifiers match, with
    its place in the map; no match is level 0. *)
Fixpoint find_level (t : key_type) (m : list kt_entry) (i : nat) (mods : Z)
  : option (nat * nat) :=
  match m with
  | [] => None
  | en :: m' =>
    if e_active en && (Z.land mods (t_mask t) =? e_mask en) then Some (e_level en, i)
    else find_level t m' (S i) mods
  end.

Definition key_type_of (d : xkb_desc) (sm : sym_map) (g : Z) : option key_type :=
  i ← kt_index sm !! Z.to_nat (Z.land g 3); types d !! i.

(** The column of a key's table for a state: group, then level. *)
Definition key_column (d : xkb_desc) (sm : sym_map) (mods : Z)
  : option (nat * key_type * option nat) :=
  let g := effective_group sm mods in
  t ← key_type_of d sm g;
  let base := (Z.to_nat g * gwidth sm)%nat in
  match find_level t (t_map t) 0 mods with
  | Some (lvl, i) => Some ((base + lvl)%nat, t, Some i)
  | None => Some (base, t, None)
  end.

(** [XkbTranslateKeyCode]: the potentially consumed modifiers and the keysym. *)
Definition XkbTranslateKeyCode (d : xkb_desc) (key : nat) (mods : Z) : option (Z * Z) :=
  sm ← keys d !! key;
  if negb (XkbKeycodeInRange d key) || (XkbNumGroups (group_info sm) =? 0)
  then Some (0, NoSymbol)
  else
    '(col, t, i) ← key_column d sm mods;
    preserve ← match i, t_preserve t with
               | Some i, Some ps => ps !! i
               | _, _ => Some 0
               end;
    ks ← syms sm !! col;
    Some (Z.land (t_mask t) (Z.lnot preserve), ks).

(** [XkbKeyActionPtr]: [Some None] is [NULL]. *)
Definition XkbKeyActionPtr (d : xkb_desc) (key : nat) (mods : Z) : option (option action) :=
  sm ← keys d !! key;
  match acts sm with
  | None => Some None
  | Some al =>
    if negb (XkbKeycodeInRange d key) || (XkbNumGroups (group_info sm) =? 0)
    then Some None
    else
      '(col, _, _) ← key_column d sm mods;
      a ← al !! col;
      Some (Some a)
  end.

Definition XkbKeyEffectiveGroup (d : xkb_desc) (key : nat) (mods : Z) : option Z :=
  sm ← keys d !! key;
  if negb (XkbKeycodeInRange d key) || (XkbNumGroups (group_info sm) =? 0)
  then Some 0 else Some (effective_group sm mods).

(** ** Case *)

Definition between (a x b : Z) : bool := (a <=? x) && (x <=? b).

(** [XkbConvertCase]: lower and upper. *)
Definition XkbConvertCase (sym : Z) : Z * Z :=
  let low k := (sym + k, sym) in
  let up k := (sym, sym + k) in
  let page := Z.shiftr sym 8 in
  if page =? 0 then
    if between 0x41 sym 0x5a then low 0x20
    else if between 0x61 sym 0x7a then up (- 0x20)
    else if between 0xc0 sym 0xd6 then low 0x20
    else if between 0xe0 sym 0xf6 then up (- 0x20)
    else if between 0xd8 sym 0xde then low 0x20
    else if between 0xf8 sym 0xfe then up (- 0x20)
    else (sym, sym)
  else if page =? 1 then
    if sym =? 0x1a1 then (0x1b1, sym)
    else if between 0x1a3 sym 0x1a6 then low 0x10
    else if between 0x1a9 sym 0x1ac then low 0x10
    else if between 0x1ae sym 0x1af then low 0x10
    else if sym =? 0x1b1 then (sym, 0x1a1)
    else if between 0x1b3 sym 0x1b6 then up (- 0x10)
    else if between 0x1b9 sym 0x1bc then up (- 0x10)
    else if between 0x1be sym 0x1bf then up (- 0x10)
    else if between 0x1c0 sym 0x1de then low 0x20
    else if between 0x1e0 sym 0x1fe then up (- 0x20)
    else (sym, sym)
  else if page =? 2 then
    if between 0x2a1 sym 0x2a6 then low 0x10
    else if between 0x2ab sym 0x2ac then low 0x10
    else if between 0x2b1 sym 0x2b6 then up (- 0x10)
    else if between 0x2bb sym 0x2bc then up (- 0x10)
    else if between 0x2c5 sym 0x2de then low 0x20
    else if between 0x2e5 sym 0x2fe then up (- 0x20)
    else (sym, sym)
  else if page =? 3 then
    if between 0x3a3 sym 0x3ac then low 0x10
    else if between 0x3b3 sym 0x3bc then up (- 0x10)
    else if sym =? 0x3bd then (0x3bf, sym)
    else if sym =? 0x3bf then (sym, 0x3bd)
    else if between 0x3c0 sym 0x3de then low 0x20
    else if between 0x3e0 sym 0x3fe then up (- 0x20)
    else (sym, sym)
  else if page =? 6 then
    if between 0x6b1 sym 0x6bf then low (- 0x10)
    else if between 0x6a1 sym 0x6af then up 0x10
    else if between 0x6e0 sym 0x6ff then low (- 0x20)
    else if between 0x6c0 sym 0x6df then up 0x20
    else (sym, sym)
  else if page =? 7 then
    if between 0x7a1 sym 0x7ab then low 0x10
    else if between 0x7b1 sym 0x7bb && negb (sym =? 0x7b6) && negb (sym =? 0x7ba)
    then up (- 0x10)
    else if between 0x7c1 sym 0x7d9 then low 0x20
    else if between 0x7e1 sym 0x7f9 && negb (sym =? 0x7f3) then up (- 0x20)
    else (sym, sym)
  else (sym, sym).

(** ** From keysym to keycode *)

Definition fakeKeys : list nat := [92; 203; 204; 205; 206; 207]%nat.

(** The keysym a key sends in a state, after the effect of Caps Lock. *)
Definition key_sends (d : xkb_desc) (key : nat) (state : Z) : option Z :=
  '(consumed, ks) ← XkbTranslateKeyCode d key state;
  if ks =? NoSymbol then Some NoSymbol
  else if truthy (Z.land (Z.land state (Z.lnot consumed)) LockMask)
  then Some (snd (XkbConvertCase ks)) else Some ks.

(** The loop of [lorieKeysymToKeycode] over the remaining [n] keys from [key];
    0 is "none". *)
Fixpoint keysym_loop (d : xkb_desc) (keysym state : Z) (n key fallback : nat) : option nat :=
  match n with
  | O => Some fallback
  | S n' =>
    '(consumed, ks) ← XkbTranslateKeyCode d key state;
    if ks =? NoSymbol then keysym_loop d keysym state n' (S key) fallback
    else
      let ks' := if truthy (Z.land (Z.land state (Z.lnot consumed)) LockMask)
                 then snd (XkbConvertCase ks) else ks in
      if negb (ks' =? keysym) then keysym_loop d keysym state n' (S key) fallback
      else if bool_decide (key ∈ fakeKeys) then
        keysym_loop d keysym state n' (S key) (if (fallback =? 0)%nat then key else fallback)
      else Some key
  end.

(** [lorieKeysymToKeycode(keysym, state, NULL)]. *)
Definition keysym_lookup (d : xkb_desc) (keysym state : Z) : option nat :=
  keysym_loop d keysym state (S (max_key_code d) - min_key_code d) (min_key_code d) 0.

Definition XK_ISO_Level3_Shift : Z := 0xfe03.
Definition XK_Mode_switch : Z := 0xff7e.
Definition XK_Num_Lock : Z := 0xff7f.
Definition XK_Caps_Lock : Z := 0xffe5.
Definition XK_Tab : Z := 0xff09.

(** The modifiers an action with modifiers stands for. *)
Definition action_mask (d : xkb_desc) (key : nat) (a : action) : option Z :=
  if truthy (Z.land (a_flags a) XkbSA_UseModMapMods) then modmap d !! key
  else Some (a_mask a).

(** The key that reaches level three. *)
Definition level_three_key (d : xkb_desc) (state : Z) : option nat :=
  k ← keysym_lookup d XK_ISO_Level3_Shift state;
  if (k =? 0)%nat then keysym_lookup d XK_Mode_switch state else Some k.

(** [lorieGetLevelThreeMask()], [kbstate] being [lorieGetKeyboardState()]. *)
Definition lorieGetLevelThreeMask (d : xkb_desc) (kbstate : Z) : option Z :=
  let state := Z.land kbstate (Z.lnot 0xff) in
  k ← level_three_key d state;
  if (k =? 0)%nat then Some 0
  else
    a ← XkbKeyActionPtr d k state;
    match a with
    | None => Some 0
    | Some a => if negb (a_type a =? XkbSA_SetMods) then Some 0 else action_mask d k a
    end.

(** Flip the bits of a mask, all together, as the code does. *)
Definition flip (state mask : Z) : Z :=
  Z.lor (Z.land state (Z.lnot mask)) (if truthy (Z.land state mask) then 0 else mask).

(** [lorieKeysymToKeycode(keysym, state, &new_state)]: keycode and new state. *)
Definition lorieKeysymToKeycode (d : xkb_desc) (kbstate keysym state : Z) : option (nat * Z) :=
  k ← keysym_lookup d keysym state;
  if negb (k =? 0)%nat then Some (k, state)
  else
    let st1 := flip state ShiftMask in
    k ← keysym_lookup d keysym st1;
    if negb (k =? 0)%nat then Some (k, st1)
    else
      l3 ← lorieGetLevelThreeMask d kbstate;
      if l3 =? 0 then Some (0%nat, st1)
      else
        let st2 := flip state l3 in
        k ← keysym_lookup d keysym st2;
        if negb (k =? 0)%nat then Some (k, st2)
        else
          let st3 := Z.lor (Z.lor (Z.land state (Z.lnot (Z.lor ShiftMask l3)))
                              (if truthy (Z.land state ShiftMask) then 0 else ShiftMask))
                       (if truthy (Z.land state l3) then 0 else l3) in
          k ← keysym_lookup d keysym st3;
          Some (k, st3).

(** ** Bounds *)

Lemma num_groups_range g : 0 ≤ XkbNumGroups g < 16.
Proof. unfold XkbNumGroups. change 0x0f with (Z.ones 4). rewrite Z.land_ones by lia.
  apply Z.mod_pos_bound. lia. Qed.

Lemma group_state_range s : 0 ≤ XkbGroupForCoreState s < 4.
Proof. unfold XkbGroupForCoreState. change 3 with (Z.ones 2). rewrite Z.land_ones by lia.
  apply Z.mod_pos_bound. lia. Qed.

Lemma effective_group_lt sm mods :
  0 < XkbNumGroups (group_info sm) →
  0 ≤ effective_group sm mods < XkbNumGroups (group_info sm).
Proof.
  intros Hn. pose proof (group_state_range mods). unfold effective_group.
  pose proof (Z.mod_pos_bound (XkbGroupForCoreState mods) _ Hn).
  assert (0 ≤ Z.shiftr (Z.land (group_info sm) 0x30) 4).
  { apply Z.shiftr_nonneg, Z.land_nonneg. lia. }
  repeat case_goal; bool_to_prop; lia.
Qed.

(** A keymap whose tables fit together. *)
Record type_wf (w : nat) (t : key_type) : Prop := mk_type_wf {
  tw_levels : Forall (λ en, (e_level en < t_levels t)%nat) (t_map t);
  tw_width : (t_levels t ≤ w)%nat;
  tw_preserve : ∀ ps, t_preserve t = Some ps → (length (t_map t) ≤ length ps)%nat
}.

Record key_wf (d : xkb_desc) (sm : sym_map) : Prop := mk_key_wf {
  kw_groups : XkbNumGroups (group_info sm) ≤ 4;
  kw_width : XkbNumGroups (group_info sm) ≠ 0 → (0 < gwidth sm)%nat;
  kw_types : length (kt_index sm) = 4%nat
    ∧ Forall (λ i, ∃ t, types d !! i = Some t ∧ type_wf (gwidth sm) t) 
        (take (Z.to_nat (XkbNumGroups (group_info sm))) (kt_index sm));
  kw_syms : (Z.to_nat (XkbNumGroups (group_info sm)) * gwidth sm ≤ length (syms sm))%nat;
  kw_acts : ∀ al, acts sm = Some al →
    (Z.to_nat (XkbNumGroups (group_info sm)) * gwidth sm ≤ length al)%nat;
  kw_none : XkbNumGroups (group_info sm) = 0 → acts sm = None
}.

Record desc_wf (d : xkb_desc) : Prop := mk_desc_wf {
  dw_keys : length (keys d) = 256%nat;
  dw_modmap : length (modmap d) = 256%nat;
  dw_range : (0 < min_key_code d ≤ max_key_code d)%nat ∧ (max_key_code d < 256)%nat;
  dw_key : Forall (key_wf d) (keys d)
}.

(** The check, as a program. *)
Definition type_wfb (w : nat) (t : key_type) : bool :=
  forallb (λ en, (e_level en <? t_levels t)%nat) (t_map t) && (t_levels t <=? w)%nat
  && match t_preserve t with
     | Some ps => (length (t_map t) <=? length ps)%nat
     | None => true
     end.

Definition key_wfb (d : xkb_desc) (sm : sym_map) : bool :=
  let n := Z.to_nat (XkbNumGroups (group_info sm)) in
  (XkbNumGroups (group_info sm) <=? 4)
  && ((n =? 0)%nat || (0 <? gwidth sm)%nat)
  && (length (kt_index sm) =? 4)%nat
  && forallb (λ i, match types d !! i with
                   | Some t => type_wfb (gwidth sm) t
                   | None => false
                   end) (take n (kt_index sm))
  && (n * gwidth sm <=? length (syms sm))%nat
  && match acts sm with
     | Some al => (n * gwidth sm <=? length al)%nat && negb (n =? 0)%nat
     | None => true
     end.

Definition desc_wfb (d : xkb_desc) : bool :=
  (length (keys d) =? 256)%nat && (length (modmap d) =? 256)%nat
  && (0 <? min_key_code d)%nat && (min_key_code d <=? max_key_code d)%nat
  && (max_key_code d <? 256)%nat && forallb (key_wfb d) (keys d).

Lemma forallb_Forall' {A} (f : A → bool) (P : A → Prop) l :
  (∀ x, f x = true → P x) → forallb f l = true → Forall P l.
Proof.
  intros H. rewrite forallb_forall, Forall_forall. intros Hl x Hx.
  by apply H, Hl, list_elem_of_In.
Qed.

Lemma type_wfb_sound w t : type_wfb w t = true → type_wf w t.
Proof.
  unfold type_wfb. intros H. bool_to_prop. split.
  - eapply forallb_Forall'; [|done]. intros en He. by apply Nat.ltb_lt.
  - by apply Nat.leb_le.
  - intros ps Hp. rewrite Hp in *. by apply Nat.leb_le.
Qed.

Lemma key_wfb_sound d sm : key_wfb d sm = true → key_wf d sm.
Proof.
  unfold key_wfb. pose proof (num_groups_range (group_info sm)). intros Hb. bool_to_prop.
  repeat match goal with
  | H : (_ =? _)%nat = true |- _ => apply Nat.eqb_eq in H
  | H : (_ <=? _)%nat = true |- _ => apply Nat.leb_le in H
  end.
  split; [done| |split; [done|]|done| |].
  - intros Hn. match goal with H : _ || _ = true |- _ =>
      apply orb_true_iff in H as [?%Nat.eqb_eq|?%Nat.ltb_lt] end; [lia|done].
  - eapply forallb_Forall'; [|done]. intros i Hi. cbv beta in Hi.
    destruct (types d !! i) as [t|]; [|done]. exists t. split; [done|]. by apply type_wfb_sound.
  - intros al Ha. rewrite Ha in *. bool_to_prop. by apply Nat.leb_le.
  - intros Hn. destruct (acts sm); [|done]. rewrite Hn in *. simpl in *.
    by rewrite ?andb_false_r in *.
Qed.

Lemma desc_wfb_sound d : desc_wfb d = true → desc_wf d.
Proof.
  unfold desc_wfb. intros Hb. bool_to_prop.
  repeat match goal with
  | H : (_ =? _)%nat = true |- _ => apply Nat.eqb_eq in H
  | H : (_ <=? _)%nat = true |- _ => apply Nat.leb_le in H
  | H : (_ <? _)%nat = true |- _ => apply Nat.ltb_lt in H
  end.
  split; [done..|lia|]. eapply forallb_Forall'; [|done]. apply key_wfb_sound.
Qed.

Lemma find_level_lt t mods : ∀ m i lvl j w,
  Forall (λ en, (e_level en < w)%nat) m → find_level t m i mods = Some (lvl, j) →
  (lvl < w)%nat ∧ (i ≤ j < i + length m)%nat.
Proof.
  induction m as [|en m IH]; intros i lvl j w Hw; simpl; [done|].
  inv Hw as [|? ? He Hm]. destruct (_ && _).
  - intros [= <- <-]. split; [done|lia].
  - intros E. destruct (IH _ _ _ _ Hm E). split; [done|lia].
Qed.

(** In a well-formed keymap the column is inside the key's tables. *)
Lemma key_column_bound d sm mods :
  key_wf d sm → XkbNumGroups (group_info sm) ≠ 0 →
  ∃ col t i, key_column d sm mods = Some (col, t, i)
    ∧ (col < Z.to_nat (XkbNumGroups (group_info sm)) * gwidth sm)%nat
    ∧ (∀ j ps, i = Some j → t_preserve t = Some ps → is_Some (ps !! j)).
Proof.
  intros [Hg Hw [Hl Ht] _ _ _] Hn. pose proof (num_groups_range (group_info sm)).
  pose proof (effective_group_lt sm mods ltac:(lia)) as He. unfold key_column, key_type_of.
  set (g := effective_group sm mods) in *.
  assert (Z.land g 3 = g) as ->.
  { change 3 with (Z.ones 2). rewrite Z.land_ones by lia. apply Z.mod_small. lia. }
  assert (∃ i, take (Z.to_nat (XkbNumGroups (group_info sm))) (kt_index sm) !! Z.to_nat g = Some i)
    as [i Hi].
  { apply lookup_lt_is_Some_2. rewrite length_take. lia. }
  destruct (Forall_lookup_1 _ _ _ _ Ht Hi) as (t & Et & [Hlv Hwd Hpr]).
  rewrite lookup_take_lt in Hi by lia. rewrite Hi. cbn [mbind option_bind]. rewrite Et.
  cbn [mbind option_bind]. specialize (Hw Hn).
  destruct (find_level t (t_map t) 0 mods) as [[lvl j]|] eqn:E.
  - destruct (find_level_lt _ _ _ _ _ _ _ Hlv E) as [Hlt Hj].
    eexists _, _, _. split; [done|]. split; [nia|].
    intros j' ps [= <-] Hps. apply lookup_lt_is_Some_2. specialize (Hpr ps Hps). lia.
  - eexists _, _, _. split; [done|]. split; [nia|done].
Qed.

Lemma translate_total d key mods :
  desc_wf d → (key < 256)%nat → is_Some (XkbTranslateKeyCode d key mods).
Proof.
  intros [Hk _ _ Hw] Hlt. unfold XkbTranslateKeyCode.
  destruct (lookup_lt_is_Some_2 (keys d) key ltac:(lia)) as [sm Hsm]. rewrite Hsm.
  cbn [mbind option_bind]. pose proof (Forall_lookup_1 _ _ _ _ Hw Hsm) as Hkw.
  destruct (negb _ || _) eqn:Eb; [eauto|]. bool_to_prop.
  destruct (key_column_bound d sm mods Hkw) as (col & t & i & -> & Hc & Hp); [done|].
  cbn [mbind option_bind].
  assert (∃ p, match i, t_preserve t with Some i, Some ps => ps !! i | _, _ => Some 0 end = Some p)
    as [p ->].
  { destruct i as [i|]; [|eauto]. destruct (t_preserve t) as [ps|] eqn:Ep; [|eauto].
    by apply (Hp i ps). }
  cbn [mbind option_bind].
  destruct (lookup_lt_is_Some_2 (syms sm) col) as [ks ->]; [|cbn [mbind option_bind]; eauto].
  pose proof (kw_syms _ _ Hkw). lia.
Qed.

Lemma action_total d key mods :
  desc_wf d → (key < 256)%nat → is_Some (XkbKeyActionPtr d key mods).
Proof.
  intros [Hk _ _ Hw] Hlt. unfold XkbKeyActionPtr.
  destruct (lookup_lt_is_Some_2 (keys d) key ltac:(lia)) as [sm Hsm]. rewrite Hsm.
  cbn [mbind option_bind]. pose proof (Forall_lookup_1 _ _ _ _ Hw Hsm) as Hkw.
  destruct (acts sm) as [al|] eqn:Ea; [|eauto].
  destruct (negb _ || _) eqn:Eb; [eauto|]. bool_to_prop.
  destruct (key_column_bound d sm mods Hkw) as (col & t & i & -> & Hc & _); [done|].
  cbn [mbind option_bind].
  destruct (lookup_lt_is_Some_2 al col) as [a ->]; [|cbn [mbind option_bind]; eauto].
  pose proof (kw_acts _ _ Hkw al Ea). lia.
Qed.

(** ** The reverse search *)

(** [key] sends [keysym] in [state]. *)
Definition sends (d : xkb_desc) (keysym state : Z) (key : nat) : Prop :=
  key_sends d key state = Some keysym.

#[export] Instance sends_dec d keysym state key : Decision (sends d keysym state key).
Proof. unfold sends. apply _. Defined.

(** One turn of the loop, in terms of [sends]. *)
Lemma keysym_loop_step d keysym state n key fb :
  keysym ≠ NoSymbol → is_Some (XkbTranslateKeyCode d key state) →
  keysym_loop d keysym state (S n) key fb
  = if bool_decide (sends d keysym state key) then
      if bool_decide (key ∈ fakeKeys)
      then keysym_loop d keysym state n (S key) (if (fb =? 0)%nat then key else fb)
      else Some key
    else keysym_loop d keysym state n (S key) fb.
Proof.
  intros Hks [[m ks] Ht]. cbn [keysym_loop]. rewrite Ht. cbn [mbind option_bind].
  set (ks' := if truthy (Z.land (Z.land state (Z.lnot m)) LockMask)
              then snd (XkbConvertCase ks) else ks).
  assert (sends d keysym state key ↔ ks ≠ NoSymbol ∧ ks' = keysym) as Hs.
  { unfold sends, key_sends. rewrite Ht. cbn [mbind option_bind].
    destruct (Z.eqb_spec ks NoSymbol); [split; [intros [=]; congruence|tauto]|].
    subst ks'. destruct (truthy _); naive_solver. }
  destruct (Z.eqb_spec ks NoSymbol) as [->|Hne].
  { rewrite bool_decide_eq_false_2; [done|]. rewrite Hs. tauto. }
  destruct (Z.eqb_spec ks' keysym); cbn [negb].
  - rewrite (bool_decide_eq_true_2 (sends _ _ _ _)); [done|]. by apply Hs.
  - rewrite (bool_decide_eq_false_2 (sends _ _ _ _)); [done|]. rewrite Hs. tauto.
Qed.

(** What the search over [n] keys from [key] finds. *)
Definition search_post (d : xkb_desc) (keysym state : Z) (n key fb r : nat) : Prop :=
  ((key ≤ r < key + n)%nat ∧ sends d keysym state r ∧ r ∉ fakeKeys
   ∧ ∀ j, (key ≤ j < r)%nat → sends d keysym state j → j ∈ fakeKeys)
  ∨ ((∀ j, (key ≤ j < key + n)%nat → sends d keysym state j → j ∈ fakeKeys)
     ∧ (fb ≠ 0%nat → r = fb)
     ∧ (fb = 0%nat →
          (r = 0%nat ∧ ∀ j, (key ≤ j < key + n)%nat → ¬ sends d keysym state j)
          ∨ ((key ≤ r < key + n)%nat ∧ r ∈ fakeKeys ∧ sends d keysym state r))).

Lemma keysym_loop_spec d keysym state : keysym ≠ NoSymbol → ∀ n key fb,
  (0 < key)%nat →
  (∀ j, (key ≤ j < key + n)%nat → is_Some (XkbTranslateKeyCode d j state)) →
  ∃ r, keysym_loop d keysym state n key fb = Some r ∧ search_post d keysym state n key fb r.
Proof.
  intros Hks. induction n as [|n IH]; intros key fb Hpos Htot.
  { exists fb. split; [done|]. right. split_and!; [lia|done|]. intros ->. left. split; [done|lia]. }
  rewrite keysym_loop_step by (auto; apply Htot; lia).
  case_bool_decide as Hs; [case_bool_decide as Hf|].
  - destruct (IH (S key) (if (fb =? 0)%nat then key else fb)) as (r & -> & Hr);
      [lia|intros; apply Htot; lia|].
    exists r. split; [done|]. destruct Hr as [(H1 & H2 & H3 & H4)|(H1 & H2 & _)].
    + left. split_and!; [lia|lia|done..|]. intros j Hj Hsj.
      destruct (decide (j = key)) as [->|]; [done|]. apply H4; [lia|done].
    + right. split_and!.
      * intros j Hj Hsj. destruct (decide (j = key)) as [->|]; [done|]. apply H1; [lia|done].
      * intros Hfb. rewrite (proj2 (Nat.eqb_neq fb 0)) in H2 by done. by apply H2.
      * intros ->. simpl in H2. right. rewrite H2 by lia. split_and!; [lia|lia|done..].
  - exists key. split; [done|]. left. split_and!; [lia|lia|done..|]. intros j Hj. lia.
  - destruct (IH (S key) fb) as (r & -> & Hr); [lia|intros; apply Htot; lia|].
    exists r. split; [done|]. destruct Hr as [(H1 & H2 & H3 & H4)|(H1 & H2 & H3)].
    + left. split_and!; [lia|lia|done..|]. intros j Hj Hsj.
      destruct (decide (j = key)) as [->|]; [done|]. apply H4; [lia|done].
    + right. split_and!; [|done|].
      * intros j Hj Hsj. destruct (decide (j = key)) as [->|]; [done|]. apply H1; [lia|done].
      * intros Hfb. destruct (H3 Hfb) as [[-> Hno]|(? & ? & ?)].
        -- left. split; [done|]. intros j Hj. destruct (decide (j = key)) as [->|]; [done|].
           apply Hno. lia.
        -- right. split_and!; [lia|lia|done..].
Qed.

(** Keycodes of the keymap. *)
Definition in_range (d : xkb_desc) (key : nat) : Prop :=
  (min_key_code d ≤ key ≤ max_key_code d)%nat.

Lemma keysym_lookup_spec d keysym state :
  desc_wf d → keysym ≠ NoSymbol →
  ∃ r, keysym_lookup d keysym state = Some r ∧
    (r ≠ 0%nat → in_range d r ∧ sends d keysym state r
       ∧ (r ∈ fakeKeys → ∀ j, in_range d j → sends d keysym state j → j ∈ fakeKeys))
    ∧ (r = 0%nat → ∀ j, in_range d j → ¬ sends d keysym state j).
Proof.
  intros Hwf Hks. pose proof (dw_range _ Hwf) as [Hr1 Hr2]. unfold keysym_lookup, in_range.
  destruct (keysym_loop_spec d keysym state Hks (S (max_key_code d) - min_key_code d)
              (min_key_code d) 0) as (r & E & Hp); [lia| |].
  { intros j Hj. apply translate_total; [done|lia]. }
  exists r. split; [done|]. destruct Hp as [(H1 & H2 & H3 & H4)|(H1 & _ & H3)].
  - split; [|lia]. intros _. split_and!; [lia|lia|done|]. by intros ?.
  - destruct (H3 eq_refl) as [[-> Hno]|(H4 & H5 & H6)].
    + split; [done|]. intros _ j Hj. apply Hno. lia.
    + split; [|lia]. intros _. split_and!; [lia|lia|done|]. intros _ j Hj. apply H1. lia.
Qed.

(** The reverse search is sound, complete and prefers real keys: in a
    well-formed keymap it always returns; a keycode it returns is in the
    keymap and sends exactly the wanted keysym in the given state; it returns
    one of the never-sent fallback keys only if no other key sends the
    keysym; and it returns 0 only if no key does. *)
Theorem keysym_lookup_correct d keysym state :
  desc_wf d → keysym ≠ NoSymbol →
  ∃ r, keysym_lookup d keysym state = Some r ∧
    (r ≠ 0%nat → in_range d r ∧ sends d keysym state r
       ∧ (r ∈ fakeKeys → ∀ j, in_range d j → sends d keysym state j → j ∈ fakeKeys))
    ∧ (r = 0%nat → ∀ j, in_range d j → ¬ sends d keysym state j).
Proof. apply keysym_lookup_spec. Qed.

(** ** The search with modifiers *)

(** [a] has no bit outside [c]. *)
Definition inside (a c : Z) : Prop := ∀ i, 0 ≤ i → Z.testbit a i = true → Z.testbit c i = true.

Lemma toggled_outside s m x c :
  inside m c → inside x c →
  Z.land (Z.lor (Z.land s (Z.lnot m)) x) (Z.lnot c) = Z.land s (Z.lnot c).
Proof.
  intros Hm Hx. apply Z.bits_inj'. intros i Hi.
  rewrite !Z.land_spec, Z.lor_spec, Z.land_spec, !Z.lnot_spec by lia.
  specialize (Hm i Hi). specialize (Hx i Hi).
  destruct (Z.testbit s i), (Z.testbit m i), (Z.testbit x i), (Z.testbit c i); simpl; naive_solver.
Qed.

Lemma inside_0 c : inside 0 c.
Proof. intros i _. by rewrite Z.bits_0. Qed.
Lemma inside_lor_l a b : inside a (Z.lor a b).
Proof. intros i _ H. by rewrite Z.lor_spec, H. Qed.
Lemma inside_lor_r a b : inside b (Z.lor a b).
Proof. intros i _ H. by rewrite Z.lor_spec, H, orb_true_r. Qed.
Lemma inside_refl a : inside a a.
Proof. by intros i _. Qed.
Lemma inside_if (b : bool) x y c : inside x c → inside y c → inside (if b then x else y) c.
Proof. by destruct b. Qed.
Lemma inside_lor a b c : inside a c → inside b c → inside (Z.lor a b) c.
Proof. intros Ha Hb i Hi. rewrite Z.lor_spec. intros [?|?]%orb_true_iff; auto. Qed.
#[local] Hint Resolve inside_0 inside_lor_l inside_lor_r inside_refl inside_if : lorie.

Lemma flip_outside s m c : inside m c → Z.land (flip s m) (Z.lnot c) = Z.land s (Z.lnot c).
Proof. intros H. apply toggled_outside; auto with lorie. Qed.

Lemma keysym_lookup_total d keysym state :
  desc_wf d → keysym ≠ NoSymbol → ∃ k, keysym_lookup d keysym state = Some k ∧ (k < 256)%nat.
Proof.
  intros Hwf Hk. destruct (keysym_lookup_spec d keysym state Hwf Hk) as (k & E & H & _).
  exists k. split; [done|]. destruct (decide (k = 0%nat)) as [->|Hn]; [lia|].
  pose proof (dw_range _ Hwf). destruct (H Hn) as [[? ?] _]. lia.
Qed.

Lemma action_mask_total d key a : desc_wf d → (key < 256)%nat → is_Some (action_mask d key a).
Proof.
  intros Hwf Hk. unfold action_mask. destruct (truthy _); [|eauto].
  apply lookup_lt_is_Some_2. by rewrite (dw_modmap _ Hwf).
Qed.

Lemma level_three_key_total d state :
  desc_wf d → ∃ k, level_three_key d state = Some k ∧ (k < 256)%nat.
Proof.
  intros Hwf. unfold level_three_key.
  destruct (keysym_lookup_total d XK_ISO_Level3_Shift state Hwf) as (k & -> & Hk); [done|].
  cbn [mbind option_bind]. destruct (k =? 0)%nat; [|eauto].
  by apply keysym_lookup_total.
Qed.

Lemma levelThreeMask_total d kb : desc_wf d → is_Some (lorieGetLevelThreeMask d kb).
Proof.
  intros Hwf. unfold lorieGetLevelThreeMask.
  destruct (level_three_key_total d (Z.land kb (Z.lnot 0xff)) Hwf) as (k & -> & Hk).
  cbn [mbind option_bind]. destruct (k =? 0)%nat; [eauto|].
  destruct (action_total d k (Z.land kb (Z.lnot 0xff)) Hwf Hk) as [[a|] ->];
    cbn [mbind option_bind]; [|eauto].
  destruct (negb _); [eauto|]. by apply action_mask_total.
Qed.

Lemma keysym_to_keycode_spec d kb keysym state :
  desc_wf d → keysym ≠ NoSymbol →
  ∃ k st' l3, lorieKeysymToKeycode d kb keysym state = Some (k, st')
    ∧ lorieGetLevelThreeMask d kb = Some l3
    ∧ Z.land st' (Z.lnot (Z.lor ShiftMask l3)) = Z.land state (Z.lnot (Z.lor ShiftMask l3))
    ∧ (k ≠ 0%nat → in_range d k ∧ sends d keysym st' k)
    ∧ ((∃ j, in_range d j ∧ sends d keysym state j) → k ≠ 0%nat ∧ st' = state).
Proof.
  intros Hwf Hk. destruct (levelThreeMask_total d kb Hwf) as [l3 El].
  unfold lorieKeysymToKeycode.
  destruct (keysym_lookup_spec d keysym state Hwf Hk) as (k & -> & H1 & H0).
  cbn [mbind option_bind]. destruct (Nat.eqb_spec k 0) as [->|Hne]; cbn [negb].
  2:{ destruct (H1 Hne) as (? & ? & _). eexists _, _, _. by split_and!. }
  assert ((∃ j, in_range d j ∧ sends d keysym state j) → False) as Hno.
  { intros (j & Hj & Hs). by apply (H0 eq_refl j). }
  destruct (keysym_lookup_spec d keysym (flip state ShiftMask) Hwf Hk) as (k & -> & H2 & _).
  cbn [mbind option_bind]. destruct (Nat.eqb_spec k 0) as [->|Hne]; cbn [negb].
  2:{ destruct (H2 Hne) as (? & ? & _). eexists _, _, _. split; [done|]. split; [done|].
      split_and!; [by apply flip_outside; auto with lorie|done|by intros ?%Hno]. }
  rewrite El. cbn [mbind option_bind]. destruct (Z.eqb_spec l3 0) as [->|Hl3].
  { eexists _, _, _. split; [done|]. split; [done|].
    split_and!; [by apply flip_outside; auto with lorie|done|by intros ?%Hno]. }
  destruct (keysym_lookup_spec d keysym (flip state l3) Hwf Hk) as (k & -> & H3 & _).
  cbn [mbind option_bind]. destruct (Nat.eqb_spec k 0) as [->|Hne]; cbn [negb].
  2:{ destruct (H3 Hne) as (? & ? & _). eexists _, _, _. split; [done|]. split; [done|].
      split_and!; [by apply flip_outside; auto with lorie|done|by intros ?%Hno]. }
  match goal with |- context [keysym_lookup d keysym ?st] =>
    destruct (keysym_lookup_spec d keysym st Hwf Hk) as (k & -> & H4 & _) end.
  cbn [mbind option_bind]. eexists _, _, _. split; [done|]. split; [done|].
  split_and!; [|by intros ?%H4; tauto|by intros ?%Hno].
  rewrite <-Z.lor_assoc. apply toggled_outside; [auto with lorie|].
  apply inside_lor; auto with lorie.
Qed.

(** The keycode and modifier state chosen for a keysym are right: the
    search always returns; when it finds a key, that key sends exactly the
    keysym in the new state, which differs from the current one in Shift and
    the level-three modifiers only; and when the keysym can be had without
    touching modifiers, they are not touched. *)
Theorem keysym_to_keycode_correct d kb keysym state :
  desc_wf d → keysym ≠ NoSymbol →
  ∃ k st' l3, lorieKeysymToKeycode d kb keysym state = Some (k, st')
    ∧ lorieGetLevelThreeMask d kb = Some l3
    ∧ Z.land st' (Z.lnot (Z.lor ShiftMask l3)) = Z.land state (Z.lnot (Z.lor ShiftMask l3))
    ∧ (k ≠ 0%nat → in_range d k ∧ sends d keysym st' k)
    ∧ ((∃ j, in_range d j ∧ sends d keysym state j) → k ≠ 0%nat ∧ st' = state).
Proof. apply keysym_to_keycode_spec. Qed.

(** ** A small keymap *)

(** Two-level and alphabetic types, Shift on key 50, AltGr on key 108, the
    letter a on key 38, the digit 1 on key 10, Num Lock on 77. *)
Definition demo_types : list key_type :=
  [mk_key_type 0 [] None 1;
   mk_key_type 1 [mk_kt_entry true 1 1] None 2;
   mk_key_type 3 [mk_kt_entry true 1 1; mk_kt_entry true 2 1] None 2;
   mk_key_type 0x81 [mk_kt_entry true 1 1; mk_kt_entry true 0x80 2; mk_kt_entry true 0x81 3]
     None 4].

Definition no_key : sym_map := mk_sym_map 0 0 (replicate 4 0%nat) [] None.
Definition one_sym (sym : Z) (al : option (list action)) : sym_map :=
  mk_sym_map 1 1 (replicate 4 0%nat) [sym] al.

Definition demo_keys : list sym_map :=
  <[10%nat := mk_sym_map 1 4 [3; 0; 0; 0]%nat [0x31; 0x21; 0xb9; 0xa1] None]>
  (<[38%nat := mk_sym_map 1 2 [2; 0; 0; 0]%nat [0x61; 0x41] None]>
  (<[50%nat := one_sym 0xffe1 (Some [mk_action XkbSA_SetMods 0 1])]>
  (<[77%nat := one_sym 0xff7f (Some [mk_action XkbSA_LockMods 0 16])]>
  (<[108%nat := one_sym 0xfe03 (Some [mk_action XkbSA_SetMods 0 0x80])]>
  (replicate 256 no_key))))).

Definition demo_desc : xkb_desc :=
  mk_xkb_desc 8 255 demo_types demo_keys (replicate 256 0) (Some (replicate 256 [0; 0; 0; 0]))
    [500; 501] (Some (mk_xkb_controls 1 0 0 0 0)) (Some [0; 0; 0; 0]).

Lemma demo_desc_wf : desc_wf demo_desc.
Proof. apply desc_wfb_sound. vm_compute. done. Qed.

Lemma keysym_lookup_correct_witness :
  ∃ r, keysym_lookup demo_desc 0x41 ShiftMask = Some r
    ∧ (r ≠ 0%nat → sends demo_desc 0x41 ShiftMask r)
    ∧ (r = 0%nat → ¬ sends demo_desc 0x41 ShiftMask 38).
Proof.
  destruct (keysym_lookup_correct demo_desc 0x41 ShiftMask demo_desc_wf) as (r & E & H1 & H2);
    [done|].
  exists r. split_and!; [done| |].
  - intros Hr. by apply H1.
  - intros Hr. apply H2; [done|]. unfold in_range. simpl. lia.
Defined.

Lemma keysym_to_keycode_correct_witness :
  ∃ k st', lorieKeysymToKeycode demo_desc 0 0xa1 0 = Some (k, st')
    ∧ (k ≠ 0%nat → sends demo_desc 0xa1 st' k).
Proof.
  destruct (keysym_to_keycode_correct demo_desc 0 0xa1 0 demo_desc_wf)
    as (k & st' & l3 & E & _ & _ & H & _); [done|].
  exists k, st'. split; [done|]. intros Hk. by apply H.
Defined.
