(* ===== verification/Keymap.v ===== *)
(** * Keymap changes and derived keyboard state ([xserver/xkb])

    The two pieces of the server's XKB code that the keyboard input of the
    program drives directly: [XkbChangeTypesOfKey] ([xkb/XKBMisc.c]), which
    gives a key other groups and types and resizes its tables, and
    [XkbComputeDerivedState] with its helpers ([xkb/xkbUtils.c]), which
    recomputes the effective modifiers and group after a change of the
    components.

    Tables are kept with their key, so that the resizing of the shared arrays
    ([XkbResizeKeySyms], [XkbResizeKeyActions]) is a new list; their
    allocations are taken to succeed.  A read outside a table is undefined
    behaviour ([None]). *)

From S2P Require Import Prelude Xkb.

(** ** Changing the types of a key *)

Definition XkbOneLevelIndex : nat := 0.
Definition XkbTwoLevelIndex : nat := 1.

(** [n] entries of a table from [off]. *)
Definition slice {A} (l : list A) (off n : nat) : option (list A) :=
  if decide (off + n ≤ length l)%nat then Some (take n (drop off l)) else None.

Definition num_key_groups (sm : sym_map) : nat := Z.to_nat (XkbNumGroups (group_info sm)).

Definition new_type_index (sm : sym_map) (groups : Z) (newTypesIn : list nat) (i : nat)
  : option nat :=
  if Z.testbit groups (Z.of_nat i) then newTypesIn !! i
  else if (i <? num_key_groups sm)%nat then kt_index sm !! i
  else if (0 <? num_key_groups sm)%nat then kt_index sm !! 0%nat
  else Some XkbTwoLevelIndex.

(** The loop over the new groups: their types and the greatest number of
    levels; [Some None] is [BadMatch]. *)
Fixpoint new_types (d : xkb_desc) (sm : sym_map) (groups : Z) (newTypesIn : list nat)
    (n i : nat) (acc : list nat) (width : nat) : option (option (list nat * nat)) :=
  match n with
  | O => Some (Some (acc, width))
  | S n' =>
    nt ← new_type_index sm groups newTypesIn i;
    if (length (types d) <? nt)%nat then Some None
    else
      t ← types d !! nt;
      new_types d sm groups newTypesIn n' (S i) (acc ++ [nt]) (Nat.max width (t_levels t))
  end.

(** A key's table, rows of the old width, as rows of the new one: what fits of
    each old row, then zeros; new rows are zero. *)
Definition resize_table {A} (zero : A) (d : xkb_desc) (sm : sym_map) (newTypes : list nat)
    (width : nat) (old : list A) : option (list A) :=
  rows ← mapM (λ '(i, nt),
           if (i <? num_key_groups sm)%nat then
             t0 ← key_type_of d sm (Z.of_nat i);
             t1 ← types d !! nt;
             let nCopy := Nat.min (t_levels t0) (t_levels t1) in
             r ← slice old (i * gwidth sm) nCopy;
             Some (r ++ replicate (width - nCopy) zero)
           else Some (replicate width zero))
         (imap pair newTypes);
  Some (concat rows).

Definition set_key (d : xkb_desc) (key : nat) (sm : sym_map) : xkb_desc :=
  d <| keys ::= λ l, <[key := sm]> l |>.

(** [num_groups] of the controls is at least that of every key. *)
Definition raise_num_groups (nGroups : nat) (c : xkb_controls) : xkb_controls :=
  if num_groups c <? Z.of_nat nGroups then c <| num_groups := Z.of_nat nGroups |> else c.

Inductive kt_status := KtSuccess | KtBadMatch.

(** The result is the status and the keymap. *)
Definition XkbChangeTypesOfKey (d : xkb_desc) (key nGroups : nat) (groups : Z)
    (newTypesIn : list nat) : option (kt_status * xkb_desc) :=
  if negb (XkbKeycodeInRange d key) || (Z.land groups 0xf =? 0) || (4 <? nGroups)%nat
  then Some (KtBadMatch, d)
  else
    sm ← keys d !! key;
    let info := XkbSetNumGroups (group_info sm) (Z.of_nat nGroups) in
    if (nGroups =? 0)%nat then
      Some (KtSuccess, set_key d key
        (mk_sym_map info (gwidth sm) (replicate 4 XkbOneLevelIndex) [] None))
    else
      r ← new_types d sm groups newTypesIn nGroups 0 [] 0;
      match r with
      | None => Some (KtBadMatch, d)
      | Some (nts, width) =>
        let d1 := d <| ctrls ::= fmap (raise_num_groups nGroups) |> in
        let index := nts ++ drop nGroups (kt_index sm) in
        if negb (width =? gwidth sm)%nat || negb (nGroups =? num_key_groups sm)%nat then
          if (num_key_groups sm =? 0)%nat then
            Some (KtSuccess, set_key d1 key
              (mk_sym_map info width index (replicate (width * nGroups) 0) (acts sm)))
          else
            syms' ← resize_table 0 d sm nts width (syms sm);
            acts' ← match acts sm with
                    | None => Some None
                    | Some al =>
                      al' ← resize_table (mk_action 0 0 0) d sm nts width al; Some (Some al')
                    end;
            Some (KtSuccess, set_key d1 key (mk_sym_map info width index syms' acts'))
        else
          Some (KtSuccess, set_key d1 key
            (mk_sym_map (group_info sm) width index (syms sm) (acts sm)))
      end.

(** ** The keyboard state *)

(** [XkbStateRec], with the keys that are down. *)
Record kbd := mk_kbd {
  kgroup : Z; locked_group : Z; base_group : Z; latched_group : Z;
  mods : Z; base_mods : Z; latched_mods : Z; locked_mods : Z;
  compat_state : Z; grab_mods : Z; compat_grab_mods : Z;
  lookup_mods : Z; compat_lookup_mods : Z; ptr_buttons : Z;
  down : list nat                 (** keys whose press has been processed *)
}.
#[export] Instance kbd_eta : Settable kbd :=
  λ r, mk_kbd (kgroup r) (locked_group r) (base_group r) (latched_group r)
         (mods r) (base_mods r) (latched_mods r) (locked_mods r)
         (compat_state r) (grab_mods r) (compat_grab_mods r)
         (lookup_mods r) (compat_lookup_mods r) (ptr_buttons r) (down r).

Definition XkbCharToInt (v : Z) : Z :=
  if truthy (Z.land v 0x80) then v - 256 else Z.land v 0x7f.

Definition XkbIgnoreGroupLockMask : Z := Z.shiftl 1 12.

(** [group += num_groups] until it is not negative.  The argument comes from a
    signed byte, so that 128 turns are enough; with [num_groups] 0 the loop
    does not end and there is no result. *)
Fixpoint raise_group (fuel : nat) (group n : Z) : option Z :=
  match fuel with
  | O => None
  | S fuel' => if group <? 0 then raise_group fuel' (group + n) n else Some group
  end.

Definition XkbAdjustGroup (group : Z) (c : xkb_controls) : option Z :=
  let act := Z.land (groups_wrap c) 0xc0 in
  let redirected :=
    let g := Z.shiftr (Z.land (groups_wrap c) 0x30) 4 in
    if num_groups c <=? g then 0 else g in
  if group <? 0 then
    if act =? XkbClampIntoRange then Some 0
    else if act =? XkbRedirectIntoRange then Some redirected
    else raise_group 129 group (num_groups c)
  else if num_groups c <=? group then
    if act =? XkbClampIntoRange then Some (num_groups c - 1)
    else if act =? XkbRedirectIntoRange then Some redirected
    else if num_groups c =? 0 then None
    else Some (group mod num_groups c)
  else Some group.

Definition XkbComputeCompatState (d : xkb_desc) (b : kbd) : option kbd :=
  match ctrls d, compat_groups d with
  | Some c, Some cg =>
    m ← cg !! Z.to_nat (kgroup b);
    let b1 := b <| compat_state := u8 (Z.lor (mods b) m) |>
                <| compat_lookup_mods := u8 (Z.lor (lookup_mods b) m) |> in
    m' ← (if truthy (Z.land (enabled_ctrls c) XkbIgnoreGroupLockMask) then
            let g := u8 (base_group b + latched_group b) in
            g' ← (if num_groups c <=? g then XkbAdjustGroup (XkbCharToInt g) c else Some g);
            cg !! Z.to_nat (u8 g')
          else Some m);
    Some (b1 <| compat_grab_mods := u8 (Z.lor (grab_mods b) m') |>)
  | _, _ => Some b
  end.

Definition XkbComputeDerivedState (d : xkb_desc) (b : kbd) : option kbd :=
  match ctrls d with
  | None => Some b
  | Some c =>
    let m := Z.lor (Z.lor (base_mods b) (latched_mods b)) (locked_mods b) in
    let lm := Z.land m (Z.lnot (internal_mask c)) in
    let gm := Z.lor (Z.land lm (Z.lnot (ignore_lock_mask c)))
                (Z.land (Z.lor (base_mods b) (latched_mods b)) (ignore_lock_mask c)) in
    lg ← (if num_groups c <=? locked_group b
          then XkbAdjustGroup (XkbCharToInt (locked_group b)) c
          else Some (locked_group b));
    let g := u8 (u8 lg + base_group b + latched_group b) in
    g' ← (if num_groups c <=? g then XkbAdjustGroup (XkbCharToInt g) c else Some g);
    XkbComputeCompatState d
      (b <| mods := m |> <| lookup_mods := lm |> <| grab_mods := gm |>
         <| locked_group := u8 lg |> <| kgroup := u8 g' |>)
  end.

(** Which components of the state differ. *)
Definition XkbStateChangedFlags (old new : kbd) : Z :=
  let flag (f : kbd → Z) (i : Z) := if f old =? f new then 0 else Z.shiftl 1 i in
  foldl Z.lor 0
    [flag kgroup 4; flag base_group 5; flag latched_group 6; flag locked_group 7;
     flag mods 0; flag base_mods 1; flag latched_mods 2; flag locked_mods 3;
     flag compat_state 8; flag grab_mods 9; flag compat_grab_mods 10;
     flag lookup_mods 11; flag compat_lookup_mods 12; flag ptr_buttons 13].

(** ** The alphabetic type *)

(** The canonical [ALPHABETIC] type of the XKB protocol: two levels, Shift and
    Lock each choose the second one, both together the first. *)
Definition alphabetic (t : key_type) : Prop :=
  t_mask t = 3 ∧ t_levels t = 2%nat ∧ t_preserve t = None
  ∧ t_map t = [mk_kt_entry true 1 1; mk_kt_entry true 2 1].

Definition alphabeticb (t : key_type) : bool :=
  (t_mask t =? 3) && (t_levels t =? 2)%nat
  && match t_preserve t with None => true | Some _ => false end
  && match t_map t with
     | [mk_kt_entry true 1 1; mk_kt_entry true 2 1] => true
     | _ => false
     end.

Definition has_alphabetic (d : xkb_desc) : Prop :=
  ∃ t, types d !! XkbAlphabeticIndex = Some t ∧ alphabetic t.

Lemma alphabetic_wf t : alphabetic t → type_wf 2 t.
Proof.
  intros (_ & Hl & Hp & Hm). split; rewrite ?Hm, ?Hl, ?Hp; [|done|done].
  repeat constructor.
Qed.

(** A key of one group of the alphabetic type. *)
Record alphabetic_key (sm : sym_map) : Prop := mk_alphabetic_key {
  ak_groups : XkbNumGroups (group_info sm) = 1;
  ak_width : gwidth sm = 2%nat;
  ak_index : length (kt_index sm) = 4%nat ∧ kt_index sm !! 0%nat = Some XkbAlphabeticIndex;
  ak_syms : (2 ≤ length (syms sm))%nat;
  ak_acts : ∀ al, acts sm = Some al → (2 ≤ length al)%nat
}.

Lemma alphabetic_key_wf d sm : has_alphabetic d → alphabetic_key sm → key_wf d sm.
Proof.
  intros (t & Ht & Ha) [H1 H2 [H3 H4] H5 H6]. split; rewrite ?H1, ?H2; try lia.
  - split; [done|]. destruct (kt_index sm) as [|i l]; [done|]. simpl in H4. injection H4 as ->.
    change (Z.to_nat 1) with 1%nat. simpl. constructor; [|constructor].
    exists t. split; [done|]. by apply alphabetic_wf.
  - intros al Hal. by apply H6.
Qed.

Lemma num_groups_set g : XkbNumGroups (XkbSetNumGroups g 1) = 1.
Proof.
  unfold XkbNumGroups, XkbSetNumGroups. rewrite Z.land_lor_distr_l, <-Z.land_assoc.
  change (Z.land 0xf0 0x0f) with 0. by rewrite Z.land_0_r.
Qed.

Lemma slice_ok {A} (l : list A) off n :
  (off + n ≤ length l)%nat → ∃ r, slice l off n = Some r ∧ length r = n.
Proof.
  intros H. unfold slice. rewrite decide_True by done. eexists. split; [done|].
  rewrite length_take, length_drop. lia.
Qed.

(** The first row of a well-formed key is there to be copied. *)
Lemma resize_ok {A} (z : A) d sm t (old : list A) :
  key_wf d sm → XkbNumGroups (group_info sm) ≠ 0 → types d !! XkbAlphabeticIndex = Some t →
  alphabetic t → (gwidth sm ≤ length old)%nat →
  ∃ r, resize_table z d sm [XkbAlphabeticIndex] 2 old = Some r ∧ length r = 2%nat.
Proof.
  intros Hwf Hn Ht Ha Hold. pose proof (num_groups_range (group_info sm)).
  destruct (kw_types _ _ Hwf) as [Hl Hf].
  destruct (kt_index sm) as [|i0 l] eqn:Ei; [done|].
  destruct (Z.to_nat (XkbNumGroups (group_info sm))) as [|n] eqn:En; [lia|].
  simpl in Hf. inv Hf as [|? ? (t0 & Et & Hw) _].
  unfold resize_table, key_type_of, num_key_groups. cbn [imap mapM].
  rewrite En. cbn [Nat.ltb Nat.leb]. change (Z.land (Z.of_nat 0) 3) with 0.
  rewrite Ei. cbn -[slice]. change ((i0 :: l) !! Z.to_nat 0) with (Some i0).
  cbn [mbind option_bind]. rewrite Et. cbn [mbind option_bind]. rewrite Ht. cbn [mbind option_bind].
  destruct Ha as (_ & -> & _). pose proof (tw_width _ _ Hw).
  destruct (slice_ok old 0 (Nat.min (t_levels t0) 2)) as (r & -> & Hr); [lia|].
  cbn. eexists. split; [done|]. rewrite app_nil_r, length_app, length_replicate. lia.
Qed.

(** Giving a key the alphabetic type works, and makes it an alphabetic key. *)
Lemma change_to_alphabetic d key :
  desc_wf d → in_range d key → has_alphabetic d →
  ∃ sm, XkbChangeTypesOfKey d key 1 1 [XkbAlphabeticIndex]
    = Some (KtSuccess, set_key (d <| ctrls ::= fmap (raise_num_groups 1) |>) key sm)
    ∧ alphabetic_key sm.
Proof.
  intros Hwf [Hr1 Hr2] (t & Ht & Ha). pose proof (dw_range _ Hwf).
  destruct (lookup_lt_is_Some_2 (keys d) key) as [sm Hsm]; [rewrite (dw_keys _ Hwf); lia|].
  pose proof (Forall_lookup_1 _ _ _ _ (dw_key _ Hwf) Hsm) as Hk.
  pose proof Ha as (_ & Hlv & _).
  assert (negb (XkbKeycodeInRange d key) || (Z.land 1 0xf =? 0) || (4 <? 1)%nat = false) as E1.
  { unfold XkbKeycodeInRange.
    by rewrite (proj2 (Nat.leb_le _ _) Hr1), (proj2 (Nat.leb_le _ _) Hr2). }
  assert (new_types d sm 1 [XkbAlphabeticIndex] 1 0 [] 0
          = Some (Some ([XkbAlphabeticIndex], 2%nat))) as E2.
  { cbn [new_types]. change (new_type_index sm 1 [XkbAlphabeticIndex] 0)
      with (Some XkbAlphabeticIndex). cbn [mbind option_bind].
    rewrite (proj2 (Nat.ltb_ge _ _)) by (apply lookup_lt_Some in Ht; lia).
    rewrite Ht. cbn [mbind option_bind app Nat.max]. by rewrite Hlv. }
  unfold XkbChangeTypesOfKey. rewrite E1, Hsm. cbn [mbind option_bind].
  change (1 =? 0)%nat with false. cbv iota. rewrite E2. cbn [mbind option_bind app].
  pose proof (num_groups_range (group_info sm)) as Hng.
  assert (num_key_groups sm ≠ 0%nat → (gwidth sm ≤ num_key_groups sm * gwidth sm)%nat) by nia.
  pose proof (kw_syms _ _ Hk) as Hsy. pose proof (kw_acts _ _ Hk) as Hac.
  destruct (kw_types _ _ Hk) as [Hlen _]. pose proof (kw_none _ _ Hk) as Hnone.
  assert (length (XkbAlphabeticIndex :: drop 1 (kt_index sm)) = 4%nat) as Hlen'.
  { cbn [length]. rewrite length_drop. lia. }
  unfold num_key_groups in *. clear E1 E2.
  destruct (negb _ || _) eqn:Ew;
    [destruct (Nat.eqb_spec (Z.to_nat (XkbNumGroups (group_info sm))) 0)|].
  - eexists (mk_sym_map _ _ _ _ _). split; [done|].
    split; simpl; [apply num_groups_set|done|done|lia|].
    intros al. rewrite Hnone by lia. done.
  - destruct (resize_ok 0 d sm t (syms sm)) as (r & -> & Hl); [done|lia|done|done|lia|].
    cbn [mbind option_bind]. destruct (acts sm) as [al|].
    + destruct (resize_ok (mk_action 0 0 0) d sm t al) as (r' & -> & Hl');
        [done|lia|done|done|specialize (Hac al eq_refl); lia|].
      cbn [mbind option_bind]. eexists (mk_sym_map _ _ _ _ _). split; [done|].
      split; simpl; [apply num_groups_set|done|done|lia|]. intros ? [= <-]. lia.
    + cbn [mbind option_bind]. eexists (mk_sym_map _ _ _ _ _). split; [done|].
      split; simpl; [apply num_groups_set|done|done|lia|done].
  - apply orb_false_iff in Ew as [Ew1%negb_false_iff%Nat.eqb_eq Ew2%negb_false_iff%Nat.eqb_eq].
    eexists (mk_sym_map _ _ _ _ _). split; [done|]. split; simpl; [lia|done|done|lia|].
    intros al Hal. specialize (Hac al Hal). lia.
Qed.

(** ** Derived state *)

(** One to four groups, each with a compatibility mask. *)
Record ctrl_wf (d : xkb_desc) : Prop := mk_ctrl_wf {
  cw_groups : ∀ c, ctrls d = Some c → 1 ≤ num_groups c ≤ 4;
  cw_compat : ∀ cg, compat_groups d = Some cg → length cg = 4%nat
}.

Lemma raise_group_ok n : 1 ≤ n → ∀ fuel g,
  - (Z.of_nat fuel - 1) ≤ g < n → (0 < fuel)%nat →
  ∃ r, raise_group fuel g n = Some r ∧ 0 ≤ r < n.
Proof.
  intros Hn. induction fuel as [|fuel IH]; intros g Hg Hf; [lia|]. cbn [raise_group].
  destruct (Z.ltb_spec g 0); [|exists g; split; [done|lia]].
  apply IH; lia.
Qed.

Lemma shiftr_30 g : 0 ≤ Z.shiftr (Z.land g 0x30) 4.
Proof. apply Z.shiftr_nonneg, Z.land_nonneg. lia. Qed.

(** The adjusted group is a group. *)
Lemma adjust_group_range g c :
  1 ≤ num_groups c → -128 ≤ g →
  ∃ r, XkbAdjustGroup g c = Some r ∧ 0 ≤ r < num_groups c.
Proof.
  intros Hn Hg. unfold XkbAdjustGroup. pose proof (shiftr_30 (groups_wrap c)).
  destruct (Z.ltb_spec g 0).
  - destruct (_ =? XkbClampIntoRange); [eexists; split; [done|lia]|].
    destruct (_ =? XkbRedirectIntoRange).
    + eexists. split; [done|]. case_goal; bool_to_prop; lia.
    + apply raise_group_ok; lia.
  - destruct (Z.leb_spec (num_groups c) g); [|eexists; split; [done|lia]].
    destruct (_ =? XkbClampIntoRange); [eexists; split; [done|lia]|].
    destruct (_ =? XkbRedirectIntoRange).
    + eexists. split; [done|]. case_goal; bool_to_prop; lia.
    + rewrite (proj2 (Z.eqb_neq (num_groups c) 0)) by lia. eexists. split; [done|].
      apply Z.mod_pos_bound. lia.
Qed.

Lemma char_to_int_range v : 0 ≤ v → -128 ≤ XkbCharToInt v.
Proof.
  intros Hv. unfold XkbCharToInt. destruct (truthy _) eqn:E.
  - destruct (Z.lt_ge_cases v 128); [|lia]. unfold truthy in E.
    assert (Z.land v 0x80 = 0) as E0; [|by rewrite E0 in E].
    apply Z.bits_inj'. intros i Hi. rewrite Z.land_spec, Z.bits_0.
    change 0x80 with (2 ^ 7). rewrite Z.pow2_bits_eqb by lia.
    destruct (Z.eqb_spec 7 i) as [<-|]; [|by rewrite andb_false_r]. rewrite andb_true_r.
    apply Z.bits_above_log2; [lia|]. destruct (Z.eq_dec v 0) as [->|]; [done|].
    apply Z.log2_lt_pow2; lia.
  - assert (0 ≤ Z.land v 0x7f); [|lia]. apply Z.land_nonneg. lia.
Qed.

(** A group number, adjusted where it is out of range, is a group. *)
Lemma group_in_range c v :
  1 ≤ num_groups c → 0 ≤ v →
  ∃ g, (if num_groups c <=? v then XkbAdjustGroup (XkbCharToInt v) c else Some v) = Some g
    ∧ 0 ≤ g < num_groups c.
Proof.
  intros Hn Hv. destruct (Z.leb_spec (num_groups c) v); [|exists v; split; [done|lia]].
  apply adjust_group_range; [done|]. by apply char_to_int_range.
Qed.

Lemma u8_small v : 0 ≤ v < 256 → u8 v = v.
Proof. intros H. unfold u8. apply Z.mod_small. lia. Qed.

(** What is not recomputed. *)
Definition same_components (b b' : kbd) : Prop :=
  base_mods b' = base_mods b ∧ latched_mods b' = latched_mods b
  ∧ locked_mods b' = locked_mods b ∧ base_group b' = base_group b
  ∧ latched_group b' = latched_group b ∧ ptr_buttons b' = ptr_buttons b ∧ down b' = down b.

Lemma compat_state_ok d b :
  ctrl_wf d → 0 ≤ kgroup b < 4 →
  ∃ b', XkbComputeCompatState d b = Some b' ∧ same_components b b'
    ∧ mods b' = mods b ∧ lookup_mods b' = lookup_mods b ∧ grab_mods b' = grab_mods b
    ∧ kgroup b' = kgroup b ∧ locked_group b' = locked_group b.
Proof.
  intros [Hg Hc] Hk. unfold XkbComputeCompatState.
  destruct (ctrls d) as [c|] eqn:Ec; [|by exists b; split_and!].
  destruct (compat_groups d) as [cg|] eqn:Ecg; [|by exists b; split_and!].
  specialize (Hg c eq_refl). specialize (Hc cg eq_refl).
  destruct (lookup_lt_is_Some_2 cg (Z.to_nat (kgroup b))) as [m ->]; [lia|].
  cbn [mbind option_bind]. destruct (truthy _).
  - destruct (group_in_range c (u8 (base_group b + latched_group b))) as (g & -> & Hgr);
      [lia|unfold u8; apply Z.mod_pos_bound; lia|].
    cbn [mbind option_bind]. rewrite (u8_small g) by lia.
    destruct (lookup_lt_is_Some_2 cg (Z.to_nat g)) as [m' ->]; [lia|].
    cbn [mbind option_bind]. eexists. split; [done|]. by split_and!.
  - cbn [mbind option_bind]. eexists. split; [done|]. by split_and!.
Qed.

(** The derived state exists, leaves the components alone and has the effective
    modifiers of its specification. *)
Lemma derived_state_ok d b c :
  ctrl_wf d → ctrls d = Some c → 0 ≤ locked_group b →
  ∃ b', XkbComputeDerivedState d b = Some b' ∧ same_components b b'
    ∧ mods b' = Z.lor (Z.lor (base_mods b) (latched_mods b)) (locked_mods b)
    ∧ lookup_mods b' = Z.land (mods b') (Z.lnot (internal_mask c))
    ∧ 0 ≤ kgroup b' < num_groups c ∧ 0 ≤ locked_group b' < num_groups c.
Proof.
  intros Hwf Ec Hlg. pose proof (cw_groups _ Hwf c Ec) as Hn.
  unfold XkbComputeDerivedState. rewrite Ec.
  destruct (group_in_range c (locked_group b)) as (lg & -> & Hl); [lia|done|].
  cbn [mbind option_bind].
  destruct (group_in_range c (u8 (u8 lg + base_group b + latched_group b))) as (g & -> & Hg);
    [lia|unfold u8 at 1; apply Z.mod_pos_bound; lia|].
  cbn [mbind option_bind].
  match goal with |- context [XkbComputeCompatState d ?x] =>
    destruct (compat_state_ok d x Hwf) as (b' & -> & Hs & H1 & H2 & H3 & H4 & H5) end.
  { simpl. rewrite u8_small; lia. }
  exists b'. simpl in *. rewrite u8_small in H4 by lia. rewrite u8_small in H5 by lia.
  rewrite H1, H2, H4, H5. split; [done|]. split; [done|]. split_and!; (done || lia).
Qed.

(** Recomputing the derived state once is enough. *)
Lemma compat_idem d b b' :
  XkbComputeCompatState d b = Some b' → XkbComputeCompatState d b' = Some b'.
Proof.
  unfold XkbComputeCompatState. destruct (ctrls d) as [c|]; [|done].
  destruct (compat_groups d) as [cg|]; [|done].
  destruct (cg !! Z.to_nat (kgroup b)) as [m|] eqn:Em; [|done]. cbn [mbind option_bind].
  intros H. destruct (truthy _) eqn:Et.
  - cbv zeta in *.
    destruct (if num_groups c <=? u8 (base_group b + latched_group b) then _ else _)
      as [g'|] eqn:Eg; [|done]. cbn [mbind option_bind] in H.
    destruct (cg !! Z.to_nat (u8 g')) as [m'|] eqn:Em'; [|done].
    injection H as <-. simpl. rewrite Em. cbn [mbind option_bind]. rewrite Eg.
    cbn [mbind option_bind]. by rewrite Em'.
  - injection H as <-. simpl. rewrite Em. done.
Qed.
Lemma derived_idem d b b' :
  ctrl_wf d → 0 ≤ locked_group b → XkbComputeDerivedState d b = Some b' →
  XkbComputeDerivedState d b' = Some b'.
Proof.
  intros Hwf Hlg. unfold XkbComputeDerivedState. destruct (ctrls d) as [c|] eqn:Ec; [|done].
  pose proof (cw_groups _ Hwf c Ec) as Hn.
  destruct (group_in_range c (locked_group b)) as (lg & -> & Hl); [lia|done|].
  cbn [mbind option_bind].
  destruct (group_in_range c (u8 (u8 lg + base_group b + latched_group b))) as (g & Eg & Hg);
    [lia|unfold u8 at 1; apply Z.mod_pos_bound; lia|].
  rewrite Eg. cbn [mbind option_bind]. intros E.
  match type of E with XkbComputeCompatState d ?x = _ =>
    destruct (compat_state_ok d x Hwf) as (b2 & E2 & (C1 & C2 & C3 & C4 & C5 & _) & H1 & H2 & H3 & H4 & H5);
      [simpl; rewrite u8_small; lia|] end.
  rewrite E in E2. injection E2 as <-. cbn in *.
  rewrite (u8_small lg) in * by lia.
  rewrite H5, C4, C5, (proj2 (Z.leb_gt (num_groups c) lg)) by lia. cbn [mbind option_bind].
  rewrite (u8_small lg) by lia. rewrite Eg. cbn [mbind option_bind].
  match goal with |- XkbComputeCompatState d ?x = _ => assert (x = b') as -> end.
  { destruct b'; simpl in *; by subst. }
  by eapply compat_idem.
Qed.

(** The group does not depend on the modifiers. *)
Lemma derived_group d b l b1 b2 :
  ctrl_wf d → 0 ≤ locked_group b → XkbComputeDerivedState d b = Some b1 →
  XkbComputeDerivedState d (b <| locked_mods := l |>) = Some b2 →
  kgroup b2 = kgroup b1 ∧ locked_group b2 = locked_group b1 ∧ base_group b2 = base_group b
  ∧ latched_group b2 = latched_group b.
Proof.
  intros Hwf Hlg. unfold XkbComputeDerivedState. destruct (ctrls d) as [c|] eqn:Ec.
  2:{ by intros [= <-] [= <-]. }
  pose proof (cw_groups _ Hwf c Ec) as Hn. simpl.
  destruct (group_in_range c (locked_group b)) as (lg & -> & Hl); [lia|done|].
  cbn [mbind option_bind].
  destruct (group_in_range c (u8 (u8 lg + base_group b + latched_group b))) as (g & -> & Hg);
    [lia|unfold u8 at 1; apply Z.mod_pos_bound; lia|].
  cbn [mbind option_bind]. intros E1 E2.
  match type of E1 with XkbComputeCompatState d ?x = _ =>
    destruct (compat_state_ok d x Hwf) as (b' & Eb & Hc & _ & _ & _ & H1 & H2);
      [simpl; rewrite u8_small; lia|] end.
  match type of E2 with XkbComputeCompatState d ?x = _ =>
    destruct (compat_state_ok d x Hwf) as (b'' & Eb' & Hc' & _ & _ & _ & H3 & H4);
      [simpl; rewrite u8_small; lia|] end.
  rewrite E1 in Eb. rewrite E2 in Eb'. simplify_eq. simpl in *.
  rewrite H1, H2, H3, H4. split_and!; [done|done|apply Hc'|apply Hc'].
Qed.
