(* ===== verification/Keysym.v ===== *)
(** * Key events from keysyms ([lorie/InputXKB.c])

    [lorieKeysymKeyboardEvent] turns a keysym from the Android side into key
    events of the X keyboard: it looks for a key that sends the keysym, fakes
    Shift and level-three presses or releases around it where the current
    modifiers are wrong, adds the keysym to an unused key where there is none,
    and remembers which key it pressed so that the release matches.

    The state [kst] is the keymap, the keyboard state, the queue of input
    events and the log of those processed, and the file's static variables:
    [pressedKeys] and the LRU list [addedKeysyms] (keysym and keycode, front
    first).  What processing events does to the keyboard state is the work of
    the server's XKB code; it is the argument [kenv]. *)

From S2P Require Import Prelude Xkb Keymap.

(** ** State *)

Inductive kev := KeyPress (k : nat) | KeyRelease (k : nat).
#[export] Instance kev_eq_dec : EqDecision kev.
Proof. solve_decision. Defined.

Record kst := mk_kst {
  desc : xkb_desc;
  kb : kbd;
  queue : list kev;
  delivered : list kev;
  pressedKeys : list Z;           (** 256 entries *)
  addedKeysyms : list (Z * nat);
  explicitState : Z;              (** indicators set by request, [sli->explicitState] *)
  autoState : Z;                  (** indicators that follow the state *)
  notices : nat                   (** keymap and state change notifications *)
}.
#[export] Instance kst_eta : Settable kst :=
  λ r, mk_kst (desc r) (kb r) (queue r) (delivered r) (pressedKeys r) (addedKeysyms r)
         (explicitState r) (autoState r) (notices r).

(** The rest of the server: what the processing of events does to the keyboard
    state ([mieqProcessInputEvents]), and what a change of the state does to the
    indicators ([XkbIndicatorsToUpdate], [XkbUpdateIndicators]); and whether
    [malloc] succeeds. *)
Record kenv := mk_kenv {
  process : xkb_desc → kbd → list kev → kbd;
  malloc_ok : bool;
  scroll_lock_atom : Z;           (** [MakeAtom("Scroll Lock")] *)
  update_indicators : xkb_desc → kbd → Z → Z → Z
}.

(** ** Input queue *)

Definition QueueKeyboardEvents (ev : kev) : M kst () :=
  modify (λ s, s <| queue ::= λ q, q ++ [ev] |>).

Definition mieqProcessInputEvents (e : kenv) : M kst () :=
  modify (λ s, s <| kb := process e (desc s) (kb s) (queue s) |>
                 <| delivered ::= λ l, l ++ queue s |> <| queue := [] |>).

Definition lorieGetKeyboardState : M kst Z :=
  gets (λ s, XkbBuildCoreState (lookup_mods (kb s)) (kgroup (kb s))).

Definition is_down (s : kst) (key : nat) : bool := bool_decide (key ∈ down (kb s)).

(** ** Modifier keys *)

(** The modifiers a key sets while it is held, 0 if it is no such key. *)
Definition setmods_mask (d : xkb_desc) (key : nat) (state : Z) : option Z :=
  a ← XkbKeyActionPtr d key state;
  match a with
  | None => Some 0
  | Some a => if negb (a_type a =? XkbSA_SetMods) then Some 0
              else m ← action_mask d key a; Some (u8 m)
  end.

Definition num_keys (d : xkb_desc) : nat := S (max_key_code d) - min_key_code d.

Fixpoint press_shift_loop (d : xkb_desc) (state : Z) (n key : nat) : option nat :=
  match n with
  | O => Some 0%nat
  | S n' =>
    m ← setmods_mask d key state;
    if Z.land m ShiftMask =? ShiftMask then Some key
    else press_shift_loop d state n' (S key)
  end.

Definition loriePressShift : M kst nat :=
  state ← lorieGetKeyboardState;
  if truthy (Z.land state ShiftMask) then mret 0%nat
  else
    s ← get;
    of_option (press_shift_loop (desc s) state (num_keys (desc s)) (min_key_code (desc s))).

(** The loop of [lorieReleaseShift] and [lorieReleaseLevelThree]: the keys that
    are down and set one of the modifiers of [mask]; more than [maxKeys] give
    none. *)
Fixpoint release_loop (s : kst) (state mask : Z) (maxKeys n key : nat) (acc : list nat)
  : option (list nat) :=
  match n with
  | O => Some acc
  | S n' =>
    if negb (is_down s key) then release_loop s state mask maxKeys n' (S key) acc
    else
      m ← setmods_mask (desc s) key state;
      if negb (truthy (Z.land m mask)) then release_loop s state mask maxKeys n' (S key) acc
      else if (maxKeys <=? length acc)%nat then Some []
      else release_loop s state mask maxKeys n' (S key) (acc ++ [key])
  end.

Definition lorieReleaseShift (maxKeys : nat) : M kst (list nat) :=
  state ← lorieGetKeyboardState;
  if negb (truthy (Z.land state ShiftMask)) then mret []
  else
    s ← get;
    of_option (release_loop s state ShiftMask maxKeys (num_keys (desc s))
                 (min_key_code (desc s)) []).

Definition level_three_mask : M kst Z :=
  state ← lorieGetKeyboardState;
  s ← get;
  of_option (lorieGetLevelThreeMask (desc s) state).

Definition loriePressLevelThree : M kst nat :=
  mask ← level_three_mask;
  if mask =? 0 then mret 0%nat
  else
    state ← lorieGetKeyboardState;
    if truthy (Z.land state mask) then mret 0%nat
    else
      s ← get;
      k ← of_option (level_three_key (desc s) state);
      if (k =? 0)%nat then mret 0%nat
      else
        a ← of_option (XkbKeyActionPtr (desc s) k state);
        match a with
        | None => mret 0%nat
        | Some a => mret (if a_type a =? XkbSA_SetMods then k else 0%nat)
        end.

Definition lorieReleaseLevelThree (maxKeys : nat) : M kst (list nat) :=
  mask ← level_three_mask;
  if mask =? 0 then mret []
  else
    state ← lorieGetKeyboardState;
    if negb (truthy (Z.land state mask)) then mret []
    else
      s ← get;
      of_option (release_loop s state mask maxKeys (num_keys (desc s))
                   (min_key_code (desc s)) []).

(** The mask is taken from the entry of [keycode], not of the Num Lock key. *)
Definition lorieIsAffectedByNumLock (keycode : nat) : M kst bool :=
  kbstate ← lorieGetKeyboardState;
  let state := Z.land kbstate (Z.lnot 0xff) in
  s ← get;
  let d := desc s in
  nk ← of_option (keysym_lookup d XK_Num_Lock state);
  if (nk =? 0)%nat then mret false
  else
    a ← of_option (XkbKeyActionPtr d nk state);
    match a with
    | None => mret false
    | Some a =>
      if negb (a_type a =? XkbSA_LockMods) then mret false
      else
        m ← of_option (action_mask d keycode a);
        g ← of_option (XkbKeyEffectiveGroup d keycode state);
        sm ← of_option (keys d !! keycode);
        t ← of_option (key_type_of d sm g);
        mret (truthy (Z.land (t_mask t) m))
    end.

(** ** Added keysyms *)

Definition saveAddedKeysym (e : kenv) (code : nat) (sym : Z) : M kst () :=
  if malloc_ok e then modify (λ s, s <| addedKeysyms ::= cons (sym, code) |>) else skip.

(** Move the first entry of a keycode to the front. *)
Definition vncOnKeyUsed (used : nat) : M kst () :=
  s ← get;
  match addedKeysyms s with
  | [] => skip
  | it :: _ =>
    if (it.2 =? used)%nat then skip
    else
      match index_of (λ it, (it.2 =? used)%nat) (addedKeysyms s) with
      | Some i =>
        it ← of_option (addedKeysyms s !! i);
        modify (λ s, s <| addedKeysyms ::= λ l, it :: delete i l |>)
      | None => skip
      end
  end.

(** Nobody else has changed the key since we added it. *)
Definition reusable (d : xkb_desc) (it : Z * nat) : option bool :=
  sm ← keys d !! it.2;
  if negb (0 <? XkbNumGroups (group_info sm)) then Some false
  else
    k0 ← syms sm !! 0%nat;
    if negb (k0 =? it.1) then Some false
    else
      match names d with
      | None => Some true
      | Some ns => nm ← ns !! it.2; c ← nm !! 0%nat; Some (c =? 84)
      end.

(** [fuel] is the length of the list: every turn removes its last entry. *)
Fixpoint getReusableKeycode (fuel : nat) : M kst nat :=
  match fuel with
  | O => mret 0%nat
  | S fuel' =>
    s ← get;
    match last (addedKeysyms s) with
    | None => mret 0%nat
    | Some it =>
      ok ← of_option (reusable (desc s) it);
      modify (λ s, s <| addedKeysyms ::= λ l, take (length l - 1) l |>) ;;
      if (ok && negb (it.2 =? 0)%nat) then mret it.2 else getReusableKeycode fuel'
    end
  end.

(** The highest keycode without groups, from [key] down; 0 if none. *)
Fixpoint free_keycode (d : xkb_desc) (n key : nat) : option nat :=
  match n with
  | O => Some 0%nat
  | S n' =>
    sm ← keys d !! key;
    if XkbNumGroups (group_info sm) =? 0 then Some key else free_keycode d n' (key - 1)
  end.

Definition key_name (key : nat) : list Z :=
  let k := Z.of_nat key in [84; 48 + (k / 100) mod 10; 48 + (k / 10) mod 10; 48 + k mod 10].

(** The part of [lorieAddKeysym] with the keycode chosen. *)
Definition install_keysym (e : kenv) (keysym : Z) (key : nat) : M kst nat :=
  s ← get;
  let d := desc s <| names ::= fmap (λ l, <[key := key_name key]> l) |> in
  let '(lower, upper) := XkbConvertCase keysym in
  '(_, d1) ← of_option (XkbChangeTypesOfKey d key 1 1 [XkbAlphabeticIndex]);
  sm ← of_option (keys d1 !! key);
  s0 ← of_option (wr (syms sm) 0 lower);
  s1 ← of_option (wr s0 1 upper);
  modify (λ s, s <| desc := set_key d1 key (sm <| syms := s1 |>) |> <| notices ::= S |>) ;;
  saveAddedKeysym e key lower ;;
  mret key.

Definition lorieAddKeysym (e : kenv) (keysym : Z) : M kst nat :=
  s ← get;
  k ← of_option (free_keycode (desc s) (num_keys (desc s)) (max_key_code (desc s)));
  key ← (if (k =? 0)%nat then getReusableKeycode (length (addedKeysyms s)) else mret k);
  if (key =? 0)%nat then mret 0%nat else install_keysym e keysym key.

(** ** Alternative keysyms *)

Definition altKeysym : list (Z * Z) :=
  [(0xffe1, 0xffe2); (0xffe3, 0xffe4); (0xffe7, 0xffe8); (0xffe9, 0xffea); (0xffeb, 0xffec);
   (0xffed, 0xffee); (0xff80, 0x20); (0xff89, 0xff09); (0xff8d, 0xff0d); (0xff91, 0xffbe);
   (0xff92, 0xffbf); (0xff93, 0xffc0); (0xff94, 0xffc1); (0xff95, 0xff50); (0xff96, 0xff51);
   (0xff97, 0xff52); (0xff98, 0xff53); (0xff99, 0xff54); (0xff9a, 0xff55); (0xff9b, 0xff56);
   (0xff9c, 0xff57); (0xff9d, 0xff58); (0xff9e, 0xff63); (0xff9f, 0xffff); (0xffbd, 0x3d);
   (0xffaa, 0x2a); (0xffab, 0x2b); (0xffac, 0x2c); (0xffad, 0x2d); (0xffae, 0x2e);
   (0xffaf, 0x2f); (0xffb0, 0x30); (0xffb1, 0x31); (0xffb2, 0x32); (0xffb3, 0x33);
   (0xffb4, 0x34); (0xffb5, 0x35); (0xffb6, 0x36); (0xffb7, 0x37); (0xffb8, 0x38);
   (0xffb9, 0x39); (0xfe03, 0xff7e)].

Definition alternative (keysym : Z) (p : Z * Z) : option Z :=
  if p.1 =? keysym then Some p.2 else if p.2 =? keysym then Some p.1 else None.

Definition alternatives (keysym : Z) : list Z := omap (alternative keysym) altKeysym.

(** ** The event handler *)

Definition to_keycode (keysym state : Z) : M kst (nat * Z) :=
  kbstate ← lorieGetKeyboardState;
  s ← get;
  of_option (lorieKeysymToKeycode (desc s) kbstate keysym state).

(** The first alternative that some key sends. *)
Fixpoint first_alternative (alts : list Z) (state : Z) : M kst (nat * Z) :=
  match alts with
  | [] => mret (0%nat, state)
  | a :: alts' =>
    '(k, ns) ← to_keycode a state;
    if (k =? 0)%nat then first_alternative alts' state else mret (k, ns)
  end.

(** The keycode and state for a keysym; a keycode of 0 where the function gives
    up. *)
Definition resolve_keysym (e : kenv) (keysym state : Z) : M kst (nat * Z) :=
  '(k, ns) ← to_keycode keysym state;
  if negb (k =? 0)%nat then mret (k, ns)
  else
    '(k, ns) ← first_alternative (alternatives keysym) state;
    if negb (k =? 0)%nat then mret (k, ns)
    else
      k ← lorieAddKeysym e keysym;
      if (k =? 0)%nat then mret (0%nat, state) else to_keycode keysym state.

Definition shift_differs (state ns : Z) : bool :=
  negb (Z.land state ShiftMask =? Z.land ns ShiftMask).

(** A fake Shift would be needed on a key that Num Lock affects. *)
Definition fake_shift_on_numpad (k : nat) (state ns : Z) : M kst bool :=
  if shift_differs state ns then lorieIsAffectedByNumLock k else mret false.

(** The first alternative that needs no fake Shift on the numeric pad. *)
Fixpoint numpad_alternative (alts : list Z) (state : Z) : M kst (option (nat * Z)) :=
  match alts with
  | [] => mret None
  | a :: alts' =>
    '(k, ns) ← to_keycode a state;
    if (k =? 0)%nat then numpad_alternative alts' state
    else
      bad ← fake_shift_on_numpad k state ns;
      if (bad : bool) then numpad_alternative alts' state else mret (Some (k, ns))
  end.

Definition avoid_fake_shift (keysym state : Z) (k : nat) (ns : Z) : M kst (nat * Z) :=
  affected ← fake_shift_on_numpad k state ns;
  if negb affected then mret (k, ns)
  else
    r ← numpad_alternative (alternatives keysym) state;
    mret (match r with Some p => p | None => (k, ns) end).

(** What was faked for one modifier: a press, or releases. *)
Inductive fake := NoFake | FakePress (k : nat) | FakeRelease (ks : list nat).

Definition fake_events (f : fake) : list kev :=
  match f with
  | NoFake => []
  | FakePress k => [KeyPress k]
  | FakeRelease ks => KeyRelease <$> ks
  end.

Definition undo_events (f : fake) : list kev :=
  match f with
  | NoFake => []
  | FakePress k => [KeyRelease k]
  | FakeRelease ks => KeyPress <$> ks
  end.

Definition queue_all (evs : list kev) : M kst () := for_each evs QueueKeyboardEvents.

(** A fake press or release that makes the bits of [mask] in the state [state]
    those of [ns]; [None] is the early return. *)
Definition fake_modifier (state ns mask : Z) (press : M kst nat) (release : M kst (list nat))
  : M kst (option fake) :=
  if negb (truthy (Z.land state mask)) && truthy (Z.land ns mask) then
    k ← press;
    if (k =? 0)%nat then mret None
    else QueueKeyboardEvents (KeyPress k) ;; mret (Some (FakePress k))
  else if truthy (Z.land state mask) && negb (truthy (Z.land ns mask)) then
    ks ← release;
    match ks with
    | [] => mret None
    | _ => queue_all (KeyRelease <$> ks) ;; mret (Some (FakeRelease ks))
    end
  else mret (Some NoFake).

(** The keysym is recorded for the keycode and for no other one. *)
Definition record_press (keysym : Z) (keycode : nat) : M kst () :=
  modify (λ s, s <| pressedKeys ::= λ l,
    <[keycode := keysym]>
      (imap (λ i k, if negb (i =? keycode)%nat && (k =? keysym) then NoSymbol else k) l) |>).

(** The level-three modifiers, where more than Shift has to change. *)
Definition level_three_needed (state ns : Z) : M kst Z :=
  if negb (Z.land ns (Z.lnot ShiftMask) =? Z.land state (Z.lnot ShiftMask))
  then level_three_mask else mret 0.

(** The end of a press, with the keycode and the state at hand. *)
Definition press_key (e : kenv) (keysym state : Z) (k : nat) (ns : Z) : M kst () :=
  l3 ← level_three_needed state ns;
  f1 ← fake_modifier state ns ShiftMask loriePressShift (lorieReleaseShift 8);
  match f1 with
  | None => skip
  | Some f1 =>
    f2 ← fake_modifier state ns l3 loriePressLevelThree (lorieReleaseLevelThree 8);
    match f2 with
    | None => skip
    | Some f2 =>
      QueueKeyboardEvents (KeyPress k) ;;
      vncOnKeyUsed k ;;
      record_press keysym k ;;
      queue_all (undo_events f2) ;;
      queue_all (undo_events f1) ;;
      mieqProcessInputEvents e
    end
  end.

Definition key_release (e : kenv) (keysym : Z) : M kst () :=
  s ← get;
  match index_of (λ k, k =? keysym) (pressedKeys s) with
  | Some i =>
    modify (λ s, s <| pressedKeys ::= λ l, <[i := NoSymbol]> l |>) ;;
    QueueKeyboardEvents (KeyRelease i) ;;
    mieqProcessInputEvents e
  | None => skip
  end.

Definition key_press (e : kenv) (keysym : Z) : M kst () :=
  mieqProcessInputEvents e ;;
  state ← lorieGetKeyboardState;
  '(k, ns) ← resolve_keysym e keysym state;
  if (k =? 0)%nat then skip
  else
    '(k, ns) ← avoid_fake_shift keysym state k ns;
    let ns' := if (keysym =? XK_Tab) && truthy (Z.land state ShiftMask)
               then Z.lor ns ShiftMask else ns in
    press_key e keysym state k ns'.

Definition lorieKeysymKeyboardEvent (e : kenv) (keysym : Z) (down : bool) : M kst () :=
  if negb down then key_release e keysym else key_press e keysym.

(** ** Lock keys *)

Definition lorieGetLockKeyModMask (sym : Z) : M kst Z :=
  kbstate ← lorieGetKeyboardState;
  let state := Z.land kbstate (Z.lnot 0xff) in
  s ← get;
  k ← of_option (keysym_lookup (desc s) sym state);
  if (k =? 0)%nat then mret 0
  else
    a ← of_option (XkbKeyActionPtr (desc s) k state);
    match a with
    | None => mret 0
    | Some a =>
      if negb (a_type a =? XkbSA_LockMods) then mret 0
      else of_option (action_mask (desc s) k a)
    end.

(** A change of the state is notified (counted) and goes to the indicators; the
    copy of the locked state to the slave devices
    ([XkbPushLockedStateToSlaves]) is outside the model. *)
Definition lorieSetLockedMods (e : kenv) (mask : Z) (on : bool) : M kst () :=
  if mask =? 0 then skip
  else
    s ← get;
    let old := kb s in
    let locked := u8 (if on then Z.lor (locked_mods old) mask
                      else Z.land (locked_mods old) (Z.lnot mask)) in
    b ← of_option (XkbComputeDerivedState (desc s) (old <| locked_mods := locked |>));
    modify (λ s, s <| kb := b |>) ;;
    let changed := XkbStateChangedFlags old b in
    if changed =? 0 then skip
    else modify (λ s, s <| notices ::= S |>
                        <| autoState ::= update_indicators e (desc s) b changed |>).

Definition set_bit (v : Z) (i : nat) (on : bool) : Z :=
  if on then Z.lor v (Z.shiftl 1 (Z.of_nat i)) else Z.land v (Z.lnot (Z.shiftl 1 (Z.of_nat i))).

(** [XkbSetIndicators] on one indicator sets its bit of the explicit state; what
    the indicator drives in turn is outside the model. *)
Definition lorieSetScrollLockIndicator (e : kenv) (on : bool) : M kst () :=
  s ← get;
  match names (desc s) with
  | None => skip
  | Some _ =>
    match index_of (λ a, a =? scroll_lock_atom e) (indicators (desc s)) with
    | Some i => modify (λ s, s <| explicitState ::= λ l, set_bit l i on |>)
    | None => skip
    end
  end.

Definition lorieSyncLockKeysState (e : kenv) (state : Z) : M kst () :=
  m ← lorieGetLockKeyModMask XK_Caps_Lock;
  lorieSetLockedMods e m (Z.testbit state 0) ;;
  m ← lorieGetLockKeyModMask XK_Num_Lock;
  lorieSetLockedMods e m (Z.testbit state 1) ;;
  lorieSetScrollLockIndicator e (Z.testbit state 2).

(** Run the code and project the fields of updated records. *)
Ltac krun :=
  mrun; cbn [desc kb queue delivered pressedKeys addedKeysyms explicitState autoState notices].
Tactic Notation "krun" "in" hyp(H) :=
  mrun in H; cbn [desc kb queue delivered pressedKeys addedKeysyms explicitState autoState notices] in H.

(** ** Code that only looks *)

Definition reads {A} (m : M kst A) : Prop := ∀ s a s', m s = Some (a, s') → s' = s.

Lemma reads_bind {A B} (m : M kst A) (f : A → M kst B) :
  reads m → (∀ a, reads (f a)) → reads (m ≫= f).
Proof.
  intros Hm Hf s b s'. mrun. destruct (m s) as [[a s1]|] eqn:E; [|done].
  apply Hm in E as ->. apply Hf.
Qed.
Lemma reads_ret {A} (a : A) : reads (mret a).
Proof. by intros s b s' [= _ <-]. Qed.
Lemma reads_get : reads get.
Proof. by intros s b s' [= _ <-]. Qed.
Lemma reads_gets {A} (f : kst → A) : reads (gets f).
Proof. by intros s b s' [= _ <-]. Qed.
Lemma reads_of_option {A} (o : option A) : reads (of_option o).
Proof. intros s b s'. destruct o; [by intros [= _ <-]|done]. Qed.
Create HintDb reads.
#[export] Hint Resolve reads_ret reads_get reads_gets reads_of_option : reads.

Ltac reads_step :=
  match goal with
  | |- reads (mbind _ _) => apply reads_bind; [|intros ?]
  | |- reads (if _ then _ else _) => case_goal
  | |- reads (match ?x with _ => _ end) => destruct x
  | |- reads (let _ := _ in _) => cbv zeta
  | |- reads _ => solve [auto with reads]
  end.
Ltac reads := repeat reads_step.

Lemma reads_state : reads lorieGetKeyboardState.
Proof. unfold lorieGetKeyboardState. reads. Qed.
#[export] Hint Resolve reads_state : reads.
Lemma reads_level_three_mask : reads level_three_mask.
Proof. unfold level_three_mask. reads. Qed.
#[export] Hint Resolve reads_level_three_mask : reads.
Lemma reads_level_three_needed st ns : reads (level_three_needed st ns).
Proof. unfold level_three_needed. reads. Qed.
Lemma reads_press_shift : reads loriePressShift.
Proof. unfold loriePressShift. reads. Qed.
Lemma reads_release_shift n : reads (lorieReleaseShift n).
Proof. unfold lorieReleaseShift. reads. Qed.
Lemma reads_press_three : reads loriePressLevelThree.
Proof. unfold loriePressLevelThree. reads. Qed.
Lemma reads_release_three n : reads (lorieReleaseLevelThree n).
Proof. unfold lorieReleaseLevelThree. reads. Qed.
Lemma reads_numlock k : reads (lorieIsAffectedByNumLock k).
Proof. unfold lorieIsAffectedByNumLock. reads. Qed.
Lemma reads_to_keycode ks st : reads (to_keycode ks st).
Proof. unfold to_keycode. reads. Qed.
Lemma reads_fake_shift k st ns : reads (fake_shift_on_numpad k st ns).
Proof. unfold fake_shift_on_numpad. pose proof (reads_numlock k). reads. Qed.
#[export] Hint Resolve reads_fake_shift reads_press_shift reads_release_shift reads_press_three
  reads_release_three reads_numlock reads_to_keycode : reads.
Lemma reads_first_alternative alts st : reads (first_alternative alts st).
Proof. induction alts as [|a alts IH]; cbn [first_alternative]; reads. Qed.
Lemma reads_numpad alts st : reads (numpad_alternative alts st).
Proof. induction alts as [|a alts IH]; cbn [numpad_alternative]; reads. Qed.
#[export] Hint Resolve reads_first_alternative reads_numpad : reads.
Lemma reads_avoid ks st k ns : reads (avoid_fake_shift ks st k ns).
Proof. unfold avoid_fake_shift. reads. Qed.
#[export] Hint Resolve reads_avoid : reads.

(** ** The events of one key press *)

Lemma queue_all_run evs : ∀ s,
  queue_all evs s = Some ((), s <| queue ::= λ q, q ++ evs |>).
Proof.
  unfold queue_all. induction evs as [|ev evs IH]; intros s; cbn [for_each].
  - mrun. rewrite app_nil_r. by destruct s.
  - unfold QueueKeyboardEvents in *. mrun. rewrite IH. simpl. by rewrite <-app_assoc.
Qed.

(** A fake puts its events on the queue and changes nothing else. *)
Lemma fake_modifier_run state ns mask press release s r s' :
  reads press → reads release →
  fake_modifier state ns mask press release s = Some (r, s') →
  match r with
  | None => s' = s
  | Some f => s' = (s <| queue ::= λ q, q ++ fake_events f |>)
  end.
Proof.
  intros Hp Hr. unfold fake_modifier, QueueKeyboardEvents. mrun.
  destruct (negb _ && _).
  - destruct (press s) as [[k s1]|] eqn:E; [|done]. apply Hp in E as ->.
    destruct (k =? 0)%nat; mrun; by intros [= <- <-].
  - destruct (_ && negb _).
    + destruct (release s) as [[ks s1]|] eqn:E; [|done]. apply Hr in E as ->.
      destruct ks as [|k ks]; [mrun; by intros [= <- <-]|].
      mrun. rewrite queue_all_run. by intros [= <- <-].
    + mrun. intros [= <- <-]. simpl. rewrite app_nil_r. by destruct s.
Qed.

Lemma vncOnKeyUsed_run k s :
  ∃ l, vncOnKeyUsed k s = Some ((), s <| addedKeysyms := l |>) ∧ l ≡ₚ addedKeysyms s
    ∧ (∀ it, it ∈ l → it.2 = k → ∃ it', head l = Some it' ∧ it'.2 = k).
Proof.
  unfold vncOnKeyUsed. mrun. destruct (addedKeysyms s) as [|it l] eqn:El.
  { exists []. split; [destruct s; simpl in *; by subst|]. split; [done|set_solver]. }
  destruct (Nat.eqb_spec it.2 k) as [Hk|Hk].
  { exists (it :: l). split; [destruct s; simpl in *; by subst|]. split; [done|]. eauto. }
  destruct (index_of _ (it :: l)) as [i|] eqn:Ei.
  - destruct (index_of_Some _ _ _ Ei) as (it' & E & Hit). apply Nat.eqb_eq in Hit.
    rewrite E. exists (it' :: delete i (it :: l)). rewrite <-El. split; [done|]. split; [|eauto].
    rewrite El. symmetry. by apply delete_Permutation.
  - exists (it :: l). split; [destruct s; simpl in *; by subst|]. split; [done|].
    intros x Hx Hxk. apply index_of_None in Ei. rewrite Forall_forall in Ei.
    specialize (Ei x Hx). cbv beta in Ei. by rewrite Hxk, Nat.eqb_refl in Ei.
Qed.

(** The complete sequence of a press. *)
Definition press_events (f1 f2 : fake) (k : nat) : list kev :=
  fake_events f1 ++ fake_events f2 ++ [KeyPress k] ++ undo_events f2 ++ undo_events f1.

(** No modifier is faked for the state that is there. *)
Lemma fake_same st mask press release s : fake_modifier st st mask press release s = Some (Some NoFake, s).
Proof. unfold fake_modifier. by destruct (truthy (Z.land st mask)). Qed.

(** The bits of [mask] have to change and there is no key to fake that with. *)
Definition unfakeable (s : kst) (state ns mask : Z) (press : M kst nat) (release : M kst (list nat)) : Prop :=
  (Z.land state mask = 0 ∧ Z.land ns mask ≠ 0 ∧ press s = Some (0%nat, s))
  ∨ (Z.land state mask ≠ 0 ∧ Z.land ns mask = 0 ∧ release s = Some ([], s)).

Definition cannot_fake (s : kst) (state ns : Z) : Prop :=
  unfakeable s state ns ShiftMask loriePressShift (lorieReleaseShift 8)
  ∨ ∃ l3, level_three_needed state ns s = Some (l3, s)
      ∧ unfakeable s state ns l3 loriePressLevelThree (lorieReleaseLevelThree 8).

Lemma fake_none st ns mask press release s s' :
  reads press → reads release → fake_modifier st ns mask press release s = Some (None, s') →
  unfakeable s st ns mask press release.
Proof.
  unfold fake_modifier, unfakeable, truthy. intros Hp Hr. mrun.
  destruct (Z.eqb_spec (Z.land st mask) 0) as [Hs|Hs], (Z.eqb_spec (Z.land ns mask) 0) as [Hn|Hn]; cbn [negb andb];
    try done.
  - destruct (press s) as [[k s1]|] eqn:E; [|done]. apply Hp in E as E'; subst s1.
    destruct (Nat.eqb_spec k 0) as [->|]; [auto|]. unfold QueueKeyboardEvents. by mrun.
  - destruct (release s) as [[ks s1]|] eqn:E; [|done]. apply Hr in E as E'; subst s1.
    destruct ks as [|k ks]; [auto|]. mrun. by rewrite queue_all_run.
Qed.

Lemma level_three_queue st ns s q l3 s' :
  level_three_needed st ns s = Some (l3, s') →
  level_three_needed st ns (s <| queue ::= q |>) = Some (l3, s <| queue ::= q |>).
Proof.
  unfold level_three_needed, level_three_mask, lorieGetKeyboardState. mrun.
  destruct (negb _); [|by intros [= <- _]]. simpl. intros H. repeat case_match; simplify_eq; try done.
Qed.

Lemma press_key_run e keysym state k ns s s' :
  press_key e keysym state k ns s = Some ((), s') →
  (cannot_fake s' state ns ∧ ∃ f, s' = (s <| queue ::= λ q, q ++ fake_events f |>))
  ∨ (∃ f1 f2 l, delivered s' = delivered s ++ queue s ++ press_events f1 f2 k
     ∧ (ns = state → f1 = NoFake ∧ f2 = NoFake) ∧ queue s' = [] ∧ record_press keysym k s = Some ((), s <| pressedKeys := pressedKeys s' |>)
     ∧ desc s' = desc s ∧ addedKeysyms s' = l ∧ l ≡ₚ addedKeysyms s).
Proof.
  unfold press_key. mrun.
  destruct (level_three_needed state ns s) as [[l3 s0]|] eqn:E0; [|done].
  apply reads_level_three_needed in E0 as E0'. subst s0.
  destruct (fake_modifier state ns ShiftMask _ _ s) as [[[f1|] s1]|] eqn:E1; [|mrun|done].
  2:{ pose proof (fake_none _ _ _ _ _ _ _ reads_press_shift (reads_release_shift 8) E1) as Hns. apply fake_modifier_run in E1; auto with reads. subst s1.
      intros [= <-]. left. split; [by left|]. exists NoFake. simpl. rewrite app_nil_r. by destruct s. }
  assert (ns = state → f1 = NoFake) as N1 by (intros ->; rewrite fake_same in E1; by injection E1).
  apply fake_modifier_run in E1; auto with reads. subst s1.
  destruct (fake_modifier state ns l3 _ _ _) as [[[f2|] s2]|] eqn:E2; [|mrun|done].
  2:{ pose proof (fake_none _ _ _ _ _ _ _ reads_press_three (reads_release_three 8) E2) as Hns. apply fake_modifier_run in E2; auto with reads. subst s2.
      intros [= <-]. left. split; [|by exists f1]. right. exists l3. split; [|done]. exact (level_three_queue _ _ s (λ q, q ++ fake_events f1) _ _ E0). }
  assert (ns = state → f2 = NoFake) as N2 by (intros ->; rewrite fake_same in E2; by injection E2).
  apply fake_modifier_run in E2; auto with reads. subst s2.
  unfold QueueKeyboardEvents. krun.
  match goal with |- context [vncOnKeyUsed k ?st] =>
    destruct (vncOnKeyUsed_run k st) as (l & -> & Hl & _) end.
  unfold record_press, mieqProcessInputEvents. krun. rewrite queue_all_run. krun.
  rewrite queue_all_run. krun.
  intros [= <-]. right. exists f1, f2, l. unfold press_events. simpl in *.
  split_and!; try done; [by rewrite <-!app_assoc|auto].
Qed.

(** Adding a keysym leaves the events and the pressed keys alone. *)
Definition quiet (q dl : list kev) (p : list Z) (s : kst) : Prop :=
  queue s = q ∧ delivered s = dl ∧ pressedKeys s = p.

Lemma reads_preserves {A} I (m : M kst A) : reads m → preserves I m.
Proof. intros H s a s' Hs E. by apply H in E as ->. Qed.

Lemma quiet_reusable q dl p n : preserves (quiet q dl p) (getReusableKeycode n).
Proof.
  induction n as [|n IH]; cbn [getReusableKeycode]; preserve. by apply preserves_modify.
Qed.

Lemma quiet_install q dl p e ks k : preserves (quiet q dl p) (install_keysym e ks k).
Proof.
  unfold install_keysym, saveAddedKeysym. preserve; by apply preserves_modify.
Qed.

Lemma quiet_resolve q dl p e ks st : preserves (quiet q dl p) (resolve_keysym e ks st).
Proof.
  pose proof (reads_to_keycode ks st) as H1%(reads_preserves (quiet q dl p)).
  pose proof (reads_first_alternative (alternatives ks) st)
    as H2%(reads_preserves (quiet q dl p)).
  unfold resolve_keysym, lorieAddKeysym. preserve;
    auto using quiet_reusable, quiet_install.
Qed.

(** Presses minus releases of a key. *)
Fixpoint net (j : nat) (evs : list kev) : Z :=
  match evs with
  | [] => 0
  | KeyPress k :: evs' => (if (k =? j)%nat then 1 else 0) + net j evs'
  | KeyRelease k :: evs' => (if (k =? j)%nat then -1 else 0) + net j evs'
  end.

Lemma net_app j l1 l2 : net j (l1 ++ l2) = net j l1 + net j l2.
Proof. induction l1 as [|[k|k] l1 IH]; simpl; lia. Qed.

Lemma net_undo j f : net j (undo_events f) = - net j (fake_events f).
Proof.
  destruct f as [|k|ks]; [done|simpl; case_goal; lia|]. cbn [undo_events fake_events].
  induction ks as [|k ks IH]; [done|]. rewrite !fmap_cons. cbn [net]. rewrite IH. case_goal; lia.
Qed.

Lemma net_press_events j f1 f2 k :
  net j (press_events f1 f2 k) = if (k =? j)%nat then 1 else 0.
Proof. unfold press_events. rewrite !net_app, !net_undo. simpl. lia. Qed.

Lemma net_around j f1 f2 :
  net j ((fake_events f1 ++ fake_events f2) ++ (undo_events f2 ++ undo_events f1)) = 0.
Proof. rewrite !net_app, !net_undo. lia. Qed.

Lemma key_press_run e ks s s' :
  key_press e ks s = Some ((), s') →
  (delivered s' = delivered s ++ queue s ∧ pressedKeys s' = pressedKeys s
   ∧ ∃ f, queue s' = fake_events f)
  ∨ (∃ k f1 f2, delivered s' = delivered s ++ queue s ++ press_events f1 f2 k ∧ queue s' = []
     ∧ pressedKeys s' = <[k := ks]> (imap (λ i x,
         if negb (i =? k)%nat && (x =? ks) then NoSymbol else x) (pressedKeys s))).
Proof.
  unfold key_press. krun. unfold mieqProcessInputEvents at 1, lorieGetKeyboardState. krun.
  set (s0 := mk_kst _ _ _ _ _ _ _ _ _).
  destruct (resolve_keysym e ks _ s0) as [[[k ns] s1]|] eqn:E1; [|done].
  eapply (quiet_resolve [] (delivered s ++ queue s) (pressedKeys s)) in E1 as (Q1 & Q2 & Q3);
    [|done].
  destruct (k =? 0)%nat; krun.
  { intros [= <-]. left. split_and!; [done..|]. by exists NoFake. }
  destruct (avoid_fake_shift ks _ k ns s1) as [[[k' ns'] s2]|] eqn:E2; [|done].
  apply reads_avoid in E2 as ->. krun. intros [(_ & f & ->)|H]%press_key_run.
  - left. simpl. rewrite Q1, Q2. split_and!; [done..|]. by exists f.
  - destruct H as (f1 & f2 & l & H1 & _ & H2 & H3 & _). right. exists k', f1, f2.
    rewrite H1, Q1, Q2, <-app_assoc. split_and!; [done..|].
    unfold record_press in H3. krun in H3. rewrite <-Q3. by injection H3.
Qed.

(** C6: A key press leaves no modifier behind: whenever the handler presses a key, what it delivers is
    faked events, one press of the key that it records for the keysym, and faked events again, and the
    faked ones before and after the press together release every key exactly as often as they press
    it, so that the Shift and level-three keys are back where they were (a Shift key that itself
    carries the keysym has its own press besides the faked one).  Where it gives up before the key,
    nothing but events waiting in the queue is delivered and no press is recorded. *)
Theorem press_restores_modifiers e ks s s' :
  lorieKeysymKeyboardEvent e ks true s = Some ((), s') →
  (delivered s' = delivered s ++ queue s ∧ pressedKeys s' = pressedKeys s)
  ∨ (∃ k pre post, delivered s' = delivered s ++ queue s ++ pre ++ [KeyPress k] ++ post ∧ queue s' = []
     ∧ (∀ j, net j (pre ++ post) = 0)
     ∧ pressedKeys s' = <[k := ks]> (imap (λ i x,
         if negb (i =? k)%nat && (x =? ks) then NoSymbol else x) (pressedKeys s))).
Proof.
  intros [(H1 & H2 & _)|(k & f1 & f2 & H1 & H2 & H3)]%key_press_run; [by left|].
  right. exists k, (fake_events f1 ++ fake_events f2), (undo_events f2 ++ undo_events f1).
  split_and!; [|done|intros j; apply net_around|done]. rewrite H1. unfold press_events. by rewrite <-!app_assoc.
Qed.

(** [k] is the key recorded for the keysym, and the only one. *)
Definition recorded (k : nat) (ks : Z) (p : list Z) : Prop :=
  p !! k = Some ks ∧ ∀ i, i ≠ k → p !! i ≠ Some ks.

Lemma record_recorded k ks p :
  ks ≠ NoSymbol → (k < length p)%nat →
  recorded k ks (<[k := ks]> (imap (λ i x,
    if negb (i =? k)%nat && (x =? ks) then NoSymbol else x) p)).
Proof.
  intros Hks Hk. split.
  - apply list_lookup_insert_eq. by rewrite length_imap.
  - intros i Hi. rewrite list_lookup_insert_ne, list_lookup_imap by done.
    destruct (p !! i) as [x|]; [|done]. simpl. rewrite (proj2 (Nat.eqb_neq i k)) by done.
    cbn [negb andb]. destruct (Z.eqb_spec x ks); congruence.
Qed.

Lemma recorded_index k ks p : recorded k ks p → index_of (λ x, x =? ks) p = Some k.
Proof.
  intros [Hk Hu]. destruct (index_of _ p) as [i|] eqn:E.
  - apply index_of_Some in E as (x & E & Hx). apply Z.eqb_eq in Hx as ->.
    destruct (decide (i = k)) as [->|Hi]; [done|]. by destruct (Hu i Hi).
  - apply index_of_None in E. rewrite Forall_lookup in E. specialize (E k ks Hk).
    by rewrite Z.eqb_refl in E.
Qed.

Lemma recorded_gone k ks p :
  ks ≠ NoSymbol → recorded k ks p → index_of (λ x, x =? ks) (<[k := NoSymbol]> p) = None.
Proof.
  intros Hks [Hk Hu]. apply index_of_None, Forall_lookup. intros i x.
  destruct (decide (i = k)) as [->|Hi].
  - rewrite list_lookup_insert_eq by (by eapply lookup_lt_Some). intros [= <-].
    apply Z.eqb_neq. congruence.
  - rewrite list_lookup_insert_ne by done. intros Hx. apply Z.eqb_neq. intros ->. by apply (Hu i).
Qed.

(** C7: The release matches the press: when the handler has pressed a key for
    a keysym, then, whatever happens to the keymap and the modifiers meanwhile,
    the release of the keysym sends the release of the very key that was
    pressed, once: a second release of the keysym does nothing. *)
Theorem release_matches_press e e' ks s s1 :
  ks ≠ NoSymbol → lorieKeysymKeyboardEvent e ks true s = Some ((), s1) →
  delivered s1 = delivered s ++ queue s
  ∨ ∃ k evs, delivered s1 = delivered s ++ queue s ++ evs ∧ net k evs = 1
     ∧ ∀ s2, (k < length (pressedKeys s))%nat → pressedKeys s2 = pressedKeys s1 →
       ∃ s3, lorieKeysymKeyboardEvent e' ks false s2 = Some ((), s3)
         ∧ delivered s3 = delivered s2 ++ queue s2 ++ [KeyRelease k]
         ∧ lorieKeysymKeyboardEvent e' ks false s3 = Some ((), s3).
Proof.
  intros Hks [(H1 & _)|(k & f1 & f2 & H1 & _ & H3)]%key_press_run; [by left|].
  right. exists k, (press_events f1 f2 k). split_and!; [done| |].
  { by rewrite net_press_events, Nat.eqb_refl. }
  intros s2 Hk Hp. pose proof (record_recorded k ks (pressedKeys s) Hks Hk) as Hr.
  rewrite <-H3, <-Hp in Hr.
  unfold lorieKeysymKeyboardEvent, key_release, QueueKeyboardEvents, mieqProcessInputEvents.
  cbn [negb]. krun. rewrite (recorded_index _ _ _ Hr). krun. eexists. split; [done|].
  split; [done|]. krun. by rewrite (recorded_gone _ _ _ Hks Hr).
Qed.

(** A fake Shift gets stuck when level three fails: if a keysym needs both
    a fake Shift and a fake level-three press, the Shift key is found and the
    level-three key is not, the handler returns with the press of Shift in the
    queue and without its release, and the next key event delivers it. *)
Theorem level_three_failure_leaves_shift e e' keysym keysym' st k ns l3 s sh s1 s2 :
  level_three_needed st ns s = Some (l3, s) →
  Z.land st ShiftMask = 0 → Z.land ns ShiftMask ≠ 0 →
  loriePressShift s = Some (sh, s) → sh ≠ 0%nat →
  Z.land st l3 = 0 → Z.land ns l3 ≠ 0 →
  loriePressLevelThree (s <| queue ::= λ q, q ++ [KeyPress sh] |>) = Some (0%nat, s1) →
  press_key e keysym st k ns s = Some ((), s <| queue ::= λ q, q ++ [KeyPress sh] |>)
  ∧ (lorieKeysymKeyboardEvent e' keysym' true (s <| queue ::= λ q, q ++ [KeyPress sh] |>)
       = Some ((), s2) →
     ∃ evs, delivered s2 = delivered s ++ queue s ++ [KeyPress sh] ++ evs
       ∧ (evs = [] ∨ ∃ k', net k' evs = 1 ∧ ∀ j, j ≠ k' → net j evs = 0)).
Proof.
  intros El3 Hs1 Hs2 Esh Hsh Hl1 Hl2 Ethree. split.
  - pose proof (reads_press_three _ _ _ Ethree) as ->.
    unfold press_key, fake_modifier. mrun. rewrite El3.
    unfold truthy. rewrite Hs1, (proj2 (Z.eqb_neq _ _) Hs2). cbn [negb andb Z.eqb].
    rewrite Esh, (proj2 (Nat.eqb_neq _ _) Hsh). unfold QueueKeyboardEvents. mrun.
    rewrite Hl1, (proj2 (Z.eqb_neq _ _) Hl2). cbn [negb andb Z.eqb].
    simpl in Ethree. rewrite Ethree. done.
  - intros [(H1 & _)|(k' & f1 & f2 & H1 & _)]%key_press_run; simpl in H1.
    + exists []. rewrite H1, app_nil_r. split; [done|by left].
    + exists (press_events f1 f2 k'). rewrite H1, <-!app_assoc. split; [done|]. right.
      exists k'. rewrite net_press_events, Nat.eqb_refl. split; [done|].
      intros j Hj. by rewrite net_press_events, (proj2 (Nat.eqb_neq k' j)).
Qed.

(** ** A concrete keyboard *)

(** Processing the events of the demo keymap: Shift (50) and AltGr (108). *)
Definition demo_mod (k : nat) : Z := if (k =? 50)%nat then 1 else if (k =? 108)%nat then 0x80 else 0.

Definition demo_process_one (b : kbd) (ev : kev) : kbd :=
  let set m b := b <| base_mods := m |> <| mods := m |> <| lookup_mods := m |> in
  match ev with
  | KeyPress k => set (Z.lor (base_mods b) (demo_mod k)) b <| down ::= cons k |>
  | KeyRelease k => set (Z.land (base_mods b) (Z.lnot (demo_mod k))) b
                      <| down ::= filter (λ j, j ≠ k) |>
  end.

Definition demo_kenv : kenv :=
  mk_kenv (λ _ b evs, foldl demo_process_one b evs) true 500 (λ _ _ _ l, l).

Definition demo_kst : kst :=
  mk_kst demo_desc (mk_kbd 0 0 0 0 0 0 0 0 0 0 0 0 0 0 []) [] [] (replicate 256 0) [] 0 0 0.

Definition key_state {A} (r : option (A * kst)) : kst :=
  match r with Some (_, s) => s | None => demo_kst end.

(** Capital A on the letter key needs a fake Shift. *)
Lemma press_restores_modifiers_witness :
  let s' := key_state (lorieKeysymKeyboardEvent demo_kenv 0x41 true demo_kst) in
  delivered s' = [KeyPress 50; KeyPress 38; KeyRelease 50]
  ∧ (delivered s' = [] ∧ pressedKeys s' = pressedKeys demo_kst
     ∨ ∃ k pre post, delivered s' = [] ++ [] ++ pre ++ [KeyPress k] ++ post ∧ queue s' = []
         ∧ (∀ j, net j (pre ++ post) = 0)
         ∧ pressedKeys s' = <[k := 0x41]> (imap (λ i x,
             if negb (i =? k)%nat && (x =? 0x41) then NoSymbol else x) (pressedKeys demo_kst))).
Proof.
  intros s'. split; [vm_compute; reflexivity|].
  apply (press_restores_modifiers demo_kenv 0x41 demo_kst s'). vm_compute. reflexivity.
Defined.

Lemma release_matches_press_witness :
  let s1 := key_state (lorieKeysymKeyboardEvent demo_kenv 0x41 true demo_kst) in
  delivered s1 = [] ++ []
  ∨ ∃ k evs, delivered s1 = [] ++ [] ++ evs ∧ net k evs = 1
     ∧ ∀ s2, (k < 256)%nat → pressedKeys s2 = pressedKeys s1 →
       ∃ s3, lorieKeysymKeyboardEvent demo_kenv 0x41 false s2 = Some ((), s3)
         ∧ delivered s3 = delivered s2 ++ queue s2 ++ [KeyRelease k]
         ∧ lorieKeysymKeyboardEvent demo_kenv 0x41 false s3 = Some ((), s3).
Proof.
  intros s1. apply (release_matches_press demo_kenv demo_kenv 0x41 demo_kst s1); [done|].
  vm_compute. reflexivity.
Defined.

(** A keymap whose level-three key sends another keysym while Lock is on, in a
    state with Lock on: the inverted exclamation mark needs Shift and level
    three. *)
Definition demo_locked : kst :=
  demo_kst
    <| desc ::= λ d, set_key d 108 (mk_sym_map 1 2 [2; 0; 0; 0]%nat [0xfe03; 0xff20]
         (Some [mk_action XkbSA_SetMods 0 0x80; mk_action XkbSA_SetMods 0 0x80])) |>
    <| kb ::= λ b, b <| lookup_mods := 2 |> <| locked_mods := 2 |> <| mods := 2 |> |>.

Lemma level_three_failure_leaves_shift_witness :
  let s' := key_state (lorieKeysymKeyboardEvent demo_kenv 0xa1 true demo_locked) in
  delivered s' = [] ∧ queue s' = [KeyPress 50]
  ∧ press_key demo_kenv 0xa1 2 10 0x83 demo_locked
    = Some ((), demo_locked <| queue ::= λ q, q ++ [KeyPress 50] |>).
Proof.
  split; [vm_compute; reflexivity|]. split; [vm_compute; reflexivity|].
  refine (proj1 (level_three_failure_leaves_shift demo_kenv demo_kenv 0xa1 0 2 10 0x83 0x80
    demo_locked 50 (demo_locked <| queue ::= λ q, q ++ [KeyPress 50] |>) demo_locked
    _ _ _ _ _ _ _ _)); first [done | vm_compute; done].
Defined.
