(* ===== verification/KeysymInv.v ===== *)
(** * Key events from keysyms: invariant, totality and the added keysyms

    The well-formedness invariant of the state of [Keysym], the correctness of
    the search for modifier keys, of the addition of keysyms and of the LRU list
    of added keysyms, and the total correctness of the event handler: in a
    well-formed state it always returns, in a well-formed state. *)

From S2P Require Import Prelude Xkb Keymap Keysym.

(** ** Invariant *)

Record kst_wf (s : kst) : Prop := mk_kst_wf {
  sw_desc : desc_wf (desc s);
  sw_ctrl : ctrl_wf (desc s);
  sw_alpha : has_alphabetic (desc s);
  sw_pressed : length (pressedKeys s) = 256%nat;
  sw_names : ∀ ns, names (desc s) = Some ns →
    length ns = 256%nat ∧ Forall (λ n, length n = 4%nat) ns;
  sw_added : Forall (λ it, in_range (desc s) it.2) (addedKeysyms s)
}.

(** Only the keymap, the list of added keysyms and the number of entries of
    [pressedKeys] matter. *)
Lemma kst_wf_frame s s' :
  kst_wf s → desc s' = desc s → addedKeysyms s' ⊆ addedKeysyms s →
  length (pressedKeys s') = length (pressedKeys s) → kst_wf s'.
Proof.
  intros [H1 H2 H3 H4 H5 H6] Hd Ha Hp. split; rewrite ?Hd; [done..|congruence|done|].
  rewrite Forall_forall in *. auto.
Qed.

Lemma in_range_lt d k : desc_wf d → in_range d k → (k < 256)%nat.
Proof. intros Hwf [? ?]. pose proof (dw_range _ Hwf). lia. Qed.

Lemma in_range_seq d k : in_range d k ↔ k ∈ seq (min_key_code d) (num_keys d).
Proof. rewrite elem_of_seq. unfold in_range, num_keys. lia. Qed.

(** ** Modifier keys *)

Lemma setmods_total d key state :
  desc_wf d → (key < 256)%nat → ∃ m, setmods_mask d key state = Some m.
Proof.
  intros Hwf Hk. unfold setmods_mask.
  destruct (action_total d key state Hwf Hk) as [[a|] ->]; cbn [mbind option_bind]; [|eauto].
  destruct (negb _); [eauto|].
  destruct (action_mask_total d key a Hwf Hk) as [m ->]. cbn [mbind option_bind]. eauto.
Qed.

(** The modifiers of [mask] that [key] sets while it is held. *)
Definition sets (d : xkb_desc) (state mask : Z) (key : nat) : Z :=
  Z.land (default 0 (setmods_mask d key state)) mask.

Lemma press_shift_loop_spec d state : desc_wf d → ∀ n key,
  (0 < key)%nat → (key + n ≤ 256)%nat →
  ∃ k, press_shift_loop d state n key = Some k
    ∧ (k ≠ 0%nat → (key ≤ k < key + n)%nat ∧ sets d state ShiftMask k = ShiftMask)
    ∧ (k = 0%nat → ∀ j, (key ≤ j < key + n)%nat → sets d state ShiftMask j ≠ ShiftMask).
Proof.
  intros Hwf. induction n as [|n IH]; intros key Hpos Hle; cbn [press_shift_loop].
  { exists 0%nat. split; [done|]. split; [done|lia]. }
  destruct (setmods_total d key state Hwf ltac:(lia)) as [m Em]. rewrite Em.
  cbn [mbind option_bind].
  assert (sets d state ShiftMask key = Z.land m ShiftMask) as Hs by (unfold sets; by rewrite Em).
  destruct (Z.eqb_spec (Z.land m ShiftMask) ShiftMask) as [E|E].
  { exists key. split; [done|]. split; [|lia]. intros _. split; [lia|congruence]. }
  destruct (IH (S key) ltac:(lia) ltac:(lia)) as (k & -> & H1 & H2). exists k. split; [done|].
  split.
  - intros Hk. destruct (H1 Hk). split; [lia|done].
  - intros Hk j Hj. destruct (decide (j = key)) as [->|]; [congruence|]. apply H2; [done|lia].
Qed.

(** The keys a release looks for: down, and setting one of the modifiers. *)
Definition holds (s : kst) (state mask : Z) (key : nat) : bool :=
  is_down s key && truthy (sets (desc s) state mask key).

Lemma release_loop_spec s state mask maxKeys : desc_wf (desc s) → ∀ n key acc,
  (key + n ≤ 256)%nat → (length acc ≤ maxKeys)%nat →
  let ks := acc ++ filter (holds s state mask) (seq key n) in
  release_loop s state mask maxKeys n key acc
  = Some (if (length ks <=? maxKeys)%nat then ks else []).
Proof.
  intros Hwf. induction n as [|n IH]; intros key acc Hle Hacc; cbn [release_loop seq].
  { cbn zeta. rewrite filter_nil, app_nil_r. by rewrite (proj2 (Nat.leb_le _ _) Hacc). }
  destruct (setmods_total (desc s) key state Hwf ltac:(lia)) as [m Em]. rewrite Em.
  cbn zeta. cbn [mbind option_bind].
  assert (holds s state mask key = is_down s key && truthy (Z.land m mask)) as Hh.
  { unfold holds, sets. by rewrite Em. }
  destruct (is_down s key); cbn [negb andb] in *; [destruct (truthy _); cbn [negb]|].
  - rewrite filter_cons_True by (by rewrite Hh).
    destruct (Nat.leb_spec maxKeys (length acc)).
    + rewrite (proj2 (Nat.leb_gt _ _)); [done|]. rewrite length_app. simpl. lia.
    + rewrite IH by (rewrite ?length_app; simpl; lia). cbn zeta. by rewrite <-!app_assoc.
  - rewrite filter_cons_False by (rewrite Hh; naive_solver). apply IH; lia.
  - rewrite filter_cons_False by (rewrite Hh; naive_solver). apply IH; lia.
Qed.

(** What the four functions return: nothing is changed, and the result is the
    key, or the keys, described by [sets] and [holds]. *)
Lemma press_shift_run s :
  kst_wf s → ∃ k st, loriePressShift s = Some (k, s) ∧ lorieGetKeyboardState s = Some (st, s)
    ∧ (k ≠ 0%nat → in_range (desc s) k ∧ sets (desc s) st ShiftMask k = ShiftMask)
    ∧ (k = 0%nat → Z.land st ShiftMask = 0 →
         ∀ j, in_range (desc s) j → sets (desc s) st ShiftMask j ≠ ShiftMask).
Proof.
  intros Hs. pose proof (sw_desc _ Hs) as Hd. pose proof (dw_range _ Hd) as Hr.
  unfold loriePressShift, lorieGetKeyboardState. mrun.
  set (st := XkbBuildCoreState _ _). destruct (truthy (Z.land st ShiftMask)) eqn:Et.
  { mrun. eexists _, _. split; [done|]. split; [done|]. split; [done|]. intros _ E.
    by rewrite E in Et. }
  mrun. destruct (press_shift_loop_spec (desc s) st Hd (num_keys (desc s))
    (min_key_code (desc s))) as (k & -> & H1 & H2); [unfold num_keys; lia..|].
  unfold num_keys, in_range in *.
  eexists _, _. split; [done|]. split; [done|]. split.
  - intros Hk. destruct (H1 Hk). split; [lia|done].
  - intros Hk _ j Hj. apply H2; [done|lia].
Qed.

Lemma num_keys_bound d : desc_wf d → (min_key_code d + num_keys d ≤ 256)%nat.
Proof. intros H. pose proof (dw_range _ H). unfold num_keys. lia. Qed.

Definition held_keys (s : kst) (state mask : Z) : list nat :=
  filter (holds s state mask) (seq (min_key_code (desc s)) (num_keys (desc s))).

Lemma release_keys_run s state mask maxKeys :
  kst_wf s →
  release_loop s state mask maxKeys (num_keys (desc s)) (min_key_code (desc s)) []
  = Some (let ks := held_keys s state mask in if (length ks <=? maxKeys)%nat then ks else []).
Proof.
  intros Hs. rewrite release_loop_spec; [done|by apply sw_desc| |simpl; lia].
  by apply num_keys_bound, sw_desc.
Qed.

Lemma release_shift_run s maxKeys :
  kst_wf s → ∃ ks st, lorieReleaseShift maxKeys s = Some (ks, s)
    ∧ lorieGetKeyboardState s = Some (st, s)
    ∧ (ks ≠ [] → ks = held_keys s st ShiftMask ∧ (length ks ≤ maxKeys)%nat).
Proof.
  intros Hs. unfold lorieReleaseShift, lorieGetKeyboardState. mrun.
  set (st := XkbBuildCoreState _ _). destruct (negb _); mrun.
  { eexists _, _. by split_and!. }
  rewrite release_keys_run by done. eexists _, _. split; [done|]. split; [done|].
  cbn zeta. destruct (Nat.leb_spec (length (held_keys s st ShiftMask)) maxKeys); done.
Qed.

Lemma level_three_mask_run s :
  kst_wf s → ∃ m, level_three_mask s = Some (m, s).
Proof.
  intros Hs. unfold level_three_mask, lorieGetKeyboardState. mrun.
  destruct (levelThreeMask_total (desc s)
    (XkbBuildCoreState (lookup_mods (kb s)) (kgroup (kb s))) (sw_desc _ Hs)) as [m ->]. eauto.
Qed.

Lemma release_three_run s maxKeys :
  kst_wf s → ∃ ks, lorieReleaseLevelThree maxKeys s = Some (ks, s).
Proof.
  intros Hs. unfold lorieReleaseLevelThree, lorieGetKeyboardState. mrun.
  destruct (level_three_mask_run s Hs) as [m ->]. destruct (m =? 0); mrun; [eauto|].
  destruct (negb _); mrun; [eauto|]. rewrite release_keys_run by done. eauto.
Qed.

Lemma press_three_run s : kst_wf s → ∃ k, loriePressLevelThree s = Some (k, s).
Proof.
  intros Hs. unfold loriePressLevelThree, lorieGetKeyboardState. mrun.
  destruct (level_three_mask_run s Hs) as [m ->]. destruct (m =? 0); mrun; [eauto|].
  set (st := XkbBuildCoreState _ _). destruct (truthy _); mrun; [eauto|].
  destruct (level_three_key_total (desc s) st (sw_desc _ Hs)) as (k & -> & Hk).
  destruct (k =? 0)%nat; mrun; [eauto|].
  destruct (action_total (desc s) k st (sw_desc _ Hs) Hk) as [[a|] ->]; mrun; eauto.
Qed.

(** ** Adding a keysym *)

Lemma convert_case_self sym : fst (XkbConvertCase sym) = sym ∨ snd (XkbConvertCase sym) = sym.
Proof.
  unfold XkbConvertCase. cbv zeta. repeat case_goal; simpl; auto.
Qed.

Lemma effective_group_one sm st :
  XkbNumGroups (group_info sm) = 1 → effective_group sm st = 0.
Proof.
  intros H. pose proof (effective_group_lt sm st ltac:(lia)). lia.
Qed.

Lemma land_3_cases st :
  Z.land st 3 = (if Z.testbit st 0 then 1 else 0) + (if Z.testbit st 1 then 2 else 0).
Proof.
  change 3 with (Z.ones 2). rewrite Z.land_ones by lia. change (2 ^ 2) with 4.
  pose proof (Z.testbit_spec' st 0 ltac:(lia)) as H0.
  pose proof (Z.testbit_spec' st 1 ltac:(lia)) as H1.
  change (2 ^ 0) with 1 in H0. change (2 ^ 1) with 2 in H1. rewrite Z.div_1_r in H0.
  destruct (Z.testbit st 0), (Z.testbit st 1); simpl in *;
    pose proof (Z.div_mod st 4); pose proof (Z.mod_pos_bound st 4);
    pose proof (Z.div_mod st 2); pose proof (Z.div_mod (st / 2) 2); lia.
Qed.

Lemma alphabetic_level t st :
  alphabetic t →
  ∃ j, find_level t (t_map t) 0 st
       = if xorb (Z.testbit st 0) (Z.testbit st 1) then Some (1%nat, j) else None.
Proof.
  intros (Hm & _ & _ & ->). cbn [find_level e_active e_mask e_level andb].
  rewrite Hm, land_3_cases. exists (if Z.testbit st 0 then 0%nat else 1%nat).
  by destruct (Z.testbit st 0), (Z.testbit st 1).
Qed.

(** An alphabetic key sends its second keysym when exactly one of Shift and Lock
    is on, and its first one otherwise, whatever the group. *)
Lemma alphabetic_sends d key sm lower upper st :
  has_alphabetic d → in_range d key → keys d !! key = Some sm → alphabetic_key sm →
  syms sm !! 0%nat = Some lower → syms sm !! 1%nat = Some upper →
  key_sends d key st = Some (if xorb (Z.testbit st 0) (Z.testbit st 1) then upper else lower).
Proof.
  intros (t & Ht & Ha) [Hr1 Hr2] Hk [Hg Hw [_ Hi] _ _] H0 H1.
  destruct (alphabetic_level t st Ha) as [j Hlv]. destruct Ha as (Hm & _ & Hp & _).
  unfold key_sends, XkbTranslateKeyCode, XkbKeycodeInRange, key_column, key_type_of.
  rewrite Hk. cbn [mbind option_bind].
  rewrite (proj2 (Nat.leb_le _ _) Hr1), (proj2 (Nat.leb_le _ _) Hr2), Hg.
  rewrite (effective_group_one _ _ Hg). cbn [negb orb andb Z.eqb].
  change (Z.to_nat (Z.land 0 3)) with 0%nat. rewrite Hi.
  cbn [mbind option_bind]. rewrite Ht. cbn [mbind option_bind]. rewrite Hlv.
  assert (truthy (Z.land (Z.land st (Z.lnot (Z.land 3 (Z.lnot 0)))) LockMask) = false) as El.
  { rewrite <-Z.land_assoc.
    change (Z.land (Z.lnot (Z.land 3 (Z.lnot 0))) LockMask) with 0. by rewrite Z.land_0_r. }
  change (Z.to_nat 0) with 0%nat. cbn [Nat.mul Nat.add].
  destruct (xorb _ _); cbn [mbind option_bind]; rewrite ?Hp; cbn [mbind option_bind];
    rewrite ?H0, ?H1, ?Hm; cbn [mbind option_bind]; rewrite El; case_goal; bool_to_prop; congruence.
Qed.

Lemma key_wf_types d d' sm : types d' = types d → key_wf d sm → key_wf d' sm.
Proof. intros Ht [? ? [? Hf] ? ? ?]. split; [done..| |done|done|done]. rewrite Ht. by split. Qed.

(** Replacing a key by an alphabetic one keeps the keymap well formed. *)
Lemma set_alphabetic_wf d d' key sm :
  desc_wf d → types d' = types d → keys d' = <[key := sm]> (keys d) → modmap d' = modmap d →
  min_key_code d' = min_key_code d → max_key_code d' = max_key_code d →
  has_alphabetic d → alphabetic_key sm → desc_wf d'.
Proof.
  intros [H1 H2 H3 H4] Ht Hk Hm Hmin Hmax Ha Hak.
  assert (has_alphabetic d') as Ha' by (destruct Ha as (t & ? & ?); exists t; by rewrite Ht).
  split; rewrite ?Hk, ?Hm, ?Hmin, ?Hmax, ?length_insert; [done..|].
  apply Forall_insert; [|by apply alphabetic_key_wf].
  eapply Forall_impl; [exact H4|]. intros x. by apply key_wf_types.
Qed.

Lemma flip_shift_bits st :
  Z.testbit (flip st ShiftMask) 0 = negb (Z.testbit st 0)
  ∧ Z.testbit (flip st ShiftMask) 1 = Z.testbit st 1.
Proof.
  assert (truthy (Z.land st 1) = Z.testbit st 0) as E.
  { change 1 with (Z.ones 1). rewrite Z.land_ones by lia. change (2 ^ 1) with 2.
    rewrite (Zmod_odd st), <-Z.bit0_odd. by destruct (Z.testbit st 0). }
  unfold flip, ShiftMask. rewrite E, !Z.lor_spec, !Z.land_spec, !Z.lnot_spec by lia.
  by destruct (Z.testbit st 0), (Z.testbit st 1).
Qed.

Lemma wr_two {A} (l : list A) x y :
  (2 ≤ length l)%nat →
  ∃ l0 l1, wr l 0 x = Some l0 ∧ wr l0 1 y = Some l1 ∧ length l1 = length l
    ∧ l1 !! 0%nat = Some x ∧ l1 !! 1%nat = Some y.
Proof.
  intros Hl. destruct l as [|a [|b l]]; simpl in *; [lia..|].
  eexists _, _. split; [done|]. split; [done|]. by split_and!.
Qed.

(** The key can send the keysym in any state, with Shift flipped or not. *)
Definition generable (d : xkb_desc) (keysym : Z) (k : nat) : Prop :=
  in_range d k ∧ ∀ st, sends d keysym st k ∨ sends d keysym (flip st ShiftMask) k.

Lemma alphabetic_generable d key sm keysym :
  has_alphabetic d → in_range d key → keys d !! key = Some sm → alphabetic_key sm →
  syms sm !! 0%nat = Some (fst (XkbConvertCase keysym)) →
  syms sm !! 1%nat = Some (snd (XkbConvertCase keysym)) → generable d keysym key.
Proof.
  intros Ha Hr Hk Hak H0 H1. split; [done|]. intros st. unfold sends.
  pose proof (λ st, alphabetic_sends d key sm _ _ st Ha Hr Hk Hak H0 H1) as Hs.
  rewrite !Hs. destruct (flip_shift_bits st) as [-> ->].
  destruct (convert_case_self keysym) as [E|E];
    destruct (Z.testbit st 0), (Z.testbit st 1); simpl; rewrite ?E; auto.
Qed.

(** The keymap after the key [k] was made [sm]. *)
Definition installed (d : xkb_desc) (k : nat) (sm : sym_map) : xkb_desc :=
  set_key (d <| names ::= fmap (λ l, <[k := key_name k]> l) |>
             <| ctrls ::= fmap (raise_num_groups 1) |>) k sm.

Lemma installed_wf s s' k sm :
  kst_wf s → in_range (desc s) k → alphabetic_key sm → desc s' = installed (desc s) k sm →
  length (pressedKeys s') = 256%nat → Forall (λ it, in_range (desc s) it.2) (addedKeysyms s') →
  kst_wf s'.
Proof.
  intros Hs Hr Hak Ed Hp Hadd. split; rewrite ?Ed; [| |apply (sw_alpha _ Hs)|done| |done].
  - eapply (set_alphabetic_wf (desc s)); try done; [apply (sw_desc _ Hs)|apply (sw_alpha _ Hs)].
  - destruct (sw_ctrl _ Hs) as [Hg Hc]. split; [|done]. intros c. simpl.
    destruct (ctrls (desc s)) as [c0|]; [|done]. specialize (Hg c0 eq_refl). intros [= <-].
    unfold raise_num_groups. by destruct (Z.ltb_spec (num_groups c0) (Z.of_nat 1)); [simpl|].
  - intros ns. simpl. pose proof (sw_names _ Hs) as Hn.
    destruct (names (desc s)) as [l|]; [|done]. destruct (Hn l eq_refl) as [H1 H2].
    intros [= <-]. rewrite length_insert. split; [done|]. by apply Forall_insert.
Qed.

Lemma install_run e keysym k s :
  kst_wf s → in_range (desc s) k →
  ∃ s', install_keysym e keysym k s = Some (k, s') ∧ kst_wf s' ∧ generable (desc s') keysym k.
Proof.
  intros Hs Hr. pose proof (sw_desc _ Hs) as Hdw. unfold install_keysym. mrun.
  match goal with |- context [XkbChangeTypesOfKey ?x k] => set (d := x) end.
  assert (desc_wf d) as Hd.
  { destruct Hdw as [H1 H2 H3 H4]. split; try done.
    eapply Forall_impl; [exact H4|]. intros x. by apply key_wf_types. }
  destruct (change_to_alphabetic d k Hd Hr (sw_alpha _ Hs)) as (sm & -> & Hak).
  destruct (XkbConvertCase keysym) as [lower upper] eqn:Ecase.
  set (d1 := set_key _ k sm).
  assert ((k < 256)%nat) as Hk by (by eapply in_range_lt).
  assert (keys d1 !! k = Some sm) as ->.
  { simpl. apply list_lookup_insert_eq. rewrite (dw_keys _ Hdw). lia. }
  destruct (wr_two (syms sm) lower upper (ak_syms _ Hak))
    as (l0 & l1 & -> & -> & Hl & H0 & H1). krun.
  match goal with |- context [set_key d1 k ?x] => set (sm' := x) end.
  assert (alphabetic_key sm') as Hak' by (destruct Hak; split; simpl; try done; by rewrite Hl).
  assert (set_key d1 k sm' = installed (desc s) k sm') as ->.
  { unfold d1, installed, set_key. simpl. by rewrite list_insert_insert_eq. }
  assert (generable (installed (desc s) k sm') keysym k) as Hgen.
  { apply (alphabetic_generable _ k sm'); [apply (sw_alpha _ Hs)|done| |done| |];
      rewrite ?Ecase; try done.
    simpl. apply list_lookup_insert_eq. rewrite (dw_keys _ Hdw). lia. }
  pose proof (sw_pressed _ Hs). pose proof (sw_added _ Hs).
  unfold saveAddedKeysym. destruct (malloc_ok e); krun; (eexists; split; [done|]; split; [|done]);
    (eapply (installed_wf s); simpl; [done|done|done|done|done|]); [|done].
  by constructor.
Qed.

(** ** Choosing a keycode *)

Definition key_free (d : xkb_desc) (k : nat) : Prop :=
  ∃ sm, keys d !! k = Some sm ∧ XkbNumGroups (group_info sm) = 0.

(** The search from [key] down over [n] keys finds the highest free one. *)
Lemma free_keycode_spec d : length (keys d) = 256%nat → ∀ n key,
  (key < 256)%nat → (n ≤ key)%nat →
  ∃ k, free_keycode d n key = Some k
    ∧ (k ≠ 0%nat → (key - n < k ≤ key)%nat ∧ key_free d k
         ∧ ∀ j, (k < j ≤ key)%nat → ¬ key_free d j)
    ∧ (k = 0%nat → ∀ j, (key - n < j ≤ key)%nat → ¬ key_free d j).
Proof.
  intros Hlen. induction n as [|n IH]; intros key Hk Hn; cbn [free_keycode].
  { exists 0%nat. split; [done|]. split; [done|lia]. }
  destruct (lookup_lt_is_Some_2 (keys d) key) as [sm Hsm]; [lia|]. rewrite Hsm.
  cbn [mbind option_bind]. destruct (Z.eqb_spec (XkbNumGroups (group_info sm)) 0) as [E|E].
  { exists key. split; [done|]. split; [|lia]. intros _. split; [lia|]. split; [by exists sm|lia]. }
  assert (¬ key_free d key) as Hnf by (intros (? & ? & ?); congruence).
  destruct (IH (key - 1)%nat) as (k & -> & H1 & H2); [lia..|]. exists k. split; [done|]. split.
  - intros Hk0. destruct (H1 Hk0) as (? & ? & H3). split; [lia|]. split; [done|].
    intros j Hj. destruct (decide (j = key)) as [->|]; [done|]. apply H3. lia.
  - intros Hk0 j Hj. destruct (decide (j = key)) as [->|]; [done|]. apply H2; [done|lia].
Qed.

Lemma reusable_total s it :
  kst_wf s → in_range (desc s) it.2 → ∃ b, reusable (desc s) it = Some b.
Proof.
  intros Hs Hr. pose proof (sw_desc _ Hs) as Hd. pose proof (in_range_lt _ _ Hd Hr) as Hlt.
  unfold reusable.
  destruct (lookup_lt_is_Some_2 (keys (desc s)) it.2) as [sm Hsm]; [by rewrite (dw_keys _ Hd)|].
  rewrite Hsm. cbn [mbind option_bind].
  destruct (Z.ltb_spec 0 (XkbNumGroups (group_info sm))); cbn [negb]; [|eauto].
  pose proof (Forall_lookup_1 _ _ _ _ (dw_key _ Hd) Hsm) as Hk.
  pose proof (kw_width _ _ Hk ltac:(lia)). pose proof (kw_syms _ _ Hk).
  destruct (lookup_lt_is_Some_2 (syms sm) 0) as [k0 ->]; [nia|]. cbn [mbind option_bind].
  destruct (negb _); [eauto|]. pose proof (sw_names _ Hs) as Hn.
  destruct (names (desc s)) as [ns|]; [|eauto]. destruct (Hn ns eq_refl) as [Hl Hf].
  destruct (lookup_lt_is_Some_2 ns it.2) as [nm Enm]; [lia|]. rewrite Enm. cbn [mbind option_bind].
  pose proof (Forall_lookup_1 _ _ _ _ Hf Enm) as Hnm.
  destruct (lookup_lt_is_Some_2 nm 0) as [c ->]; [cbv beta in Hnm; lia|].
  cbn [mbind option_bind]. eauto.
Qed.

(** [getReusableKeycode] goes through the list from its end: it drops the
    entries whose key somebody else has changed, up to and with the first one
    that is intact, whose keycode it returns. *)
Lemma reusable_run fuel : ∀ s,
  kst_wf s → fuel = length (addedKeysyms s) →
  ∃ k l' dropped, getReusableKeycode fuel s = Some (k, s <| addedKeysyms := l' |>)
    ∧ ((k = 0%nat ∧ l' = [] ∧ dropped = addedKeysyms s)
       ∨ (∃ it, addedKeysyms s = l' ++ [it] ++ dropped ∧ it.2 = k ∧ in_range (desc s) k
            ∧ reusable (desc s) it = Some true))
    ∧ Forall (λ it, reusable (desc s) it = Some false) dropped.
Proof.
  induction fuel as [|fuel IH]; intros s Hs Hf; cbn [getReusableKeycode].
  { exists 0%nat, [], []. destruct (addedKeysyms s) eqn:E; [|done]. mrun.
    split; [by destruct s; simpl in *; subst|]. split; [by left|constructor]. }
  mrun. destruct (addedKeysyms s) as [|it l _] eqn:E using rev_ind; [done|].
  rewrite last_snoc. mrun. pose proof (sw_added _ Hs) as Hadd. rewrite E in Hadd.
  apply Forall_app in Hadd as [Hl Hit]. inv Hit as [|? ? Hr _].
  destruct (reusable_total s it Hs Hr) as [b Hb]. rewrite Hb. krun. rewrite E.
  rewrite length_app, Nat.add_sub, take_app_length.
  pose proof (dw_range _ (sw_desc _ Hs)) as Hdr.
  assert ((it.2 =? 0)%nat = false) as -> by (apply Nat.eqb_neq; destruct Hr; lia).
  destruct b; cbn [negb andb].
  - exists it.2, l, []. mrun. split; [done|]. split; [|constructor]. right. by exists it.
  - match goal with |- context [getReusableKeycode fuel ?x] => set (s1 := x) end.
    destruct (IH s1) as (k & l' & dropped & -> & H1 & H2).
    { destruct Hs as [? ? ? ? ? ?]. by split. }
    { simpl. rewrite length_app in Hf. simpl in Hf. lia. }
    exists k, l', (dropped ++ [it]). split; [done|]. split.
    + destruct H1 as [(-> & -> & ->)|(it' & H1 & H3)]; [by left|]. right. exists it'.
      split; [|done]. simpl in H1. by rewrite H1, <-!app_assoc.
    + apply Forall_app. split; [done|]. by constructor.
Qed.

Lemma add_keysym_run e keysym s :
  kst_wf s →
  ∃ k s', lorieAddKeysym e keysym s = Some (k, s') ∧ kst_wf s'
    ∧ (k ≠ 0%nat → generable (desc s') keysym k)
    ∧ (k = 0%nat → desc s' = desc s ∧ (∀ j, in_range (desc s) j → ¬ key_free (desc s) j)
         ∧ Forall (λ it, reusable (desc s) it = Some false) (addedKeysyms s)).
Proof.
  intros Hs. pose proof (sw_desc _ Hs) as Hd. pose proof (dw_range _ Hd) as Hr.
  unfold lorieAddKeysym. mrun.
  destruct (free_keycode_spec (desc s) (dw_keys _ Hd) (num_keys (desc s))
    (max_key_code (desc s))) as (k & -> & H1 & H2); [lia|unfold num_keys; lia|].
  unfold num_keys in *. destruct (Nat.eqb_spec k 0) as [->|Hk].
  - destruct (reusable_run _ s Hs eq_refl) as (k & l' & dropped & -> & H3 & H4).
    assert (kst_wf (s <| addedKeysyms := l' |>)) as Hs'.
    { eapply kst_wf_frame; [exact Hs|done| |done]. simpl.
      destruct H3 as [(_ & -> & _)|(it & -> & _)]; set_solver. }
    destruct (Nat.eqb_spec k 0) as [->|Hk].
    + mrun. eexists _, _. split; [done|]. split; [done|]. split; [done|]. intros _.
      split; [done|]. split; [intros j Hj; apply H2; [done|unfold in_range in Hj; lia]|].
      destruct H3 as [(_ & _ & <-)|(it & _ & _ & [? ?] & _)]; [done|lia].
    + destruct H3 as [(? & _)|(it & _ & _ & Hin & _)]; [done|].
      destruct (install_run e keysym k _ Hs' Hin) as (s' & -> & Hw & Hg).
      eexists _, _. split; [done|]. by split_and!.
  - mrun. rewrite (proj2 (Nat.eqb_neq k 0)) by done.
    destruct (install_run e keysym k s Hs) as (s' & -> & Hw & Hg).
    { destruct (H1 Hk) as [? _]. unfold in_range. lia. }
    eexists _, _. split; [done|]. by split_and!.
Qed.

(** ** The event handler always returns *)

(** A keycode the handler can press: in the keymap, with groups. *)
Definition pressable (d : xkb_desc) (k : nat) : Prop :=
  in_range d k ∧ ∃ sm, keys d !! k = Some sm ∧ XkbNumGroups (group_info sm) ≠ 0.

Lemma sends_pressable d ks st k :
  ks ≠ NoSymbol → in_range d k → sends d ks st k → pressable d k.
Proof.
  intros Hks Hr Hs. split; [done|]. unfold sends, key_sends, XkbTranslateKeyCode in Hs.
  destruct (keys d !! k) as [sm|]; [|done]. exists sm. split; [done|]. intros E.
  cbn [mbind option_bind] in Hs. rewrite E, orb_true_r in Hs. cbn in Hs. congruence.
Qed.

(** The search finds every keysym that is one flip of Shift away. *)
Lemma shift_found d kb keysym st k ns :
  desc_wf d → keysym ≠ NoSymbol → lorieKeysymToKeycode d kb keysym st = Some (k, ns) →
  (∃ j, generable d keysym j) → k ≠ 0%nat.
Proof.
  intros Hwf Hks Hrun (j & Hj & Hgen). unfold lorieKeysymToKeycode in Hrun.
  destruct (keysym_lookup_spec d keysym st Hwf Hks) as (k1 & E1 & _ & H1).
  rewrite E1 in Hrun. cbn [mbind option_bind] in Hrun.
  destruct (Nat.eqb_spec k1 0) as [Ek1|]; cbn [negb] in Hrun; [|by injection Hrun as <- _].
  destruct (keysym_lookup_spec d keysym (flip st ShiftMask) Hwf Hks) as (k2 & E2 & _ & H2).
  rewrite E2 in Hrun. cbn [mbind option_bind] in Hrun.
  destruct (Nat.eqb_spec k2 0) as [Ek2|]; cbn [negb] in Hrun; [|by injection Hrun as <- _].
  destruct (Hgen st) as [Hs|Hs]; [by destruct (H1 Ek1 j Hj)|by destruct (H2 Ek2 j Hj)].
Qed.

Lemma to_keycode_run s keysym st :
  kst_wf s → keysym ≠ NoSymbol →
  ∃ k ns, to_keycode keysym st s = Some ((k, ns), s)
    ∧ (k ≠ 0%nat → pressable (desc s) k ∧ sends (desc s) keysym ns k)
    ∧ ((∃ j, generable (desc s) keysym j) → k ≠ 0%nat).
Proof.
  intros Hs Hks. pose proof (sw_desc _ Hs) as Hd. unfold to_keycode, lorieGetKeyboardState. mrun.
  destruct (keysym_to_keycode_spec (desc s) (XkbBuildCoreState (lookup_mods (kb s))
    (kgroup (kb s))) keysym st Hd Hks) as (k & ns & l3 & E & _ & _ & H1 & _).
  rewrite E. exists k, ns. split; [done|]. split; [|by eapply shift_found].
  intros Hk. destruct (H1 Hk). split; [by eapply sends_pressable|done].
Qed.

(** The key sends the keysym, or one that the source lists as its alternative, in the state [ns]. *)
Definition types (d : xkb_desc) (keysym ns : Z) (k : nat) : Prop :=
  pressable d k ∧ ∃ sym, sym ∈ keysym :: alternatives keysym ∧ sends d sym ns k.

Lemma types_alternative d keysym ns k :
  pressable d k → (∃ a, a ∈ alternatives keysym ∧ sends d a ns k) → types d keysym ns k.
Proof. intros Hp (a & Ha & Hs). split; [done|]. exists a. split; [by right|done]. Qed.

Lemma alternatives_nonzero keysym : Forall (λ a, a ≠ NoSymbol) (alternatives keysym).
Proof.
  assert (Forall (λ p, p.1 ≠ 0 ∧ p.2 ≠ 0) altKeysym) as H by (by repeat constructor).
  unfold alternatives. induction H as [|p l [H1 H2] _ IH]; [constructor|]. cbn [omap list_omap].
  unfold alternative at 1. repeat case_goal; try constructor; done.
Qed.

Lemma first_alternative_run s st : kst_wf s → ∀ alts, Forall (λ a, a ≠ NoSymbol) alts →
  ∃ k ns, first_alternative alts st s = Some ((k, ns), s)
    ∧ (k ≠ 0%nat → pressable (desc s) k ∧ ∃ a, a ∈ alts ∧ sends (desc s) a ns k).
Proof.
  intros Hs. induction alts as [|a alts IH]; intros Hf; cbn [first_alternative].
  { by eexists _, _. }
  inv Hf as [|? ? Ha Hf']. mrun.
  destruct (to_keycode_run s a st Hs Ha) as (k & ns & -> & H1 & _).
  destruct (Nat.eqb_spec k 0).
  - destruct (IH Hf') as (k' & ns' & E & H). exists k', ns'. split; [exact E|].
    intros (Hp & b & Hb & Hsb)%H. split; [done|]. exists b. split; [by right|done].
  - mrun. eexists _, _. split; [done|]. intros [Hp Ha']%H1. split; [done|]. exists a. split; [left|done].
Qed.

Lemma resolve_run e keysym st s :
  kst_wf s → keysym ≠ NoSymbol →
  ∃ k ns s', resolve_keysym e keysym st s = Some ((k, ns), s') ∧ kst_wf s'
    ∧ (k ≠ 0%nat → types (desc s') keysym ns k)
    ∧ (k = 0%nat → (∀ j, in_range (desc s) j → ¬ key_free (desc s) j)
         ∧ Forall (λ it, reusable (desc s) it = Some false) (addedKeysyms s)).
Proof.
  intros Hs Hks. unfold resolve_keysym. mrun.
  destruct (to_keycode_run s keysym st Hs Hks) as (k & ns & -> & H1 & _).
  destruct (Nat.eqb_spec k 0) as [->|Hk]; cbn [negb].
  2:{ mrun. eexists _, _, _. split; [done|]. destruct (H1 Hk). split_and!; [done| |done].
      intros _. split; [done|]. exists keysym. split; [left|done]. }
  destruct (first_alternative_run s st Hs _ (alternatives_nonzero keysym)) as (k & ns' & -> & H2).
  destruct (Nat.eqb_spec k 0) as [->|Hk]; cbn [negb].
  2:{ mrun. eexists _, _, _. split; [done|]. destruct (H2 Hk). split_and!; [done| |done].
      intros _. by apply types_alternative. }
  destruct (add_keysym_run e keysym s Hs) as (k & s' & -> & Hs' & H3 & H4).
  destruct (Nat.eqb_spec k 0) as [->|Hk].
  { mrun. eexists _, _, _. split; [done|]. split_and!; [done..|intros _; by apply H4]. }
  destruct (to_keycode_run s' keysym st Hs' Hks) as (k' & ns'' & -> & H5 & H6).
  eexists _, _, _. split; [done|]. split_and!; [done| |intros ->; destruct H6; eauto].
  intros [Hp Hsd]%H5. split; [done|]. exists keysym. split; [left|done].
Qed.

Lemma numlock_run s k : kst_wf s → pressable (desc s) k →
  ∃ b, lorieIsAffectedByNumLock k s = Some (b, s).
Proof.
  intros Hs [Hr (sm & Hsm & Hg)]. pose proof (sw_desc _ Hs) as Hd.
  pose proof (in_range_lt _ _ Hd Hr) as Hlt.
  unfold lorieIsAffectedByNumLock, lorieGetKeyboardState. mrun.
  set (st := Z.land _ _).
  destruct (keysym_lookup_total (desc s) XK_Num_Lock st Hd) as (nk & -> & Hnk); [done|].
  destruct (nk =? 0)%nat; mrun; [eauto|].
  destruct (action_total (desc s) nk st Hd Hnk) as [[a|] ->]; mrun; [|eauto].
  destruct (negb _); mrun; [eauto|].
  destruct (action_mask_total (desc s) k a Hd Hlt) as [m ->].
  unfold XkbKeyEffectiveGroup. rewrite Hsm. cbn [mbind option_bind].
  unfold XkbKeycodeInRange. destruct Hr as [Hr1 Hr2].
  rewrite (proj2 (Nat.leb_le _ _) Hr1), (proj2 (Nat.leb_le _ _) Hr2), (proj2 (Z.eqb_neq _ _) Hg).
  cbn [negb orb andb].
  destruct (key_column_bound (desc s) sm st) as (col & t & i & E & _);
    [by eapply Forall_lookup_1; [apply (dw_key _ Hd)|]|done|].
  unfold key_column in E. destruct (key_type_of _ _ _); [eauto|done].
Qed.

Lemma if_numlock_run s st ns k : kst_wf s → pressable (desc s) k →
  ∃ b, fake_shift_on_numpad k st ns s = Some (b, s).
Proof. unfold fake_shift_on_numpad. intros Hs Hk. destruct (shift_differs st ns); [by apply numlock_run|by eexists]. Qed.

Lemma numpad_run s st : kst_wf s → ∀ alts, Forall (λ a, a ≠ NoSymbol) alts →
  ∃ r, numpad_alternative alts st s = Some (r, s)
    ∧ ∀ k ns, r = Some (k, ns) → pressable (desc s) k ∧ ∃ a, a ∈ alts ∧ sends (desc s) a ns k.
Proof.
  intros Hs. induction alts as [|a alts IH]; intros Hf; cbn [numpad_alternative].
  { by eexists. }
  inv Hf as [|? ? Ha Hf']. mrun.
  destruct (to_keycode_run s a st Hs Ha) as (k & ns & -> & H1 & _).
  assert (∃ r, numpad_alternative alts st s = Some (r, s)
    ∧ ∀ k ns, r = Some (k, ns) → pressable (desc s) k ∧ ∃ a', a' ∈ a :: alts ∧ sends (desc s) a' ns k) as IH'.
  { destruct (IH Hf') as (r & E & H). exists r. split; [done|]. intros k' ns' (Hp & b & Hb & Hsb)%H.
    split; [done|]. exists b. split; [by right|done]. }
  destruct (Nat.eqb_spec k 0); [done|]. destruct (H1 ltac:(done)) as [Hp Hsd].
  destruct (if_numlock_run s st ns k Hs Hp) as [b ->]. destruct b; [done|]. mrun.
  eexists. split; [done|]. intros ? ? [= <- <-]. split; [done|]. exists a. split; [left|done].
Qed.

Lemma avoid_run s keysym st k ns : kst_wf s → types (desc s) keysym ns k →
  ∃ k' ns', avoid_fake_shift keysym st k ns s = Some ((k', ns'), s) ∧ types (desc s) keysym ns' k'.
Proof.
  intros Hs Hp. unfold avoid_fake_shift. mrun.
  destruct (if_numlock_run s st ns k Hs (proj1 Hp)) as [b ->]. destruct b; cbn [negb]; mrun; [|eauto].
  destruct (numpad_run s st Hs _ (alternatives_nonzero keysym)) as (r & -> & H1).
  destruct r as [[k' ns']|]; [|eauto]. destruct (H1 k' ns' eq_refl). eauto using types_alternative.
Qed.

Lemma fake_run s st ns mask press release :
  (∃ k, press s = Some (k, s)) → (∃ ks, release s = Some (ks, s)) →
  ∃ r s', fake_modifier st ns mask press release s = Some (r, s').
Proof.
  intros [k Hp] [ks Hr]. unfold fake_modifier, QueueKeyboardEvents. mrun.
  destruct (negb _ && _).
  - rewrite Hp. destruct (k =? 0)%nat; eauto.
  - destruct (_ && negb _); [|eauto]. rewrite Hr. destruct ks; mrun; [eauto|].
    rewrite queue_all_run. eauto.
Qed.

(** A fake changes the queue only. *)
Lemma queued_wf s q : kst_wf s → kst_wf (s <| queue ::= q |>).
Proof. intros Hs. by eapply kst_wf_frame; [exact Hs|..]. Qed.

(** The state a run has come to is long; what follows does not depend on it. *)
Local Ltac generalize_state x :=
  match goal with |- context [queue_all _ ?s] => generalize s; intros x end.

Lemma press_key_total e keysym st k ns s :
  kst_wf s → ∃ s', press_key e keysym st k ns s = Some ((), s').
Proof.
  intros Hs. unfold press_key. mrun.
  assert (∃ l3, level_three_needed st ns s = Some (l3, s)) as [l3 ->].
  { unfold level_three_needed. destruct (negb _); [by apply level_three_mask_run|by eexists]. }
  destruct (press_shift_run s Hs) as (k1 & st1 & Hp1 & _).
  destruct (release_shift_run s 8 Hs) as (ks1 & st2 & Hr1 & _).
  destruct (fake_run s st ns ShiftMask loriePressShift (lorieReleaseShift 8))
    as (r & s1 & Ef); [by eexists..|]. rewrite Ef.
  apply fake_modifier_run in Ef; auto with reads. destruct r as [f1|]; [subst s1|by eexists].
  pose proof (queued_wf s (λ q, q ++ fake_events f1) Hs) as Hs1.
  destruct (fake_run _ st ns l3 loriePressLevelThree (lorieReleaseLevelThree 8)
    (press_three_run _ Hs1) (release_three_run _ 8 Hs1)) as (r & s2 & Ef2). rewrite Ef2.
  destruct r as [f2|]; [|by eexists]. unfold QueueKeyboardEvents. mrun.
  match goal with |- context [vncOnKeyUsed k ?x] =>
    destruct (vncOnKeyUsed_run k x) as (l & -> & _) end.
  unfold record_press. mrun. generalize_state x. rewrite queue_all_run. mrun.
  generalize_state y. rewrite queue_all_run. by eexists.
Qed.

Lemma press_key_wf e keysym st k ns s s' :
  kst_wf s → press_key e keysym st k ns s = Some ((), s') → kst_wf s'.
Proof.
  intros Hs [(_ & f & ->)|(f1 & f2 & l & _ & _ & _ & Hrec & Hd & Hl & Hp)]%press_key_run.
  - by apply queued_wf.
  - eapply kst_wf_frame; [exact Hs|done|by rewrite Hl, Hp|].
    unfold record_press in Hrec. krun in Hrec. injection Hrec as <-.
    by rewrite length_insert, length_imap.
Qed.

Lemma keyboard_event_run e keysym down s :
  kst_wf s → keysym ≠ NoSymbol →
  ∃ s', lorieKeysymKeyboardEvent e keysym down s = Some ((), s') ∧ kst_wf s'.
Proof.
  intros Hs Hks. unfold lorieKeysymKeyboardEvent. destruct down; cbn [negb].
  - unfold key_press, mieqProcessInputEvents at 1, lorieGetKeyboardState. krun.
    match goal with |- context [resolve_keysym e keysym ?st ?x] =>
      destruct (resolve_run e keysym st x) as (k & ns & s1 & -> & Hs1 & Hp & _);
        [by eapply kst_wf_frame; [exact Hs|..]|done|] end.
    destruct (Nat.eqb_spec k 0); [by eexists|]. mrun.
    match goal with |- context [avoid_fake_shift keysym ?st k ns s1] =>
      destruct (avoid_run s1 keysym st k ns Hs1 (Hp ltac:(done))) as (k' & ns' & -> & _) end.
    match goal with |- context [press_key e keysym ?st k' ?ns s1] =>
      destruct (press_key_total e keysym st k' ns s1 Hs1) as [s2 E] end.
    rewrite E. exists s2. split; [done|]. by eapply press_key_wf.
  - unfold key_release, QueueKeyboardEvents, mieqProcessInputEvents. mrun.
    destruct (index_of _ _); [|by eexists]. mrun. eexists. split; [done|].
    eapply kst_wf_frame; [exact Hs|done|done|]. simpl. apply length_insert.
Qed.

Lemma lor_shift st : truthy (Z.land st ShiftMask) = true → Z.lor st ShiftMask = st.
Proof.
  unfold truthy, ShiftMask. intros H. apply Z.bits_inj'. intros i Hi. rewrite Z.lor_spec.
  destruct (decide (i = 0)) as [->|Hne].
  - destruct (Z.testbit st 0) eqn:E; [done|]. exfalso.
    assert (Z.land st 1 = 0) as E'; [|by rewrite E' in H].
    apply Z.bits_inj'. intros j Hj. rewrite Z.land_spec, Z.bits_0. destruct (decide (j = 0)) as [->|]; [by rewrite E|].
    rewrite (Z.bits_above_log2 1 j), andb_false_r by (simpl; lia). done.
  - rewrite (Z.bits_above_log2 1 i), orb_false_r by (simpl; lia). done.
Qed.

(** No keycode is free for another keysym, and none of the added ones can be used again. *)
Definition no_key_left (s : kst) : Prop :=
  (∀ j, in_range (desc s) j → ¬ key_free (desc s) j)
  ∧ Forall (λ it, reusable (desc s) it = Some false) (addedKeysyms s).

(** The modifiers and the group the handler finds: the waiting events are processed before. *)
Definition state_found (e : kenv) (s : kst) : Z :=
  let b := process e (desc s) (kb s) (queue s) in XkbBuildCoreState (lookup_mods b) (kgroup b).

(** The state a key is pressed in: Tab keeps Shift. *)
Definition with_tab (keysym st ns : Z) : Z :=
  if (keysym =? XK_Tab) && truthy (Z.land st ShiftMask) then Z.lor ns ShiftMask else ns.

(** What a press comes to: a press of a key that types the keysym, or, where no key is left or a modifier
    that has to change cannot be faked, none. *)
Lemma key_press_types e keysym s s' :
  kst_wf s → keysym ≠ NoSymbol → key_press e keysym s = Some ((), s') →
  (delivered s' = delivered s ++ queue s ∧ pressedKeys s' = pressedKeys s
   ∧ (no_key_left s ∨ ∃ k ns, types (desc s') keysym ns k
        ∧ cannot_fake s' (state_found e s) (with_tab keysym (state_found e s) ns)))
  ∨ (∃ k ns pre post, types (desc s') keysym ns k
     ∧ delivered s' = delivered s ++ queue s ++ pre ++ [KeyPress k] ++ post ∧ queue s' = []
     ∧ (∀ j, net j (pre ++ post) = 0) ∧ (ns = state_found e s → pre = [] ∧ post = [])
     ∧ pressedKeys s' = <[k := keysym]> (imap (λ i x,
         if negb (i =? k)%nat && (x =? keysym) then NoSymbol else x) (pressedKeys s))).
Proof.
  intros Hs Hks. unfold key_press, mieqProcessInputEvents at 1, lorieGetKeyboardState. krun.
  set (s0 := mk_kst _ _ _ _ _ _ _ _ _). change (XkbBuildCoreState _ _) with (state_found e s).
  set (st := state_found e s).
  destruct (resolve_run e keysym st s0) as (k & ns & s1 & E1 & Hs1 & Hp & Hn);
    [by eapply kst_wf_frame; [exact Hs|..]|done|]. rewrite E1.
  eapply (quiet_resolve [] (delivered s ++ queue s) (pressedKeys s)) in E1 as (Q1 & Q2 & Q3); [|done].
  destruct (Nat.eqb_spec k 0) as [->|Hk]; krun.
  { intros [= <-]. left. split_and!; [done..|]. left. by apply Hn. }
  destruct (avoid_run s1 keysym st k ns Hs1 (Hp Hk)) as (k' & ns' & -> & Ht). krun.
  change (if _ && truthy (Z.land st ShiftMask) then _ else _) with (with_tab keysym st ns').
  assert (ns' = st → with_tab keysym st ns' = st) as Htab.
  { intros ->. unfold with_tab. destruct (truthy (Z.land st ShiftMask)) eqn:Es; [|by rewrite andb_false_r].
    destruct (keysym =? XK_Tab); [|done]. cbn [andb]. by apply lor_shift. }
  intros [(Hd & f & ->)|(f1 & f2 & l & H1 & H2 & H3 & H4 & H5 & _)]%press_key_run.
  - left. split; [exact Q2|]. split; [exact Q3|]. right. exists k', ns'. split; [exact Ht|exact Hd].
  - right. exists k', ns', (fake_events f1 ++ fake_events f2), (undo_events f2 ++ undo_events f1).
    rewrite H5. split_and!; [done| |done|intros j; apply net_around| |].
    + rewrite H1, Q1, Q2. unfold press_events. by rewrite <-!app_assoc.
    + intros [-> ->]%Htab%H2. done.
    + unfold record_press in H4. krun in H4. rewrite <-Q3. by injection H4.
Qed.

(** A press and the release after it. *)
Lemma press_release_types e keysym s s1 :
  kst_wf s → keysym ≠ NoSymbol → lorieKeysymKeyboardEvent e keysym true s = Some ((), s1) →
  (delivered s1 = delivered s ++ queue s ∧ pressedKeys s1 = pressedKeys s
   ∧ (no_key_left s ∨ ∃ k ns, types (desc s1) keysym ns k
        ∧ cannot_fake s1 (state_found e s) (with_tab keysym (state_found e s) ns)))
  ∨ (∃ k ns pre post s2, types (desc s1) keysym ns k
     ∧ lorieKeysymKeyboardEvent e keysym false s1 = Some ((), s2)
     ∧ delivered s2 = delivered s ++ queue s ++ pre ++ [KeyPress k] ++ post ++ [KeyRelease k] ∧ queue s2 = []
     ∧ (∀ j, net j (pre ++ post) = 0) ∧ (ns = state_found e s → pre = [] ∧ post = [])).
Proof.
  intros Hs Hks E. destruct (keyboard_event_run e keysym true s Hs Hks) as (s1' & E' & Hs1).
  rewrite E in E'. injection E' as <-. apply key_press_types in E; [|done..].
  destruct E as [H|(k & ns & pre & post & Ht & H1 & H2 & H3 & H4 & H5)]; [by left|]. right.
  assert (k < length (pressedKeys s))%nat as Hk.
  { rewrite (sw_pressed _ Hs). by eapply in_range_lt; [apply (sw_desc _ Hs1)|apply Ht]. }
  pose proof (record_recorded k keysym (pressedKeys s) Hks Hk) as Hr. rewrite <-H5 in Hr.
  eexists k, ns, pre, post, _. split; [done|]. split.
  { unfold lorieKeysymKeyboardEvent, key_release, QueueKeyboardEvents, mieqProcessInputEvents. cbn [negb]. krun.
    rewrite (recorded_index _ _ _ Hr). krun. done. }
  simpl. rewrite H1, H2, <-!app_assoc. by split_and!.
Qed.

(** C5: The handler is total and keeps the state well formed: for every
    well-formed keymap and keyboard state and every keysym, pressed or
    released, [lorieKeysymKeyboardEvent] reads no table out of bounds, returns,
    and leaves a well-formed state, also when it had to add the keysym to the
    keymap. *)
Theorem keyboard_event_total e keysym down s :
  kst_wf s → keysym ≠ NoSymbol →
  ∃ s', lorieKeysymKeyboardEvent e keysym down s = Some ((), s') ∧ kst_wf s'.
Proof. apply keyboard_event_run. Qed.

(** C12: A keysym no key sends becomes typable: [lorieAddKeysym] returns a key
    of the keymap that afterwards sends exactly that keysym in every modifier
    state, with Shift as it is or flipped, so that the search finds it and the
    handler's error path "newly added keysym cannot be generated" is not taken;
    it gives up only when no keycode is free and no added one is left to reuse,
    and then leaves the keymap alone. *)
Theorem add_keysym_generable e keysym s :
  kst_wf s → keysym ≠ NoSymbol →
  ∃ k s', lorieAddKeysym e keysym s = Some (k, s') ∧ kst_wf s'
    ∧ (k ≠ 0%nat → generable (desc s') keysym k
         ∧ ∀ st, ∃ k' ns, to_keycode keysym st s' = Some ((k', ns), s') ∧ k' ≠ 0%nat
             ∧ sends (desc s') keysym ns k')
    ∧ (k = 0%nat → desc s' = desc s ∧ (∀ j, in_range (desc s) j → ¬ key_free (desc s) j)
         ∧ Forall (λ it, reusable (desc s) it = Some false) (addedKeysyms s)).
Proof.
  intros Hs Hks. destruct (add_keysym_run e keysym s Hs) as (k & s' & E & Hs' & H1 & H2).
  exists k, s'. split_and!; [done..| |done]. intros Hk. split; [auto|]. intros st.
  destruct (to_keycode_run s' keysym st Hs' Hks) as (k' & ns & Ek & H3 & H4).
  exists k', ns. split; [done|]. assert (k' ≠ 0%nat) as Hk' by (apply H4; eauto).
  split; [done|]. by apply H3.
Qed.

(** ** Least recently used *)

Lemma delete_filter (l : list (Z * nat)) : NoDup (snd <$> l) → ∀ i it,
  l !! i = Some it → delete i l = filter (λ x, x.2 ≠ it.2) l.
Proof.
  induction l as [|x l IH]; intros Hnd i it Hi; [done|].
  rewrite fmap_cons in Hnd. apply NoDup_cons in Hnd as [Hx Hnd]. destruct i as [|i]; simpl in Hi.
  - injection Hi as ->. rewrite filter_cons_False by tauto. simpl. symmetry.
    apply filter_all, Forall_forall. intros y Hy E. apply Hx. rewrite <-E.
    by apply list_elem_of_fmap_2.
  - rewrite filter_cons_True.
    + simpl. f_equal. by apply IH.
    + intros E. apply Hx. rewrite E. apply list_elem_of_fmap_2. by eapply list_elem_of_lookup_2.
Qed.

(** Using an added key puts its entry first and keeps the order of the rest. *)
Lemma key_used_front k it s :
  NoDup (snd <$> addedKeysyms s) → it ∈ addedKeysyms s → it.2 = k →
  vncOnKeyUsed k s
  = Some ((), s <| addedKeysyms := it :: filter (λ x, x.2 ≠ k) (addedKeysyms s) |>).
Proof.
  intros Hnd Hin Hk. unfold vncOnKeyUsed. mrun.
  destruct (addedKeysyms s) as [|x l] eqn:El; [by apply not_elem_of_nil in Hin|].
  apply list_elem_of_lookup_1 in Hin as [i Hi]. pose proof (delete_filter _ Hnd i it Hi) as Hdel.
  assert (∀ j y, (x :: l) !! j = Some y → y.2 = k → j = i ∧ y = it) as Huniq.
  { intros j y Hj Hy. assert (j = i) as ->.
    { eapply (NoDup_lookup (snd <$> x :: l)); [done|rewrite list_lookup_fmap, Hj; done|].
      rewrite list_lookup_fmap, Hi. simpl. by rewrite Hk, Hy. }
    split; [done|congruence]. }
  rewrite Hk in Hdel. destruct (Nat.eqb_spec x.2 k) as [Hx|Hx].
  - destruct (Huniq 0%nat x eq_refl Hx) as [<- <-]. rewrite <-Hdel. simpl. mrun.
    by destruct s; simpl in *; subst.
  - destruct (index_of _ (x :: l)) as [j|] eqn:Ej.
    + destruct (index_of_Some _ _ _ Ej) as (y & Hy & Ey). apply Nat.eqb_eq in Ey.
      destruct (Huniq j y Hy Ey) as [-> ->]. rewrite Hy. mrun. by rewrite El, Hdel.
    + apply index_of_None in Ej. rewrite Forall_lookup in Ej. specialize (Ej i it Hi).
      cbv beta in Ej. by rewrite Hk, Nat.eqb_refl in Ej.
Qed.

(** Added keycodes are reused in LRU order: after the key of an added keysym
    was pressed, the keycode taken for a new keysym is that of the entry unused
    for longest (if its key is intact), never that of the key just used; only
    that entry leaves the list and the rest keep their order. *)
Theorem reuse_least_recent s it rest oldest :
  kst_wf s → NoDup (snd <$> addedKeysyms s) → it ∈ addedKeysyms s →
  filter (λ x, x.2 ≠ it.2) (addedKeysyms s) = rest ++ [oldest] →
  reusable (desc s) oldest = Some true →
  ∃ s1 s2, vncOnKeyUsed it.2 s = Some ((), s1)
    ∧ getReusableKeycode (length (addedKeysyms s1)) s1 = Some (oldest.2, s2)
    ∧ oldest.2 ≠ it.2 ∧ addedKeysyms s2 = it :: rest ∧ desc s2 = desc s.
Proof.
  intros Hs Hnd Hin Hf Hok. rewrite (key_used_front it.2 it s Hnd Hin eq_refl).
  assert (oldest ∈ filter (λ x, x.2 ≠ it.2) (addedKeysyms s)) as [Hne _]%list_elem_of_filter.
  { rewrite Hf. set_solver. }
  set (s1 := s <| addedKeysyms := it :: filter (λ x, x.2 ≠ it.2) (addedKeysyms s) |>).
  destruct (reusable_run (length (addedKeysyms s1)) s1) as (k & l' & dropped & E & H1 & H2);
    [|done|].
  { eapply kst_wf_frame; [exact Hs|done| |done]. simpl. intros x. rewrite elem_of_cons.
    intros [->|[_ ?]%list_elem_of_filter]; done. }
  exists s1, (s1 <| addedKeysyms := l' |>). split; [done|]. rewrite E.
  assert (addedKeysyms s1 = (it :: rest) ++ [oldest]) as Ha by (simpl; by rewrite Hf).
  destruct dropped as [|x dr _] using rev_ind.
  - destruct H1 as [(_ & _ & E0)|(y & E1 & <- & _)]; [by rewrite Ha in E0|].
    rewrite app_nil_r, Ha in E1. apply app_inj_tail in E1 as [<- <-]. by split_and!.
  - exfalso. apply Forall_app in H2 as [_ Hx]. inv Hx as [|? ? Hx' _].
    assert (oldest = x) as ->; [|simpl in Hx'; congruence].
    destruct H1 as [(_ & _ & E0)|(y & E1 & _)].
    + rewrite Ha in E0. by apply app_inj_tail in E0 as [_ ->].
    + rewrite Ha, !app_assoc in E1. by apply app_inj_tail in E1 as [_ ->].
Qed.

(** The keys faked for Shift are right: the key [loriePressShift] returns
    is in the keymap and its action sets Shift, and it returns none only when
    Shift is on or no key sets it; [lorieReleaseShift] returns, in order,
    exactly the keys that are down and set Shift, or none if there are more
    than fit. *)
Theorem shift_keys_correct s maxKeys :
  kst_wf s →
  ∃ st k ks, lorieGetKeyboardState s = Some (st, s)
    ∧ loriePressShift s = Some (k, s)
    ∧ (k ≠ 0%nat → in_range (desc s) k ∧ sets (desc s) st ShiftMask k = ShiftMask)
    ∧ (k = 0%nat → Z.land st ShiftMask = 0 →
         ∀ j, in_range (desc s) j → sets (desc s) st ShiftMask j ≠ ShiftMask)
    ∧ lorieReleaseShift maxKeys s = Some (ks, s)
    ∧ (ks ≠ [] → (length ks ≤ maxKeys)%nat
         ∧ ∀ j, j ∈ ks ↔ in_range (desc s) j ∧ j ∈ down (kb s)
             ∧ sets (desc s) st ShiftMask j ≠ 0).
Proof.
  intros Hs. destruct (press_shift_run s Hs) as (k & st & E1 & E2 & H1 & H2).
  destruct (release_shift_run s maxKeys Hs) as (ks & st' & E3 & E4 & H3).
  rewrite E2 in E4. injection E4 as <-. exists st, k, ks. split_and!; [done..|].
  intros Hks. destruct (H3 Hks) as [E Hl]. split; [done|]. intros j. rewrite E.
  unfold held_keys. rewrite list_elem_of_filter, <-in_range_seq. unfold holds, is_down, truthy.
  rewrite andb_True, bool_decide_spec, negb_True, Is_true_true, Z.eqb_eq. tauto.
Qed.

(** ** Lock keys *)

(** The derived part of the state is up to date. *)
Definition derived (s : kst) : Prop :=
  XkbComputeDerivedState (desc s) (kb s) = Some (kb s).

Definition locked_bit (i : Z) (s : kst) : bool := Z.testbit (locked_mods (kb s)) i.

Lemma u8_bit v i : 0 ≤ i < 8 → Z.testbit (u8 v) i = Z.testbit v i.
Proof. intros H. unfold u8, wrapU. apply Z.mod_pow2_bits_low. lia. Qed.

(** What a lock change keeps. *)
Definition lock_frame (s s' : kst) : Prop :=
  desc s' = desc s ∧ queue s' = queue s ∧ delivered s' = delivered s
  ∧ pressedKeys s' = pressedKeys s ∧ kgroup (kb s') = kgroup (kb s)
  ∧ base_mods (kb s') = base_mods (kb s) ∧ latched_mods (kb s') = latched_mods (kb s).

Lemma bit_set_mask v m (on : bool) i :
  0 ≤ i →
  Z.testbit (if on then Z.lor v m else Z.land v (Z.lnot m)) i
  = if Z.testbit m i then on else Z.testbit v i.
Proof.
  intros Hi. destruct on; [rewrite Z.lor_spec|rewrite Z.land_spec, Z.lnot_spec by done];
    by destruct (Z.testbit v i), (Z.testbit m i).
Qed.

Lemma set_locked_run e m on s c :
  ctrl_wf (desc s) → ctrls (desc s) = Some c → 0 ≤ locked_group (kb s) → derived s →
  ∃ s', lorieSetLockedMods e m on s = Some ((), s') ∧ lock_frame s s'
    ∧ explicitState s' = explicitState s ∧ 0 ≤ locked_group (kb s') ∧ derived s'
    ∧ (∀ i, 0 ≤ i < 8 → locked_bit i s' = if Z.testbit m i then on else locked_bit i s).
Proof.
  intros Hwf Hc Hlg Hder. unfold lorieSetLockedMods, locked_bit.
  destruct (Z.eqb_spec m 0) as [->|Hm].
  { mrun. exists s. split; [done|]. split; [by split_and!|]. split_and!; try done.
    intros i Hi. by rewrite Z.bits_0. }
  mrun. set (l := u8 _).
  destruct (derived_state_ok (desc s) (kb s <| locked_mods := l |>) c Hwf Hc)
    as (b & Eb & (C1 & C2 & C3 & _) & H1 & _ & _ & H5 & _); [exact Hlg|].
  simpl in Eb. rewrite Eb. krun.
  destruct (derived_group _ _ l _ _ Hwf Hlg Hder Eb) as (G1 & _).
  assert (XkbComputeDerivedState (desc s) b = Some b) as Hidem.
  { eapply derived_idem; [done| |exact Eb]. done. }
  assert (∀ i, 0 ≤ i < 8 → Z.testbit (locked_mods b) i
    = if Z.testbit m i then on else Z.testbit (locked_mods (kb s)) i) as Hbit.
  { intros i Hi. rewrite C3. simpl. unfold l. rewrite u8_bit, bit_set_mask by lia. done. }
  simpl in *. destruct (_ =? 0); krun; eexists; (split; [done|]); simpl;
    (split; [by split_and!|]); by split_and!.
Qed.

(** The mask of a lock key depends on the keymap and the group only. *)
Lemma core_state_high m g :
  Z.land (XkbBuildCoreState m g) (Z.lnot 0xff)
  = Z.land (Z.shiftl (Z.land g 3) 13) (Z.lnot 0xff).
Proof.
  unfold XkbBuildCoreState. rewrite Z.land_lor_distr_l, <-(Z.land_assoc m).
  change (Z.land 0xff (Z.lnot 0xff)) with 0. by rewrite Z.land_0_r, Z.lor_0_r.
Qed.

Lemma lock_mask_frame sym s s' m :
  desc s' = desc s → kgroup (kb s') = kgroup (kb s) →
  lorieGetLockKeyModMask sym s = Some (m, s) → lorieGetLockKeyModMask sym s' = Some (m, s').
Proof.
  intros Hd Hg. unfold lorieGetLockKeyModMask, lorieGetKeyboardState. mrun.
  rewrite !core_state_high, Hd, Hg. set (st := Z.land _ _).
  destruct (keysym_lookup (desc s) sym st) as [k|]; [|done].
  destruct (k =? 0)%nat; [by intros [= <-]|]. mrun.
  destruct (XkbKeyActionPtr (desc s) k st) as [[a|]|]; [|by intros [= <-]|done].
  destruct (negb _); [by intros [= <-]|].
  destruct (action_mask (desc s) k a); [by intros [= <-]|done].
Qed.

(** Synchronising the lock keys sets exactly the locked modifiers and does
    nothing else a client could see as typing: with the masks the keymap gives
    for Caps Lock and Num Lock, each locked modifier of a mask becomes the
    Android state of its key and the others stay, the effective modifiers
    follow, and no key event is queued or delivered. *)
Theorem sync_lock_keys e state s c mc mn :
  kst_wf s → ctrls (desc s) = Some c → 0 ≤ locked_group (kb s) → derived s →
  lorieGetLockKeyModMask XK_Caps_Lock s = Some (mc, s) →
  lorieGetLockKeyModMask XK_Num_Lock s = Some (mn, s) →
  ∃ s', lorieSyncLockKeysState e state s = Some ((), s') ∧ lock_frame s s'
    ∧ (∀ i, 0 ≤ i < 8 → locked_bit i s'
         = if Z.testbit mn i then Z.testbit state 1
           else if Z.testbit mc i then Z.testbit state 0 else locked_bit i s)
    ∧ mods (kb s') = Z.lor (Z.lor (base_mods (kb s)) (latched_mods (kb s)))
                       (locked_mods (kb s'))
    ∧ lookup_mods (kb s') = Z.land (mods (kb s')) (Z.lnot (internal_mask c)).
Proof.
  intros Hs Hc Hlg Hder Emc Emn. pose proof (sw_ctrl _ Hs) as Hwf.
  unfold lorieSyncLockKeysState. mrun. rewrite Emc.
  destruct (set_locked_run e mc (Z.testbit state 0) s c Hwf Hc Hlg Hder)
    as (s1 & -> & F1 & X1 & L1 & D1 & B1).
  assert (lorieGetLockKeyModMask XK_Num_Lock s1 = Some (mn, s1)) as ->.
  { apply (lock_mask_frame _ s); [apply F1|apply F1|done]. }
  destruct F1 as (Hd & Fq & Fd & Fp & Fg & Fb & Fl).
  destruct (set_locked_run e mn (Z.testbit state 1) s1 c)
    as (s2 & -> & (Hd' & Fq' & Fd' & Fp' & Fg' & Fb' & Fl') & X2 & L2 & D2 & B2);
    [by rewrite Hd..|done|done|].
  assert (∃ s3, lorieSetScrollLockIndicator e (Z.testbit state 2) s2 = Some ((), s3)
    ∧ kb s3 = kb s2 ∧ desc s3 = desc s2 ∧ queue s3 = queue s2 ∧ delivered s3 = delivered s2
    ∧ pressedKeys s3 = pressedKeys s2) as (s3 & -> & K1 & K2 & K3 & K4 & K5).
  { unfold lorieSetScrollLockIndicator. mrun. destruct (names (desc s2)); [|by exists s2].
    destruct (index_of _ _); [|by exists s2]. by eexists. }
  exists s3. unfold lock_frame, locked_bit in *. rewrite K1, K2, K3, K4, K5. split; [done|].
  split; [split_and!; congruence|]. split.
  { intros i Hi. rewrite B2, B1 by done. done. }
  unfold derived in D2. rewrite Hd', Hd in D2.
  destruct (derived_state_ok (desc s) (kb s2) c Hwf Hc L2) as (b & Eb & _ & H1 & H2 & _).
  rewrite D2 in Eb. injection Eb as <-. split; [|done]. by rewrite H1, Fb', Fl', Fb, Fl.
Qed.

(** ** Examples *)

Lemma demo_has_alphabetic : has_alphabetic demo_desc.
Proof. eexists. split; [reflexivity|]. by split_and!. Qed.

Lemma demo_ctrl_wf : ctrl_wf demo_desc.
Proof. split; [intros c [= <-]; simpl; lia|by intros cg [= <-]]. Qed.

Lemma demo_kst_wf : kst_wf demo_kst.
Proof.
  split; [apply demo_desc_wf|apply demo_ctrl_wf|apply demo_has_alphabetic|done| |constructor].
  intros ns [= <-]. split; [done|]. apply (bool_decide_unpack _). vm_compute. done.
Qed.

(** The euro sign is on no key of the demo keymap. *)
Lemma keyboard_event_total_witness :
  ∃ s', lorieKeysymKeyboardEvent demo_kenv 0x20ac true demo_kst = Some ((), s') ∧ kst_wf s'.
Proof. by apply (keyboard_event_total demo_kenv 0x20ac true demo_kst demo_kst_wf). Defined.

Lemma add_keysym_generable_witness :
  ∃ s', lorieAddKeysym demo_kenv 0x20ac demo_kst = Some (255%nat, s') ∧ kst_wf s'
    ∧ generable (desc s') 0x20ac 255.
Proof.
  destruct (add_keysym_generable demo_kenv 0x20ac demo_kst demo_kst_wf)
    as (k & s' & E & Hs & H & _); [done|].
  assert (fst <$> lorieAddKeysym demo_kenv 0x20ac demo_kst = Some 255%nat) as Ek by (vm_compute; reflexivity).
  rewrite E in Ek. injection Ek as ->. exists s'. split_and!; [done..|]. by apply H.
Defined.

(** Two added keysyms, on the keycodes 255 and 254. *)
Definition demo_one : kst := key_state (lorieAddKeysym demo_kenv 0x20ac demo_kst).
Definition demo_two : kst := key_state (lorieAddKeysym demo_kenv 0x20a9 demo_one).

Lemma demo_two_wf : kst_wf demo_two.
Proof.
  assert (∀ ks s, kst_wf s → kst_wf (key_state (lorieAddKeysym demo_kenv ks s))) as H.
  { intros ks s Hs. destruct (add_keysym_run demo_kenv ks s Hs) as (k & s' & -> & ? & _). done. }
  apply H, H, demo_kst_wf.
Qed.

Lemma reuse_least_recent_witness :
  ∃ s1 s2, vncOnKeyUsed 255 demo_two = Some ((), s1)
    ∧ getReusableKeycode (length (addedKeysyms s1)) s1 = Some (254%nat, s2)
    ∧ addedKeysyms s2 = [(0x20ac, 255%nat)].
Proof.
  destruct (reuse_least_recent demo_two (0x20ac, 255%nat) [] (0x20a9, 254%nat) demo_two_wf)
    as (s1 & s2 & H1 & H2 & _ & H3 & _).
  - apply (bool_decide_unpack _). vm_compute. done.
  - apply (bool_decide_unpack _). vm_compute. done.
  - vm_compute. reflexivity.
  - vm_compute. reflexivity.
  - exists s1, s2. by split_and!.
Defined.

Lemma shift_keys_correct_witness :
  ∃ st k, lorieGetKeyboardState demo_kst = Some (st, demo_kst)
    ∧ loriePressShift demo_kst = Some (k, demo_kst)
    ∧ (k ≠ 0%nat → sets demo_desc st ShiftMask k = ShiftMask).
Proof.
  destruct (shift_keys_correct demo_kst 8 demo_kst_wf) as (st & k & ks & H1 & H2 & H3 & _).
  exists st, k. split_and!; [done..|]. intros Hk. by apply H3.
Defined.

(** Num Lock on, Caps Lock not in the keymap. *)
Lemma sync_lock_keys_witness :
  ∃ s', lorieSyncLockKeysState demo_kenv 2 demo_kst = Some ((), s')
    ∧ delivered s' = [] ∧ locked_bit 4 s' = true.
Proof.
  destruct (sync_lock_keys demo_kenv 2 demo_kst (mk_xkb_controls 1 0 0 0 0) 0 16 demo_kst_wf)
    as (s' & H1 & (_ & _ & H2 & _) & H3 & _).
  - done.
  - done.
  - vm_compute. reflexivity.
  - vm_compute. reflexivity.
  - vm_compute. reflexivity.
  - exists s'. split_and!; [done|done|]. by rewrite H3.
Defined.
