(* ===== verification/Fence.v ===== *)
(** * Shared-memory fences ([lorie/xshmfence.c], [libxshmfence])

    A fence is a flag in memory shared by the X server and a client: one side
    triggers it, the other one waits.  [lorie/xshmfence.c] chooses between two
    implementations, on a futex and on a mutex with a condition variable, by
    the size of the shared memory.

    Threads of all processes interleave, so each implementation is a machine
    whose step is one atomic operation of one thread: a compare-and-swap, a
    store, a system call, or a critical section's entry, body and exit.  A step
    emits the event that becomes visible with it.  The class [Fence] is what an
    implementation promises: it refines a plain flag, and a waiter cannot sleep
    through a trigger.  Both implementations and the dispatcher over them are
    instances. *)

From stdpp Require Import gmap.
From S2P Require Import Prelude.

(** ** Interface *)

Inductive fence_op := OpTrigger | OpAwait | OpQuery | OpReset.

(** What a scheduler can do: let a thread call an operation, let it take its
    next step, wake a sleeping thread for no reason, interrupt its system call
    by a signal. *)
Inductive fence_act := Call (i : nat) (op : fence_op) | Run (i : nat) | Spurious (i : nat)
  | Interrupt (i : nat).

Inductive fence_ev :=
  | Triggered (i : nat)             (** the fence is set *)
  | Awaited (i : nat)               (** [xshmfence_await] returns 0 *)
  | AwaitFailed (i : nat)           (** [xshmfence_await] returns -1 *)
  | Queried (i : nat) (v : bool)
  | WasReset (i : nat).

(** The abstract fence: a flag. *)
Inductive abs_step : bool → fence_ev → bool → Prop :=
  | abs_trigger b i : abs_step b (Triggered i) true
  | abs_await i : abs_step true (Awaited i) true
  | abs_fail b i : abs_step b (AwaitFailed i) b
  | abs_query b i : abs_step b (Queried i b) b
  | abs_reset b i : abs_step b (WasReset i) false.

Inductive abs_trace : bool → list fence_ev → bool → Prop :=
  | abs_nil b : abs_trace b [] b
  | abs_cons b e b' es b'' : abs_step b e b' → abs_trace b' es b'' → abs_trace b (e :: es) b''.

Lemma abs_trace_app b es b' es' b'' :
  abs_trace b es b' → abs_trace b' es' b'' → abs_trace b (es ++ es') b''.
Proof. induction 1; [done|]. intros. econstructor; eauto. Qed.

Lemma abs_trace_one b e b' : abs_step b e b' → abs_trace b [e] b'.
Proof. intros. econstructor; [done|constructor]. Qed.
Create HintDb fence.
#[export] Hint Constructors abs_step abs_trace : fence.
#[export] Hint Resolve abs_trace_one : fence.

Class Fence (S : Type) := {
  fence_step : S → fence_act → option (S * list fence_ev);
  fence_set : S → bool;             (** the flag the fence stands for *)
  fence_waits : S → nat → bool;     (** the thread is inside [xshmfence_await] *)
  fence_resets : S → bool;          (** a thread is inside [xshmfence_reset] *)
  fence_wf : S → Prop
}.

(** Run a schedule, collecting the events. *)
Fixpoint fence_run {S} `{Fence S} (s : S) (acts : list fence_act) : option (S * list fence_ev) :=
  match acts with
  | [] => Some (s, [])
  | a :: acts' =>
    '(s1, es1) ← fence_step s a;
    '(s2, es2) ← fence_run s1 acts';
    Some (s2, es1 ++ es2)
  end.

(** What an implementation promises. *)
Class FenceLaws (S : Type) `{Fence S} := {
  fence_step_wf s a s' es : fence_wf s → fence_step s a = Some (s', es) → fence_wf s';
  fence_step_sim s a s' es :
    fence_wf s → fence_step s a = Some (s', es) → abs_trace (fence_set s) es (fence_set s');
  (** A waiter of a fence that is set, and that nobody is resetting, can be run
      to completion in a bounded number of steps, none of which needs a new
      call: no wakeup is lost. *)
  fence_progress s i :
    fence_wf s → fence_set s = true → fence_resets s = false → fence_waits s i = true →
    ∃ acts s' es, fence_run s acts = Some (s', es) ∧ (length acts ≤ 5)%nat ∧ Awaited i ∈ es
      ∧ Forall (λ a, ∃ j, a = Run j) acts
}.

Lemma fence_run_app {S} `{Fence S} acts1 : ∀ (s : S) acts2 s1 s2 es1 es2,
  fence_run s acts1 = Some (s1, es1) → fence_run s1 acts2 = Some (s2, es2) →
  fence_run s (acts1 ++ acts2) = Some (s2, es1 ++ es2).
Proof.
  induction acts1 as [|a acts1 IH]; intros s acts2 s1 s2 es1 es2; simpl.
  - by intros [= <- <-].
  - destruct (fence_step s a) as [[s' e']|]; [|done]. cbn [mbind option_bind].
    destruct (fence_run s' acts1) as [[s'' e'']|] eqn:E; [|done]. cbn [mbind option_bind].
    intros [= <- <-] E2. rewrite (IH _ _ _ _ _ _ E E2). cbn [mbind option_bind].
    by rewrite app_assoc.
Qed.

Section laws.
Context {S : Type} `{FenceLaws S}.

Lemma fence_run_wf acts : ∀ (s : S) s' es,
  fence_wf s → fence_run s acts = Some (s', es) → fence_wf s'.
Proof.
  induction acts as [|a acts IH]; intros s s' es Hs; simpl; [by intros [= <- _]|].
  destruct (fence_step s a) as [[s1 e1]|] eqn:E; [|done]. cbn [mbind option_bind].
  destruct (fence_run s1 acts) as [[s2 e2]|] eqn:E2; [|done]. cbn [mbind option_bind].
  intros [= <- _]. eapply IH; [|done]. by eapply fence_step_wf.
Qed.

Lemma fence_run_sim acts : ∀ (s : S) s' es,
  fence_wf s → fence_run s acts = Some (s', es) → abs_trace (fence_set s) es (fence_set s').
Proof.
  induction acts as [|a acts IH]; intros s s' es Hs; simpl; [intros [= <- <-]; constructor|].
  destruct (fence_step s a) as [[s1 e1]|] eqn:E; [|done]. cbn [mbind option_bind].
  destruct (fence_run s1 acts) as [[s2 e2]|] eqn:E2; [|done]. cbn [mbind option_bind].
  intros [= <- <-]. eapply abs_trace_app; [by eapply fence_step_sim|].
  eapply IH; [by eapply fence_step_wf|done].
Qed.
End laws.

(** ** Futex ([libxshmfence/src/xshmfence_futex.c]) *)

(** Where a thread is.  Each constructor but [FIdle] and [ASleep] is before the
    atomic operation it names. *)
Inductive fpc := FIdle
  | ACas | AWait | ASleep           (** [xshmfence_await] *)
  | TCas | TStore | TWake           (** [xshmfence_trigger] *)
  | RCas                            (** [xshmfence_reset] *)
  | QFetch.                         (** [xshmfence_query] *)
#[export] Instance fpc_eq_dec : EqDecision fpc.
Proof. solve_decision. Defined.

Record futex := mk_futex { fv : Z; fpcs : list fpc }.
#[export] Instance futex_eta : Settable futex := λ r, mk_futex (fv r) (fpcs r).

Definition futex_entry (op : fence_op) : fpc :=
  match op with OpTrigger => TCas | OpAwait => ACas | OpQuery => QFetch | OpReset => RCas end.

Definition go (i : nat) (pc : fpc) (s : futex) : futex := s <| fpcs ::= λ l, <[i := pc]> l |>.

(** [futex_wake] with [INT_MAX]: every sleeper returns from its system call and
    goes round the loop. *)
Definition futex_wake (s : futex) : futex :=
  s <| fpcs ::= fmap (λ pc, if decide (pc = ASleep) then ACas else pc) |>.

(** [__sync_val_compare_and_swap(&f->v, old, new)]: the former value. *)
Definition cas (old new : Z) (s : futex) : Z * futex :=
  (fv s, if fv s =? old then s <| fv := new |> else s).

Definition xshmfence_futex_trigger (i : nat) (pc : fpc) (s : futex)
  : option (futex * list fence_ev) :=
  match pc with
  | TCas =>
    let '(old, s') := cas 0 1 s in
    if old =? -1 then Some (go i TStore s', []) else Some (go i FIdle s', [Triggered i])
  | TStore => Some (go i TWake (s <| fv := 1 |>), [Triggered i])
  | TWake => Some (go i FIdle (futex_wake s), [])
  | _ => None
  end.

Definition xshmfence_futex_await (i : nat) (pc : fpc) (s : futex)
  : option (futex * list fence_ev) :=
  match pc with
  | ACas =>
    let '(old, s') := cas 0 (-1) s in
    if negb (old =? 1) then Some (go i AWait s', []) else Some (go i FIdle s', [Awaited i])
  | AWait =>
    if fv s =? -1 then Some (go i ASleep s, [])
    else Some (go i ACas s, [])     (** [EWOULDBLOCK] *)
  | _ => None
  end.

Definition xshmfence_futex_query (i : nat) (s : futex) : option (futex * list fence_ev) :=
  Some (go i FIdle s, [Queried i (fv s =? 1)]).

Definition xshmfence_futex_reset (i : nat) (s : futex) : option (futex * list fence_ev) :=
  let '(_, s') := cas 1 0 s in Some (go i FIdle s', [WasReset i]).

Definition futex_step (s : futex) (a : fence_act) : option (futex * list fence_ev) :=
  match a with
  | Call i op =>
    pc ← fpcs s !! i;
    if decide (pc = FIdle) then Some (go i (futex_entry op) s, []) else None
  | Run i =>
    pc ← fpcs s !! i;
    match pc with
    | FIdle | ASleep => None
    | TCas | TStore | TWake => xshmfence_futex_trigger i pc s
    | ACas | AWait => xshmfence_futex_await i pc s
    | QFetch => xshmfence_futex_query i s
    | RCas => xshmfence_futex_reset i s
    end
  | Spurious i =>
    pc ← fpcs s !! i; if decide (pc = ASleep) then Some (go i ACas s, []) else None
  | Interrupt i =>
    pc ← fpcs s !! i;
    if decide (pc = ASleep) then Some (go i FIdle s, [AwaitFailed i]) else None
  end.

(** The value is one of three, and whoever sleeps does so behind the value -1 or
    with a wakeup on its way. *)
Definition futex_wf (s : futex) : Prop :=
  -1 ≤ fv s ≤ 1
  ∧ (ASleep ∈ fpcs s → fv s = -1 ∨ TWake ∈ fpcs s).

#[export] Instance futex_Fence : Fence futex := {
  fence_step := futex_step;
  fence_set s := fv s =? 1;
  fence_waits s i :=
    match fpcs s !! i with Some ACas | Some AWait | Some ASleep => true | _ => false end;
  fence_resets s := existsb (λ pc, match pc with RCas => true | _ => false end) (fpcs s);
  fence_wf := futex_wf
}.

(** ** Moving one thread *)

Lemma insert_elem {A} (l : list A) i x0 y x :
  l !! i = Some x0 → x ∈ <[i := y]> l → x = y ∨ x ∈ l.
Proof.
  intros Hi [j Hj]%list_elem_of_lookup_1. destruct (decide (i = j)) as [->|Hne].
  - rewrite list_lookup_insert_eq in Hj by (by eapply lookup_lt_Some). left. congruence.
  - rewrite list_lookup_insert_ne in Hj by done. right. by eapply list_elem_of_lookup_2.
Qed.

Lemma insert_self {A} (l : list A) i x0 y : l !! i = Some x0 → y ∈ <[i := y]> l.
Proof.
  intros Hi. apply list_elem_of_lookup_2 with i. apply list_lookup_insert_eq.
  by eapply lookup_lt_Some.
Qed.

Lemma insert_keeps {A} (l : list A) i x0 y x : l !! i = Some x0 → x0 ≠ x → x ∈ l → x ∈ <[i := y]> l.
Proof.
  intros Hi Hx [j Hj]%list_elem_of_lookup_1. apply list_elem_of_lookup_2 with j.
  rewrite list_lookup_insert_ne; [done|]. intros ->. congruence.
Qed.

(** One thread moves and the value changes. *)
Lemma futex_wf_go i pc pc0 s v :
  futex_wf s → fpcs s !! i = Some pc0 → pc0 ≠ TWake → -1 ≤ v ≤ 1 →
  (pc = ASleep → v = -1) → (fv s = -1 → v = -1 ∨ pc = TWake) →
  futex_wf (mk_futex v (<[i := pc]> (fpcs s))).
Proof.
  intros [_ Hs] Hi Hne Hv H1 H2. split; [done|]. simpl. intros Hin.
  destruct (insert_elem _ _ _ _ _ Hi Hin) as [<-|Hin']; [left; by apply H1|].
  destruct (Hs Hin') as [E|E].
  - destruct (H2 E) as [->|Epc]; [by left|]. right. subst pc. by eapply insert_self.
  - right. by eapply insert_keeps.
Qed.

Lemma futex_wf_same i pc pc0 s :
  futex_wf s → fpcs s !! i = Some pc0 → pc0 ≠ TWake → (pc = ASleep → fv s = -1) →
  futex_wf (go i pc s).
Proof.
  intros Hs Hi Hne H1. apply (futex_wf_go i pc pc0 s (fv s)); auto. apply Hs.
Qed.

Lemma futex_step_wf s a s' es : futex_wf s → futex_step s a = Some (s', es) → futex_wf s'.
Proof.
  intros Hs. unfold futex_step.
  destruct a as [i op|i|i|i]; destruct (fpcs s !! i) as [pc|] eqn:Hi; cbn [mbind option_bind];
    try done.
  - case_decide as Hpc; [|done]. subst pc. intros [= <- <-].
    apply (futex_wf_same i _ FIdle); [done..|by destruct op].
  - destruct pc; try done; simpl; unfold cas.
    + destruct (Z.eqb_spec (fv s) 1) as [E|E]; cbn [negb]; intros [= <- <-].
      * rewrite E. by apply (futex_wf_same i _ ACas).
      * destruct (Z.eqb_spec (fv s) 0); [|by apply (futex_wf_same i _ ACas)].
        apply (futex_wf_go i AWait ACas s (-1)); first [done|lia|by intros _; left].
    + destruct (Z.eqb_spec (fv s) (-1)); intros [= <- <-]; by apply (futex_wf_same i _ AWait).
    + destruct (Z.eqb_spec (fv s) (-1)) as [E|E]; intros [= <- <-].
      * rewrite E. by apply (futex_wf_same i _ TCas).
      * destruct (Z.eqb_spec (fv s) 0); [|by apply (futex_wf_same i _ TCas)].
        apply (futex_wf_go i FIdle TCas s 1); first [done|lia].
    + intros [= <- <-]. apply (futex_wf_go i TWake TStore s 1); first [done|lia|by intros _; right].
    + intros [= <- <-]. destruct Hs as [Hv _]. split; [done|]. simpl. intros Hin. exfalso.
      eapply (insert_elem _ _ TWake) in Hin as [?|(y & Hy & _)%list_elem_of_fmap_1]; [done| |].
      * by destruct (decide (y = ASleep)).
      * by rewrite list_lookup_fmap, Hi.
    + intros [= <- <-]. destruct (Z.eqb_spec (fv s) 1); [|by apply (futex_wf_same i _ RCas)].
      apply (futex_wf_go i FIdle RCas s 0); first [done|lia].
    + intros [= <- <-]. by apply (futex_wf_same i _ QFetch).
  - case_decide as Hpc; [|done]. subst pc. intros [= <- <-]. by apply (futex_wf_same i _ ASleep).
  - case_decide as Hpc; [|done]. subst pc. intros [= <- <-]. by apply (futex_wf_same i _ ASleep).
Qed.

Lemma futex_step_sim s a s' es :
  futex_wf s → futex_step s a = Some (s', es) → abs_trace (fv s =? 1) es (fv s' =? 1).
Proof.
  intros [Hv _]. unfold futex_step.
  destruct a as [i op|i|i|i]; destruct (fpcs s !! i) as [pc|]; cbn [mbind option_bind]; try done;
    try (case_decide; [|done]; intros [= <- <-]; simpl; eauto with fence).
  assert (fv s = -1 ∨ fv s = 0 ∨ fv s = 1) as [E|[E|E]] by lia;
    destruct pc; try done; simpl; unfold cas; rewrite ?E; intros [= <- <-]; simpl;
    rewrite ?E; cbn [Z.eqb Pos.eqb]; rewrite ?E; eauto with fence.
Qed.

(** No wakeup is lost. *)
Lemma futex_progress s i :
  futex_wf s → fv s = 1 → fence_waits s i = true →
  ∃ acts s' es, fence_run s acts = Some (s', es) ∧ (length acts ≤ 5)%nat ∧ Awaited i ∈ es
    ∧ Forall (λ a, ∃ j, a = Run j) acts.
Proof.
  intros [_ Hsl] Hv Hw. simpl in Hw.
  assert (∀ s, fv s = 1 → fpcs s !! i = Some ACas →
    ∃ s', fence_run s [Run i] = Some (s', [Awaited i])) as Hcas.
  { intros s1 Hv1 Hi1. simpl. rewrite Hi1. simpl. rewrite Hv1. simpl. eauto. }
  destruct (fpcs s !! i) as [pc|] eqn:Hi; [|done]. destruct pc; try done.
  - destruct (Hcas s Hv Hi) as [s' E]. exists [Run i], s', [Awaited i]. split; [done|].
    split; [simpl; lia|]. split; [set_solver|]. repeat constructor; eauto.
  - assert (fence_run s [Run i] = Some (go i ACas s, [])) as E1.
    { simpl. rewrite Hi. simpl. by rewrite Hv. }
    destruct (Hcas (go i ACas s) Hv) as [s' E2].
    { apply list_lookup_insert_eq. by eapply lookup_lt_Some. }
    exists ([Run i] ++ [Run i]), s', ([] ++ [Awaited i]).
    split; [by eapply fence_run_app|]. split; [simpl; lia|]. split; [set_solver|].
    repeat constructor; eauto.
  - destruct (Hsl ltac:(by eapply list_elem_of_lookup_2)) as [?|Hw']; [lia|].
    apply list_elem_of_lookup_1 in Hw' as [j Hj].
    assert (fence_run s [Run j] = Some (go j FIdle (futex_wake s), [])) as E1.
    { simpl. by rewrite Hj. }
    destruct (Hcas (go j FIdle (futex_wake s)) Hv) as [s' E2].
    { simpl. rewrite list_lookup_insert_ne by congruence. by rewrite list_lookup_fmap, Hi. }
    exists ([Run j] ++ [Run i]), s', ([] ++ [Awaited i]).
    split; [by eapply fence_run_app|]. split; [simpl; lia|]. split; [set_solver|].
    repeat constructor; eauto.
Qed.

#[export] Instance futex_FenceLaws : FenceLaws futex.
Proof.
  split.
  - apply futex_step_wf.
  - apply futex_step_sim.
  - intros s i Hs Hv%Z.eqb_eq _. by apply futex_progress.
Qed.

(** ** Mutex and condition variable ([libxshmfence/src/xshmfence_pthread.c]) *)

Inductive ppc := PIdle
  | PLock (op : fence_op)           (** before [pthread_mutex_lock] *)
  | PBody (op : fence_op)           (** holds the mutex *)
  | PSleep                          (** in [pthread_cond_wait] *)
  | PRelock                         (** woken, before it has the mutex again *)
  | PUnlock.                        (** before [pthread_mutex_unlock] *)

Record pfence := mk_pfence {
  lock : option nat;                (** the thread that holds the mutex *)
  value : Z;
  waiting : Z;
  ppcs : list ppc
}.
#[export] Instance pfence_eta : Settable pfence :=
  λ r, mk_pfence (lock r) (value r) (waiting r) (ppcs r).

Definition pgo (i : nat) (pc : ppc) (s : pfence) : pfence :=
  s <| ppcs ::= λ l, <[i := pc]> l |>.

Definition pthread_cond_broadcast (s : pfence) : pfence :=
  s <| ppcs ::= fmap (λ pc, match pc with PSleep => PRelock | _ => pc end) |>.

(** The critical sections. *)
Definition xshmfence_pthread_trigger (i : nat) (s : pfence) : pfence * list fence_ev :=
  let s1 :=
    if value s =? 0 then
      let s1 := s <| value := 1 |> in
      if truthy (waiting s) then pthread_cond_broadcast (s1 <| waiting := 0 |>) else s1
    else s in
  (pgo i PUnlock s1, [Triggered i]).

Definition xshmfence_pthread_await (i : nat) (s : pfence) : pfence * list fence_ev :=
  if value s =? 0 then (pgo i PSleep (s <| waiting := 1 |> <| lock := None |>), [])
  else (pgo i PUnlock s, [Awaited i]).

Definition xshmfence_pthread_query (i : nat) (s : pfence) : pfence * list fence_ev :=
  (pgo i PUnlock s, [Queried i (truthy (value s))]).

Definition xshmfence_pthread_reset (i : nat) (s : pfence) : pfence * list fence_ev :=
  (pgo i PUnlock (s <| value := 0 |>), [WasReset i]).

Definition pthread_body (op : fence_op) (i : nat) (s : pfence) : pfence * list fence_ev :=
  match op with
  | OpTrigger => xshmfence_pthread_trigger i s
  | OpAwait => xshmfence_pthread_await i s
  | OpQuery => xshmfence_pthread_query i s
  | OpReset => xshmfence_pthread_reset i s
  end.

Definition acquire (i : nat) (pc : ppc) (s : pfence) : option (pfence * list fence_ev) :=
  match lock s with
  | None => Some (pgo i pc (s <| lock := Some i |>), [])
  | Some _ => None
  end.

Definition pthread_step (s : pfence) (a : fence_act) : option (pfence * list fence_ev) :=
  match a with
  | Call i op =>
    pc ← ppcs s !! i;
    match pc with PIdle => Some (pgo i (PLock op) s, []) | _ => None end
  | Run i =>
    pc ← ppcs s !! i;
    match pc with
    | PIdle | PSleep => None
    | PLock op => acquire i (PBody op) s
    | PRelock => acquire i (PBody OpAwait) s
    | PBody op => Some (pthread_body op i s)
    | PUnlock => Some (pgo i PIdle (s <| lock := None |>), [])
    end
  | Spurious i =>
    pc ← ppcs s !! i;
    match pc with PSleep => Some (pgo i PRelock s, []) | _ => None end
  | Interrupt _ => None             (** [pthread_cond_wait] does not return on a signal *)
  end.

Definition holds_lock (pc : ppc) : bool :=
  match pc with PBody _ | PUnlock => true | _ => false end.

(** The mutex is held by the one thread that is between the two calls. *)
Definition lock_ok (lk : option nat) (l : list ppc) : Prop :=
  ∀ i, lk = Some i ↔ ∃ pc, l !! i = Some pc ∧ holds_lock pc = true.

(** Sleepers sleep behind an unset fence that knows of them. *)
Definition pthread_wf (s : pfence) : Prop :=
  lock_ok (lock s) (ppcs s) ∧ (value s = 0 ∨ value s = 1)
  ∧ (PSleep ∈ ppcs s → value s = 0 ∧ waiting s ≠ 0).

#[export] Instance pthread_Fence : Fence pfence := {
  fence_step := pthread_step;
  fence_set s := negb (value s =? 0);
  fence_waits s i :=
    match ppcs s !! i with
    | Some (PLock OpAwait) | Some (PBody OpAwait) | Some PSleep | Some PRelock => true
    | _ => false
    end;
  fence_resets s :=
    existsb (λ pc, match pc with PLock OpReset | PBody OpReset => true | _ => false end) (ppcs s);
  fence_wf := pthread_wf
}.

Lemma lock_ok_keep lk l i pc0 pc :
  lock_ok lk l → l !! i = Some pc0 → holds_lock pc = holds_lock pc0 →
  lock_ok lk (<[i := pc]> l).
Proof.
  intros H Hi Hpc j. rewrite (H j). destruct (decide (i = j)) as [->|Hne].
  - rewrite list_lookup_insert_eq by (by eapply lookup_lt_Some). rewrite Hi. naive_solver congruence.
  - by rewrite list_lookup_insert_ne.
Qed.

Lemma lock_ok_take l i pc0 pc :
  lock_ok None l → l !! i = Some pc0 → holds_lock pc = true → lock_ok (Some i) (<[i := pc]> l).
Proof.
  intros H Hi Hpc j. destruct (decide (i = j)) as [->|Hne].
  - rewrite list_lookup_insert_eq by (by eapply lookup_lt_Some). naive_solver.
  - rewrite list_lookup_insert_ne by done. rewrite <-(H j). naive_solver.
Qed.

Lemma lock_ok_drop lk l i pc0 pc :
  lock_ok lk l → l !! i = Some pc0 → holds_lock pc0 = true → holds_lock pc = false →
  lock_ok None (<[i := pc]> l).
Proof.
  intros H Hi H0 Hpc j. assert (lk = Some i) as -> by (apply H; eauto).
  destruct (decide (i = j)) as [->|Hne].
  - rewrite list_lookup_insert_eq by (by eapply lookup_lt_Some).
    split; [done|]. intros (pc' & [= <-] & ?). congruence.
  - rewrite list_lookup_insert_ne by done. rewrite <-(H j). naive_solver.
Qed.

Definition awake (pc : ppc) : ppc := match pc with PSleep => PRelock | _ => pc end.

Lemma lock_ok_awake lk l : lock_ok lk l → lock_ok lk (awake <$> l).
Proof.
  intros H j. rewrite (H j), list_lookup_fmap.
  destruct (l !! j) as [pc|]; simpl; [|naive_solver]. destruct pc; naive_solver.
Qed.

Lemma no_sleeper_awake (l : list ppc) : PSleep ∉ awake <$> l.
Proof. intros (y & Hy & _)%list_elem_of_fmap_1. by destruct y. Qed.

Lemma pthread_body_wf op i s pc0 s' es :
  pthread_wf s → ppcs s !! i = Some pc0 → holds_lock pc0 = true →
  pthread_body op i s = (s', es) → pthread_wf s'.
Proof.
  intros (Hl & Hv & Hs) Hi H0. destruct op; simpl.
  - unfold xshmfence_pthread_trigger. destruct (Z.eqb_spec (value s) 0) as [E|E].
    + destruct (truthy (waiting s)) eqn:Ew; intros [= <- <-].
      * split; [|split; [by right|]]; simpl.
        -- eapply (lock_ok_keep _ _ _ (awake pc0)); [by apply lock_ok_awake| |by destruct pc0].
           change (λ pc, _) with awake. by rewrite list_lookup_fmap, Hi.
        -- intros [?|Hin]%(insert_elem _ _ (awake pc0)); [done| |].
           ++ by destruct (no_sleeper_awake _ Hin).
           ++ by rewrite list_lookup_fmap, Hi.
      * split; [|split; [by right|]]; simpl; [by eapply lock_ok_keep|].
        intros [?|[_ Hw]%Hs]%(insert_elem _ _ pc0); [done| |done].
        unfold truthy in Ew. bool_to_prop. done.
    + intros [= <- <-]. split; [by eapply lock_ok_keep|]. split; [done|]. simpl.
      intros [?|Hin]%(insert_elem _ _ pc0); [done|by apply Hs|done].
  - unfold xshmfence_pthread_await. destruct (Z.eqb_spec (value s) 0) as [E|E]; intros [= <- <-].
    + split; [by eapply lock_ok_drop|]. split; [done|]. by simpl.
    + split; [by eapply lock_ok_keep|]. split; [done|]. simpl.
      intros [?|Hin]%(insert_elem _ _ pc0); [done|by apply Hs|done].
  - intros [= <- <-]. split; [by eapply lock_ok_keep|]. split; [done|]. simpl.
    intros [?|Hin]%(insert_elem _ _ pc0); [done|by apply Hs|done].
  - intros [= <- <-]. split; [by eapply lock_ok_keep|]. split; [by left|]. simpl.
    intros [?|Hin]%(insert_elem _ _ pc0); [done| |done]. destruct (Hs Hin). done.
Qed.

(** A step that leaves value and waiting alone and nobody asleep anew. *)
Lemma pthread_wf_go s i pc0 pc lk :
  pthread_wf s → ppcs s !! i = Some pc0 → lock_ok lk (<[i := pc]> (ppcs s)) → pc ≠ PSleep →
  pthread_wf (mk_pfence lk (value s) (waiting s) (<[i := pc]> (ppcs s))).
Proof.
  intros (Hl & Hv & Hs) Hi Hl' Hpc. split; [done|]. split; [done|]. simpl.
  intros [?|Hin]%(insert_elem _ _ pc0); [congruence|by apply Hs|done].
Qed.

Lemma pthread_step_wf s a s' es : pthread_wf s → pthread_step s a = Some (s', es) → pthread_wf s'.
Proof.
  intros Hs. pose proof Hs as (Hl & _). unfold pthread_step, acquire.
  destruct a as [i op|i|i|i]; [| | |done]; destruct (ppcs s !! i) as [pc|] eqn:Hi;
    cbn [mbind option_bind]; try done.
  - destruct pc; try done. intros [= <- _].
    eapply pthread_wf_go; [done|exact Hi| |done]. by eapply lock_ok_keep.
  - destruct pc as [|op|op| | |]; try done.
    + destruct (lock s) eqn:El; [done|]. intros [= <- _].
      eapply (pthread_wf_go s); [done|exact Hi| |done]. by eapply lock_ok_take.
    + intros [= E]. by eapply (pthread_body_wf op i s (PBody op)).
    + destruct (lock s) eqn:El; [done|]. intros [= <- _].
      eapply (pthread_wf_go s); [done|exact Hi| |done]. by eapply lock_ok_take.
    + intros [= <- _]. eapply (pthread_wf_go s); [done|exact Hi| |done]. by eapply lock_ok_drop.
  - destruct pc; try done. intros [= <- _].
    eapply pthread_wf_go; [done|exact Hi| |done]. by eapply lock_ok_keep.
Qed.

Lemma pthread_step_sim s a s' es :
  pthread_wf s → pthread_step s a = Some (s', es) →
  abs_trace (negb (value s =? 0)) es (negb (value s' =? 0)).
Proof.
  intros (_ & Hv & _). unfold pthread_step, acquire.
  destruct a as [i op|i|i|i]; [| | |done]; destruct (ppcs s !! i) as [pc|]; cbn [mbind option_bind];
    try done; destruct pc; try done; try (destruct (lock s); [done|]); intros [= E];
    try (by subst; simpl; eauto with fence).
  unfold pthread_body, xshmfence_pthread_trigger, xshmfence_pthread_await,
    xshmfence_pthread_query, xshmfence_pthread_reset in E.
  destruct Hv as [Ev|Ev]; destruct op; rewrite ?Ev in E; simpl in E;
    try (destruct (truthy (waiting s))); injection E as <- <-; simpl; rewrite ?Ev; simpl;
    eauto with fence.
Qed.

(** The thread that holds the mutex of a set fence leaves its critical section,
    unless it is resetting the fence; nobody else moves. *)
Lemma pthread_release s :
  pthread_wf s → value s = 1 → fence_resets s = false →
  ∃ acts s' es, fence_run s acts = Some (s', es) ∧ (length acts ≤ 2)%nat ∧ lock s' = None
    ∧ value s' = 1 ∧ Forall (λ a, ∃ j, a = Run j) acts
    ∧ (∀ i, Awaited i ∈ es ∨ lock s = Some i ∨ ppcs s' !! i = ppcs s !! i)
    ∧ (∀ i, lock s = Some i → fence_waits s i = true → Awaited i ∈ es).
Proof.
  intros (Hl & _) Hv Hr. destruct (lock s) as [j|] eqn:El.
  2:{ exists [], s, []. split; [done|]. split_and!; try done; [simpl; lia|]. intros i. auto. }
  destruct (proj1 (Hl j) eq_refl) as (pc & Hj & Hh).
  pose proof (lookup_lt_Some _ _ _ Hj) as Hlt.
  destruct pc as [|op|op| | |]; try done.
  - assert (op ≠ OpReset) as Hop.
    { intros ->. apply list_elem_of_lookup_2, list_elem_of_In in Hj.
      assert (fence_resets s = true); [|congruence]. apply existsb_exists. by exists (PBody OpReset). }
    assert (∃ es, fence_run s [Run j] = Some (pgo j PUnlock s, es)
      ∧ (fence_waits s j = true → Awaited j ∈ es)) as (es & E1 & Haw).
    { simpl. rewrite Hj. cbn [mbind option_bind].
      unfold pthread_body, xshmfence_pthread_trigger, xshmfence_pthread_await.
      destruct op; try done; rewrite ?Hv; simpl; eexists; (split; [done|]); try done; set_solver. }
    exists ([Run j] ++ [Run j]), (pgo j PIdle (pgo j PUnlock s <| lock := None |>)), (es ++ []).
    split.
    { eapply fence_run_app; [done|]. simpl. by rewrite list_lookup_insert_eq. }
    split_and!; try done; try (simpl; lia); try (repeat constructor; by eexists).
    + intros i. destruct (decide (i = j)) as [->|]; [auto|]. right. right. simpl.
      by rewrite !list_lookup_insert_ne.
    + intros i [= <-] ?. apply elem_of_app. left. auto.
  - exists [Run j], (pgo j PIdle (s <| lock := None |>)), [].
    split; [simpl; by rewrite Hj|]. split_and!; try done; try (simpl; lia); try (repeat constructor; by eexists).
    + intros i. destruct (decide (i = j)) as [->|]; [auto|]. right. right. simpl.
      by rewrite list_lookup_insert_ne.
    + intros i [= <-]. simpl. by rewrite Hj.
Qed.

(** A waiter that has to get the mutex of a set fence gets it and returns. *)
Lemma pthread_await_runs s i pc :
  lock s = None → value s = 1 → ppcs s !! i = Some pc → pc = PLock OpAwait ∨ pc = PRelock →
  ∃ s', fence_run s [Run i; Run i] = Some (s', [Awaited i]).
Proof.
  intros Hl Hv Hi Hpc. pose proof (lookup_lt_Some _ _ _ Hi) as Hlt.
  exists (pgo i PUnlock (pgo i (PBody OpAwait) (s <| lock := Some i |>))).
  destruct Hpc as [-> | ->]; cbn; rewrite Hi; cbn; unfold acquire; rewrite Hl; cbn;
    rewrite list_lookup_insert_eq by done; cbn; unfold xshmfence_pthread_await; cbn;
    by rewrite Hv.
Qed.

Lemma pthread_progress s i :
  pthread_wf s → value s = 1 → fence_resets s = false → fence_waits s i = true →
  ∃ acts s' es, fence_run s acts = Some (s', es) ∧ (length acts ≤ 5)%nat ∧ Awaited i ∈ es
    ∧ Forall (λ a, ∃ j, a = Run j) acts.
Proof.
  intros Hs Hv Hr Hw. pose proof Hs as (Hl & _ & Hsl).
  destruct (pthread_release s Hs Hv Hr) as (acts & s1 & es & E & Hlen & Hl1 & Hv1 & Hf & H1 & H2).
  destruct (decide (lock s = Some i)) as [El|El].
  { exists acts, s1, es. split_and!; try done; [lia|auto]. }
  destruct (H1 i) as [Hin|[Hin|Hi]]; [|done|].
  { exists acts, s1, es. split_and!; try done. lia. }
  simpl in Hw. destruct (ppcs s !! i) as [pc|] eqn:Ei; [|done].
  destruct (pthread_await_runs s1 i pc) as [s' E2]; try done.
  { destruct pc as [|[]|op| | |]; auto; try done.
    - destruct El. apply Hl. eauto.
    - apply list_elem_of_lookup_2 in Ei. destruct (Hsl Ei). lia. }
  exists (acts ++ [Run i; Run i]), s', (es ++ [Awaited i]).
  split; [by eapply fence_run_app|]. split_and!; [rewrite length_app; simpl; lia|set_solver|].
  apply Forall_app. split; [done|]. repeat constructor; by eexists.
Qed.

#[export] Instance pthread_FenceLaws : FenceLaws pfence.
Proof.
  split.
  - apply pthread_step_wf.
  - apply pthread_step_sim.
  - intros s i Hs Hv Hr Hw. apply pthread_progress; try done.
    destruct Hs as (_ & [E|E] & _); [|done]. simpl in Hv. by rewrite E in Hv.
Qed.

(** ** The dispatcher ([lorie/xshmfence.c]) *)

(** The shared memory, laid out by whoever created it. *)
Inductive shm := ShmFutex (f : futex) | ShmPthread (p : pfence).

Record xshmfence := mk_xshmfence { is_futex : bool; real : shm }.

Definition on_futex {A} (k : futex → option (futex * A)) (f : xshmfence)
  : option (xshmfence * A) :=
  match real f with
  | ShmFutex m => '(m', a) ← k m; Some (mk_xshmfence (is_futex f) (ShmFutex m'), a)
  | ShmPthread _ => None            (** memory of the other layout: undefined *)
  end.

Definition on_pthread {A} (k : pfence → option (pfence * A)) (f : xshmfence)
  : option (xshmfence * A) :=
  match real f with
  | ShmPthread m => '(m', a) ← k m; Some (mk_xshmfence (is_futex f) (ShmPthread m'), a)
  | ShmFutex _ => None
  end.

(** A step of one of the four calls is a step of the implementation that the
    dispatcher chose. *)
Definition xshmfence_step (f : xshmfence) (a : fence_act) : option (xshmfence * list fence_ev) :=
  if is_futex f then on_futex (λ m, futex_step m a) f else on_pthread (λ m, pthread_step m a) f.

(** [true] and [f->real] of the same kind. *)
Definition xshmfence_wf (f : xshmfence) : Prop :=
  match real f with
  | ShmFutex m => is_futex f = true ∧ futex_wf m
  | ShmPthread m => is_futex f = false ∧ pthread_wf m
  end.

#[export] Instance xshmfence_Fence : Fence xshmfence := {
  fence_step := xshmfence_step;
  fence_set f := match real f with ShmFutex m => fence_set m | ShmPthread m => fence_set m end;
  fence_waits f i :=
    match real f with ShmFutex m => fence_waits m i | ShmPthread m => fence_waits m i end;
  fence_resets f :=
    match real f with ShmFutex m => fence_resets m | ShmPthread m => fence_resets m end;
  fence_wf := xshmfence_wf
}.

Lemma xshmfence_run_futex acts : ∀ m,
  fence_run (mk_xshmfence true (ShmFutex m)) acts
  = '(m', es) ← fence_run m acts; Some (mk_xshmfence true (ShmFutex m'), es).
Proof.
  induction acts as [|a acts IH]; intros m; [done|]. simpl. unfold xshmfence_step, on_futex. simpl.
  destruct (futex_step m a) as [[m1 e1]|]; [|done]. cbn [mbind option_bind]. rewrite IH.
  by destruct (fence_run m1 acts) as [[m2 e2]|].
Qed.

Lemma xshmfence_run_pthread acts : ∀ m,
  fence_run (mk_xshmfence false (ShmPthread m)) acts
  = '(m', es) ← fence_run m acts; Some (mk_xshmfence false (ShmPthread m'), es).
Proof.
  induction acts as [|a acts IH]; intros m; [done|]. simpl. unfold xshmfence_step, on_pthread. simpl.
  destruct (pthread_step m a) as [[m1 e1]|]; [|done]. cbn [mbind option_bind]. rewrite IH.
  by destruct (fence_run m1 acts) as [[m2 e2]|].
Qed.

(** The dispatcher promises what the two implementations promise. *)
#[export] Instance xshmfence_FenceLaws : FenceLaws xshmfence.
Proof.
  split.
  - intros [b [m|m]] a s' es [E Hm]; simpl in E; subst b; simpl;
      unfold xshmfence_step, on_futex, on_pthread; simpl.
    + destruct (futex_step m a) as [[m' e']|] eqn:E; [|done]. intros [= <- <-].
      split; [done|]. by eapply futex_step_wf.
    + destruct (pthread_step m a) as [[m' e']|] eqn:E; [|done]. intros [= <- <-].
      split; [done|]. by eapply pthread_step_wf.
  - intros [b [m|m]] a s' es [E Hm]; simpl in E; subst b; simpl;
      unfold xshmfence_step, on_futex, on_pthread; simpl.
    + destruct (futex_step m a) as [[m' e']|] eqn:E; [|done]. intros [= <- <-].
      by eapply futex_step_sim.
    + destruct (pthread_step m a) as [[m' e']|] eqn:E; [|done]. intros [= <- <-].
      by eapply pthread_step_sim.
  - intros [b [m|m]] i [E Hm] Hset Hr Hw; simpl in E; subst b.
    + destruct (futex_FenceLaws.(fence_progress) m i Hm Hset Hr Hw) as (acts & m' & es & E & ?).
      exists acts, (mk_xshmfence true (ShmFutex m')), es. split; [|done].
      by rewrite xshmfence_run_futex, E.
    + destruct (pthread_FenceLaws.(fence_progress) m i Hm Hset Hr Hw) as (acts & m' & es & E & ?).
      exists acts, (mk_xshmfence false (ShmPthread m')), es. split; [|done].
      by rewrite xshmfence_run_pthread, E.
Qed.

Lemma xshmfence_run_wf f acts f' es :
  xshmfence_wf f → fence_run f acts = Some (f', es) → xshmfence_wf f'.
Proof. exact (@fence_run_wf xshmfence _ _ acts f f' es). Qed.

(** *** One call, not interleaved *)

Definition thread_idle (f : xshmfence) (i : nat) : bool :=
  match real f with
  | ShmFutex m => match fpcs m !! i with Some FIdle => true | _ => false end
  | ShmPthread m => match ppcs m !! i with Some PIdle => true | _ => false end
  end.

(** Let a thread run until its call returns; four steps are enough for the calls
    that do not wait. *)
Fixpoint finish_call (n i : nat) (f : xshmfence) : option (xshmfence * list fence_ev) :=
  if thread_idle f i then Some (f, []) else
  match n with
  | O => None
  | S n' =>
    '(f1, es1) ← xshmfence_step f (Run i);
    '(f2, es2) ← finish_call n' i f1;
    Some (f2, es1 ++ es2)
  end.

Definition xshmfence_call (i : nat) (op : fence_op) (f : xshmfence)
  : option (xshmfence * list fence_ev) :=
  '(f1, _) ← xshmfence_step f (Call i op); finish_call 4 i f1.

Definition xshmfence_trigger (i : nat) (f : xshmfence) : option xshmfence :=
  fst <$> xshmfence_call i OpTrigger f.

Definition xshmfence_await (i : nat) (f : xshmfence) : option xshmfence :=
  fst <$> xshmfence_call i OpAwait f.

Definition xshmfence_query (i : nat) (f : xshmfence) : option (xshmfence * bool) :=
  '(f', es) ← xshmfence_call i OpQuery f;
  match es with Queried _ v :: _ => Some (f', v) | _ => None end.

Definition xshmfence_reset (i : nat) (f : xshmfence) : option xshmfence :=
  fst <$> xshmfence_call i OpReset f.

(** *** Mapping *)

(** The descriptors a process has open, and the closes of descriptors that were
    not. *)
Record fdtab := mk_fdtab { open_fds : gset Z; stale_closes : list Z }.
#[export] Instance fdtab_eta : Settable fdtab := λ r, mk_fdtab (open_fds r) (stale_closes r).

Definition close_fd (fd : Z) (t : fdtab) : fdtab :=
  if decide (fd ∈ open_fds t) then t <| open_fds ::= λ s, s ∖ {[fd]} |>
  else t <| stale_closes ::= λ l, l ++ [fd] |>.

(** What the system answers: [calloc], the size that [fstat] finds (0 if it
    fails), [mmap], and [fcntl(F_DUPFD_CLOEXEC)] in [os_move_fd]. *)
Record sys := mk_sys { calloc_ok : bool; st_size : Z; mmap_ok : bool; dup_fd : option Z }.

(** [xshmfence_map_shm] of [libxshmfence/src/xshmfence_alloc.c], compiled once for each
    implementation. *)
Definition xshmfence_real_map_shm (e : sys) (fd : Z) (mem : shm) (t : fdtab) : option shm * fdtab :=
  if mmap_ok e then (Some mem, t) else (None, close_fd fd t).

Definition xshmfence_alloc_shm : Z := -1.

Definition xshmfence_map_shm (e : sys) (fd : Z) (mem : shm) (t : fdtab)
  : option xshmfence * fdtab :=
  if negb (calloc_ok e) then (None, t) else
  let b := st_size e =? 4 in
  match xshmfence_real_map_shm e fd mem t with
  | (None, t') => (None, t')
  | (Some m, t') => (Some (mk_xshmfence b m), t')
  end.

(** The memory stays with the other process. *)
Definition xshmfence_unmap_shm (f : xshmfence) : option shm :=
  match is_futex f, real f with
  | true, ShmFutex m => Some (ShmFutex m)
  | false, ShmPthread m => Some (ShmPthread m)
  | _, _ => None
  end.

(** ** The server's fences ([xserver/miext/sync/misyncshm.c]) *)

Record SyncFence := mk_SyncFence {
  triggered : bool;
  priv_fence : option xshmfence;    (** [pPriv->fence] *)
  priv_fd : Z                       (** [pPriv->fd] *)
}.
#[export] Instance SyncFence_eta : Settable SyncFence :=
  λ r, mk_SyncFence (triggered r) (priv_fence r) (priv_fd r).

(** The server is thread 0. *)
Definition miSyncShmFenceSetTriggered (p : SyncFence) : option SyncFence :=
  p1 ← match priv_fence p with
       | Some f => f' ← xshmfence_trigger 0 f; Some (p <| priv_fence := Some f' |>)
       | None => Some p
       end;
  Some (p1 <| triggered := true |>).

Definition miSyncShmFenceReset (p : SyncFence) : option SyncFence :=
  p1 ← match priv_fence p with
       | Some f => f' ← xshmfence_reset 0 f; Some (p <| priv_fence := Some f' |>)
       | None => Some p
       end;
  Some (p1 <| triggered := false |>).

Definition miSyncShmFenceCheckTriggered (p : SyncFence) : option (SyncFence * bool) :=
  match priv_fence p with
  | Some f => '(f', v) ← xshmfence_query 0 f; Some (p <| priv_fence := Some f' |>, v)
  | None => Some (p, triggered p)
  end.

Definition miSyncShmScreenCreateFence (initially_triggered : bool) (p : SyncFence) : SyncFence :=
  p <| priv_fence := None |> <| triggered := initially_triggered |>.

(** Gives back the memory that was unmapped. *)
Definition miSyncShmScreenDestroyFence (p : SyncFence) (t : fdtab) : option (option shm * fdtab) :=
  match priv_fence p with
  | Some f =>
    f' ← xshmfence_trigger 0 f;
    m ← xshmfence_unmap_shm f';
    Some (Some m, close_fd (priv_fd p) t)
  | None => Some (None, t)
  end.

(** [os_move_fd] of [xserver/os/utils.c]. *)
Definition os_move_fd (e : sys) (fd : Z) (t : fdtab) : Z * fdtab :=
  match dup_fd e with
  | None => (fd, t)
  | Some newfd => (newfd, close_fd fd (t <| open_fds ::= λ s, s ∪ {[newfd]} |>))
  end.

Definition Success : Z := 0.
Definition BadValue : Z := 2.

Definition miSyncShmCreateFenceFromFd (e : sys) (fd : Z) (mem : shm) (initially_triggered : bool)
  (p : SyncFence) (t : fdtab) : Z * SyncFence * fdtab :=
  let p1 := miSyncShmScreenCreateFence initially_triggered p in
  let '(fd1, t1) := os_move_fd e fd t in
  match xshmfence_map_shm e fd1 mem t1 with
  | (Some f, t2) => (Success, p1 <| priv_fence := Some f |> <| priv_fd := fd1 |>, t2)
  | (None, t2) => (BadValue, p1, close_fd fd1 t2)
  end.

(** [alloc_shm] cannot create a fence, so only one that came from a client has a
    descriptor. *)
Definition miSyncShmGetFenceFd (p : SyncFence) : Z * SyncFence :=
  match priv_fence p with
  | Some _ => (priv_fd p, p)
  | None => (-1, p <| priv_fd := xshmfence_alloc_shm |>)
  end.

(** ** The flag and its waiters *)

(** C36: A fence is a flag: whatever the threads of server and clients do with a fence and in
    whatever order their steps interleave, spurious wakeups and signals included, what they see
    is a history of a plain boolean flag. [xshmfence_await] returns 0 only while the flag is set
    and [xshmfence_query] answers its value, for a futex fence and for a mutex fence alike. *)
Theorem fence_refines_flag (f : xshmfence) acts f' es :
  xshmfence_wf f → fence_run f acts = Some (f', es) →
  xshmfence_wf f' ∧ abs_trace (fence_set f) es (fence_set f').
Proof. intros Hf E. split; [exact (xshmfence_run_wf _ _ _ _ Hf E)|by eapply fence_run_sim]. Qed.

(** The schedule in which a waiter registers, goes to sleep and is woken by the trigger. *)
Definition sleep_and_wake : list fence_act :=
  [Call 1 OpAwait; Run 1; Run 1; Call 0 OpTrigger; Run 0; Run 0; Run 0; Run 1].

Definition fresh_futex : xshmfence := mk_xshmfence true (ShmFutex (mk_futex 0 [FIdle; FIdle])).

Lemma fresh_futex_wf : xshmfence_wf fresh_futex.
Proof. split; [done|]. split; [simpl; lia|]. simpl. intros H. exfalso. set_solver. Qed.

Lemma fence_refines_flag_witness : ∃ f' es,
  fence_run fresh_futex sleep_and_wake = Some (f', es) ∧ es = [Triggered 0; Awaited 1]
  ∧ abs_trace false es true.
Proof.
  destruct (fence_run fresh_futex sleep_and_wake) as [[f' es]|] eqn:E; [|by vm_compute in E].
  exists f', es. split; [done|].
  pose proof (fence_refines_flag _ _ _ _ fresh_futex_wf E) as [_ Hs].
  vm_compute in E. injection E as <- <-. split; [done|]. exact Hs.
Defined.

(** C37: No wakeup is lost: after any interleaving of any calls, a thread that is inside
    [xshmfence_await] of a fence that is set, and that nobody is just resetting, returns after at
    most five steps of the threads that are already running, without another trigger. *)
Theorem fence_no_lost_wakeup (f : xshmfence) acts f' es i :
  xshmfence_wf f → fence_run f acts = Some (f', es) →
  fence_set f' = true → fence_resets f' = false → fence_waits f' i = true →
  ∃ acts' f'' es', fence_run f' acts' = Some (f'', es') ∧ (length acts' ≤ 5)%nat
    ∧ Awaited i ∈ es' ∧ Forall (λ a, ∃ j, a = Run j) acts'.
Proof. intros Hf E. apply fence_progress. exact (xshmfence_run_wf _ _ _ _ Hf E). Qed.

Lemma fence_no_lost_wakeup_witness : ∃ f' es, ∃ acts' f'' es',
  fence_run fresh_futex (take 6 sleep_and_wake) = Some (f', es) ∧ fence_waits f' 1 = true
  ∧ fence_run f' acts' = Some (f'', es') ∧ Awaited 1 ∈ es'.
Proof.
  destruct (fence_run fresh_futex (take 6 sleep_and_wake)) as [[f' es]|] eqn:E;
    [|by vm_compute in E].
  assert (fence_set f' = true ∧ fence_resets f' = false ∧ fence_waits f' 1 = true)
    as (H1 & H2 & H3) by (vm_compute in E; injection E as <- <-; done).
  destruct (fence_no_lost_wakeup _ _ _ _ 1 fresh_futex_wf E H1 H2 H3)
    as (acts' & f'' & es' & Ha & _ & Hb & _).
  exists f', es, acts', f'', es'. done.
Defined.

(** *** Server calls *)

(** The server's thread is idle and can have the mutex. *)
Definition server_ready (f : xshmfence) : Prop :=
  xshmfence_wf f ∧ thread_idle f 0 = true
  ∧ match real f with ShmPthread m => lock m = None | ShmFutex _ => True end.

Lemma finish_call_run n i : ∀ f f' es,
  finish_call n i f = Some (f', es) → ∃ acts, fence_run f acts = Some (f', es).
Proof.
  induction n as [|n IH]; intros f f' es; simpl; destruct (thread_idle f i); try done;
    try (intros [= <- <-]; by exists []).
  destruct (xshmfence_step f (Run i)) as [[f1 e1]|] eqn:E; [|done]. cbn [mbind option_bind].
  destruct (finish_call n i f1) as [[f2 e2]|] eqn:E2; [|done]. intros [= <- <-].
  destruct (IH _ _ _ E2) as [acts Ha]. exists (Run i :: acts). simpl. rewrite E. simpl.
  by rewrite Ha.
Qed.

Lemma xshmfence_call_wf i op f f' es :
  xshmfence_wf f → xshmfence_call i op f = Some (f', es) → xshmfence_wf f'.
Proof.
  intros Hf. unfold xshmfence_call.
  destruct (xshmfence_step f (Call i op)) as [[f1 e1]|] eqn:E; [|done]. cbn [mbind option_bind].
  intros [acts Ha]%finish_call_run. eapply xshmfence_run_wf; [|exact Ha].
  exact (xshmfence_FenceLaws.(fence_step_wf) _ _ _ _ Hf E).
Qed.

(** The dispatcher never changes its mind. *)
Lemma xshmfence_step_kind f a f' es :
  xshmfence_step f a = Some (f', es) → is_futex f' = is_futex f.
Proof.
  destruct f as [[] [m|m]]; unfold xshmfence_step, on_futex, on_pthread; simpl; try done.
  - destruct (futex_step m a) as [[? ?]|]; [|done]. by intros [= <- _].
  - destruct (pthread_step m a) as [[? ?]|]; [|done]. by intros [= <- _].
Qed.

Lemma xshmfence_call_kind i op f f' es :
  xshmfence_call i op f = Some (f', es) → is_futex f' = is_futex f.
Proof.
  unfold xshmfence_call. destruct (xshmfence_step f (Call i op)) as [[f1 e1]|] eqn:E; [|done].
  rewrite <-(xshmfence_step_kind _ _ _ _ E). cbn [mbind option_bind]. clear E.
  generalize 4%nat. intros n. revert f1 f' es. induction n as [|n IH]; intros f1 f' es; simpl;
    destruct (thread_idle f1 i); try done; try by intros [= <- _].
  destruct (xshmfence_step f1 (Run i)) as [[f2 e2]|] eqn:E; [|done]. cbn [mbind option_bind].
  destruct (finish_call n i f2) as [[f3 e3]|] eqn:E3; [|done]. intros [= <- _].
  rewrite (IH _ _ _ E3). by eapply xshmfence_step_kind.
Qed.

(** A call that does not wait returns. *)
Lemma server_call_returns op f :
  server_ready f → op ≠ OpAwait → ∃ f' es, xshmfence_call 0 op f = Some (f', es)
    ∧ server_ready f'
    ∧ fence_set f' = match op with OpTrigger => true | OpReset => false | _ => fence_set f end
    ∧ (op = OpQuery → es = [Queried 0 (fence_set f)]).
Proof.
  intros (Hf & Hi & Hl) Hop.
  assert (∃ f' es, xshmfence_call 0 op f = Some (f', es) ∧ thread_idle f' 0 = true
    ∧ match real f' with ShmPthread m => lock m = None | ShmFutex _ => True end
    ∧ fence_set f' = match op with OpTrigger => true | OpReset => false | _ => fence_set f end
    ∧ (op = OpQuery → es = [Queried 0 (fence_set f)])) as (f' & es & E & ? & ? & ?).
  { destruct f as [b [[v l]|[lk v w l]]]; destruct Hf as [Hb Hm]; simpl in Hb, Hi, Hl; subst.
    - destruct Hm as [Hv _]. simpl in Hv. destruct l as [|[] l]; try done.
      assert (v = -1 ∨ v = 0 ∨ v = 1) as [->|[->| ->]] by lia; destruct op; try done;
        eexists _, _; (split; [reflexivity|]); done.
    - destruct Hm as (_ & Hv & _). simpl in Hv. destruct l as [|[] l]; try done.
      destruct (truthy w) eqn:Ew, Hv as [->| ->], op; try done; eexists _, _;
        (split; [cbv -[truthy]; rewrite ?Ew; reflexivity|]); done. }
  exists f', es. split; [done|]. split; [|done]. split; [|done]. by eapply xshmfence_call_wf.
Qed.

Definition fence_ready (p : SyncFence) : Prop :=
  match priv_fence p with Some f => server_ready f | None => True end.

Lemma server_query_returns f :
  server_ready f → ∃ f', xshmfence_query 0 f = Some (f', fence_set f) ∧ server_ready f'.
Proof.
  intros (f' & es & E & Hf & _ & Hq)%(server_call_returns OpQuery); [|done].
  exists f'. split; [|done]. unfold xshmfence_query. by rewrite E, Hq.
Qed.

Lemma server_trigger_returns f :
  server_ready f → ∃ f', xshmfence_trigger 0 f = Some f' ∧ server_ready f' ∧ fence_set f' = true.
Proof.
  intros (f' & es & E & Hf & Hs & _)%(server_call_returns OpTrigger); [|done].
  exists f'. split; [|done]. unfold xshmfence_trigger. by rewrite E.
Qed.

Lemma server_reset_returns f :
  server_ready f → ∃ f', xshmfence_reset 0 f = Some f' ∧ server_ready f' ∧ fence_set f' = false.
Proof.
  intros (f' & es & E & Hf & Hs & _)%(server_call_returns OpReset); [|done].
  exists f'. split; [|done]. unfold xshmfence_reset. by rewrite E.
Qed.

(** The server's view of a fence: whether it is in shared memory (of either kind) or the
    server's own, triggering and resetting it return, and a check that follows answers TRUE after
    the trigger and FALSE after the reset. *)
Theorem server_fence_flag p :
  fence_ready p →
  (∃ p', miSyncShmFenceSetTriggered p = Some p' ∧ fence_ready p'
     ∧ ∃ p'', miSyncShmFenceCheckTriggered p' = Some (p'', true))
  ∧ (∃ p', miSyncShmFenceReset p = Some p' ∧ fence_ready p'
     ∧ ∃ p'', miSyncShmFenceCheckTriggered p' = Some (p'', false)).
Proof.
  destruct p as [b [f|] fd]; unfold fence_ready; simpl; intros Hf.
  - destruct (server_trigger_returns f Hf) as (f1 & E1 & Hf1 & Hs1).
    destruct (server_reset_returns f Hf) as (f2 & E2 & Hf2 & Hs2).
    destruct (server_query_returns f1 Hf1) as (f3 & E3 & _).
    destruct (server_query_returns f2 Hf2) as (f4 & E4 & _).
    rewrite Hs1 in E3. rewrite Hs2 in E4.
    unfold miSyncShmFenceSetTriggered, miSyncShmFenceReset, miSyncShmFenceCheckTriggered. simpl.
    rewrite E1, E2. simpl. split; eexists; (split; [done|]; split; [done|]); simpl;
      rewrite ?E3, ?E4; by eexists.
  - split; eexists; (split; [done|]; split; [done|]); by eexists.
Qed.

Lemma server_fence_flag_witness : ∃ p', miSyncShmFenceSetTriggered
    (mk_SyncFence false (Some fresh_futex) 5) = Some p' ∧ fence_ready p'.
Proof.
  destruct (server_fence_flag (mk_SyncFence false (Some fresh_futex) 5))
    as [(p' & ? & ? & _) _].
  { split; [exact fresh_futex_wf|done]. }
  exists p'. done.
Defined.

(** Destroying a fence releases the clients that wait for it: [miSyncShmScreenDestroyFence]
    returns, leaves the shared memory set and closes the descriptor once, and every client
    thread that is inside [xshmfence_await] then returns within five steps of threads that are
    already running. *)
Theorem destroy_releases_waiters p f t :
  priv_fence p = Some f → server_ready f → priv_fd p ∈ open_fds t →
  ∃ m, miSyncShmScreenDestroyFence p t
       = Some (Some m, mk_fdtab (open_fds t ∖ {[priv_fd p]}) (stale_closes t))
    ∧ let f' := mk_xshmfence (is_futex f) m in
      xshmfence_wf f' ∧ fence_set f' = true
      ∧ (fence_resets f' = false → ∀ i, fence_waits f' i = true →
         ∃ acts f'' es, fence_run f' acts = Some (f'', es) ∧ (length acts ≤ 5)%nat
           ∧ Awaited i ∈ es ∧ Forall (λ a, ∃ j, a = Run j) acts).
Proof.
  intros Hp Hf Hfd. destruct (server_trigger_returns f Hf) as (f1 & E1 & (Hwf & _) & Hs).
  assert (is_futex f1 = is_futex f) as Hk.
  { revert E1. unfold xshmfence_trigger.
    destruct (xshmfence_call 0 OpTrigger f) as [[f1' es]|] eqn:E; [|done]. intros [= <-]. simpl.
    by eapply xshmfence_call_kind. }
  unfold miSyncShmScreenDestroyFence. rewrite Hp, E1. simpl. exists (real f1). split.
  - unfold close_fd. rewrite decide_True by done. unfold xshmfence_unmap_shm.
    destruct f1 as [b [m|m]]; destruct Hwf as [Hb _]; simpl in Hb; subst b; done.
  - rewrite <-Hk. assert (mk_xshmfence (is_futex f1) (real f1) = f1) as -> by by destruct f1.
    split; [done|]. split; [done|]. intros Hr i Hw. by apply fence_progress.
Qed.

(** A client (thread 1) asleep behind a futex fence, the server idle. *)
Definition sleeping_futex : xshmfence :=
  mk_xshmfence true (ShmFutex (mk_futex (-1) [FIdle; ASleep])).

Lemma sleeping_futex_ready : server_ready sleeping_futex.
Proof. split; [|done]. split; [done|]. split; [simpl; lia|]. by left. Qed.

Lemma destroy_releases_waiters_witness : ∃ m t',
  miSyncShmScreenDestroyFence (mk_SyncFence false (Some sleeping_futex) 300)
    (mk_fdtab {[300]} []) = Some (Some m, t') ∧ fence_set (mk_xshmfence true m) = true.
Proof.
  destruct (destroy_releases_waiters (mk_SyncFence false (Some sleeping_futex) 300) sleeping_futex
    (mk_fdtab {[300]} []) eq_refl sleeping_futex_ready) as (m & E & _ & Hs & _); [set_solver|].
  exists m. eexists. split; [exact E|exact Hs].
Defined.

Lemma close_fd_open fd t :
  fd ∈ open_fds t → close_fd fd t = mk_fdtab (open_fds t ∖ {[fd]}) (stale_closes t).
Proof. intros. unfold close_fd. by rewrite decide_True. Qed.

Lemma close_fd_stale fd t :
  fd ∉ open_fds t → close_fd fd t = mk_fdtab (open_fds t) (stale_closes t ++ [fd]).
Proof. intros. unfold close_fd. by rewrite decide_False. Qed.

Section create.
Variable psize : Z.                 (** [sizeof (struct xshmfence)] of the mutex implementation *)
Hypothesis psize_ne : psize ≠ 4.

Definition shm_size (m : shm) : Z := match m with ShmFutex _ => 4 | ShmPthread _ => psize end.

Definition shm_wf (m : shm) : Prop :=
  match m with ShmFutex f => futex_wf f | ShmPthread p => pthread_wf p end.

(** Descriptors of a fence created from a client's descriptor, on every path: on success the
    fence is the client's, of the client's kind, and the one descriptor left is the fence's; when
    [calloc] fails the descriptor is closed; when [mmap] fails [xshmfence_map_shm] has closed it
    already and [miSyncShmCreateFenceFromFd] closes the same number a second time. *)
Theorem create_fence_descriptors e fd nfd m init p t r p' t' :
  fd ∈ open_fds t → nfd ∉ open_fds t → dup_fd e = Some nfd →
  st_size e = shm_size m → shm_wf m →
  miSyncShmCreateFenceFromFd e fd m init p t = (r, p', t') →
  if calloc_ok e && mmap_ok e then
    r = Success ∧ priv_fd p' = nfd ∧ triggered p' = init
    ∧ (∃ f, priv_fence p' = Some f ∧ xshmfence_wf f ∧ real f = m)
    ∧ t' = mk_fdtab ((open_fds t ∪ {[nfd]}) ∖ {[fd]}) (stale_closes t)
  else
    r = BadValue ∧ priv_fence p' = None
    ∧ t' = mk_fdtab (((open_fds t ∪ {[nfd]}) ∖ {[fd]}) ∖ {[nfd]})
             (stale_closes t ++ (if calloc_ok e then [nfd] else [])).
Proof.
  intros Hfd Hn Hd Hsz Hm. assert (fd ≠ nfd) as Hne by (simpl; set_solver).
  unfold miSyncShmCreateFenceFromFd, os_move_fd, xshmfence_map_shm, xshmfence_real_map_shm.
  rewrite Hd, (close_fd_open fd) by (simpl; set_solver).
  destruct (calloc_ok e); simpl; [destruct (mmap_ok e); simpl|]; intros [= <- <- <-];
    split_and!; try done.
  - eexists. split; [done|]. split; [|done].
    rewrite Hsz. destruct m; simpl; [done|]. split; [by apply Z.eqb_neq|done].
  - rewrite (close_fd_open nfd (mk_fdtab _ _)) by (simpl; set_solver).
    by rewrite close_fd_stale by (simpl; set_solver).
  - rewrite app_nil_r. by rewrite close_fd_open by (simpl; set_solver).
Qed.
End create.

Lemma create_fence_descriptors_witness : ∃ p' t',
  miSyncShmCreateFenceFromFd (mk_sys true 4 false (Some 600)) 9
    (ShmFutex (mk_futex 0 [FIdle; FIdle])) false (mk_SyncFence false None 0) (mk_fdtab {[9]} [])
  = (BadValue, p', t') ∧ stale_closes t' = [600].
Proof.
  destruct (miSyncShmCreateFenceFromFd _ _ _ _ _ _) as [[r p'] t'] eqn:E.
  eapply (create_fence_descriptors 96 ltac:(lia) _ _ 600) in E as (-> & _ & ->).
  2-6: first [reflexivity|exact (proj2 fresh_futex_wf)|simpl; set_solver].
  eexists _, _. done.
Defined.
