(* ===== verification/GpuCopy.v ===== *)
(** * The queue of GPU copies ([lorie/lorie.h], [lorie/InitOutput.c], [lorie/renderer.cpp])

    The X server hands copies of pixmaps to the renderer, another process,
    through a ring of eight entries in shared memory: the server advances
    [writeIndex], the renderer [readIndex] and [completedSerial], and nobody
    takes a lock around the ring.  The two sides are threads of one machine whose step is
    one access to the shared memory; the indices are 32-bit and wrap around, the
    serials 64-bit.  The history fields [published] and [drained] record what
    went in and came out and are read by no step. *)

From S2P Require Import Prelude.

Record LorieGpuCopyRect := mk_rect { x1 : Z; y1 : Z; x2 : Z; y2 : Z }.

(** What the server asks for; the entry adds the serial. *)
Record copy_req := mk_req {
  srcBufferId : Z; dstBufferId : Z; xOff : Z; yOff : Z; rects : list LorieGpuCopyRect
}.
Record LorieGpuCopyEntry := mk_entry { serial : Z; req : copy_req }.

Definition LORIE_GPU_COPY_MAX_RECTS : Z := 16.
Definition LORIE_GPU_COPY_QUEUE_CAPACITY : Z := 8.

Record gpuCopyQueue := mk_queue {
  writeIndex : Z; readIndex : Z; completedSerial : Z; entries : list LorieGpuCopyEntry
}.
#[export] Instance queue_eta : Settable gpuCopyQueue :=
  λ r, mk_queue (writeIndex r) (readIndex r) (completedSerial r) (entries r).

(** ** The server's side *)

(** Where the server is in [lorieTryScheduleGpuCopy]. *)
Inductive spc := SIdle
  | SFill (w : Z) (q : copy_req)             (** the queue had room *)
  | SPublish (w : Z) (e : LorieGpuCopyEntry) (** the entry is written *).

Definition slot (i : Z) : nat := Z.to_nat (i mod LORIE_GPU_COPY_QUEUE_CAPACITY).

(** [writeIndex - readIndex >= LORIE_GPU_COPY_QUEUE_CAPACITY]. *)
Definition queue_full (q : gpuCopyQueue) : bool :=
  LORIE_GPU_COPY_QUEUE_CAPACITY <=? u32 (writeIndex q - readIndex q).

(** The entry with the next serial; the counter. *)
Definition fill_entry (w ser : Z) (r : copy_req) (q : gpuCopyQueue)
  : LorieGpuCopyEntry * Z * gpuCopyQueue :=
  let e := mk_entry (u64 (ser + 1)) r in
  (e, u64 (ser + 1), q <| entries ::= λ l, <[slot w := e]> l |>).

Definition publish_entry (w : Z) (q : gpuCopyQueue) : gpuCopyQueue :=
  q <| writeIndex := u32 (w + 1) |>.

Definition lorieGpuCopyIsDone (q : gpuCopyQueue) (s : Z) : bool := s <=? completedSerial q.

(** ** The renderer's side *)

(** Where the renderer is in [applyPendingGpuCopies] and the loop of
    [applyPendingGpuCopiesLocked], with [lastSerial]. *)
Inductive rpc := RIdle
  | RLoop (last : Z)
  | RHave (last : Z) (e : LorieGpuCopyEntry) (** the entry is copied out *)
  | RFence (last : Z)                        (** before the store to [completedSerial] *).

Record gst := mk_gst {
  q : gpuCopyQueue;
  gpuCopySerialCounter : Z;
  server : spc;
  renderer : rpc;
  published : list LorieGpuCopyEntry;        (** history *)
  drained : list LorieGpuCopyEntry           (** history *)
}.
#[export] Instance gst_eta : Settable gst :=
  λ r, mk_gst (q r) (gpuCopySerialCounter r) (server r) (renderer r) (published r) (drained r).

Inductive gact := Schedule (r : copy_req) | Server | Drain | Renderer.

(** [None] where the thread is not at such a point. *)
Definition server_step (a : gact) (s : gst) : option gst :=
  match a, server s with
  | Schedule r, SIdle =>
    if queue_full (q s) then Some s
    else Some (s <| server := SFill (writeIndex (q s)) r |>)
  | Server, SFill w r =>
    let '(e, n, q') := fill_entry w (gpuCopySerialCounter s) r (q s) in
    Some (s <| q := q' |> <| gpuCopySerialCounter := n |> <| server := SPublish w e |>)
  | Server, SPublish w e =>
    Some (s <| q ::= publish_entry w |> <| server := SIdle |> <| published ::= λ l, l ++ [e] |>)
  | _, _ => None
  end.

(** The head of the loop in [applyPendingGpuCopiesLocked]: copy the entry out, or
    leave. *)
Definition loop_head (last : Z) (s : gst) : option gst :=
  if negb (readIndex (q s) =? writeIndex (q s)) then
    e ← entries (q s) !! slot (readIndex (q s));
    Some (s <| renderer := RHave last e |>)
  else Some (s <| renderer := if last =? 0 then RIdle else RFence last |>).

(** Its end: [lastSerial] and [readIndex++].  In between the entry is drawn,
    which is OpenGL and changes nothing here. *)
Definition loop_end (e : LorieGpuCopyEntry) (s : gst) : option gst :=
  Some (s <| q ::= λ q, q <| readIndex := u32 (readIndex q + 1) |> |>
          <| renderer := RLoop (serial e) |> <| drained ::= λ l, l ++ [e] |>).

Definition applyPendingGpuCopies (a : gact) (s : gst) : option gst :=
  match a, renderer s with
  | Drain, RIdle =>
    if readIndex (q s) =? writeIndex (q s) then Some s else Some (s <| renderer := RLoop 0 |>)
  | Renderer, RLoop last => loop_head last s
  | Renderer, RHave last e => loop_end e s
  | Renderer, RFence last =>
    Some (s <| q ::= λ q, q <| completedSerial := last |> |> <| renderer := RIdle |>)
  | _, _ => None
  end.

Definition gstep (s : gst) (a : gact) : option gst :=
  match a with
  | Schedule _ | Server => server_step a s
  | Drain | Renderer => applyPendingGpuCopies a s
  end.

Fixpoint grun (s : gst) (acts : list gact) : option gst :=
  match acts with [] => Some s | a :: acts' => s' ← gstep s a; grun s' acts' end.

Definition no_req : copy_req := mk_req 0 0 0 0 [].
(** Shared memory starts zeroed. *)
Definition ginit : gst :=
  mk_gst (mk_queue 0 0 0 (replicate 8 (mk_entry 0 no_req))) 0 SIdle RIdle [] [].

(** ** Invariant *)

(** With [W] entries published and [R] drained so far. *)
Record ring_ok (W R : Z) (s : gst) : Prop := mk_ring_ok {
  rk_W : W = Z.of_nat (length (published s));
  rk_R : R = Z.of_nat (length (drained s));
  rk_cap : 0 ≤ W - R ≤ 8;
  rk_write : writeIndex (q s) = u32 W;
  rk_read : readIndex (q s) = u32 R;
  rk_len : length (entries (q s)) = 8%nat;
  rk_fifo : drained s = take (length (drained s)) (published s);
  rk_slots : ∀ i e, R ≤ Z.of_nat i < W → published s !! i = Some e →
    entries (q s) !! slot (Z.of_nat i) = Some e;
  rk_serials : ∀ i e, published s !! i = Some e → serial e = u64 (Z.of_nat i + 1)
}.

Definition server_ok (W R : Z) (s : gst) : Prop :=
  match server s with
  | SIdle => gpuCopySerialCounter s = u64 W
  | SFill w _ => w = writeIndex (q s) ∧ W - R < 8 ∧ gpuCopySerialCounter s = u64 W
  | SPublish w e => w = writeIndex (q s) ∧ W - R < 8 ∧ gpuCopySerialCounter s = u64 (W + 1)
      ∧ serial e = u64 (W + 1) ∧ entries (q s) !! slot W = Some e
  end.

(** Everything drained by earlier passes is completed. *)
Definition renderer_ok (W R : Z) (s : gst) : Prop :=
  0 ≤ completedSerial (q s) ≤ R ∧
  match renderer s with
  | RIdle => completedSerial (q s) = R
  | RLoop last => if last =? 0 then completedSerial (q s) = R ∧ R < W else last = R
  | RHave last e => R < W ∧ published s !! Z.to_nat R = Some e
  | RFence last => last = R
  end.

Definition gst_ok (s : gst) : Prop :=
  ∃ W R, ring_ok W R s ∧ server_ok W R s ∧ renderer_ok W R s.

(** *** Indices *)

Lemma slot_wrap i : slot (u32 i) = slot i.
Proof.
  unfold slot, wrapU, LORIE_GPU_COPY_QUEUE_CAPACITY. f_equal.
  change (2 ^ 32) with (8 * 2 ^ 29). rewrite Z.rem_mul_r by lia.
  rewrite Z.mul_comm, Z.mod_add by lia. apply Z.mod_mod. lia.
Qed.

Lemma slot_lt i : (slot i < 8)%nat.
Proof.
  unfold slot, LORIE_GPU_COPY_QUEUE_CAPACITY. pose proof (Z.mod_pos_bound i 8). lia.
Qed.

Lemma slot_inj i j : i < j < i + 8 → slot i ≠ slot j.
Proof.
  intros H. unfold slot, LORIE_GPU_COPY_QUEUE_CAPACITY.
  pose proof (Z.mod_pos_bound i 8). pose proof (Z.mod_pos_bound j 8).
  pose proof (Z.div_mod i 8). pose proof (Z.div_mod j 8). intros E.
  assert (i mod 8 = j mod 8) by lia. lia.
Qed.

Lemma index_distance W R : 0 ≤ W - R ≤ 8 → u32 (u32 W - u32 R) = W - R.
Proof. intros H. rewrite wrapU_sub_wrap by lia. apply wrapU_id. unfold inU. lia. Qed.

Lemma index_eq W R : 0 ≤ W - R ≤ 8 → (u32 R =? u32 W) = (R =? W).
Proof.
  intros H. destruct (Z.eqb_spec R W) as [->|Hne]; [apply Z.eqb_refl|]. apply Z.eqb_neq. intros E.
  pose proof (index_distance W R H) as D. rewrite E, Z.sub_diag in D.
  unfold wrapU in D. rewrite Z.mod_0_l in D by lia. lia.
Qed.

Lemma u64_small W : 0 ≤ W < 2 ^ 64 → u64 W = W.
Proof. intros. by apply wrapU_id. Qed.

(** *** Steps *)

Lemma ginit_ok : gst_ok ginit.
Proof.
  exists 0, 0. split; [|split; [done|by split]]. split; try done; simpl; try lia.
Qed.

Lemma server_step_ok a s s' : gst_ok s → server_step a s = Some s' → gst_ok s'.
Proof.
  intros (W & R & Hr & Hs & Hc). pose proof Hr as [EW ER Cap Ew Er El Ef Esl Ese].
  unfold server_step. destruct a as [r| | |], (server s) eqn:Esv; try done.
  - unfold queue_full. rewrite Ew, Er, index_distance by done.
    destruct (Z.leb_spec LORIE_GPU_COPY_QUEUE_CAPACITY (W - R)) as [|Hlt]; intros [= <-].
    + by exists W, R.
    + unfold LORIE_GPU_COPY_QUEUE_CAPACITY in Hlt. exists W, R. split; [by split|].
      unfold server_ok in Hs. rewrite Esv in Hs. split; [by split_and!|done].
  - unfold server_ok in Hs. rewrite Esv in Hs. destruct Hs as (-> & Hlt & Hn).
    intros [= <-]. exists W, R. rewrite Ew, Hn, slot_wrap. split; [|split; [|done]].
    + split; try done; simpl; [by rewrite length_insert|].
      intros i e Hi He. rewrite list_lookup_insert_ne by (apply not_eq_sym, slot_inj; lia). eauto.
    + unfold server_ok. simpl. rewrite wrapU_add_l by lia. split_and!; try done.
      apply list_lookup_insert_eq. rewrite El. apply slot_lt.
  - unfold server_ok in Hs. rewrite Esv in Hs. destruct Hs as (-> & Hlt & Hn & Hse & Hent).
    intros [= <-]. exists (W + 1), R. split; [|split; [done|]].
    + split; try done; simpl; try lia.
      * rewrite length_app. simpl. lia.
      * by rewrite Ew, wrapU_add_l by lia.
      * rewrite take_app_le by lia. done.
      * intros j e' Hj. rewrite lookup_app_Some. intros [He|[Hge He]]; [apply Esl; [|done]|].
        -- apply lookup_lt_Some in He. lia.
        -- apply list_lookup_singleton_Some in He as [Hj0 <-].
           assert (Z.of_nat j = W) as -> by lia. done.
      * intros j e'. rewrite lookup_app_Some. intros [He|[Hge He]]; [by apply Ese|].
        apply list_lookup_singleton_Some in He as [Hj0 <-]. rewrite Hse. f_equal. lia.
    + destruct Hc as [Hc1 Hc2]. split; [done|]. simpl. destruct (renderer s) as [|last|last e'|last].
      * done.
      * destruct (last =? 0); [|done]. destruct Hc2. split; [done|lia].
      * destruct Hc2 as [? He]. split; [lia|]. by apply lookup_app_l_Some.
      * done.
Qed.

Lemma renderer_step_ok a s s' :
  gst_ok s → Z.of_nat (length (published s)) < 2 ^ 64 → applyPendingGpuCopies a s = Some s' →
  gst_ok s'.
Proof.
  intros (W & R & Hr & Hs & Hc1 & Hc2). pose proof Hr as [EW ER Cap Ew Er El Ef Esl Ese].
  rewrite <-EW. intros Hb. unfold applyPendingGpuCopies, loop_head, loop_end.
  destruct a as [r| | |], (renderer s) as [|last|last e|last] eqn:Erd; try done.
  - rewrite Ew, Er, index_eq by done. destruct (Z.eqb_spec R W) as [E|E]; intros [= <-].
    + exists W, R. split; [done|]. split; [done|]. split; [done|]. by rewrite Erd.
    + exists W, R. split; [by split|]. split; [done|]. split; [done|]. simpl. split; [done|lia].
  - rewrite Ew, Er, index_eq by done. destruct (Z.eqb_spec R W) as [E|E]; cbn [negb].
    + intros [= <-]. exists W, R. split; [by split|]. split; [done|]. split; [done|]. simpl.
      destruct (last =? 0); [lia|done].
    + destruct (entries (q s) !! slot (u32 R)) as [e|] eqn:He; [|done]. simpl. intros [= <-].
      exists W, R. split; [by split|]. split; [done|]. split; [done|]. simpl. split; [lia|].
      destruct (lookup_lt_is_Some_2 (published s) (Z.to_nat R)) as [e' He']; [lia|].
      rewrite slot_wrap in He. rewrite He'. rewrite <-He. symmetry.
      rewrite <-(Z2Nat.id R) at 1 by lia. apply Esl; [lia|done].
  - intros [= <-]. destruct Hc2 as [Hlt He]. exists W, (R + 1). split; [|split; [|split]].
    + split; try done; simpl; try lia.
      * rewrite length_app. simpl. lia.
      * by rewrite Er, wrapU_add_l by lia.
      * rewrite length_app. simpl. rewrite Nat.add_1_r.
        rewrite (take_S_r _ _ e) by (replace (length (drained s)) with (Z.to_nat R) by lia; done).
        by rewrite <-Ef.
      * intros i e' Hi. apply Esl. lia.
    + unfold server_ok in *. simpl. destruct (server s) as [|w r|w e']; [done|..].
      * destruct Hs as (? & ? & ?). split_and!; try done. lia.
      * destruct Hs as (? & ? & ? & ? & ?). split_and!; try done. lia.
    + simpl. lia.
    + simpl. rewrite (Ese _ _ He), Z2Nat.id, u64_small by lia.
      rewrite (proj2 (Z.eqb_neq _ _)) by lia. done.
  - intros [= <-]. subst last. exists W, R. split; [by split|].
    split; [|split; simpl; lia]. unfold server_ok in *. simpl. by destruct (server s).
Qed.

Lemma gstep_ok s a s' :
  gst_ok s → Z.of_nat (length (published s)) < 2 ^ 64 → gstep s a = Some s' → gst_ok s'.
Proof.
  intros Hs Hb. destruct a; [apply server_step_ok, Hs|apply server_step_ok, Hs|..];
    by apply renderer_step_ok.
Qed.

Lemma gstep_published s a s' :
  gstep s a = Some s' → (length (published s) ≤ length (published s'))%nat.
Proof.
  destruct a; simpl; unfold server_step, applyPendingGpuCopies, loop_head, loop_end.
  - destruct (server s); try done. destruct (queue_full _); by intros [= <-].
  - destruct (server s); try done; intros [= <-]; simpl; [done|]. rewrite length_app. lia.
  - destruct (renderer s); try done. destruct (_ =? _); by intros [= <-].
  - destruct (renderer s); try done; [|by intros [= <-]..].
    destruct (negb _); [|by intros [= <-]]. destruct (entries _ !! _); [|done]. by intros [= <-].
Qed.

Lemma grun_ok acts : ∀ s s',
  gst_ok s → grun s acts = Some s' → Z.of_nat (length (published s')) < 2 ^ 64 →
  gst_ok s' ∧ (length (published s) ≤ length (published s'))%nat.
Proof.
  induction acts as [|a acts IH]; intros s s' Hs; simpl; [by intros [= <-]|].
  destruct (gstep s a) as [s1|] eqn:E; [|done]. simpl. intros E2 Hb.
  pose proof (gstep_published _ _ _ E) as Hp.
  assert (∀ x y, grun x acts = Some y → (length (published x) ≤ length (published y))%nat) as Hm.
  { clear. induction acts as [|a acts IH]; intros x y; simpl; [by intros [= <-]|].
    destruct (gstep x a) as [x1|] eqn:E; [|done]. simpl. intros E2%IH.
    pose proof (gstep_published _ _ _ E). lia. }
  pose proof (Hm _ _ E2). destruct (IH s1 s') as [? _]; try done; [|split; [done|lia]].
  eapply gstep_ok; [done| |done]. lia.
Qed.

Lemma grun_app acts1 acts2 : ∀ s, grun s (acts1 ++ acts2) = (s1 ← grun s acts1; grun s1 acts2).
Proof.
  induction acts1 as [|a acts1 IH]; intros s; simpl; [done|].
  destruct (gstep s a); simpl; [apply IH|done].
Qed.

(** The loop of the renderer, with nothing added meanwhile. *)
Lemma drain_loop n : ∀ s last,
  gst_ok s → Z.of_nat (length (published s)) < 2 ^ 64 → renderer s = RLoop last →
  (length (published s) - length (drained s) = n)%nat →
  ∃ s', grun s (replicate (2 * n + 2) Renderer) = Some s' ∧ renderer s' = RIdle
    ∧ published s' = published s ∧ drained s' = published s
    ∧ completedSerial (q s') = Z.of_nat (length (published s)).
Proof.
  induction n as [|n IH]; intros s last Hs Hb Hrd Hn.
  - destruct Hs as (W & R & [EW ER Cap Ew Er El Ef _ _] & _ & _ & Hc). rewrite Hrd in Hc.
    assert (R = W) as -> by lia. destruct (Z.eqb_spec last 0); [lia|]. subst last.
    eexists. cbn [replicate Nat.mul Nat.add grun gstep applyPendingGpuCopies].
    rewrite Hrd. unfold loop_head. rewrite Ew, Er, Z.eqb_refl.
    simpl. rewrite (proj2 (Z.eqb_neq W 0)) by done. simpl. split; [done|]. simpl.
    split_and!; try done; try lia. rewrite Ef. apply take_ge. lia.
  - pose proof Hs as (W & R & [EW ER Cap Ew Er El Ef _ _] & _ & _ & Hc).
    destruct (lookup_lt_is_Some_2 (entries (q s)) (slot (u32 R))) as [e He].
    { rewrite El. apply slot_lt. }
    set (s1 := s <| renderer := RHave last e |>).
    assert (gstep s Renderer = Some s1) as E1.
    { simpl. rewrite Hrd. unfold loop_head. rewrite Ew, Er, index_eq by done.
      rewrite (proj2 (Z.eqb_neq R W)) by lia. simpl. by rewrite He. }
    pose proof (gstep_ok _ _ _ Hs Hb E1) as Hs1.
    destruct (gstep s1 Renderer) as [s2|] eqn:E2; [|done].
    pose proof (gstep_ok _ _ _ Hs1 Hb E2) as Hs2. injection E2 as E2.
    destruct (IH s2 (serial e)) as (s' & Hr & ?); try by subst s2.
    { subst s2. simpl. rewrite length_app. simpl. lia. }
    exists s'. replace (2 * S n + 2)%nat with (2 + (2 * n + 2))%nat by lia.
    cbn [Nat.add replicate grun]. rewrite E1. cbn [mbind option_bind grun].
    split; [rewrite <-E2 in Hr; exact Hr|]. by subst s2.
Qed.

(** ** What the queue promises *)

(** C27: The ring is a first-in first-out queue of at most eight entries: for every interleaving of
    the two processes from zeroed memory, across wrap-arounds of the 32-bit indices, what the
    renderer has taken out is exactly the beginning of what the server has put in, unaltered and
    in order; at most eight entries are in the queue; serials number them from 1; and the slot
    the server fills holds no entry the renderer has still to read. *)
Theorem gpu_queue_fifo acts s :
  grun ginit acts = Some s → Z.of_nat (length (published s)) < 2 ^ 64 →
  drained s = take (length (drained s)) (published s)
  ∧ (length (drained s) ≤ length (published s) ≤ length (drained s) + 8)%nat
  ∧ (∀ i e, published s !! i = Some e → serial e = Z.of_nat i + 1)
  ∧ (∀ w r i, server s = SFill w r → (length (drained s) ≤ i < length (published s))%nat →
     slot w ≠ slot (Z.of_nat i)).
Proof.
  intros Hrun Hb. destruct (grun_ok _ _ _ ginit_ok Hrun Hb) as [(W & R & Hr & Hs & _) _].
  destruct Hr as [EW ER Cap Ew Er El Ef _ Ese]. split_and!; [done|lia|lia|..].
  - intros i e He. rewrite (Ese _ _ He). apply u64_small. apply lookup_lt_Some in He. lia.
  - intros w r i Hsv Hi. unfold server_ok in Hs. rewrite Hsv in Hs. destruct Hs as (-> & Hlt & _).
    rewrite Ew, slot_wrap. apply not_eq_sym, slot_inj. lia.
Qed.

Definition demo_req (n : Z) : copy_req := mk_req n 1 0 0 [mk_rect 0 0 64 64].
Definition one_copy (n : Z) : list gact := [Schedule (demo_req n); Server; Server].

(** Nine copies, the ninth scheduled while the queue is full. *)
Lemma gpu_queue_fifo_witness : ∃ s,
  grun ginit (concat (one_copy <$> [1; 2; 3; 4; 5; 6; 7; 8]) ++ [Schedule (demo_req 9); Drain;
    Renderer; Renderer]) = Some s
  ∧ length (published s) = 8%nat ∧ drained s = take 1 (published s).
Proof.
  destruct (grun ginit _) as [s|] eqn:E; [|by vm_compute in E]. exists s. split; [done|].
  destruct (gpu_queue_fifo _ _ E) as (H1 & _).
  { vm_compute in E. injection E as <-. simpl. lia. }
  vm_compute in E. injection E as <-. split; [done|exact H1].
Defined.

(** Completion is never reported early: whenever [lorieGpuCopyIsDone] answers TRUE for the
    serial of a scheduled copy, the renderer has taken that entry out of the queue and waited for
    the GPU after it; and between two passes of the renderer it answers TRUE for all it took. *)
Theorem gpu_copy_done_sound acts s i e :
  grun ginit acts = Some s → Z.of_nat (length (published s)) < 2 ^ 64 →
  published s !! i = Some e →
  (lorieGpuCopyIsDone (q s) (serial e) = true → drained s !! i = Some e)
  ∧ (renderer s = RIdle → drained s !! i = Some e → lorieGpuCopyIsDone (q s) (serial e) = true).
Proof.
  intros Hrun Hb He. destruct (grun_ok _ _ _ ginit_ok Hrun Hb) as [(W & R & Hr & _ & Hc1 & Hc2) _].
  destruct Hr as [EW ER Cap Ew Er El Ef _ Ese]. pose proof (lookup_lt_Some _ _ _ He) as Hi.
  unfold lorieGpuCopyIsDone. rewrite (Ese _ _ He), u64_small by lia. rewrite Z.leb_le. split.
  - intros Hd. rewrite Ef, lookup_take_lt; [done|lia].
  - intros Hid Hdr. rewrite Hid in Hc2. apply lookup_lt_Some in Hdr. lia.
Qed.

Lemma gpu_copy_done_sound_witness : ∃ s e,
  grun ginit (one_copy 5 ++ [Drain; Renderer; Renderer; Renderer; Renderer]) = Some s
  ∧ published s !! 0%nat = Some e ∧ drained s !! 0%nat = Some e.
Proof.
  destruct (grun ginit _) as [s|] eqn:E; [|by vm_compute in E].
  destruct (published s !! 0%nat) as [e|] eqn:He; [|vm_compute in E; by simplify_eq].
  exists s, e. split; [done|]. split; [done|].
  destruct (gpu_copy_done_sound _ _ _ _ E ltac:(vm_compute in E; injection E as <-; simpl; lia) He)
    as [H _].
  apply H. vm_compute in E. injection E as <-. vm_compute in He. injection He as <-. done.
Defined.

(** Every scheduled copy completes: from any state the two processes can reach with the
    renderer between two passes and copies waiting, one pass of the renderer, at most 19 steps
    if the server adds nothing, takes out every entry and makes every serial done. *)
Theorem gpu_drain_completes acts s :
  grun ginit acts = Some s → Z.of_nat (length (published s)) < 2 ^ 64 → renderer s = RIdle →
  drained s ≠ published s →
  ∃ n s', grun s (Drain :: replicate n Renderer) = Some s' ∧ (n ≤ 18)%nat
    ∧ published s' = published s ∧ drained s' = published s ∧ renderer s' = RIdle
    ∧ ∀ e, e ∈ published s → lorieGpuCopyIsDone (q s') (serial e) = true.
Proof.
  intros Hrun Hb Hid Hne. destruct (grun_ok _ _ _ ginit_ok Hrun Hb) as [Hok _].
  pose proof Hok as (W & R & Hr & _ & _). destruct Hr as [EW ER Cap Ew Er El Ef _ Ese].
  set (n := (length (published s) - length (drained s))%nat).
  assert (gstep s Drain = Some (s <| renderer := RLoop 0 |>)) as E1.
  { simpl. rewrite Hid, Ew, Er, index_eq by done. destruct (Z.eqb_spec R W) as [E|]; [|done].
    destruct Hne. rewrite Ef. apply take_ge. lia. }
  destruct (drain_loop n _ 0 (gstep_ok _ _ _ Hok Hb E1) Hb eq_refl eq_refl)
    as (s' & Hrun' & Hid' & Hp & Hd & Hcs).
  exists (2 * n + 2)%nat, s'. cbn [grun]. rewrite E1. split; [exact Hrun'|].
  split_and!; try done; [lia|]. intros e [i Hi]%list_elem_of_lookup_1. simpl in Hcs.
  unfold lorieGpuCopyIsDone. rewrite Hcs, (Ese _ _ Hi). apply lookup_lt_Some in Hi.
  rewrite u64_small by lia. apply Z.leb_le. lia.
Qed.

Lemma gpu_drain_completes_witness : ∃ s n s',
  grun ginit (one_copy 5 ++ one_copy 6) = Some s
  ∧ grun s (Drain :: replicate n Renderer) = Some s' ∧ drained s' = published s.
Proof.
  destruct (grun ginit _) as [s|] eqn:E; [|by vm_compute in E].
  destruct (gpu_drain_completes _ _ E) as (n & s' & ? & _ & _ & ? & _).
  1-3: vm_compute in E; injection E as <-; simpl; first [done|lia].
  exists s, n, s'. done.
Defined.
