(* ===== verification/Present.v ===== *)
(** * Vertical blanks ([lorie/InitOutput.c])

    The Present extension asks to be told when the frame counter reaches a
    value; the requests wait in a list and are served before the root window
    is redrawn.  The state is the list, newest first, the frame counter and
    the notifications given so far.  A node of the list has an address of its
    own: Present queues an event again under the id it already has while the
    first node is being served.  What Present does inside a notification is the
    argument [react]: it can queue requests, which go to the front of the list
    that is being walked. *)

From S2P Require Import Prelude.

Record vblank := mk_vblank {
  node : nat;                       (** address of the node *)
  vid : Z; vmsc : Z
}.

Record pst := mk_pst {
  vblank_queue : list vblank;
  next_node : nat;                  (** addresses from here on are free *)
  current_msc : Z;
  notified : list (Z * Z);          (** [present_event_notify]: id and frame *)
  damaged : bool                    (** the damage region of the screen is not empty *)
}.
#[export] Instance pst_eta : Settable pst :=
  λ r, mk_pst (vblank_queue r) (next_node r) (current_msc r) (notified r) (damaged r).

Definition BadAlloc : Z := 11.
Definition Success : Z := 0.

Definition add_vblank (r : Z * Z) (s : pst) : pst :=
  s <| vblank_queue ::= cons (mk_vblank (next_node s) r.1 r.2) |> <| next_node ::= S |>.

(** [xorg_list_add] inserts behind the head. *)
Definition loriePresentQueueVblank (calloc_ok : bool) (event_id msc : Z) : M pst Z :=
  if negb calloc_ok then mret BadAlloc
  else modify (add_vblank (event_id, msc)) ;; mret Success.

Definition loriePresentGetUstMsc (now : Z) (s : pst) : Z * Z := (now, current_msc s).

Fixpoint remove_first (f : vblank → bool) (l : list vblank) : list vblank :=
  match l with
  | [] => []
  | v :: l' => if f v then l' else v :: remove_first f l'
  end.

Definition loriePresentAbortVblank (i : Z) : M pst () :=
  modify (λ s, s <| vblank_queue ::= remove_first (λ v, vid v =? i) |>).

Section present.
(** The requests (id and frame) Present queues when it is notified of an event
    at a frame. *)
Variable react : Z → Z → list (Z * Z).

Definition present_event_notify (i msc : Z) : M pst () :=
  modify (λ s, foldl (λ s r, add_vblank r s) (s <| notified ::= λ l, l ++ [(i, msc)] |>)
                 (react i msc)).

(** [xorg_list_del(&vblank->link)]. *)
Definition unlink (v : vblank) : list vblank → list vblank :=
  remove_first (λ v', (node v' =? node v)%nat).

(** The walk over the elements that were in the list at its start: what is
    queued meanwhile is in front of the walk. *)
Fixpoint perform (todo : list vblank) : M pst () :=
  match todo with
  | [] => skip
  | v :: todo' =>
    s ← get;
    (if vmsc v <=? current_msc s then
       present_event_notify (vid v) (current_msc s) ;;
       modify (λ s, s <| vblank_queue ::= unlink v |>)
     else skip) ;;
    perform todo'
  end.

Definition loriePerformVblanks : M pst () := s ← get; perform (vblank_queue s).

Definition loriePresentAfterFlip (event_id target_msc : Z) : M pst () :=
  modify (λ s, s <| damaged := true |>
                 <| current_msc ::= λ m, Z.min (u64 (m + 1)) target_msc |>) ;;
  s ← get;
  present_event_notify event_id (current_msc s).

Definition loriePresentUnflip (event_id : Z) : M pst () := present_event_notify event_id 0.

(** The first lines of [lorieRedraw]. *)
Definition next_frame : M pst () :=
  modify (λ s, s <| current_msc ::= λ m, u64 (m + 1) |>) ;;
  loriePerformVblanks.

(** ** One walk *)

(** Addresses are unique. *)
Definition nodes_ok (s : pst) : Prop :=
  NoDup (node <$> vblank_queue s) ∧ Forall (λ v, (node v < next_node s)%nat) (vblank_queue s).

Definition due (m : Z) (v : vblank) : Prop := vmsc v ≤ m.
#[local] Instance due_dec m v : Decision (due m v).
Proof. unfold due. apply _. Defined.

(** Queuing puts new nodes in front and changes nothing else. *)
Lemma add_vblanks_run rs : ∀ s, ∃ new,
  foldl (λ s r, add_vblank r s) s rs
  = mk_pst (new ++ vblank_queue s) (next_node s + length rs) (current_msc s) (notified s) (damaged s)
  ∧ Forall (λ v, (next_node s ≤ node v < next_node s + length rs)%nat) new ∧ NoDup (node <$> new)
  ∧ (λ v, (vid v, vmsc v)) <$> new = reverse rs.
Proof.
  induction rs as [|r rs IH]; intros s; simpl.
  { exists []. rewrite Nat.add_0_r. split_and!; try constructor. by destruct s. }
  destruct (IH (add_vblank r s)) as (new & -> & H1 & H2 & H3). simpl in *.
  exists (new ++ [mk_vblank (next_node s) r.1 r.2]). rewrite <-app_assoc. simpl.
  split_and!.
  - f_equal. lia.
  - apply Forall_app. split; [|by repeat constructor; simpl; lia].
    eapply Forall_impl; [exact H1|]. simpl. lia.
  - rewrite fmap_app. apply NoDup_app. split_and!; [done| |apply NoDup_singleton].
    intros n (v & -> & Hv)%list_elem_of_fmap_1 E%list_elem_of_singleton. simpl in E.
    rewrite Forall_forall in H1. specialize (H1 _ Hv). simpl in H1. lia.
  - rewrite fmap_app, H3, reverse_cons. by destruct r.
Qed.

Lemma unlink_mid pre v l :
  NoDup (node <$> pre ++ v :: l) → unlink v (pre ++ v :: l) = pre ++ l.
Proof.
  induction pre as [|u pre IH]; simpl.
  - intros _. unfold unlink. simpl. by rewrite Nat.eqb_refl.
  - intros [Hu Hnd]%NoDup_cons. unfold unlink in *. simpl.
    rewrite (proj2 (Nat.eqb_neq _ _)); [by rewrite IH|]. intros E. apply Hu. rewrite E.
    apply list_elem_of_fmap_2. set_solver.
Qed.

(** What Present queues in answer to a list of events, newest first. *)
Definition reactions (m : Z) (vs : list vblank) : list (Z * Z) :=
  reverse (concat ((λ v, react (vid v) m) <$> vs)).

Lemma vblank_notify_run i m s :
  nodes_ok s → ∃ new n, present_event_notify i m s
    = Some ((), mk_pst (new ++ vblank_queue s) n (current_msc s)
                  (notified s ++ [(i, m)]) (damaged s))
    ∧ NoDup (node <$> new ++ vblank_queue s)
    ∧ Forall (λ v, (node v < n)%nat) (new ++ vblank_queue s)
    ∧ (λ v, (vid v, vmsc v)) <$> new = reverse (react i m).
Proof.
  intros [Hnd Hlt]. unfold present_event_notify. mrun.
  destruct (add_vblanks_run (react i m) (s <| notified ::= λ l, l ++ [(i, m)] |>))
    as (new & E & H1 & H2 & H3). simpl in *. rewrite E. exists new, (next_node s + length (react i m))%nat.
  split; [done|]. split_and!; [|apply Forall_app; split|done].
  - rewrite fmap_app. apply NoDup_app. split_and!; [done| |done].
    intros k (v & -> & Hv)%list_elem_of_fmap_1 (u & E' & Hu)%list_elem_of_fmap_1.
    rewrite Forall_forall in H1, Hlt. specialize (H1 _ Hv). specialize (Hlt _ Hu).
    simpl in *. lia.
  - eapply Forall_impl; [exact H1|]. simpl. lia.
  - eapply Forall_impl; [exact Hlt|]. simpl. lia.
Qed.

Lemma perform_run todo : ∀ s pre,
  vblank_queue s = pre ++ todo → nodes_ok s →
  ∃ s' new, perform todo s = Some ((), s') ∧ nodes_ok s'
    ∧ vblank_queue s' = new ++ pre ++ filter (λ v, ¬ due (current_msc s) v) todo
    ∧ current_msc s' = current_msc s ∧ damaged s' = damaged s
    ∧ notified s' = notified s ++ ((λ v, (vid v, current_msc s)) <$> filter (due (current_msc s)) todo)
    ∧ (λ v, (vid v, vmsc v)) <$> new
      = reactions (current_msc s) (filter (due (current_msc s)) todo).
Proof.
  induction todo as [|v todo IH]; intros s pre Hq Hok.
  { exists s, []. split; [done|]. split_and!; try done. by rewrite !app_nil_r. }
  cbn [perform]. mrun. rewrite !filter_cons.
  destruct (Z.leb_spec (vmsc v) (current_msc s)) as [Hd|Hd].
  - rewrite (decide_True (P := due (current_msc s) v)) by done.
    rewrite (decide_False (P := ¬ due (current_msc s) v)) by (intros H; by apply H).
    destruct (vblank_notify_run (vid v) (current_msc s) s Hok) as (new1 & n1 & -> & H1 & H2 & H3). mrun.
    rewrite Hq in *. rewrite app_assoc in H1, H2. simpl. rewrite (app_assoc new1 pre), unlink_mid by done.
    destruct (IH (mk_pst ((new1 ++ pre) ++ todo) n1 (current_msc s)
      (notified s ++ [(vid v, current_msc s)]) (damaged s)) (new1 ++ pre))
      as (s' & new & E & Hok' & Q & C & D & N & R); [done| |].
    { split; simpl.
      - rewrite fmap_app in *. simpl in H1. apply NoDup_app in H1 as (? & Hx & [_ ?]%NoDup_cons).
        apply NoDup_app. split_and!; [done| |done]. intros x Hx1 Hx2. apply (Hx x Hx1). set_solver.
      - rewrite Forall_app, Forall_cons in H2. apply Forall_app. tauto. }
    simpl in *. exists s', (new ++ new1). rewrite E. split; [done|]. split_and!; try done.
    + by rewrite Q, <-!app_assoc.
    + by rewrite N, <-app_assoc.
    + rewrite fmap_app, R, H3. unfold reactions. simpl. by rewrite reverse_app.
  - rewrite (decide_False (P := due (current_msc s) v)) by (unfold due; lia).
    rewrite (decide_True (P := ¬ due (current_msc s) v)) by (unfold due; lia). mrun.
    destruct (IH s (pre ++ [v])) as (s' & new & E & Hok' & Q & C & D & N & R); [|done|].
    { by rewrite Hq, <-app_assoc. }
    exists s', new. rewrite E. split; [done|]. split_and!; try done.
    by rewrite Q, <-app_assoc.
Qed.

(** C30: One walk serves exactly what is due: [loriePerformVblanks] ends, notifies every queued
    request whose frame has come, once, newest first, with the current frame, and leaves exactly
    the others, in order, behind the requests that Present queued in answer, none of which is
    served in the same walk, even under an id that is just being served. *)
Theorem vblanks_served_once s :
  nodes_ok s →
  ∃ s' new, loriePerformVblanks s = Some ((), s') ∧ nodes_ok s'
    ∧ vblank_queue s' = new ++ filter (λ v, ¬ due (current_msc s) v) (vblank_queue s)
    ∧ current_msc s' = current_msc s
    ∧ notified s' = notified s ++ ((λ v, (vid v, current_msc s)) <$>
                      filter (due (current_msc s)) (vblank_queue s))
    ∧ (λ v, (vid v, vmsc v)) <$> new
      = reactions (current_msc s) (filter (due (current_msc s)) (vblank_queue s)).
Proof.
  intros Hok. destruct (perform_run (vblank_queue s) s [] eq_refl Hok)
    as (s' & new & E & H1 & H2 & H3 & _ & H4 & H5).
  exists s', new. split; [exact E|]. by split_and!.
Qed.

(** ** Several frames *)

Inductive pop := PQueue (i m : Z) | PFrame.
#[export] Instance pop_eq_dec : EqDecision pop.
Proof. solve_decision. Defined.

Definition run_pop (o : pop) : M pst () :=
  match o with
  | PQueue i m => _ ← loriePresentQueueVblank true i m; skip
  | PFrame => next_frame
  end.

Definition frames (ops : list pop) : Z :=
  Z.of_nat (length (filter (λ o, o = PFrame) ops)).

Lemma queue_run i m s :
  nodes_ok s → run_pop (PQueue i m) s = Some ((), add_vblank (i, m) s) ∧ nodes_ok (add_vblank (i, m) s).
Proof.
  intros [H1 H2]. split; [done|]. split; simpl.
  - apply NoDup_cons. split; [|done]. intros (v & E & Hv)%list_elem_of_fmap_1.
    rewrite Forall_forall in H2. specialize (H2 _ Hv). simpl in *. lia.
  - apply Forall_cons. split; [simpl; lia|]. eapply Forall_impl; [exact H2|]. simpl. lia.
Qed.

(** A frame. *)
Lemma frame_run s :
  nodes_ok s → 0 ≤ current_msc s < 2 ^ 64 - 1 →
  ∃ s' new, run_pop PFrame s = Some ((), s') ∧ nodes_ok s' ∧ current_msc s' = current_msc s + 1
    ∧ vblank_queue s' = new ++ filter (λ v, ¬ due (current_msc s + 1) v) (vblank_queue s)
    ∧ notified s' = notified s ++ ((λ v, (vid v, current_msc s + 1)) <$>
                      filter (due (current_msc s + 1)) (vblank_queue s))
    ∧ damaged s' = damaged s.
Proof.
  intros Hok Hm. simpl. unfold next_frame. mrun. rewrite wrapU_id by (unfold inU; lia).
  destruct (perform_run (vblank_queue s)
    (mk_pst (vblank_queue s) (next_node s) (current_msc s + 1) (notified s) (damaged s)) [] eq_refl Hok)
    as (s' & new & E & H1 & H2 & H3 & H6 & H4 & _).
  exists s', new. split; [exact E|]. by split_and!.
Qed.

Lemma frames_cons o ops : frames (o :: ops) = (if decide (o = PFrame) then 1 else 0) + frames ops.
Proof. unfold frames. rewrite filter_cons. case_decide; simpl; lia. Qed.

Lemma run_pops ops : ∀ s,
  nodes_ok s → 0 ≤ current_msc s → current_msc s + frames ops < 2 ^ 64 →
  ∃ s', for_each ops run_pop s = Some ((), s') ∧ notified s `prefix_of` notified s'.
Proof.
  induction ops as [|o ops IH]; intros s Hok H0 Hm; [by exists s|].
  rewrite frames_cons in Hm. pose proof (Zle_0_nat (length (filter (λ o, o = PFrame) ops))) as Hf.
  fold (frames ops) in Hf. cbn [for_each]. destruct o as [i m|].
  - rewrite decide_False in Hm by done. destruct (queue_run i m s Hok) as [E Hok1]. mstep E.
    destruct (IH (add_vblank (i, m) s) Hok1) as (s' & E' & Hp); simpl; [lia..|]. by exists s'.
  - rewrite decide_True in Hm by done.
    destruct (frame_run s Hok) as (s1 & new & E & Hok1 & C1 & _ & N1 & _); [lia|]. mstep E.
    destruct (IH s1 Hok1) as (s' & E' & Hp); [lia..|]. exists s'. split; [done|].
    rewrite N1 in Hp. by eapply prefix_app_l.
Qed.

(** A request is served in time: whatever other requests come in between, a queued request for
    frame [vmsc v] is notified at that frame, or at the next one if it has passed, as soon as the
    screen has been redrawn often enough. *)
Theorem vblank_in_time ops s v :
  nodes_ok s → 0 ≤ current_msc s → current_msc s + frames ops < 2 ^ 64 → v ∈ vblank_queue s →
  Z.max (vmsc v) (current_msc s + 1) ≤ current_msc s + frames ops →
  ∃ s', for_each ops run_pop s = Some ((), s')
    ∧ (vid v, Z.max (vmsc v) (current_msc s + 1)) ∈ notified s'.
Proof.
  revert s. induction ops as [|o ops IH]; intros s Hok H0 Hm Hv Ht.
  { unfold frames in Ht. simpl in Ht. lia. }
  rewrite frames_cons in Hm, Ht. pose proof (Zle_0_nat (length (filter (λ o, o = PFrame) ops))) as Hf.
  fold (frames ops) in Hf. cbn [for_each]. destruct o as [i m|].
  - rewrite decide_False in Hm, Ht by done. destruct (queue_run i m s Hok) as [E Hok1]. mstep E.
    apply (IH (add_vblank (i, m) s)); simpl; try done; try lia. by right.
  - rewrite decide_True in Hm, Ht by done.
    destruct (frame_run s Hok) as (s1 & new & E & Hok1 & C1 & Q1 & N1 & _); [lia|]. mstep E.
    destruct (decide (due (current_msc s + 1) v)) as [Hd|Hd].
    + destruct (run_pops ops s1 Hok1) as (s' & E' & [l Hl]); [lia..|]. exists s'. split; [done|].
      rewrite Hl, N1. unfold due in Hd. rewrite Z.max_r by done.
      apply elem_of_app. left. apply elem_of_app. right.
      apply (list_elem_of_fmap_2' _ _ v); [|done]. by apply list_elem_of_filter.
    + unfold due in Hd.
      destruct (IH s1) as (s' & E' & Hin); try done; try lia.
      { rewrite Q1. apply elem_of_app. right. apply list_elem_of_filter. by unfold due. }
      exists s'. split; [done|]. rewrite Z.max_l in * by lia. done.
Qed.

(** The frame counter after a flip is the smaller of the next frame and the frame the flip was
    meant for, and Present is notified of exactly that frame; so a flip that is executed late, for
    a frame that has passed, sets the counter back. *)
Theorem after_flip_msc event_id target_msc s :
  nodes_ok s → 0 ≤ current_msc s < 2 ^ 64 - 1 →
  ∃ s', loriePresentAfterFlip event_id target_msc s = Some ((), s') ∧ nodes_ok s'
    ∧ current_msc s' = Z.min (current_msc s + 1) target_msc
    ∧ notified s' = notified s ++ [(event_id, current_msc s')] ∧ damaged s' = true
    ∧ (current_msc s' < current_msc s ↔ target_msc < current_msc s).
Proof.
  intros Hok Hm. unfold loriePresentAfterFlip. mrun. simpl. rewrite wrapU_id by (unfold inU; lia).
  match goal with |- context [present_event_notify event_id ?m ?x] =>
    destruct (vblank_notify_run event_id m x Hok) as (new & n & -> & H1 & H2 & _) end.
  eexists. split; [done|]. simpl in *. split; [by split|]. split_and!; try done; lia.
Qed.
End present.

(** Event 7 is queued again when it is notified, as Present does to poll a copy. *)
Definition demo_react (i m : Z) : list (Z * Z) := if i =? 7 then [(7, m + 1)] else [].
Definition demo_pst : pst :=
  mk_pst [mk_vblank 2 9 40; mk_vblank 1 7 10; mk_vblank 0 8 11] 3 10 [] false.

Lemma demo_pst_ok : nodes_ok demo_pst.
Proof. split; simpl; [repeat constructor; set_solver|repeat constructor; simpl; lia]. Qed.

Lemma vblanks_served_once_witness : ∃ s',
  loriePerformVblanks demo_react demo_pst = Some ((), s') ∧ nodes_ok s'
  ∧ notified s' = [(7, 10)].
Proof.
  destruct (vblanks_served_once demo_react demo_pst demo_pst_ok) as (s' & new & E & H & _ & _ & N & _).
  exists s'. split; [exact E|]. split; [exact H|exact N].
Defined.

Lemma vblank_in_time_witness : ∃ s',
  for_each [PQueue 3 3; PFrame; PQueue 4 4; PFrame] (run_pop demo_react) demo_pst = Some ((), s')
  ∧ (8, 11) ∈ notified s'.
Proof.
  destruct (vblank_in_time demo_react [PQueue 3 3; PFrame; PQueue 4 4; PFrame] demo_pst
    (mk_vblank 0 8 11) demo_pst_ok) as (s' & E & H); [simpl; lia|vm_compute; done|set_solver|vm_compute; done|].
  exists s'. split; [exact E|exact H].
Defined.

(** Frame 10, a flip meant for frame 4. *)
Lemma after_flip_msc_witness : ∃ s',
  loriePresentAfterFlip demo_react 5 4 demo_pst = Some ((), s') ∧ current_msc s' = 4.
Proof.
  destruct (after_flip_msc demo_react 5 4 demo_pst demo_pst_ok) as (s' & E & _ & H & _); [simpl; lia|].
  exists s'. split; [exact E|exact H].
Defined.
