(* ===== verification/Screen.v ===== *)
(** * Pixmaps and the screen ([lorie/InitOutput.c])

    The driver's side of the X server: pixmaps whose memory is a [LorieBuffer],
    access to them by the CPU, flips and copies of the Present extension, and
    the redraw of the root window.  The state [screen] joins the buffers of
    [Buffer], the vertical blanks of [Present] and the queue of [GpuCopy] with
    the pixmaps, the flags shared with the renderer and the recursive mutex
    that keeps the renderer away from a picture being drawn.  [M screen] runs
    the whole; actions of a part are lifted.

    EXA finds the private record of a pixmap by its pointer.  What the system,
    the connection to the Android side and the environment answer is the
    argument [senv]. *)

From stdpp Require Import gmap.
From S2P Require Import Prelude Buffer GpuCopy Present.

(** ** State *)

Record LoriePixmapPriv := mk_priv {
  pbuf : Z;                         (** [buffer] *)
  flipped : bool; wasLocked : bool; imported : bool;
  plocked : Z;                      (** [locked]: where the pixels are, or NULL *)
  mem : Z
}.
#[export] Instance priv_eta : Settable LoriePixmapPriv :=
  λ r, mk_priv (pbuf r) (flipped r) (wasLocked r) (imported r) (plocked r) (mem r).

Record pixmap := mk_pixmap {
  pwidth : Z; pheight : Z; devKind : Z;
  ptr : Z;                          (** [devPrivate.ptr] *)
  priv : LoriePixmapPriv
}.
#[export] Instance pixmap_eta : Settable pixmap :=
  λ r, mk_pixmap (pwidth r) (pheight r) (devKind r) (ptr r) (priv r).

(** Messages to the Android side. *)
Inductive wire := EVENT_ADD_BUFFER | EVENT_REMOVE_BUFFER (id : Z).

Record screen := mk_screen {
  bufs : bst;
  pres : pst;
  ring : gpuCopyQueue;
  serials : Z;                      (** [gpuCopySerialCounter] *)
  pixmaps : gmap Z pixmap;
  devPrivate : Z;                   (** the screen pixmap *)
  root_pixmap : Z;                  (** the pixmap of the root window *)
  root_width : Z; root_height : Z;
  legacyDrawing : bool;
  gpuPresentDisabled : bool;
  rootGpuCopyPending : Z;
  drawRequested : bool; surfaceAvailable : bool; waitForNextFrame : bool;
  cursor_moved : bool; cursor_updated : bool;
  rootWindowTextureID : Z;
  lock_depth : nat;                 (** how often we hold [state->lock] *)
  lockingPid : Z;
  conn_fd : Z;
  sent : list wire;
  signals : nat;                    (** [pthread_cond_signal(rendererCond)] *)
  gpuCopyAttempts : Z; gpuCopyOffloads : Z
}.
#[export] Instance screen_eta : Settable screen :=
  λ r, mk_screen (bufs r) (pres r) (ring r) (serials r) (pixmaps r) (devPrivate r)
         (root_pixmap r) (root_width r) (root_height r) (legacyDrawing r) (gpuPresentDisabled r) (rootGpuCopyPending r)
         (drawRequested r) (surfaceAvailable r) (waitForNextFrame r) (cursor_moved r)
         (cursor_updated r) (rootWindowTextureID r) (lock_depth r) (lockingPid r) (conn_fd r)
         (sent r) (signals r) (gpuCopyAttempts r) (gpuCopyOffloads r).

Record senv := mk_senv {
  be : benv;
  pid : Z;
  conn_alive : bool;                (** [poll] finds the connection in order *)
  force_flip : bool;                (** TERMUX_X11_FORCE_FLIP is 1 *)
  react : Z → Z → list (Z * Z);     (** what Present queues when notified *)
  byte_pad : Z → Z                  (** [PixmapBytePad] of a width, for the depth at hand *)
}.

(** The list head [registeredBuffers] of [cmdentrypoint.cpp]. *)
Definition registeredBuffers : Z := 1.

(** ** Parts *)

Definition on_bufs {A} (m : M bst A) : M screen A := λ s,
  match m (bufs s) with Some (a, b) => Some (a, s <| bufs := b |>) | None => None end.
Definition on_pres {A} (m : M pst A) : M screen A := λ s,
  match m (pres s) with Some (a, p) => Some (a, s <| pres := p |>) | None => None end.

(** The pixmap behind a pointer. *)
Definition pix (p : Z) : M screen pixmap := s ← get; of_option (pixmaps s !! p).
Definition upd_pix (p : Z) (f : pixmap → pixmap) : M screen () :=
  x ← pix p; modify (λ s, s <| pixmaps ::= insert p (f x) |>).
Definition upd_priv (p : Z) (f : LoriePixmapPriv → LoriePixmapPriv) : M screen () :=
  upd_pix p (λ x, x <| priv ::= f |>).

Definition cond_signal : M screen () := modify (λ s, s <| signals ::= S |>).

(** [LorieBuffer_lock(priv->buffer, &priv->locked)]. *)
Definition lock_priv (e : senv) (p : Z) : M screen Z :=
  x ← pix p;
  '(ret, out) ← on_bufs (LorieBuffer_lock (be e) (pbuf (priv x)));
  match out with
  | Some a => upd_priv p (λ v, v <| plocked := a |>) ;; mret ret
  | None => mret ret
  end.

(** [lorie_mutex_lock(&state->lock, &state->lockingPid)] once it returns: the
    mutex is recursive. *)
Definition state_lock (e : senv) : M screen () :=
  modify (λ s, s <| lock_depth ::= S |> <| lockingPid := pid e |>).
Definition state_unlock : M screen () :=
  modify (λ s, s <| lockingPid := 0 |> <| lock_depth ::= pred |>).

Definition lorieConnectionAlive (e : senv) (s : screen) : bool :=
  negb (conn_fd s =? -1) && conn_alive e.

Definition lorieRegisterBuffer (e : senv) (b : Z) : M screen () :=
  s ← get;
  d ← on_bufs (LorieBuffer_description b);
  if conn_fd s =? -1 then skip
  else
    found ← on_bufs (LorieBufferList_findById registeredBuffers (id d));
    if negb (found =? 0) then skip
    else if b =? 0 then skip
    else
      modify (λ s, s <| sent ::= λ l, l ++ [EVENT_ADD_BUFFER] |>) ;;
      on_bufs (LorieBuffer_sendHandleToUnixSocket (be e) b (conn_fd s)) ;;
      on_bufs (LorieBuffer_addToList b registeredBuffers).

Definition lorieUnregisterBuffer (b : Z) : M screen () :=
  if b =? 0 then skip
  else
    s ← get;
    d ← on_bufs (LorieBuffer_description b);
    found ← on_bufs (LorieBufferList_findById registeredBuffers (id d));
    if found =? 0 then skip
    else if conn_fd s =? -1 then skip
    else
      modify (λ s, s <| sent ::= λ l, l ++ [EVENT_REMOVE_BUFFER (id d)] |>) ;;
      on_bufs (LorieBuffer_removeFromList b).

(** ** Pixmaps *)

Definition USAGE_LORIEBUFFER_BACKED : Z := 5.

(** [lorieCreatePixmap]: the private record, if any, and [*new_fb_pitch]. *)
Definition lorieCreatePixmap (e : senv) (calloc_ok : bool) (w h usage_hint : Z)
  : M screen (option LoriePixmapPriv * Z) :=
  if negb calloc_ok then mret (None, 0)
  else if (w =? 0) || (h =? 0) then mret (Some (mk_priv 0 false false false 0 0), 0)
  else
    s ← get;
    let ty := if negb (usage_hint =? USAGE_LORIEBUFFER_BACKED) then LORIEBUFFER_REGULAR
              else if legacyDrawing s then LORIEBUFFER_FD else LORIEBUFFER_AHARDWAREBUFFER in
    b ← on_bufs (LorieBuffer_allocate (be e) w h FORMAT_R8G8B8X8 ty);
    d ← on_bufs (LorieBuffer_description b);
    '(_, out) ← on_bufs (LorieBuffer_lock (be e) b);
    if b =? 0 then mret (None, s32 (stride d * 4))
    else mret (Some (mk_priv b false false false (default 0 out) 0), s32 (stride d * 4)).

Definition lorieExaDestroyPixmap (e : senv) (v : LoriePixmapPriv) : M screen () :=
  when (negb (pbuf v =? 0))
    (when (negb (plocked v =? 0)) (_ ← on_bufs (LorieBuffer_unlock (be e) (pbuf v)); skip) ;;
     lorieUnregisterBuffer (pbuf v) ;;
     on_bufs (LorieBuffer_release (be e) (pbuf v))).

Definition lorieModifyPixmapHeader (p data : Z) : M screen bool :=
  x ← pix p;
  when (negb (data =? 0)) (upd_priv p (λ v, v <| mem := data |>)) ;;
  mret false.

(** [pScreen->ModifyPixmapHeader]: EXA calls the driver, which answers FALSE,
    then [miModifyPixmapHeader] stores the arguments that are given, and the
    pointer is cleared. *)
Definition ModifyPixmapHeader (e : senv) (p w h kind data : Z) : M screen () :=
  _ ← lorieModifyPixmapHeader p data;
  upd_pix p (λ x, mk_pixmap (if 0 <? w then w else pwidth x) (if 0 <? h then h else pheight x)
                    (if 0 <? kind then kind
                     else if (kind <? 0) && (0 <? w) then byte_pad e w else devKind x)
                    0 (priv x)).

(** [lorieEnsureGpuSampleable]: the buffer, or 0. *)
Definition lorieEnsureGpuSampleable (e : senv) (p ty : Z) : M screen Z :=
  if p =? 0 then mret 0
  else
    x ← pix p;
    let b := pbuf (priv x) in
    if (b =? 0) || negb (mem (priv x) =? 0) then mret 0
    else
      d ← on_bufs (LorieBuffer_description b);
      (if type d =? LORIEBUFFER_REGULAR then
         on_bufs (LorieBuffer_convert (be e) b ty FORMAT_R8G8B8X8) ;;
         d' ← on_bufs (LorieBuffer_description b);
         when (negb (type d' =? LORIEBUFFER_REGULAR))
           (ModifyPixmapHeader e p 0 0 (s32 (stride d' * 4)) 0 ;; _ ← lock_priv e p; skip)
       else skip) ;;
      d' ← on_bufs (LorieBuffer_description b);
      mret (if type d' =? ty then b else 0).

Definition EXA_PREPARE_DEST : Z := 0.

Definition lorieNeedsGpuLock (p : Z) (v : LoriePixmapPriv) (index : Z) : M screen bool :=
  s ← get;
  if devPrivate s =? p then
    mret ((index =? EXA_PREPARE_DEST) || (truthy (rootGpuCopyPending s) && negb (legacyDrawing s)))
  else if legacyDrawing s || (pbuf v =? 0) then mret false
  else
    d ← on_bufs (LorieBuffer_description (pbuf v));
    if type d =? LORIEBUFFER_AHARDWAREBUFFER
    then on_bufs (LorieBuffer_hasGpuCopyPending (pbuf v)) else mret false.

Definition loriePrepareAccess (e : senv) (p index : Z) : M screen bool :=
  x ← pix p;
  need ← lorieNeedsGpuLock p (priv x) index;
  when need (state_lock e) ;;
  err ← (if (plocked (priv x) =? 0) && (mem (priv x) =? 0) then
           err ← lock_priv e p;
           when (err =? 0) (upd_priv p (λ v, v <| wasLocked := false |>)) ;; mret err
         else upd_priv p (λ v, v <| wasLocked := true |>) ;; mret 0);
  if negb (err =? 0) then mret false
  else
    x ← pix p;
    upd_pix p (λ y, y <| ptr := if negb (plocked (priv x) =? 0) then plocked (priv x)
                                else mem (priv x) |>) ;;
    mret true.

Definition lorieFinishAccess (e : senv) (p index : Z) : M screen () :=
  x ← pix p;
  need ← lorieNeedsGpuLock p (priv x) index;
  when need state_unlock ;;
  when (negb (wasLocked (priv x)))
    (_ ← on_bufs (LorieBuffer_unlock (be e) (pbuf (priv x)));
     upd_priv p (λ v, v <| plocked := 0 |> <| wasLocked := false |>)).

(** [lorieSetWindowPixmap]; the wrapped procedure sets the window's pixmap. *)
Definition lorieSetWindowPixmap (e : senv) (isRoot : bool) (newPixmap : Z) : M screen () :=
  when isRoot
    (s ← get;
     when (negb (root_pixmap s =? 0))
       (x ← pix (root_pixmap s);
        when (negb (pbuf (priv x) =? 0) && negb (plocked (priv x) =? 0))
          (_ ← on_bufs (LorieBuffer_unlock (be e) (pbuf (priv x)));
           upd_priv (root_pixmap s) (λ v, v <| plocked := 0 |> <| wasLocked := false |>))) ;;
     when (negb (newPixmap =? 0))
       (x ← pix newPixmap;
        when (negb (pbuf (priv x) =? 0) && (plocked (priv x) =? 0))
          (_ ← lock_priv e newPixmap; upd_priv newPixmap (λ v, v <| wasLocked := false |>))) ;;
     modify (λ s, s <| root_pixmap := newPixmap |>)).

(** ** Present *)

Definition loriePresentFlip (e : senv) (p : Z) : M screen bool :=
  x ← pix p;
  s ← get;
  let v := priv x in
  if (pbuf v =? 0) || negb (mem v =? 0) || negb (root_width s =? pwidth x)
     || negb (root_width s =? pheight x) then mret false
  else
    d ← on_bufs (LorieBuffer_description (pbuf v));
    if (type d =? LORIEBUFFER_FD) && imported v && negb (force_flip e) then mret false
    else
      _ ← lorieEnsureGpuSampleable e p
            (if legacyDrawing s then LORIEBUFFER_FD else LORIEBUFFER_AHARDWAREBUFFER);
      d' ← on_bufs (LorieBuffer_description (pbuf v));
      if negb (type d' =? LORIEBUFFER_FD) && negb (type d' =? LORIEBUFFER_AHARDWAREBUFFER)
      then mret false
      else lorieRegisterBuffer e (pbuf v) ;; mret true.

Inductive sched := Scheduled (serial dst_buffer : Z) | Refused | Fatal (status : Z).

(** [gpuCopyAttempts++; return FALSE]. *)
Definition refuse : M screen sched :=
  modify (λ s, s <| gpuCopyAttempts ::= λ n, u64 (n + 1) |>) ;; mret Refused.

(** Unlock and lock again, so that the GPU sees what the CPU wrote. *)
Definition relock (e : senv) (p : Z) : M screen Z :=
  x ← pix p;
  if plocked (priv x) =? 0 then mret 0
  else _ ← on_bufs (LorieBuffer_unlock (be e) (pbuf (priv x))); lock_priv e p.

(** The entry is put into the ring. *)
Definition push_entry (r : copy_req) : M screen Z :=
  s ← get;
  let w := writeIndex (ring s) in
  let '(ent, n, q') := fill_entry w (serials s) r (ring s) in
  modify (λ s, s <| ring := publish_entry w q' |> <| serials := n |>) ;;
  mret (serial ent).

(** References and counters of a copy in flight. *)
Definition hold_buffer (e : senv) (b : Z) : M screen () :=
  lorieRegisterBuffer e b ;;
  on_bufs (LorieBuffer_acquire b) ;;
  on_bufs (LorieBuffer_gpuCopyPendingInc b).

(** [lorieTryScheduleGpuCopy]; [update] is the region's boxes, [None] for the
    whole pixmap. *)
Definition lorieTryScheduleGpuCopy (e : senv) (p dst : Z) (update : option (list LorieGpuCopyRect))
    (x_off y_off : Z) : M screen sched :=
  s ← get;
  if gpuPresentDisabled s || legacyDrawing s then refuse
  else if negb (lorieConnectionAlive e s) || negb (surfaceAvailable s) then refuse
  else
    sb ← lorieEnsureGpuSampleable e p LORIEBUFFER_AHARDWAREBUFFER;
    if sb =? 0 then refuse
    else
      db ← lorieEnsureGpuSampleable e dst LORIEBUFFER_AHARDWAREBUFFER;
      if db =? 0 then refuse
      else
        status ← relock e p;
        if negb (status =? 0) then mret (Fatal status)
        else
          x ← pix p;
          let boxes := match update with
                       | Some l => l
                       | None => [mk_rect 0 0 (s16 (pwidth x)) (s16 (pheight x))]
                       end in
          let numRects := Z.of_nat (length boxes) in
          d ← on_bufs (LorieBuffer_description sb);
          d' ← on_bufs (LorieBuffer_description db);
          s ← get;
          if (numRects <=? 0) || (LORIE_GPU_COPY_MAX_RECTS <? numRects) then refuse
          else if queue_full (ring s) then refuse
          else
            hold_buffer e sb ;;
            let dstIsRoot := dst =? devPrivate s in
            (if negb dstIsRoot then hold_buffer e db
             else modify (λ s, s <| rootGpuCopyPending ::= λ n, u64 (n + 1) |>)) ;;
            n ← push_entry (mk_req (id d) (id d') x_off y_off boxes);
            cond_signal ;;
            modify (λ s, s <| gpuCopyAttempts ::= λ n, u64 (n + 1) |>
                           <| gpuCopyOffloads ::= λ n, u64 (n + 1) |>) ;;
            mret (Scheduled n (if dstIsRoot then 0 else db)).

Definition lorieGpuCopyAck (e : senv) (p dst_buffer : Z) : M screen () :=
  b ← (if p =? 0 then mret 0 else x ← pix p; mret (pbuf (priv x)));
  when (negb (b =? 0)) (on_bufs (LorieBuffer_gpuCopyPendingDec b)) ;;
  (if negb (dst_buffer =? 0) then on_bufs (LorieBuffer_gpuCopyPendingDec dst_buffer)
   else modify (λ s, s <| rootGpuCopyPending ::= λ n, u64 (n - 1) |>)) ;;
  when (negb (b =? 0)) (on_bufs (LorieBuffer_release (be e) b)) ;;
  when (negb (dst_buffer =? 0)) (on_bufs (LorieBuffer_release (be e) dst_buffer)).

(** [lorieRedraw]: [Some status] is a [FatalError]. *)
Definition lorieRedraw (e : senv) : M screen (option Z) :=
  s ← get;
  let root := root_pixmap s in
  on_pres (next_frame (react e)) ;;
  modify (λ s, s <| waitForNextFrame := false |>) ;;
  s ← get;
  if negb (lorieConnectionAlive e s) || negb (surfaceAvailable s) then mret None
  else if root =? 0 then mret None
  else
    x ← pix root;
    status ← (if damaged (pres s) && negb (pbuf (priv x) =? 0) then
                status ← relock e root;
                when (status =? 0)
                  (on_pres (modify (λ q, q <| damaged := false |>)) ;;
                   modify (λ s, s <| drawRequested := true |>)) ;;
                mret status
              else mret 0);
    if negb (status =? 0) then mret (Some status)
    else
      s ← get;
      when (drawRequested s || cursor_moved s || cursor_updated s)
        (d ← on_bufs (LorieBuffer_description (pbuf (priv x)));
         modify (λ s, s <| rootWindowTextureID := id d |>) ;;
         cond_signal) ;;
      mret None.

(** ** Import of client memory *)

(** [screen->CreatePixmap] and [screen->DestroyPixmap] of a pixmap with one
    reference: EXA keeps the private record the driver makes. *)
Definition CreatePixmap (e : senv) (newpix : Z) (calloc_ok : bool) (w h usage : Z) : M screen Z :=
  '(v, pitch) ← lorieCreatePixmap e calloc_ok w h usage;
  match v with
  | None => mret 0
  | Some v =>
    modify (λ s, s <| pixmaps ::= insert newpix (mk_pixmap 0 0 0 0 v) |>) ;;
    ModifyPixmapHeader e newpix w h pitch 0 ;;
    mret newpix
  end.

Definition DestroyPixmap (e : senv) (p : Z) : M screen () :=
  x ← pix p;
  lorieExaDestroyPixmap e (priv x) ;;
  modify (λ s, s <| pixmaps ::= delete p |>).

Definition AHARDWAREBUFFER_SOCKET_FD : Z := 1255.
Definition AHARDWAREBUFFER_FLIPPED_SOCKET_FD : Z := 1256.
Definition RAW_MMAPPABLE_FD : Z := 1274.
Definition DRM_FORMAT_MOD_INVALID : Z := 0x00ffffffffffffff.
Definition DRM_FORMAT_MOD_LINEAR : Z := 0.
Definition FORMAT_R8G8B8A8 : Z := 1.

(** What the client's descriptor is. *)
Record client_fd := mk_client_fd {
  fd_num : Z;
  contents : list Z;                (** pixels behind it *)
  fstat_ok : bool; is_sock : bool;
  write_ok : bool                   (** the other end takes a byte *)
}.

Definition fail_import (e : senv) (p : Z) : M screen Z :=
  when (negb (p =? 0)) (DestroyPixmap e p) ;; mret 0.

Definition set_buffer (p b : Z) : M screen () := upd_priv p (λ v, v <| pbuf := b |>).

(** The formats a client may send. *)
Definition import_format (f : Z) : bool :=
  (f =? FORMAT_R8G8B8X8) || (f =? FORMAT_R8G8B8A8) || (f =? FORMAT_B8G8R8A8).

Definition import_raw (e : senv) (c : client_fd) (p w h stride0 off : Z) : M screen Z :=
  b ← on_bufs (LorieBuffer_wrapFileDescriptor (be e) (contents c) w (stride0 / 4) h FORMAT_B8G8R8A8
                 (fd_num c) off);
  set_buffer p b ;;
  if b =? 0 then fail_import e p
  else ModifyPixmapHeader e p w h (s32 stride0) 0 ;; mret p.

Definition import_ahb (e : senv) (c : client_fd) (p : Z) (flip : bool) : M screen Z :=
  upd_priv p (λ v, v <| flipped := flip |>) ;;
  if negb (fstat_ok c) || negb (is_sock c) || negb (write_ok c) then fail_import e p
  else
    '(r, h) ← on_bufs (LorieBuffer_recvAHardwareBufferHandleFromUnixSocket (be e));
    if negb (r =? 0) then fail_import e p
    else
      let hb := default 0 h in
      if hb =? 0 then fail_import e p
      else
        let a := if api26 (be e) then ahb_describe (be e) hb else mk_ahb_desc 0 0 0 0 in
        if negb (import_format (a_format a)) then fail_import e p
        else
          b ← on_bufs (LorieBuffer_wrapAHardwareBuffer (be e) hb);
          set_buffer p b ;;
          if b =? 0 then fail_import e p
          else ModifyPixmapHeader e p (s32 (a_width a)) (s32 (a_height a)) (s32 (a_stride a * 4)) 0 ;;
               mret p.

(** [loriePixmapFromFds]; the arrays have one element where [num_fds] is 1. *)
Definition loriePixmapFromFds (e : senv) (newpix : Z) (calloc_ok : bool) (num_fds : Z)
    (c : client_fd) (w h stride0 off modifier : Z) : M screen Z :=
  if 1 <? num_fds then mret 0
  else if negb (bool_decide (modifier ∈ [RAW_MMAPPABLE_FD; AHARDWAREBUFFER_SOCKET_FD;
      AHARDWAREBUFFER_FLIPPED_SOCKET_FD; DRM_FORMAT_MOD_INVALID; DRM_FORMAT_MOD_LINEAR]))
  then mret 0
  else
    p ← CreatePixmap e newpix calloc_ok 0 0 0;
    if p =? 0 then mret 0
    else
      upd_priv p (λ v, v <| imported := true |>) ;;
      if bool_decide (modifier ∈ [DRM_FORMAT_MOD_INVALID; DRM_FORMAT_MOD_LINEAR; RAW_MMAPPABLE_FD])
      then import_raw e c p w h stride0 off
      else import_ahb e c p (modifier =? AHARDWAREBUFFER_FLIPPED_SOCKET_FD).

Definition DRM_FORMAT_ARGB8888 : Z := 0x34325241.
Definition DRM_FORMAT_XRGB8888 : Z := 0x34325258.

Definition lorieGetFormats : list Z := [DRM_FORMAT_ARGB8888].
Definition lorieGetModifiers (fmt : Z) : list Z :=
  if negb (fmt =? DRM_FORMAT_ARGB8888) && negb (fmt =? DRM_FORMAT_XRGB8888) then []
  else [DRM_FORMAT_MOD_LINEAR].

(** ** Flips *)

(** A full-screen pixmap is flipped only where the screen is square: [loriePresentFlip] compares
    the width of the root window with the pixmap's width and with its height, so that a pixmap of
    exactly the size of a screen that is not square is refused, with nothing changed. *)
Theorem flip_needs_square_screen e p x s :
  pixmaps s !! p = Some x → pwidth x = root_width s → pheight x = root_height s →
  root_width s ≠ root_height s →
  loriePresentFlip e p s = Some (false, s).
Proof.
  intros Hx Hw Hh Hne. unfold loriePresentFlip, pix. mrun. rewrite Hx, Hw, Hh.
  rewrite (proj2 (Z.eqb_neq _ _) Hne). by rewrite !orb_true_r.
Qed.

(** ** What a copy depends on *)

(** Reference count, copies in flight and description of every buffer. *)
Definition buf_core (b : LorieBuffer) : Z * Z * LorieBuffer_Desc :=
  (refcount b, gpuCopyPending b, desc b).
Definition heap_core (st : bst) : gmap Z (Z * Z * LorieBuffer_Desc) := buf_core <$> heap st.

Definition pix_core (s : screen) : gmap Z (Z * Z * Z * Z) :=
  (λ x, (pwidth x, pheight x, pbuf (priv x), mem (priv x))) <$> pixmaps s.

(** The list of registered buffers holds live buffers. *)
Definition lists_ok (st : bst) : Prop :=
  ∃ ps, lists st !! registeredBuffers = Some ps ∧ Forall (λ q, is_Some (heap st !! q)) ps.

(** [s'] has the picture data of [s], with the buffers as in [hc]. *)
Record core (hc : gmap Z (Z * Z * LorieBuffer_Desc)) (s s' : screen) : Prop := mk_core {
  co_heap : heap_core (bufs s') = hc;
  co_pix : pix_core s' = pix_core s;
  co_lists : lists_ok (bufs s');
  co_ring : ring s' = ring s;
  co_serials : serials s' = serials s;
  co_dev : devPrivate s' = devPrivate s;
  co_legacy : legacyDrawing s' = legacyDrawing s;
  co_root : rootGpuCopyPending s' = rootGpuCopyPending s;
  co_conn : conn_fd s' = conn_fd s;
  co_signals : signals s' = signals s;
  co_pres : pres s' = pres s;
  co_wait : waitForNextFrame s' = waitForNextFrame s
}.

Lemma core_trans hc1 hc2 s1 s2 s3 : core hc1 s1 s2 → core hc2 s2 s3 → core hc2 s1 s3.
Proof. intros [] []. split; try done; congruence. Qed.

Lemma core_refl s : lists_ok (bufs s) → core (heap_core (bufs s)) s s.
Proof. by split. Qed.

Lemma heap_core_lookup st p c :
  heap_core st !! p = Some c ↔ ∃ b, heap st !! p = Some b ∧ buf_core b = c.
Proof. unfold heap_core. rewrite lookup_fmap, fmap_Some. naive_solver. Qed.

Lemma heap_core_insert st p b :
  heap_core (st <| heap ::= insert p b |>) = <[p := buf_core b]> (heap_core st).
Proof. unfold heap_core. simpl. apply fmap_insert. Qed.

(** Changing a live buffer keeps the lists in order. *)
Lemma lists_ok_upd st p b b' :
  lists_ok st → heap st !! p = Some b → lists_ok (st <| heap ::= insert p b' |>).
Proof.
  intros (ps & Hps & Hf) Hp. exists ps. split; [done|]. eapply Forall_impl; [exact Hf|].
  intros q Hq. simpl. destruct (decide (q = p)) as [->|]; [by rewrite lookup_insert_eq|].
  by rewrite lookup_insert_ne.
Qed.

Lemma find_by_id_run ps i st :
  Forall (λ q, is_Some (heap st !! q)) ps → ∃ r, find_by_id ps i st = Some (r, st).
Proof.
  induction 1 as [|q ps [b Hb] _ IH]; simpl; [by eexists|]. mstep (deref_run _ _ _ Hb).
  destruct (id (desc b) =? i); [by eexists|done].
Qed.

(** *** Lifted actions *)

Lemma on_bufs_run {A} (m : M bst A) s a st :
  m (bufs s) = Some (a, st) → on_bufs m s = Some (a, s <| bufs := st |>).
Proof. intros E. unfold on_bufs. by rewrite E. Qed.

Lemma description_run p b st :
  p ≠ 0 → heap st !! p = Some b → LorieBuffer_description p st = Some (desc b, st).
Proof.
  intros Hp Hb. unfold LorieBuffer_description. rewrite (proj2 (Z.eqb_neq _ _) Hp).
  mstep (deref_run _ _ _ Hb). done.
Qed.

Lemma on_bufs_pure {A} (m : M bst A) s a :
  m (bufs s) = Some (a, bufs s) → on_bufs m s = Some (a, s).
Proof. intros E. rewrite (on_bufs_run _ _ _ _ E). by destruct s. Qed.

Lemma find_registered_run i st :
  lists_ok st → ∃ r, LorieBufferList_findById registeredBuffers i st = Some (r, st).
Proof.
  intros (ps & Hps & Hf). unfold LorieBufferList_findById. mrun. rewrite Hps.
  by apply find_by_id_run.
Qed.

(** Registering a buffer sends it and links it, and touches nothing else. *)
Lemma register_run e p b s :
  p ≠ 0 → heap (bufs s) !! p = Some b → lists_ok (bufs s) →
  ∃ s', lorieRegisterBuffer e p s = Some ((), s') ∧ core (heap_core (bufs s)) s s'.
Proof.
  intros Hp Hb Hl. unfold lorieRegisterBuffer. mstep (eq_refl (get s)).
  mstep (on_bufs_pure _ _ _ (description_run _ _ _ Hp Hb)).
  destruct (conn_fd s =? -1); [by exists s; split; [|by apply core_refl]|].
  destruct (find_registered_run (id (desc b)) (bufs s) Hl) as [r Hr].
  mstep (on_bufs_pure _ _ _ Hr). destruct (negb (r =? 0)); [by exists s; split; [|by apply core_refl]|].
  rewrite (proj2 (Z.eqb_neq _ _) Hp).
  set (s1 := s <| sent ::= λ l, l ++ [EVENT_ADD_BUFFER] |>).
  mstep (eq_refl (modify _ s)). fold s1.
  assert (∃ k, LorieBuffer_sendHandleToUnixSocket (be e) p (conn_fd s) (bufs s1)
    = Some ((), bufs s <| sock := k |>)) as [k Hk].
  { unfold LorieBuffer_sendHandleToUnixSocket. rewrite (proj2 (Z.eqb_neq _ _) Hp), orb_false_r.
    destruct (conn_fd s <? 0); [exists (sock (bufs s)); by destruct s as [[]]|].
    mstep (deref_run _ _ _ Hb). unfold when.
    repeat case_goal; mrun; eexists; done. }
  mstep (on_bufs_run _ s1 _ _ Hk). destruct Hl as (ps & Hps & Hf).
  eexists. split.
  { apply on_bufs_run. unfold LorieBuffer_addToList. rewrite (proj2 (Z.eqb_neq _ _) Hp). simpl.
    erewrite bind_run by (apply deref_run; exact Hb). done. }
  split; try done. exists (p :: filter (λ q, q ≠ p) ps). split.
  - simpl. rewrite lookup_alter_eq, lookup_fmap, Hps. done.
  - apply Forall_cons. split; [by simpl; rewrite Hb|]. by apply Forall_filter.
Qed.

Lemma s32_small n : 0 ≤ n < 2 ^ 31 → s32 n = n.
Proof. intros H. apply wrapS_id; [lia|]. unfold inS. simpl. lia. Qed.

(** An update of one live buffer. *)
Lemma upd_buf_core hc s0 s p b f :
  core hc s0 s → heap (bufs s) !! p = Some b →
  ∃ s', on_bufs (upd p f) s = Some ((), s') ∧ core (<[p := buf_core (f b)]> hc) s0 s'
    ∧ pixmaps s' = pixmaps s.
Proof.
  intros [H1 H2 H3 H4 H5 H6 H7 H8 H9] Hb. eexists. split; [apply on_bufs_run, upd_run, Hb|].
  split; [|done]. split; try done; simpl.
  - rewrite <-H1. apply heap_core_insert.
  - by eapply lists_ok_upd.
Qed.

(** A reference and a copy in flight more. *)
Lemma hold_run e hc s0 s p r n d :
  core hc s0 s → p ≠ 0 → hc !! p = Some (r, n, d) → 0 < r < 2 ^ 15 - 1 → 0 ≤ n < 2 ^ 31 - 1 →
  ∃ s', hold_buffer e p s = Some ((), s') ∧ core (<[p := (r + 1, n + 1, d)]> hc) s0 s'.
Proof.
  intros Hc Hp Hlk Hr Hn. pose proof Hc as [H1 _ Hl _ _ _ _ _].
  rewrite <-H1 in Hlk. apply heap_core_lookup in Hlk as (b & Hb & [= Er En Ed]).
  unfold hold_buffer. destruct (register_run e p b s Hp Hb Hl) as (s1 & E1 & C1). mstep E1.
  rewrite H1 in C1. pose proof (core_trans _ _ _ _ _ Hc C1) as C1'.
  assert (heap_core (bufs s1) !! p = Some (buf_core b)) as (b1 & Hb1 & [= Er1 En1 Ed1])%heap_core_lookup.
  { rewrite (co_heap _ _ _ C1), <-H1. apply heap_core_lookup. eauto. }
  unfold LorieBuffer_acquire, LorieBuffer_gpuCopyPendingInc. rewrite (proj2 (Z.eqb_neq _ _) Hp).
  destruct (upd_buf_core _ _ _ p b1 (λ b, b <| refcount ::= λ n, s16 (n + 1) |>) C1' Hb1)
    as (s2 & E2 & C2 & _). mstep E2.
  assert (heap_core (bufs s2) !! p = Some (r + 1, n, d)) as (b2 & Hb2 & [= Er2 En2 Ed2])%heap_core_lookup.
  { rewrite (co_heap _ _ _ C2), lookup_insert_eq. unfold buf_core. simpl.
    rewrite s16_small by lia. congruence. }
  destruct (upd_buf_core _ _ _ p b2 (λ b, b <| gpuCopyPending ::= λ n, s32 (n + 1) |>) C2 Hb2)
    as (s3 & E3 & C3 & _). exists s3. split; [done|].
  rewrite insert_insert_eq in C3. unfold buf_core in C3 at 1. simpl in C3.
  by rewrite Er2, En2, Ed2, s32_small in C3 by lia.
Qed.

(** And less; references remain. *)
Lemma unhold_run e hc s0 s p r n d :
  core hc s0 s → p ≠ 0 → hc !! p = Some (r + 1, n, d) → 0 < r < 2 ^ 15 - 1 →
  ∃ s', on_bufs (LorieBuffer_release (be e) p) s = Some ((), s')
    ∧ core (<[p := (r, n, d)]> hc) s0 s'.
Proof.
  intros Hc Hp Hlk Hr. pose proof Hc as [H1 _ _ _ _ _ _ _].
  rewrite <-H1 in Hlk. apply heap_core_lookup in Hlk as (b & Hb & [= Er En Ed]).
  destruct (upd_buf_core _ _ _ p b (λ b, b <| refcount ::= λ n, s16 (n - 1) |>) Hc Hb)
    as (s2 & E2 & C2 & _).
  exists s2. split.
  - unfold on_bufs, LorieBuffer_release in *. rewrite (proj2 (Z.eqb_neq _ _) Hp).
    mstep (deref_run _ _ _ Hb). rewrite (upd_run _ _ _ _ Hb) in E2. mstep (upd_run _ _ _ _ Hb).
    rewrite (proj2 (Z.eqb_neq (refcount b) 1)) by lia. exact E2.
  - unfold buf_core in C2. simpl in C2. rewrite Er, En, Ed, s16_small in C2 by lia.
    by replace (r + 1 - 1) with r in C2 by lia.
Qed.

Lemma pending_dec_run hc s0 s p r n d :
  core hc s0 s → p ≠ 0 → hc !! p = Some (r, n + 1, d) → 0 ≤ n < 2 ^ 31 - 1 →
  ∃ s', on_bufs (LorieBuffer_gpuCopyPendingDec p) s = Some ((), s')
    ∧ core (<[p := (r, n, d)]> hc) s0 s'.
Proof.
  intros Hc Hp Hlk Hn. pose proof Hc as [H1 _ _ _ _ _ _ _].
  rewrite <-H1 in Hlk. apply heap_core_lookup in Hlk as (b & Hb & [= Er En Ed]).
  unfold LorieBuffer_gpuCopyPendingDec. rewrite (proj2 (Z.eqb_neq _ _) Hp).
  destruct (upd_buf_core _ _ _ p b (λ b, b <| gpuCopyPending ::= λ n, s32 (n - 1) |>) Hc Hb)
    as (s2 & E2 & C2 & _).
  exists s2. split; [done|]. unfold buf_core in C2. simpl in C2.
  rewrite Er, En, Ed, s32_small in C2 by lia. by replace (n + 1 - 1) with n in C2 by lia.
Qed.

(** A hardware buffer needs no conversion. *)
Lemma ensure_run e p x b s :
  p ≠ 0 → pixmaps s !! p = Some x → pbuf (priv x) ≠ 0 → mem (priv x) = 0 →
  heap (bufs s) !! pbuf (priv x) = Some b → type (desc b) = LORIEBUFFER_AHARDWAREBUFFER →
  lorieEnsureGpuSampleable e p LORIEBUFFER_AHARDWAREBUFFER s = Some (pbuf (priv x), s).
Proof.
  intros Hp Hx Hb0 Hm Hb Ht. unfold lorieEnsureGpuSampleable. rewrite (proj2 (Z.eqb_neq _ _) Hp).
  assert (pix p s = Some (x, s)) as Epx by (unfold pix; mrun; by rewrite Hx). mstep Epx.
  rewrite (proj2 (Z.eqb_neq _ _) Hb0), Hm. cbn [orb negb Z.eqb].
  mstep (on_bufs_pure _ _ _ (description_run _ _ _ Hb0 Hb)). rewrite Ht. tysimp. cbv iota.
  mstep (eq_refl (skip s)). mstep (on_bufs_pure _ _ _ (description_run _ _ _ Hb0 Hb)).
  rewrite Ht. done.
Qed.

Lemma pix_core_upd s p x f :
  pixmaps s !! p = Some x → pbuf (f (priv x)) = pbuf (priv x) → mem (f (priv x)) = mem (priv x) →
  ∃ s', upd_priv p f s = Some ((), s') ∧ pix_core s' = pix_core s ∧ bufs s' = bufs s
    ∧ s' = (s <| pixmaps ::= insert p (x <| priv ::= f |>) |>).
Proof.
  intros Hx Hb Hm. unfold upd_priv, upd_pix, pix. mrun. rewrite Hx. eexists. split; [done|].
  split; [|by destruct s]. unfold pix_core. simpl. rewrite fmap_insert. simpl. rewrite Hb, Hm.
  apply insert_id. by rewrite lookup_fmap, Hx.
Qed.

Lemma pix_run p x s : pixmaps s !! p = Some x → pix p s = Some (x, s).
Proof. intros H. unfold pix. mrun. by rewrite H. Qed.

(** What the driver relies on: a pixmap that says it is locked has a locked
    buffer. *)
Definition lock_consistent (x : pixmap) (b : LorieBuffer) : Prop :=
  plocked (priv x) ≠ 0 → locked b = true.

(** Unlocking and locking a hardware buffer changes nothing a copy depends on. *)
Lemma relock_run e p x b a s :
  pixmaps s !! p = Some x → pbuf (priv x) ≠ 0 → heap (bufs s) !! pbuf (priv x) = Some b →
  type (desc b) = LORIEBUFFER_AHARDWAREBUFFER → api26 (be e) = true →
  ahb_lock (be e) (buffer (desc b)) = (0, a) → lock_consistent x b → lists_ok (bufs s) →
  ∃ s', relock e p s = Some (0, s') ∧ core (heap_core (bufs s)) s s'.
Proof.
  intros Hx Hb0 Hb Ht Hapi Hlock Hcons Hl. unfold relock. mstep (pix_run _ _ _ Hx).
  destruct (Z.eqb_spec (plocked (priv x)) 0) as [|Hlk]; [by exists s; split; [|by apply core_refl]|].
  specialize (Hcons Hlk).
  assert (LorieBuffer_unlock (be e) (pbuf (priv x)) (bufs s)
    = Some (ahb_unlock (be e) (buffer (desc b)),
        bufs s <| heap ::= insert (pbuf (priv x)) (b <| lockedData := 0 |> <| locked := false |>) |>)) as E1.
  { unfold LorieBuffer_unlock. rewrite (proj2 (Z.eqb_neq _ _) Hb0). mstep (deref_run _ _ _ Hb).
    rewrite Hcons, Ht, Hapi. tysimp. cbv iota. mstep (upd_run _ _ _ _ Hb). done. }
  mstep (on_bufs_run _ _ _ _ E1). unfold lock_priv.
  erewrite bind_run by (apply pix_run; exact Hx). cbv beta.
  set (b1 := b <| lockedData := 0 |> <| locked := false |>).
  assert (LorieBuffer_lock (be e) (pbuf (priv x)) (bufs s <| heap ::= insert (pbuf (priv x)) b1 |>)
    = Some ((0, Some a), bufs s <| heap ::= insert (pbuf (priv x)) b1 |>
        <| heap ::= insert (pbuf (priv x)) (b1 <| lockedData := a |> <| locked := true |>) |>)) as E2.
  { unfold LorieBuffer_lock. rewrite (proj2 (Z.eqb_neq _ _) Hb0).
    erewrite bind_run by (apply deref_run; simpl; apply lookup_insert_eq). cbv beta.
    unfold b1 at 1 2 3. simpl. rewrite Ht, Hapi, Hlock. tysimp. cbv iota.
    erewrite bind_run by (apply upd_run; simpl; apply lookup_insert_eq). done. }
  erewrite bind_run by (apply on_bufs_run; exact E2). cbv beta iota.
  match goal with |- context [upd_priv p ?f] => set (g := f) end.
  match goal with |- context [mbind _ (upd_priv p g) ?x0] => set (s2 := x0) end.
  destruct (pix_core_upd s2 p x g Hx eq_refl eq_refl) as (s' & E3 & Hpc & Hbf & ->). mstep E3.
  eexists. split; [done|]. split; try done.
  - simpl. unfold heap_core. simpl. rewrite !fmap_insert. unfold buf_core at 1 3. simpl.
    rewrite insert_insert_eq. apply insert_id. by rewrite lookup_fmap, Hb.
  - by eapply lists_ok_upd; [eapply lists_ok_upd|apply lookup_insert_eq].
Qed.

(** ** Copies in flight *)

(** A copy that can be offloaded. *)
Record copy_ready (e : senv) (p dst : Z) (x y : pixmap) (b b' : LorieBuffer) (s : screen) : Prop :=
  mk_copy_ready {
  cr_on : gpuPresentDisabled s = false ∧ legacyDrawing s = false;
  cr_conn : lorieConnectionAlive e s = true ∧ surfaceAvailable s = true;
  cr_p : p ≠ 0 ∧ pixmaps s !! p = Some x;
  cr_dst : dst ≠ 0 ∧ pixmaps s !! dst = Some y;
  cr_distinct : p ≠ devPrivate s ∧ pbuf (priv x) ≠ pbuf (priv y);
  cr_x : pbuf (priv x) ≠ 0 ∧ mem (priv x) = 0 ∧ heap (bufs s) !! pbuf (priv x) = Some b;
  cr_y : pbuf (priv y) ≠ 0 ∧ mem (priv y) = 0 ∧ heap (bufs s) !! pbuf (priv y) = Some b';
  cr_types : type (desc b) = LORIEBUFFER_AHARDWAREBUFFER ∧ type (desc b') = LORIEBUFFER_AHARDWAREBUFFER;
  cr_counts : (0 < refcount b < 2 ^ 15 - 1) ∧ (0 < refcount b' < 2 ^ 15 - 1)
    ∧ (0 ≤ gpuCopyPending b < 2 ^ 31 - 1) ∧ (0 ≤ gpuCopyPending b' < 2 ^ 31 - 1)
    ∧ (0 ≤ rootGpuCopyPending s < 2 ^ 64 - 1);
  cr_lock : api26 (be e) = true ∧ lock_consistent x b
    ∧ ∃ a, ahb_lock (be e) (buffer (desc b)) = (0, a);
  cr_room : queue_full (ring s) = false;
  cr_lists : lists_ok (bufs s)
}.

(** The description of a buffer, from the core. *)
Lemma core_description hc s0 s p r n d :
  core hc s0 s → p ≠ 0 → hc !! p = Some (r, n, d) →
  on_bufs (LorieBuffer_description p) s = Some (d, s).
Proof.
  intros [H1 _ _ _ _ _ _ _] Hp Hlk. rewrite <-H1 in Hlk.
  apply heap_core_lookup in Hlk as (b & Hb & [= _ _ <-]). apply on_bufs_pure, description_run; done.
Qed.

Lemma core_pixmap hc s0 s p x :
  core hc s0 s → pixmaps s0 !! p = Some x →
  ∃ x', pixmaps s !! p = Some x' ∧ pbuf (priv x') = pbuf (priv x) ∧ mem (priv x') = mem (priv x)
    ∧ pwidth x' = pwidth x ∧ pheight x' = pheight x.
Proof.
  intros [_ H2 _ _ _ _ _ _] Hx.
  assert (pix_core s !! p = Some (pwidth x, pheight x, pbuf (priv x), mem (priv x))) as H.
  { rewrite H2. unfold pix_core. by rewrite lookup_fmap, Hx. }
  unfold pix_core in H. rewrite lookup_fmap, fmap_Some in H. destruct H as (x' & ? & ?).
  exists x'. naive_solver.
Qed.

(** The buffers while the copy is in flight. *)
Definition held_core (sb db : Z) (b b' : LorieBuffer) (isRoot : bool)
    (hc : gmap Z (Z * Z * LorieBuffer_Desc)) : gmap Z (Z * Z * LorieBuffer_Desc) :=
  let hc1 := <[sb := (refcount b + 1, gpuCopyPending b + 1, desc b)]> hc in
  if isRoot then hc1
  else <[db := (refcount b' + 1, gpuCopyPending b' + 1, desc b')]> hc1.

(** The entry the copy gets. *)
Definition copy_entry (n : Z) (b b' : LorieBuffer) (xo yo : Z) (boxes : list LorieGpuCopyRect)
  : LorieGpuCopyEntry := mk_entry n (mk_req (id (desc b)) (id (desc b')) xo yo boxes).

(** References of the two buffers. *)
Lemma hold_both_run e hc s0 s sb db b b' isRoot :
  core hc s0 s → sb ≠ 0 → db ≠ 0 → sb ≠ db → hc !! sb = Some (buf_core b) → hc !! db = Some (buf_core b') →
  0 < refcount b < 2 ^ 15 - 1 → 0 < refcount b' < 2 ^ 15 - 1 →
  0 ≤ gpuCopyPending b < 2 ^ 31 - 1 → 0 ≤ gpuCopyPending b' < 2 ^ 31 - 1 →
  ∃ s1 s2, hold_buffer e sb s = Some ((), s1)
    ∧ (if negb isRoot then hold_buffer e db
       else modify (λ s, s <| rootGpuCopyPending ::= λ n, u64 (n + 1) |>)) s1 = Some ((), s2)
    ∧ (if isRoot then rootGpuCopyPending s2 = u64 (rootGpuCopyPending s0 + 1)
       else rootGpuCopyPending s2 = rootGpuCopyPending s0)
    ∧ core (held_core sb db b b' isRoot hc) s0 (s2 <| rootGpuCopyPending := rootGpuCopyPending s0 |>).
Proof.
  intros Hc Hs Hd Hne Lb Lb' R1 R2 N1 N2.
  destruct (hold_run e hc s0 s sb _ _ _ Hc Hs Lb R1 N1) as (s1 & E1 & C1).
  destruct isRoot; cbn [negb].
  - eexists s1, _. split; [done|]. split; [done|]. split; [simpl; by rewrite (co_root _ _ _ C1)|].
    destruct C1. by split.
  - destruct (hold_run e _ s0 s1 db (refcount b') (gpuCopyPending b') (desc b') C1) as (s2 & E2 & C2);
      try done; [by rewrite lookup_insert_ne|].
    exists s1, s2. split; [done|]. split; [done|]. split; [apply (co_root _ _ _ C2)|].
    destruct C2. by split.
Qed.

Lemma schedule_run e p dst x y b b' s boxes xo yo :
  copy_ready e p dst x y b b' s → (1 ≤ length boxes ≤ 16)%nat →
  let isRoot := dst =? devPrivate s in
  ∃ s1, lorieTryScheduleGpuCopy e p dst (Some boxes) xo yo s
      = Some (Scheduled (u64 (serials s + 1)) (if isRoot then 0 else pbuf (priv y)), s1)
    ∧ (rootGpuCopyPending s1 = if isRoot then rootGpuCopyPending s + 1 else rootGpuCopyPending s)
    ∧ heap_core (bufs s1) = held_core (pbuf (priv x)) (pbuf (priv y)) b b' isRoot (heap_core (bufs s))
    ∧ pix_core s1 = pix_core s ∧ lists_ok (bufs s1) ∧ devPrivate s1 = devPrivate s
    ∧ legacyDrawing s1 = false
    ∧ ring s1 = publish_entry (writeIndex (ring s))
        (ring s <| entries ::= λ l, <[slot (writeIndex (ring s))
            := copy_entry (u64 (serials s + 1)) b b' xo yo boxes]> l |>).
Proof.
  intros [[On Lg] [Cn Su] [Hp Hx] [Hd Hy] [Hdv Hne] (Xb & Xm & Xh) (Yb & Ym & Yh) [Tb Tb']
    (R1 & R2 & N1 & N2 & N3) (Api & Lc & a & Ha) Room Ls] Hlen isRoot.
  unfold lorieTryScheduleGpuCopy. mstep (eq_refl (get s)). rewrite On, Lg, Cn, Su. cbn [orb negb].
  cbv iota. mstep (ensure_run e p x b s Hp Hx Xb Xm Xh Tb). rewrite (proj2 (Z.eqb_neq _ _) Xb).
  mstep (ensure_run e dst y b' s Hd Hy Yb Ym Yh Tb'). rewrite (proj2 (Z.eqb_neq _ _) Yb).
  destruct (relock_run e p x b a s Hx Xb Xh Tb Api Ha Lc Ls) as (s1 & E1 & C1). mstep E1.
  cbn [negb Z.eqb]. destruct (core_pixmap _ _ _ p x C1 Hx) as (x1 & Hx1 & _).
  mstep (pix_run _ _ _ Hx1).
  assert (heap_core (bufs s) !! pbuf (priv x) = Some (buf_core b)) as Lb
    by (apply heap_core_lookup; eauto).
  assert (heap_core (bufs s) !! pbuf (priv y) = Some (buf_core b')) as Lb'
    by (apply heap_core_lookup; eauto).
  mstep (core_description _ _ _ _ _ _ _ C1 Xb Lb). mstep (core_description _ _ _ _ _ _ _ C1 Yb Lb').
  mstep (eq_refl (get s1)). rewrite (proj2 (Z.leb_gt _ _)) by lia.
  rewrite (proj2 (Z.ltb_ge LORIE_GPU_COPY_MAX_RECTS _)) by (unfold LORIE_GPU_COPY_MAX_RECTS; lia).
  rewrite (co_ring _ _ _ C1), Room. cbn [orb]. rewrite (co_dev _ _ _ C1). fold isRoot.
  destruct (hold_both_run e _ _ _ _ _ b b' isRoot C1 Xb Yb Hne Lb Lb' R1 R2 N1 N2)
    as (s2 & s3 & E2 & E3 & Hroot & C3).
  mstep E2. mstep E3. pose proof C3 as [D1 D2 D3 D4 D5 D6 D7 _ _ _ _ _]. simpl in *.
  unfold push_entry, cond_signal. mrun. simpl. rewrite D5. eexists. split; [done|]. simpl.
  split_and!; try done; [|congruence|by rewrite D4].
  destruct isRoot; rewrite Hroot; [apply wrapU_id; unfold inU; lia|done].
Qed.

Lemma needs_lock_run s p v i r n d :
  devPrivate s ≠ p → legacyDrawing s = false → pbuf v ≠ 0 →
  heap_core (bufs s) !! pbuf v = Some (r, n, d) → type d = LORIEBUFFER_AHARDWAREBUFFER → n ≠ 0 →
  lorieNeedsGpuLock p v i s = Some (true, s).
Proof.
  intros Hp Hl Hb (b & Hlk & [= _ <- <-])%heap_core_lookup Ht Hn. unfold lorieNeedsGpuLock.
  mstep (eq_refl (get s)). rewrite (proj2 (Z.eqb_neq _ _) Hp), Hl, (proj2 (Z.eqb_neq _ _) Hb).
  cbn [orb]. mstep (on_bufs_pure _ _ _ (description_run _ _ _ Hb Hlk)). rewrite Ht. tysimp. cbv iota.
  apply on_bufs_pure. unfold LorieBuffer_hasGpuCopyPending. rewrite (proj2 (Z.eqb_neq _ _) Hb).
  mstep (deref_run _ _ _ Hlk). unfold truthy. by rewrite (proj2 (Z.eqb_neq _ _) Hn).
Qed.

(** The acknowledgement gives back what scheduling took. *)
Lemma ack_run e s p x sb db b b' isRoot hc :
  p ≠ 0 → pixmaps s !! p = Some x → pbuf (priv x) = sb → sb ≠ 0 → db ≠ 0 → sb ≠ db →
  hc !! sb = Some (buf_core b) → hc !! db = Some (buf_core b') → lists_ok (bufs s) →
  heap_core (bufs s) = held_core sb db b b' isRoot hc →
  0 < refcount b < 2 ^ 15 - 1 → 0 < refcount b' < 2 ^ 15 - 1 →
  0 ≤ gpuCopyPending b < 2 ^ 31 - 1 → 0 ≤ gpuCopyPending b' < 2 ^ 31 - 1 →
  ∃ s', lorieGpuCopyAck e p (if isRoot then 0 else db) s = Some ((), s')
    ∧ heap_core (bufs s') = hc ∧ pix_core s' = pix_core s ∧ ring s' = ring s
    ∧ (rootGpuCopyPending s' = if isRoot then u64 (rootGpuCopyPending s - 1) else rootGpuCopyPending s).
Proof.
  intros Hp Hx Hpb Hs Hd Hne Lb Lb' Ls Hh R1 R2 N1 N2. pose proof (core_refl s Ls) as C0.
  rewrite Hh in C0. unfold lorieGpuCopyAck. rewrite (proj2 (Z.eqb_neq _ _) Hp).
  erewrite bind_run by (erewrite bind_run by (apply pix_run; exact Hx); done).
  cbv beta. rewrite Hpb, (proj2 (Z.eqb_neq _ _) Hs). cbn [negb when]. unfold held_core in C0.
  destruct isRoot.
  - destruct (pending_dec_run _ _ _ sb (refcount b + 1) (gpuCopyPending b) (desc b) C0) as (s1 & E1 & C1);
      try done; [apply lookup_insert_eq|].
    mstep E1. cbn [negb Z.eqb when].
    set (s2 := s1 <| rootGpuCopyPending ::= λ n, u64 (n - 1) |>).
    rewrite (bind_run _ _ _ _ s2 eq_refl). cbv beta.
    assert (core (heap_core (bufs s2)) s2 s2) as C2 by (apply core_refl, C1).
    assert (heap_core (bufs s2) !! sb = Some (refcount b + 1, gpuCopyPending b, desc b)) as L2.
    { change (bufs s2) with (bufs s1). rewrite (co_heap _ _ _ C1). apply lookup_insert_eq. }
    destruct (unhold_run e _ _ _ sb (refcount b) (gpuCopyPending b) (desc b) C2 Hs L2 R1) as (s3 & E3 & C3).
    mstep E3. exists s3. split; [done|]. destruct C3 as [D1 D2 _ D4 _ _ _ D8 _]. rewrite D1, D2, D4, D8.
    simpl. destruct C1 as [F1 F2 _ F4 _ _ _ F8 _]. split_and!; try done; [|by rewrite F8].
    rewrite F1, !insert_insert_eq. by apply insert_id.
  - destruct (pending_dec_run _ _ _ sb (refcount b + 1) (gpuCopyPending b) (desc b) C0) as (s1 & E1 & C1);
      try done; [by rewrite lookup_insert_ne, lookup_insert_eq|].
    mstep E1. rewrite (proj2 (Z.eqb_neq _ _) Hd). cbn [negb when].
    destruct (pending_dec_run _ _ _ db (refcount b' + 1) (gpuCopyPending b') (desc b') C1)
      as (s2 & E2 & C2); try done; [by rewrite lookup_insert_ne, lookup_insert_eq|].
    mstep E2.
    destruct (unhold_run e _ _ _ sb (refcount b) (gpuCopyPending b) (desc b) C2) as (s3 & E3 & C3);
      try done; [by rewrite lookup_insert_ne, lookup_insert_eq|].
    mstep E3.
    destruct (unhold_run e _ _ _ db (refcount b') (gpuCopyPending b') (desc b') C3) as (s4 & E4 & C4);
      try done; [by rewrite lookup_insert_ne, lookup_insert_eq|].
    exists s4. split; [exact E4|]. destruct C4 as [D1 D2 _ D4 _ _ _ D8 _]. split_and!; try done.
    rewrite D1. apply map_eq. intros k. destruct (decide (k = db)) as [->|]; [by rewrite lookup_insert_eq|].
    destruct (decide (k = sb)) as [->|].
    + by rewrite lookup_insert_ne, lookup_insert_eq.
    + by rewrite !lookup_insert_ne.
Qed.

(** C28: A copy in flight is protected and leaves nothing behind: whenever the conditions of an offloaded
    copy hold, [lorieTryScheduleGpuCopy] puts one entry with the ids of the two buffers and the
    boxes into the ring under the next serial; until the acknowledgement every CPU access to
    source or destination, be it the screen or a redirected window, takes the renderer's mutex;
    and [lorieGpuCopyAck] then gives every buffer the reference count and the number of copies in
    flight it had. *)
Theorem gpu_copy_in_flight e p dst x y b b' s boxes xo yo :
  copy_ready e p dst x y b b' s → (1 ≤ length boxes ≤ 16)%nat →
  ∃ d s1, lorieTryScheduleGpuCopy e p dst (Some boxes) xo yo s
      = Some (Scheduled (u64 (serials s + 1)) d, s1)
    ∧ ring s1 = publish_entry (writeIndex (ring s))
        (ring s <| entries ::= λ l, <[slot (writeIndex (ring s))
            := copy_entry (u64 (serials s + 1)) b b' xo yo boxes]> l |>)
    ∧ (∀ i, lorieNeedsGpuLock p (priv x) i s1 = Some (true, s1))
    ∧ (∀ i, lorieNeedsGpuLock dst (priv y) i s1 = Some (true, s1))
    ∧ ∃ s2, lorieGpuCopyAck e p d s1 = Some ((), s2)
      ∧ heap_core (bufs s2) = heap_core (bufs s) ∧ rootGpuCopyPending s2 = rootGpuCopyPending s
      ∧ pix_core s2 = pix_core s ∧ ring s2 = ring s1.
Proof.
  intros Hr Hlen. destruct (schedule_run e p dst x y b b' s boxes xo yo Hr Hlen)
    as (s1 & E1 & Hroot & Hh & Hpc & Ls & Hdv & Hlg & Hring).
  destruct Hr as [_ _ [Hp Hx] [Hd Hy] [Hdev Hne] (Xb & _ & Xh) (Yb & _ & Yh) [Tb Tb']
    (R1 & R2 & N1 & N2 & N3) _ _ _].
  assert (heap_core (bufs s) !! pbuf (priv x) = Some (buf_core b)) as Lb by (apply heap_core_lookup; eauto).
  assert (heap_core (bufs s) !! pbuf (priv y) = Some (buf_core b')) as Lb' by (apply heap_core_lookup; eauto).
  assert (∃ x1, pixmaps s1 !! p = Some x1 ∧ pbuf (priv x1) = pbuf (priv x)) as (x1 & Hx1 & Hpb).
  { assert (pix_core s1 !! p = Some (pwidth x, pheight x, pbuf (priv x), mem (priv x))) as H.
    { rewrite Hpc. unfold pix_core. by rewrite lookup_fmap, Hx. }
    unfold pix_core in H. rewrite lookup_fmap, fmap_Some in H. naive_solver. }
  destruct (ack_run e s1 p x1 (pbuf (priv x)) (pbuf (priv y)) b b' (dst =? devPrivate s)
    (heap_core (bufs s))) as (s2 & E2 & A1 & A2 & A3 & A4); try done.
  eexists _, s1. split; [exact E1|]. split; [done|]. split_and!.
  - intros i. eapply needs_lock_run; [congruence|done|done| |exact Tb|].
    + rewrite Hh. unfold held_core. destruct (dst =? devPrivate s); [apply lookup_insert_eq|].
      by rewrite lookup_insert_ne, lookup_insert_eq.
    + lia.
  - intros i. destruct (Z.eqb_spec dst (devPrivate s)) as [E|E].
    + unfold lorieNeedsGpuLock. mrun. rewrite Hdv, <-E, Z.eqb_refl, Hlg, Hroot. unfold truthy.
      rewrite (proj2 (Z.eqb_neq (_ + 1) 0)) by lia. by rewrite orb_true_r.
    + eapply needs_lock_run; [congruence|done|done| |exact Tb'|].
      * rewrite Hh. apply lookup_insert_eq.
      * lia.
  - exists s2. split; [exact E2|]. split_and!; try done; [|congruence].
    rewrite A4, Hroot. destruct (dst =? devPrivate s); [|done].
    rewrite wrapU_id by (unfold inU; lia). lia.
Qed.

(** Two hardware buffers, a window's pixmap (address 30) and the screen pixmap (40). *)
Definition demo_ahb (i h : Z) : LorieBuffer :=
  mk_LorieBuffer 1 (mk_Desc 640 480 640 FORMAT_R8G8B8X8 LORIEBUFFER_AHARDWAREBUFFER i h 0)
    true 0x90000 (-1) 0 0 0 0 0.
Definition demo_pixmap (b : Z) : pixmap :=
  mk_pixmap 640 480 2560 0 (mk_priv b false false false 0x90000 0).
Definition demo_screen : screen :=
  mk_screen (demo_bst <| heap := {[300 := demo_ahb 5 50; 400 := demo_ahb 6 60]} |>)
    (mk_pst [] 0 0 [] true) (q ginit) 0 {[30 := demo_pixmap 300; 40 := demo_pixmap 400]} 40 40
    640 480 false false 0 false true true false false 0 0 0 12 [] 0 0 0.
Definition demo_senv : senv := mk_senv demo_benv 77 true false (λ _ _, []) (λ w, 4 * w).

Lemma demo_copy_ready :
  copy_ready demo_senv 30 40 (demo_pixmap 300) (demo_pixmap 400) (demo_ahb 5 50) (demo_ahb 6 60)
    demo_screen.
Proof.
  split; try (vm_compute; done); try (split_and!; vm_compute; done).
  - split; [done|]. split; [done|]. by eexists.
  - exists []. split; [done|constructor].
Qed.

Lemma gpu_copy_in_flight_witness : ∃ d s1 s2,
  lorieTryScheduleGpuCopy demo_senv 30 40 (Some [mk_rect 0 0 8 8]) 0 0 demo_screen
    = Some (Scheduled 1 d, s1)
  ∧ lorieNeedsGpuLock 40 (priv (demo_pixmap 400)) 1 s1 = Some (true, s1)
  ∧ lorieGpuCopyAck demo_senv 30 d s1 = Some ((), s2)
  ∧ heap_core (bufs s2) = heap_core (bufs demo_screen).
Proof.
  destruct (gpu_copy_in_flight demo_senv 30 40 _ _ _ _ demo_screen [mk_rect 0 0 8 8] 0 0 demo_copy_ready)
    as (d & s1 & E & _ & _ & H & s2 & E2 & H2 & _); [simpl; lia|].
  exists d, s1, s2. split; [exact E|]. split; [apply H|]. split; [exact E2|exact H2].
Defined.

Lemma flip_needs_square_screen_witness :
  loriePresentFlip demo_senv 30 demo_screen = Some (false, demo_screen).
Proof.
  apply (flip_needs_square_screen demo_senv 30 (demo_pixmap 300)); try done.
Defined.

(** ** Access by the CPU *)

(** Whether the renderer's mutex is needed depends on nothing that access
    changes. *)
Definition access_view (s : screen) (p : Z) (v : LoriePixmapPriv) : Z * bool * Z * option (Z * Z) :=
  (devPrivate s, legacyDrawing s, rootGpuCopyPending s,
   (λ b, (type (desc b), gpuCopyPending b)) <$> heap (bufs s) !! pbuf v).

Definition needs (s : screen) (p : Z) (v : LoriePixmapPriv) (index : Z) : bool :=
  if devPrivate s =? p
  then (index =? EXA_PREPARE_DEST) || (truthy (rootGpuCopyPending s) && negb (legacyDrawing s))
  else negb (legacyDrawing s) && negb (pbuf v =? 0) &&
    match heap (bufs s) !! pbuf v with
    | Some b => (type (desc b) =? LORIEBUFFER_AHARDWAREBUFFER) && truthy (gpuCopyPending b)
    | None => false
    end.

Definition live (s : screen) (v : LoriePixmapPriv) : Prop :=
  pbuf v = 0 ∨ is_Some (heap (bufs s) !! pbuf v).

Lemma needs_run s p v index :
  live s v → lorieNeedsGpuLock p v index s = Some (needs s p v index, s).
Proof.
  intros Hl. unfold lorieNeedsGpuLock, needs. mstep (eq_refl (get s)).
  destruct (devPrivate s =? p); [done|]. destruct (legacyDrawing s); [done|]. cbn [orb negb andb].
  destruct (Z.eqb_spec (pbuf v) 0) as [|Hb]; [done|]. destruct Hl as [|[b Hlk]]; [done|].
  mstep (on_bufs_pure _ _ _ (description_run _ _ _ Hb Hlk)). rewrite Hlk. cbn [negb andb].
  destruct (type (desc b) =? _); [|done]. apply on_bufs_pure.
  unfold LorieBuffer_hasGpuCopyPending. rewrite (proj2 (Z.eqb_neq _ _) Hb).
  mstep (deref_run _ _ _ Hlk). done.
Qed.

Lemma needs_ext s s' p v v' index :
  access_view s' p v' = access_view s p v → pbuf v' = pbuf v →
  needs s' p v' index = needs s p v index.
Proof.
  unfold access_view, needs. intros [= -> -> -> E] Ep. rewrite Ep in *.
  destruct (heap (bufs s') !! pbuf v) as [b'|], (heap (bufs s) !! pbuf v) as [b|]; try done.
  injection E as E1 E2. by rewrite E1, E2.
Qed.

(** What locking a buffer that is not locked yields: error and address. *)
Definition lock_result (e : senv) (b : LorieBuffer) : Z * Z :=
  if (type (desc b) =? LORIEBUFFER_REGULAR) || (type (desc b) =? LORIEBUFFER_FD)
  then (0, data (desc b))
  else if (type (desc b) =? LORIEBUFFER_AHARDWAREBUFFER) && api26 (be e)
  then ahb_lock (be e) (buffer (desc b)) else (0, lockedData b).

Lemma lock_priv_run e p x b s :
  pixmaps s !! p = Some x → pbuf (priv x) ≠ 0 → heap (bufs s) !! pbuf (priv x) = Some b →
  locked b = false →
  ∃ ret a, lock_priv e p s = Some (ret, s <| bufs ::= λ st, st <| heap ::= insert (pbuf (priv x))
      (b <| lockedData := a |> <| locked := true |>) |> |>
      <| pixmaps ::= insert p (x <| priv ::= λ v, v <| plocked := a |> |>) |>)
    ∧ (ret, a) = lock_result e b.
Proof.
  intros Hx Hb Hlk Hl. unfold lock_priv. mstep (pix_run _ _ _ Hx).
  match goal with |- ∃ ret a, _ ∧ _ = ?r => destruct r as [ret a] eqn:Er end.
  assert (LorieBuffer_lock (be e) (pbuf (priv x)) (bufs s) = Some ((ret, Some a), bufs s
    <| heap ::= insert (pbuf (priv x)) (b <| lockedData := a |> <| locked := true |>) |>)) as E.
  { unfold LorieBuffer_lock. rewrite (proj2 (Z.eqb_neq _ _) Hb). mstep (deref_run _ _ _ Hlk).
    unfold lock_result in Er. rewrite Hl, Er. mstep (upd_run _ _ _ _ Hlk). done. }
  mstep (on_bufs_run _ _ _ _ E). cbv iota. exists ret, a. split; [|done].
  unfold upd_priv, upd_pix. erewrite bind_run; [|erewrite bind_run by (apply pix_run; exact Hx); done].
  by destruct s.
Qed.

(** The mutex at the start of an access. *)
Definition entered (e : senv) (need : bool) (s : screen) : screen :=
  if need then s <| lock_depth ::= S |> <| lockingPid := pid e |> else s.

Lemma enter_run e need s : when need (state_lock e) s = Some ((), entered e need s).
Proof. by destruct need. Qed.

Lemma upd_pix_run p x f s :
  pixmaps s !! p = Some x → upd_pix p f s = Some ((), s <| pixmaps ::= insert p (f x) |>).
Proof. intros Hx. unfold upd_pix. mstep (pix_run _ _ _ Hx). done. Qed.

Lemma entered_pixmaps e need s : pixmaps (entered e need s) = pixmaps s.
Proof. by destruct need. Qed.
Lemma entered_bufs e need s : bufs (entered e need s) = bufs s.
Proof. by destruct need. Qed.

(** Access to a pixmap that has its memory at hand. *)
Lemma prepare_at_hand e p x index s :
  pixmaps s !! p = Some x → live s (priv x) → (plocked (priv x) =? 0) && (mem (priv x) =? 0) = false →
  ∃ x1, loriePrepareAccess e p index s
      = Some (true, entered e (needs s p (priv x) index) s <| pixmaps ::= insert p x1 |>)
    ∧ priv x1 = (priv x <| wasLocked := true |>)
    ∧ ptr x1 = (if plocked (priv x) =? 0 then mem (priv x) else plocked (priv x)).
Proof.
  intros Hx Hl Hh. unfold loriePrepareAccess. mstep (pix_run _ _ _ Hx).
  mstep (needs_run s p (priv x) index Hl). mstep (enter_run _ _ _). rewrite Hh.
  set (s1 := entered _ _ _). assert (pixmaps s1 !! p = Some x) as Hx1 by (by unfold s1; rewrite entered_pixmaps).
  erewrite bind_run by (unfold upd_priv; erewrite bind_run by (apply upd_pix_run, Hx1); done).
  cbv beta. cbn [Z.eqb negb].
  erewrite bind_run by (apply pix_run; simpl; apply lookup_insert_eq). cbv beta.
  erewrite bind_run by (apply upd_pix_run; simpl; apply lookup_insert_eq). cbv beta.
  eexists. split; [unfold mret, M_ret; simpl; rewrite insert_insert_eq; by destruct s1|].
  simpl. split; [done|]. by destruct (plocked (priv x) =? 0).
Qed.

(** Access that has to lock the buffer. *)
Lemma prepare_locks e p x b index s ret a :
  pixmaps s !! p = Some x → plocked (priv x) = 0 → mem (priv x) = 0 → pbuf (priv x) ≠ 0 →
  heap (bufs s) !! pbuf (priv x) = Some b → locked b = false →
  (ret, a) = lock_result e b →
  ∃ s1 x1, loriePrepareAccess e p index s = Some (ret =? 0, s1)
    ∧ lock_depth s1 = lock_depth (entered e (needs s p (priv x) index) s)
    ∧ lockingPid s1 = lockingPid (entered e (needs s p (priv x) index) s)
    ∧ bufs s1 = (bufs s <| heap ::= insert (pbuf (priv x)) (b <| lockedData := a |> <| locked := true |>) |>)
    ∧ pixmaps s1 = <[p := x1]> (pixmaps s)
    ∧ devPrivate s1 = devPrivate s ∧ legacyDrawing s1 = legacyDrawing s
    ∧ rootGpuCopyPending s1 = rootGpuCopyPending s
    ∧ pbuf (priv x1) = pbuf (priv x) ∧ mem (priv x1) = 0 ∧ plocked (priv x1) = a
    ∧ (ret = 0 → wasLocked (priv x1) = false ∧ ptr x1 = a).
Proof.
  intros Hx Hp Hm Hb Hlk Hl Hra. unfold loriePrepareAccess. mstep (pix_run _ _ _ Hx).
  mstep (needs_run s p (priv x) index (or_intror (mk_is_Some _ _ Hlk))). mstep (enter_run _ _ _).
  rewrite Hp, Hm. cbn [Z.eqb andb]. set (s0 := entered _ _ _).
  destruct (lock_priv_run e p x b s0) as (ret' & a' & E & Hra'); try done;
    [by unfold s0; rewrite entered_pixmaps|by unfold s0; rewrite entered_bufs|].
  rewrite <-Hra in Hra'. injection Hra' as -> ->. destruct (Z.eqb_spec ret 0) as [->|Hr].
  - erewrite bind_run; cycle 1.
    { mstep E. cbn [Z.eqb when].
      erewrite bind_run by (apply upd_pix_run; simpl; apply lookup_insert_eq). done. }
    cbv beta. cbn [Z.eqb negb].
    erewrite bind_run by (apply pix_run; simpl; apply lookup_insert_eq). cbv beta.
    erewrite bind_run by (apply upd_pix_run; simpl; apply lookup_insert_eq). cbv beta.
    eexists _, _. split; [done|]. simpl. unfold s0. rewrite !insert_insert_eq, entered_pixmaps, entered_bufs.
    split_and!; try done; try (by unfold entered; destruct (needs _ _ _ _)).
    intros _. simpl. split; [done|]. destruct (Z.eqb_spec a 0); simpl; congruence.
  - erewrite bind_run; cycle 1.
    { mstep E. rewrite (proj2 (Z.eqb_neq _ _) Hr). cbn [when]. done. }
    cbv beta. rewrite (proj2 (Z.eqb_neq _ _) Hr). cbn [negb].
    eexists _, _. split; [done|]. simpl. unfold s0. rewrite entered_pixmaps, entered_bufs.
    split_and!; try done; by unfold entered; destruct (needs _ _ _ _).
Qed.

(** Access can only lock a buffer there is and nobody has locked. *)
Lemma prepare_true_locks e p x index s s1 :
  pixmaps s !! p = Some x → live s (priv x) → plocked (priv x) = 0 → mem (priv x) = 0 →
  loriePrepareAccess e p index s = Some (true, s1) →
  pbuf (priv x) ≠ 0 ∧ ∃ b, heap (bufs s) !! pbuf (priv x) = Some b ∧ locked b = false.
Proof.
  intros Hx Hl Hp Hm. unfold loriePrepareAccess. mstep (pix_run _ _ _ Hx).
  mstep (needs_run s p (priv x) index Hl). mstep (enter_run _ _ _). rewrite Hp, Hm. cbn [Z.eqb andb].
  set (s0 := entered _ _ _). unfold lock_priv.
  assert (pixmaps s0 !! p = Some x) as Hx0 by (by unfold s0; rewrite entered_pixmaps).
  assert (bufs s0 = bufs s) as Hb0 by apply entered_bufs. mrun. rewrite (pix_run _ _ _ Hx0).
  destruct (Z.eqb_spec (pbuf (priv x)) 0) as [Hb|Hb]; [by rewrite Hb|].
  destruct Hl as [|[b Hlk]]; [done|]. destruct (locked b) eqn:Elb; [|by eauto].
  assert (LorieBuffer_lock (be e) (pbuf (priv x)) (bufs s0)
    = Some ((EEXIST, Some (lockedData b)), bufs s0)) as E.
  { unfold LorieBuffer_lock. rewrite (proj2 (Z.eqb_neq _ _) Hb), Hb0.
    mstep (deref_run _ _ _ Hlk). by rewrite Elb. }
  rewrite (on_bufs_pure _ _ _ E). unfold upd_priv. by rewrite (upd_pix_run _ _ _ _ Hx0).
Qed.

(** The mutex at the end of an access. *)
Definition left (need : bool) (s : screen) : screen :=
  if need then s <| lockingPid := 0 |> <| lock_depth ::= pred |> else s.

Lemma leave_run need s : when need state_unlock s = Some ((), left need s).
Proof. by destruct need. Qed.
Lemma left_pixmaps need s : pixmaps (left need s) = pixmaps s.
Proof. by destruct need. Qed.
Lemma left_bufs need s : bufs (left need s) = bufs s.
Proof. by destruct need. Qed.
Lemma left_entered e need s s' :
  lock_depth s' = lock_depth (entered e need s) → lock_depth (left need s') = lock_depth s.
Proof. destruct need; simpl; [|done]. by intros ->. Qed.

(** The end of an access that locked the buffer. *)
Lemma finish_unlocks e p x b index s :
  pixmaps s !! p = Some x → pbuf (priv x) ≠ 0 → heap (bufs s) !! pbuf (priv x) = Some b →
  locked b = true → wasLocked (priv x) = false →
  lorieFinishAccess e p index s = Some ((), left (needs s p (priv x) index) s
    <| bufs := bufs s <| heap ::= insert (pbuf (priv x)) (b <| lockedData := 0 |> <| locked := false |>) |> |>
    <| pixmaps ::= insert p (x <| priv ::= λ v, v <| plocked := 0 |> <| wasLocked := false |> |>) |>).
Proof.
  intros Hx Hb Hlk Hl Hw. unfold lorieFinishAccess. mstep (pix_run _ _ _ Hx).
  mstep (needs_run s p (priv x) index (or_intror (mk_is_Some _ _ Hlk))). mstep (leave_run _ _).
  rewrite Hw. cbn [negb when]. set (s2 := left _ _).
  assert (LorieBuffer_unlock (be e) (pbuf (priv x)) (bufs s2) = Some
    (if (type (desc b) =? LORIEBUFFER_AHARDWAREBUFFER) && api26 (be e)
     then ahb_unlock (be e) (buffer (desc b)) else 0, bufs s <| heap ::= insert (pbuf (priv x))
       (b <| lockedData := 0 |> <| locked := false |>) |>)) as E2.
  { unfold LorieBuffer_unlock, s2. rewrite (proj2 (Z.eqb_neq _ _) Hb), left_bufs.
    mstep (deref_run _ _ _ Hlk). rewrite Hl. cbn [negb]. mstep (upd_run _ _ _ _ Hlk). done. }
  mstep (on_bufs_run _ _ _ _ E2). apply upd_pix_run. simpl. unfold s2. by rewrite left_pixmaps.
Qed.

(** C29: Access brackets: whenever [loriePrepareAccess] answers TRUE the pixmap's pointer is its memory,
    and the [lorieFinishAccess] that follows undoes it: the renderer's mutex is held as often as
    before, every buffer is as before, locked or not, and so is the pixmap's record of it. *)
Theorem access_balanced e p x index s s1 :
  pixmaps s !! p = Some x → live s (priv x) →
  (∀ b, heap (bufs s) !! pbuf (priv x) = Some b → locked b = false → lockedData b = 0) →
  loriePrepareAccess e p index s = Some (true, s1) →
  (∃ x1, pixmaps s1 !! p = Some x1
     ∧ ptr x1 = if plocked (priv x1) =? 0 then mem (priv x1) else plocked (priv x1))
  ∧ ∃ s2 x2, lorieFinishAccess e p index s1 = Some ((), s2)
    ∧ lock_depth s2 = lock_depth s ∧ heap (bufs s2) = heap (bufs s)
    ∧ pixmaps s2 !! p = Some x2 ∧ pbuf (priv x2) = pbuf (priv x) ∧ mem (priv x2) = mem (priv x)
    ∧ plocked (priv x2) = plocked (priv x).
Proof.
  intros Hx Hl Hld HE. destruct ((plocked (priv x) =? 0) && (mem (priv x) =? 0)) eqn:Hh.
  - apply andb_true_iff in Hh as [Hp%Z.eqb_eq Hm%Z.eqb_eq].
    destruct (prepare_true_locks e p x index s s1 Hx Hl Hp Hm HE) as (Hb & b & Hlk & Elb).
    destruct (lock_result e b) as [ret a] eqn:Er.
    destruct (prepare_locks e p x b index s ret a)
      as (s1' & x1 & E1 & D1 & _ & B1 & P1 & V1 & V2 & V3 & X1 & X2 & X3 & X4); try done.
    rewrite E1 in HE. injection HE as Hret ->. apply Z.eqb_eq in Hret. destruct (X4 Hret) as [W1 T1].
    assert (pixmaps s1 !! p = Some x1) as Hx1 by (rewrite P1; apply lookup_insert_eq).
    split; [exists x1; rewrite T1, X3, X2; split; [done|destruct (Z.eqb_spec a 0); congruence]|].
    set (b1 := b <| lockedData := a |> <| locked := true |>) in *.
    assert (heap (bufs s1) !! pbuf (priv x1) = Some b1) as Hlk1.
    { rewrite B1, X1. apply lookup_insert_eq. }
    assert (needs s1 p (priv x1) index = needs s p (priv x) index) as Hn.
    { apply needs_ext; [|done]. unfold access_view. by rewrite V1, V2, V3, Hlk1, Hlk. }
    eexists _, _. split; [apply (finish_unlocks e p x1 b1); try done; congruence|]. rewrite Hn. simpl.
    rewrite lookup_insert_eq. split; [by eapply left_entered|]. split; [|split; [reflexivity|]; simpl; split_and!; congruence].
    rewrite B1, X1. simpl. rewrite insert_insert_eq. apply insert_id. rewrite Hlk. f_equal.
    specialize (Hld b Hlk Elb). destruct b. simpl in *. by subst.
  - destruct (prepare_at_hand e p x index s Hx Hl Hh) as (x1 & E1 & X1 & T1).
    rewrite E1 in HE. injection HE as <-. split.
    { exists x1. simpl. rewrite lookup_insert_eq, X1. done. }
    set (need := needs s p (priv x) index). set (s1 := entered e need s <| pixmaps ::= insert p x1 |>).
    assert (needs s1 p (priv x1) index = need) as Hn.
    { apply needs_ext; [|by rewrite X1]. unfold access_view, s1. rewrite X1. simpl.
      rewrite entered_bufs. by destruct need. }
    exists (left need s1), x1. unfold lorieFinishAccess.
    erewrite bind_run by (apply pix_run; simpl; apply lookup_insert_eq). cbv beta.
    mstep (needs_run s1 p (priv x1) index ltac:(unfold live, s1; rewrite X1; simpl; by rewrite entered_bufs)).
    rewrite Hn, X1. simpl. mstep (leave_run need s1). split; [done|]. rewrite left_pixmaps, left_bufs.
    unfold s1 at 2 3. simpl. rewrite entered_bufs, lookup_insert_eq.
    split_and!; try done. by apply (left_entered e).
Qed.

Lemma access_balanced_witness : ∃ s1 s2,
  loriePrepareAccess demo_senv 40 EXA_PREPARE_DEST demo_screen = Some (true, s1)
  ∧ lock_depth s1 = 1%nat
  ∧ lorieFinishAccess demo_senv 40 EXA_PREPARE_DEST s1 = Some ((), s2) ∧ lock_depth s2 = 0%nat.
Proof.
  destruct (loriePrepareAccess demo_senv 40 EXA_PREPARE_DEST demo_screen) as [[[] s1]|] eqn:E;
    [|by vm_compute in E..].
  destruct (access_balanced demo_senv 40 (demo_pixmap 400) EXA_PREPARE_DEST demo_screen s1)
    as (_ & s2 & x2 & E2 & H & _); [done|right; by eexists| |done|].
  - intros b Hb. vm_compute in Hb. by simplify_eq.
  - exists s1, s2. split; [done|]. split; [|split; [exact E2|exact H]].
    vm_compute in E. by injection E as <-.
Defined.

(** An access that fails keeps the mutex: when the memory of a pixmap that needs the renderer's
    mutex cannot be locked, [loriePrepareAccess] answers FALSE with the mutex held once more than
    before, and since EXA calls [lorieFinishAccess] only after TRUE, nothing releases it. *)
Theorem failed_access_keeps_mutex e p x b index s err a :
  pixmaps s !! p = Some x → plocked (priv x) = 0 → mem (priv x) = 0 → pbuf (priv x) ≠ 0 →
  heap (bufs s) !! pbuf (priv x) = Some b → locked b = false → lock_result e b = (err, a) → err ≠ 0 →
  needs s p (priv x) index = true →
  ∃ s', loriePrepareAccess e p index s = Some (false, s')
    ∧ lock_depth s' = S (lock_depth s) ∧ lockingPid s' = pid e.
Proof.
  intros Hx Hp Hm Hb Hlk Hl Hr Herr Hn.
  destruct (prepare_locks e p x b index s err a) as (s1 & x1 & E & D & P & _); try done.
  rewrite (proj2 (Z.eqb_neq _ _) Herr) in E. exists s1. split; [done|]. rewrite D, P, Hn. done.
Qed.

(** The screen pixmap, unlocked, on a device whose [AHardwareBuffer_lock] fails. *)
Definition broken_senv : senv :=
  mk_senv (mk_benv true 4096 20 (-1) (-1) 0 0 (λ f, f + 100) (λ f o, 0x70000 + f) 0x1000 0x2000
    (λ _ _ _, (0, 9)) (λ _, mk_ahb_desc 3 2 4 9) (λ _, (-22, 0)) (λ _, 0) (λ h, h)
    (λ f, f + 50) true true true (λ _, 77) 5 true) 77 true false (λ _ _, []) (λ w, 4 * w).
Definition unlocked_screen : screen :=
  demo_screen <| bufs ::= λ st, st <| heap := {[400 := demo_ahb 6 60 <| locked := false |> <| lockedData := 0 |>]} |> |>
    <| pixmaps := {[40 := demo_pixmap 400 <| priv ::= λ v, v <| plocked := 0 |> |>]} |>.

Lemma failed_access_keeps_mutex_witness : ∃ s',
  loriePrepareAccess broken_senv 40 EXA_PREPARE_DEST unlocked_screen = Some (false, s')
  ∧ lock_depth s' = 1%nat.
Proof.
  destruct (failed_access_keeps_mutex broken_senv 40 (demo_pixmap 400 <| priv ::= λ v, v <| plocked := 0 |> |>)
    (demo_ahb 6 60 <| locked := false |> <| lockedData := 0 |>) EXA_PREPARE_DEST unlocked_screen (-22) 0)
    as (s' & E & H & _); try done.
  exists s'. split; [exact E|exact H].
Defined.

(** ** Import *)

Lemma modify_header_run e p x w h kind s :
  pixmaps s !! p = Some x →
  ModifyPixmapHeader e p w h kind 0 s = Some ((), s <| pixmaps ::= insert p
    (mk_pixmap (if 0 <? w then w else pwidth x) (if 0 <? h then h else pheight x)
       (if 0 <? kind then kind else if (kind <? 0) && (0 <? w) then byte_pad e w else devKind x)
       0 (priv x)) |>).
Proof.
  intros Hx. unfold ModifyPixmapHeader, lorieModifyPixmapHeader.
  erewrite bind_run by (mstep (pix_run _ _ _ Hx); done). cbv beta. by rewrite (upd_pix_run _ _ _ _ Hx).
Qed.

Lemma create_empty_run e newpix usage s :
  CreatePixmap e newpix true 0 0 usage s
  = Some (newpix, s <| pixmaps ::= insert newpix (mk_pixmap 0 0 0 0 (mk_priv 0 false false false 0 0)) |>).
Proof.
  unfold CreatePixmap. erewrite bind_run by reflexivity. cbv beta iota.
  erewrite bind_run by reflexivity. cbv beta.
  erewrite bind_run by (apply modify_header_run; simpl; apply lookup_insert_eq). cbv beta.
  unfold mret, M_ret. simpl. rewrite insert_insert_eq. by destruct s.
Qed.

Lemma fail_import_run e p x s :
  p ≠ 0 → pixmaps s !! p = Some x → pbuf (priv x) = 0 →
  fail_import e p s = Some (0, s <| pixmaps ::= delete p |>).
Proof.
  intros Hp Hx Hb. unfold fail_import, DestroyPixmap. rewrite (proj2 (Z.eqb_neq _ _) Hp).
  cbn [negb when]. erewrite bind_run; [done|]. mstep (pix_run _ _ _ Hx).
  unfold lorieExaDestroyPixmap. rewrite Hb. done.
Qed.

(** The hardware buffer waiting on the client's socket. *)
Definition waiting_ahb (st : bst) (h : Z) (rest : list msg) : Prop := sock st = MAhb h :: rest.

(** A refused hardware buffer leaks: when a client sends a hardware buffer of a format the server
    does not take, [loriePixmapFromFds] answers NULL and the pixmap is gone, but the reference that
    receiving the buffer took is never given back. *)
Theorem refused_import_leaks e newpix c num w h st0 off s hb rest :
  num ≤ 1 → newpix ≠ 0 → pixmaps s !! newpix = None → fstat_ok c = true → is_sock c = true →
  write_ok c = true → api26 (be e) = true → waiting_ahb (bufs s) hb rest → ahb_recv (be e) hb ≠ 0 →
  import_format (a_format (ahb_describe (be e) (ahb_recv (be e) hb))) = false →
  ∃ s', loriePixmapFromFds e newpix true num c w h st0 off AHARDWAREBUFFER_SOCKET_FD s = Some (0, s')
    ∧ pixmaps s' = pixmaps s
    ∧ ahbs (bufs s') = <[ahb_recv (be e) hb := default 0 (ahbs (bufs s) !! ahb_recv (be e) hb) + 1]>
                         (ahbs (bufs s)).
Proof.
  intros Hn Hp Hpx Hf Hs Hw Hapi Hsk Hh0 Hfmt. unfold loriePixmapFromFds.
  rewrite (proj2 (Z.ltb_ge 1 num)) by lia. rewrite bool_decide_eq_true_2 by set_solver. cbn [negb].
  mstep (create_empty_run e newpix 0 s). rewrite (proj2 (Z.eqb_neq _ _) Hp).
  erewrite bind_run by (apply upd_pix_run; simpl; apply lookup_insert_eq). cbv beta.
  assert (bool_decide (AHARDWAREBUFFER_SOCKET_FD
    ∈ [DRM_FORMAT_MOD_INVALID; DRM_FORMAT_MOD_LINEAR; RAW_MMAPPABLE_FD]) = false) as -> by done.
  unfold import_ahb.
  erewrite bind_run by (apply upd_pix_run; simpl; apply lookup_insert_eq). cbv beta.
  rewrite Hf, Hs, Hw. cbn [negb orb]. unfold waiting_ahb in Hsk.
  erewrite bind_run; cycle 1.
  { apply on_bufs_run. unfold LorieBuffer_recvAHardwareBufferHandleFromUnixSocket, recv_ahb, ahb_acquire.
    rewrite Hapi. mrun. simpl. rewrite Hsk. reflexivity. }
  cbv beta iota. cbn [Z.eqb negb]. cbv zeta.
  change (default 0 (Some (ahb_recv (be e) hb))) with (ahb_recv (be e) hb).
  rewrite (proj2 (Z.eqb_neq _ _) Hh0), Hapi, Hfmt. cbn [negb].
  eexists. split; [by eapply fail_import_run; [|simpl; apply lookup_insert_eq|]|]. simpl.
  split; [|done]. rewrite !insert_insert_eq. by apply delete_insert_id.
Qed.

Lemma refused_import_leaks_witness : ∃ s',
  loriePixmapFromFds broken_senv 60 true 1 (mk_client_fd 9 [] true true true) 0 0 0 0
    AHARDWAREBUFFER_SOCKET_FD (demo_screen <| bufs ::= λ st, st <| sock := [MAhb 70] |> |>) = Some (0, s')
  ∧ ahbs (bufs s') = {[70 := 1]}.
Proof.
  destruct (refused_import_leaks broken_senv 60 (mk_client_fd 9 [] true true true) 1 0 0 0 0
    (demo_screen <| bufs ::= λ st, st <| sock := [MAhb 70] |> |>) 70 []) as (s' & E & _ & H); try done.
  exists s'. split; [exact E|exact H].
Defined.

(** ** Redraw *)

(** What was drawn reaches the renderer: when the screen is damaged and the renderer is there,
    [lorieRedraw] advances the frame and serves the vertical blanks due, and leaves no damage, a
    draw request, the id of the root window's buffer for the renderer to look up, and one wakeup
    of the renderer. *)
Theorem redraw_hands_over e x b a s :
  root_pixmap s ≠ 0 → pixmaps s !! root_pixmap s = Some x → pbuf (priv x) ≠ 0 →
  heap (bufs s) !! pbuf (priv x) = Some b → type (desc b) = LORIEBUFFER_AHARDWAREBUFFER →
  api26 (be e) = true → ahb_lock (be e) (buffer (desc b)) = (0, a) → lock_consistent x b →
  lists_ok (bufs s) → nodes_ok (pres s) → 0 ≤ current_msc (pres s) < 2 ^ 64 - 1 →
  lorieConnectionAlive e s = true → surfaceAvailable s = true → damaged (pres s) = true →
  ∃ s', lorieRedraw e s = Some (None, s') ∧ current_msc (pres s') = current_msc (pres s) + 1
    ∧ (∀ v, v ∈ vblank_queue (pres s) → vmsc v ≤ current_msc (pres s) + 1 →
       (vid v, current_msc (pres s) + 1) ∈ notified (pres s'))
    ∧ damaged (pres s') = false ∧ drawRequested s' = true ∧ waitForNextFrame s' = false
    ∧ rootWindowTextureID s' = id (desc b) ∧ signals s' = S (signals s).
Proof.
  intros Hr Hx Hb Hlk Ht Hapi Hlock Hc Hl Hn Hm Hconn Hsf Hdm. unfold lorieRedraw.
  mstep (eq_refl (get s)).
  destruct (frame_run (react e) (pres s) Hn Hm) as (q1 & new & E1 & _ & M1 & _ & N1 & D1).
  simpl in E1.
  assert (on_pres (next_frame (react e)) s = Some ((), s <| pres := q1 |>)) as E1'
    by (unfold on_pres; by rewrite E1).
  mstep E1'. set (s1 := s <| pres := q1 |> <| waitForNextFrame := false |>).
  mstep (eq_refl (modify _ (s <| pres := q1 |>))). mstep (eq_refl (get s1)). fold s1.
  change (lorieConnectionAlive e s1) with (lorieConnectionAlive e s).
  change (surfaceAvailable s1) with (surfaceAvailable s). rewrite Hconn, Hsf. cbn [negb orb].
  rewrite (proj2 (Z.eqb_neq _ _) Hr). mstep (pix_run (root_pixmap s) x s1 Hx).
  change (damaged (pres s1)) with (damaged q1). rewrite D1, Hdm, (proj2 (Z.eqb_neq _ _) Hb).
  cbn [negb andb].
  destruct (relock_run e (root_pixmap s) x b a s1 Hx Hb Hlk Ht Hapi Hlock Hc Hl) as (s2 & E2 & C2).
  erewrite bind_run by (mstep E2; done). cbv beta. cbn [negb Z.eqb].
  erewrite bind_run by reflexivity. cbv beta. simpl drawRequested. cbn [orb when].
  pose proof C2 as [K1 _ _ _ _ _ _ _ _ K2 K3 K4].
  assert (heap_core (bufs s2) !! pbuf (priv x) = Some (buf_core b)) as (b2 & Hb2 & [= _ _ Ed])%heap_core_lookup
    by (rewrite K1; apply heap_core_lookup; eauto).
  erewrite bind_run; cycle 1.
  { erewrite bind_run by (apply on_bufs_pure, description_run; [done|exact Hb2]). reflexivity. }
  eexists. split; [reflexivity|]. simpl. rewrite K3, K2, K4, Ed. simpl. split_and!; try done.
  intros v Hv Hd. rewrite N1. apply elem_of_app. right.
  apply (list_elem_of_fmap_2' _ _ v); [|done]. by apply list_elem_of_filter.
Qed.

Lemma redraw_hands_over_witness : ∃ s', lorieRedraw demo_senv demo_screen = Some (None, s')
  ∧ rootWindowTextureID s' = 6 ∧ drawRequested s' = true.
Proof.
  destruct (redraw_hands_over demo_senv (demo_pixmap 400) (demo_ahb 6 60) 0x90000 demo_screen)
    as (s' & E & _ & _ & _ & H1 & _ & H2 & _); try done.
  - exists []. split; [done|constructor].
  - split; constructor.
  - exists s'. split; [exact E|]. split; [exact H2|exact H1].
Defined.
