(* ===== verification/Cursor.v ===== *)
(** * The cursor and its mutex ([lorie/InitOutput.c], [lorie/lorie.h])

    The cursor's picture is shared with the renderer in an array of 512 by 512
    pixels, under a mutex of its own.  Bionic has no robust mutexes, so
    [lorie_mutex_lock] retries with a timeout and makes a new mutex when the
    process that held it is gone.  Pictures come as ARGB words or as two
    bitmaps; reading or writing outside an array is undefined. *)

From S2P Require Import Prelude.

(** ** The mutex *)

Record mtx := mk_mtx {
  holder : option Z;                (** the process whose thread holds it *)
  depth : nat;                      (** it is recursive *)
  lockingPid : Z
}.
#[export] Instance mtx_eta : Settable mtx := λ r, mk_mtx (holder r) (depth r) (lockingPid r).

(** What happens around the [i]th attempt: the other process may have released
    the mutex before it, and the connection may be alive. *)
Record attempt := mk_attempt { released : bool; alive : bool }.

Definition other_side (me : Z) (a : attempt) (m : mtx) : mtx :=
  match holder m with
  | Some h => if released a && negb (h =? me) then mk_mtx None 0 0 else m
  | None => m
  end.

(** [pthread_mutex_timedlock]: the mutex, or [None] for a timeout. *)
Definition timedlock (me : Z) (m : mtx) : option mtx :=
  match holder m with
  | None => Some (m <| holder := Some me |> <| depth := 1%nat |>)
  | Some h => if h =? me then Some (m <| depth ::= S |>) else None
  end.

(** The deadline 33 ms from now: seconds and nanoseconds. *)
Definition deadline (sec nsec : Z) : Z * Z :=
  let n := nsec + 33 * 1000000 in
  if 1000000000 <=? n then (sec + n / 1000000000, n mod 1000000000) else (sec, n).

(** The attempts it takes are the fuel; [None] while it is still waiting. *)
Fixpoint lorie_mutex_lock (me : Z) (world : list attempt) (m : mtx) : option mtx :=
  match world with
  | [] => None
  | a :: world' =>
    let m1 := other_side me a m in
    match timedlock me m1 with
    | Some m2 => Some (m2 <| lockingPid := me |>)
    | None =>
      if (lockingPid m1 =? me) || alive a then lorie_mutex_lock me world' m1
      else lorie_mutex_lock me world' (m1 <| holder := None |> <| depth := 0%nat |>)
    end
  end.

Definition lorie_mutex_unlock (m : mtx) : mtx :=
  let m1 := m <| lockingPid := 0 |> in
  match depth m1 with
  | S (S d) => m1 <| depth := S d |>
  | _ => m1 <| holder := None |> <| depth := 0%nat |>
  end.

(** A normalised [timespec], 33 ms later. *)
Lemma deadline_later sec nsec :
  0 ≤ nsec < 1000000000 →
  let '(s, n) := deadline sec nsec in
  0 ≤ n < 1000000000 ∧ s * 1000000000 + n = sec * 1000000000 + nsec + 33000000.
Proof.
  intros H. unfold deadline. destruct (Z.leb_spec 1000000000 (nsec + 33 * 1000000)); [|lia].
  pose proof (Z.div_mod (nsec + 33 * 1000000) 1000000000).
  pose proof (Z.mod_pos_bound (nsec + 33 * 1000000) 1000000000). lia.
Qed.

(** The mutex is never taken from a living holder and always from a dead one: while another
    process holds it and the connection is alive, [lorie_mutex_lock] keeps waiting, however long,
    and it returns with the mutex at the attempt that follows a release; when the connection is
    gone and the holder with it, the second attempt succeeds. *)
Theorem mutex_respects_living_holder me h m world a rest :
  holder m = Some h → h ≠ me → Forall (λ a, released a = false ∧ alive a = true) world →
  lorie_mutex_lock me world m = None
  ∧ (released a = true → ∃ m', lorie_mutex_lock me (world ++ a :: rest) m = Some m'
      ∧ holder m' = Some me ∧ lockingPid m' = me)
  ∧ (∀ b, lockingPid m ≠ me → released a = false → alive a = false →
      ∃ m', lorie_mutex_lock me (world ++ a :: b :: rest) m = Some m'
      ∧ holder m' = Some me ∧ lockingPid m' = me).
Proof.
  intros Hh Hne Hw.
  assert (∀ tail, lorie_mutex_lock me (world ++ tail) m = lorie_mutex_lock me tail m) as Hskip.
  { intros tail. induction Hw as [|a' w [Hr Ha] _ IH]; [done|]. simpl. unfold other_side.
    rewrite Hh, Hr. simpl. unfold timedlock. rewrite Hh, (proj2 (Z.eqb_neq _ _) Hne), Ha, orb_true_r.
    exact IH. }
  split; [by rewrite <-(app_nil_r world), Hskip|]. split.
  - intros Hr. rewrite Hskip. simpl. unfold other_side. rewrite Hh, Hr.
    rewrite (proj2 (Z.eqb_neq _ _) Hne). simpl. by eexists.
  - intros b Hp Hr Ha. rewrite Hskip. simpl. unfold other_side at 1 2 3 4. rewrite Hh, Hr. simpl.
    unfold timedlock at 1. rewrite Hh, (proj2 (Z.eqb_neq _ _) Hne), Ha, (proj2 (Z.eqb_neq _ _) Hp).
    simpl. unfold other_side. simpl. by eexists.
Qed.

Lemma mutex_respects_living_holder_witness :
  lorie_mutex_lock 5 [mk_attempt false true; mk_attempt false true] (mk_mtx (Some 9) 1 9) = None
  ∧ ∃ m', lorie_mutex_lock 5 [mk_attempt false true; mk_attempt false false; mk_attempt false false]
            (mk_mtx (Some 9) 1 9) = Some m' ∧ holder m' = Some 5.
Proof.
  split.
  - apply (mutex_respects_living_holder 5 9 (mk_mtx (Some 9) 1 9)
      [mk_attempt false true; mk_attempt false true] (mk_attempt false true) []); try done.
    repeat constructor.
  - destruct (mutex_respects_living_holder 5 9 (mk_mtx (Some 9) 1 9) [mk_attempt false true]
      (mk_attempt false false) []) as (_ & _ & H); [done|done|repeat constructor|].
    destruct (H (mk_attempt false false)) as (m' & E & Hm & _); try done.
    exists m'. split; [exact E|exact Hm].
Defined.

(** ** Pictures *)

Record CursorBits := mk_bits {
  argb : option (list Z);           (** words, if the picture has alpha *)
  source : list Z; mask : list Z;   (** bytes of the two bitmaps *)
  bwidth : nat; bheight : nat; bxhot : Z; byhot : Z
}.
Record Cursor := mk_cursor {
  bits : CursorBits;
  foreRed : Z; foreGreen : Z; foreBlue : Z;
  backRed : Z; backGreen : Z; backBlue : Z
}.

(** BGRA to RGBA. *)
Definition swap_rb (p : Z) : Z :=
  Z.lor (Z.lor (Z.lor (Z.land p 0xFF000000) (Z.shiftr (Z.land p 0x00FF0000) 16))
           (Z.land p 0x0000FF00)) (Z.shiftl (Z.land p 0x000000FF) 16).

(** A colour of the cursor from its 16-bit components. *)
Definition colour (red green blue : Z) : Z :=
  Z.lor (Z.lor (Z.shiftl (Z.land blue 0xff00) 8) (Z.land green 0xff00)) (Z.shiftr red 8).

Definition BitmapBytePad (w : nat) : nat :=
  Z.to_nat (Z.shiftl (Z.shiftr (Z.of_nat w + 31) 5) 2).

(** The pixel at column [x] of row [y]. *)
Definition bitmap_pixel (c : Cursor) (y x : nat) : option Z :=
  let fg := colour (foreRed c) (foreGreen c) (foreBlue c) in
  let bg := colour (backRed c) (backGreen c) (backBlue c) in
  let i := (y * BitmapBytePad (bwidth (bits c)) + x / 8)%nat in
  let bit := Z.of_nat (x mod 8) in
  s ← source (bits c) !! i;
  m ← mask (bits c) !! i;
  let d := if Z.testbit s bit then fg else bg in
  Some (if Z.testbit m bit then Z.lor d 0xff000000 else 0).

(** [for (i...) data[o++] = f(i)]. *)
Fixpoint fill (k i o : nat) (f : nat → option Z) (data : list Z) : option (list Z) :=
  match k with
  | O => Some data
  | S k' => v ← f i; data' ← wr data o v; fill k' (S i) (S o) f data'
  end.

Fixpoint fill_rows (k y o : nat) (c : Cursor) (data : list Z) : option (list Z) :=
  match k with
  | O => Some data
  | S k' =>
    data' ← fill (bwidth (bits c)) 0 o (bitmap_pixel c y) data;
    fill_rows k' (S y) (o + bwidth (bits c)) c data'
  end.

Definition lorieConvertCursor (c : Cursor) (data : list Z) : option (list Z) :=
  let b := bits c in
  match argb b with
  | Some words => fill (bwidth b * bheight b) 0 0 (λ i, swap_rb <$> words !! i) data
  | None => fill_rows (bheight b) 0 0 c data
  end.

(** ** What a cursor looks like *)

(** A pixel by its components, each from 0 to 255. *)
Record rgba := mk_rgba { red : Z; green : Z; blue : Z; alpha : Z }.

(** Byte [k] of a word, counted from the least significant one. *)
Definition byte_of (p : Z) (k : Z) : Z := p / 256 ^ k mod 256.

(** A bitmap has a row in multiples of 32 bits, the leftmost pixel in the lowest bit. *)
Definition bitmap_bit (w : nat) (bytes : list Z) (x y : nat) : option bool :=
  b ← bytes !! (y * (4 * ((w + 31) / 32)) + x / 8)%nat;
  Some (Z.odd (b / 2 ^ Z.of_nat (x mod 8))).

(** The pixel at column [x] of row [y], as the protocol defines it: a word of the
    ARGB picture has blue in its lowest byte, then green, red and alpha; of the bitmaps the
    mask says which pixels there are and the source which of them have the foreground
    colour. *)
Definition cursor_pixel (c : Cursor) (x y : nat) : option rgba :=
  let b := bits c in
  match argb b with
  | Some words =>
    p ← words !! (y * bwidth b + x)%nat;
    Some (mk_rgba (byte_of p 2) (byte_of p 1) (byte_of p 0) (byte_of p 3))
  | None =>
    bitmap_bit (bwidth b) (source b) x y ≫= λ s : bool,
    bitmap_bit (bwidth b) (mask b) x y ≫= λ m : bool,
    Some (if negb m then mk_rgba 0 0 0 0
          else if s then mk_rgba (foreRed c / 256) (foreGreen c / 256) (foreBlue c / 256) 255
          else mk_rgba (backRed c / 256) (backGreen c / 256) (backBlue c / 256) 255)
  end.

(** The renderer's word of a pixel: red in the lowest byte, then green, blue, alpha. *)
Definition renderer_word (v : rgba) : Z :=
  red v + 256 * green v + 256 ^ 2 * blue v + 256 ^ 3 * alpha v.

(** The arrays the client gave are as long as the picture needs, and the
    components of the colours are [CARD16]. *)
Definition cursor_ok (c : Cursor) : Prop :=
  match argb (bits c) with
  | Some words => (bwidth (bits c) * bheight (bits c) ≤ length words)%nat
  | None => (bheight (bits c) * BitmapBytePad (bwidth (bits c)) ≤ length (source (bits c)))%nat
            ∧ (bheight (bits c) * BitmapBytePad (bwidth (bits c)) ≤ length (mask (bits c)))%nat
            ∧ Forall (inU 16) [foreRed c; foreGreen c; foreBlue c; backRed c; backGreen c; backBlue c]
  end.

Lemma fill_run k : ∀ i o f data,
  (∀ j, (i ≤ j < i + k)%nat → is_Some (f j)) → (o + k ≤ length data)%nat →
  ∃ data', fill k i o f data = Some data' ∧ length data' = length data
    ∧ (∀ j, (j < k)%nat → data' !! (o + j)%nat = f (i + j)%nat)
    ∧ (∀ m, (m < o ∨ o + k ≤ m)%nat → data' !! m = data !! m).
Proof.
  induction k as [|k IH]; intros i o f data Hf Hl; simpl.
  { exists data. split_and!; try done. lia. }
  destruct (Hf i ltac:(lia)) as [v Hv]. rewrite Hv. simpl. unfold wr.
  rewrite decide_True by lia. simpl.
  destruct (IH (S i) (S o) f (<[o := v]> data)) as (data' & E & L & H1 & H2).
  { intros j Hj. apply Hf. lia. }
  { rewrite length_insert. lia. }
  exists data'. split; [done|]. rewrite length_insert in L. split; [done|]. split.
  - intros [|j] Hj.
    + rewrite Nat.add_0_r, Nat.add_0_r, H2 by lia. rewrite Hv. apply list_lookup_insert_eq. lia.
    + rewrite <-!Nat.add_succ_comm. apply H1. lia.
  - intros m Hm. rewrite H2 by lia. apply list_lookup_insert_ne. lia.
Qed.

Lemma fill_rows_run c k : ∀ y o data,
  let w := bwidth (bits c) in
  (∀ x y', (x < w)%nat → (y ≤ y' < y + k)%nat → is_Some (bitmap_pixel c y' x)) →
  (o + k * w ≤ length data)%nat →
  ∃ data', fill_rows k y o c data = Some data' ∧ length data' = length data
    ∧ (∀ x j, (x < w)%nat → (j < k)%nat → data' !! (o + j * w + x)%nat = bitmap_pixel c (y + j) x)
    ∧ (∀ m, (m < o)%nat → data' !! m = data !! m).
Proof.
  induction k as [|k IH]; intros y o data w Hf Hl; simpl.
  { exists data. split_and!; try done. lia. }
  destruct (fill_run w 0 o (bitmap_pixel c y) data) as (d1 & E1 & L1 & H1 & H2).
  { intros j Hj. apply Hf; lia. }
  { lia. }
  fold w. rewrite E1. simpl.
  destruct (IH (S y) (o + w)%nat d1) as (d2 & E2 & L2 & H3 & H4).
  { intros x y' Hx Hy. apply Hf; [done|lia]. }
  { fold w. lia. }
  exists d2. split; [done|]. split; [congruence|]. split.
  - intros x [|j] Hx Hj.
    + rewrite !Nat.add_0_r. rewrite H4 by lia. rewrite H1 by done. done.
    + replace (o + S j * w + x)%nat with (o + w + j * w + x)%nat by lia.
      fold w in H3. rewrite H3 by lia. by rewrite Nat.add_succ_comm.
  - intros m Hm. rewrite H4 by lia. apply H2. lia.
Qed.

Lemma bitmap_index w h x y :
  (x < w)%nat → (y < h)%nat → (y * BitmapBytePad w + x / 8 < h * BitmapBytePad w)%nat.
Proof.
  intros Hx Hy. assert (x / 8 < BitmapBytePad w)%nat.
  { unfold BitmapBytePad. rewrite Z.shiftl_mul_pow2, Z.shiftr_div_pow2 by lia.
    change (2 ^ 2) with 4. change (2 ^ 5) with 32.
    pose proof (Nat.div_mod_eq x 8). pose proof (Nat.mod_upper_bound x 8).
    pose proof (Z.mul_succ_div_gt (Z.of_nat w + 31) 32). lia. }
  nia.
Qed.

Lemma bitmap_pixel_some c x y :
  argb (bits c) = None → cursor_ok c → (x < bwidth (bits c))%nat → (y < bheight (bits c))%nat →
  is_Some (bitmap_pixel c y x).
Proof.
  unfold cursor_ok. intros Ha. rewrite Ha. intros (Hs & Hm & _) Hx Hy. unfold bitmap_pixel.
  pose proof (bitmap_index _ _ x y Hx Hy) as Hi.
  destruct (lookup_lt_is_Some_2 (source (bits c))
    (y * BitmapBytePad (bwidth (bits c)) + x / 8)) as [sv ->]; [lia|].
  destruct (lookup_lt_is_Some_2 (mask (bits c))
    (y * BitmapBytePad (bwidth (bits c)) + x / 8)) as [mv ->]; [lia|]. by eexists.
Qed.

(** ** The words are those of the picture *)

Lemma byte_of_bound p k : 0 ≤ byte_of p k < 256.
Proof. apply Z.mod_pos_bound. lia. Qed.

(** A byte of a word by its bits. *)
Lemma byte_of_testbit p k i : 0 ≤ k → 0 ≤ i →
  Z.testbit (byte_of p k) i = if decide (i < 8) then Z.testbit p (i + 8 * k) else false.
Proof.
  intros Hk Hi. unfold byte_of. change 256 with (2 ^ 8). rewrite <-Z.pow_mul_r by lia.
  case_decide; [rewrite Z.mod_pow2_bits_low by lia|by rewrite Z.mod_pow2_bits_high by lia].
  by rewrite Z.div_pow2_bits by lia.
Qed.

Lemma byte_high b i : 0 ≤ b < 256 → 8 ≤ i → Z.testbit b i = false.
Proof.
  intros Hb Hi. destruct (decide (b = 0)) as [->|]; [apply Z.bits_0|].
  apply Z.bits_above_log2; [lia|]. apply Z.log2_lt_pow2; [lia|].
  eapply Z.lt_le_trans; [apply Hb|]. apply (Z.pow_le_mono_r 2 8); lia.
Qed.

Lemma word_testbit v i :
  0 ≤ red v < 256 → 0 ≤ green v < 256 → 0 ≤ blue v < 256 → 0 ≤ alpha v < 256 → 0 ≤ i →
  Z.testbit (renderer_word v) i =
    if decide (i < 8) then Z.testbit (red v) i
    else if decide (i < 16) then Z.testbit (green v) (i - 8)
    else if decide (i < 24) then Z.testbit (blue v) (i - 16)
    else Z.testbit (alpha v) (i - 24).
Proof.
  intros Hr Hg Hb Ha Hi. unfold renderer_word.
  replace (_ + _) with (Z.lor (Z.shiftl (Z.lor (Z.shiftl (Z.lor (Z.shiftl (alpha v) 8) (blue v)) 8) (green v)) 8) (red v)).
  - rewrite Z.lor_spec, Z.shiftl_spec by lia. case_decide.
    { by rewrite (Z.testbit_neg_r _ (i - 8)), orb_false_l by lia. }
    rewrite (byte_high (red v)), orb_false_r, Z.lor_spec, Z.shiftl_spec by lia. case_decide.
    { by rewrite (Z.testbit_neg_r _ (i - 8 - 8)), orb_false_l by lia. }
    rewrite (byte_high (green v)), orb_false_r, Z.lor_spec, Z.shiftl_spec by lia.
    replace (i - 8 - 8) with (i - 16) by lia. case_decide.
    { by rewrite (Z.testbit_neg_r _ (i - 16 - 8)), orb_false_l by lia. }
    rewrite (byte_high (blue v)), orb_false_r by lia. f_equal. lia.
  - rewrite !lor_shiftl_add by (simpl; lia). simpl. lia.
Qed.

Lemma byte_mask p k i : 0 ≤ k → 0 ≤ i →
  Z.testbit (Z.land p (Z.shiftl (Z.ones 8) k)) i
  = if decide (k ≤ i < k + 8) then Z.testbit p i else false.
Proof.
  intros Hk Hi. rewrite Z.land_spec, Z.shiftl_spec by done. case_decide.
  - rewrite Z.ones_spec_low by lia. apply andb_true_r.
  - destruct (decide (i < k)); [rewrite (Z.testbit_neg_r (Z.ones 8)) by lia|rewrite Z.ones_spec_high by lia];
      apply andb_false_r.
Qed.

(** The bits of a word with red and blue swapped. *)
Lemma swap_rb_testbit p i : 0 ≤ i →
  Z.testbit (swap_rb p) i =
    if decide (24 ≤ i < 32) then Z.testbit p i
    else if decide (16 ≤ i < 24) then Z.testbit p (i - 16)
    else if decide (8 ≤ i < 16) then Z.testbit p i
    else if decide (i < 8) then Z.testbit p (i + 16) else false.
Proof.
  intros Hi. unfold swap_rb. rewrite !Z.lor_spec, Z.shiftr_spec, Z.shiftl_spec by done.
  change 0xFF000000 with (Z.shiftl (Z.ones 8) 24). change 0x00FF0000 with (Z.shiftl (Z.ones 8) 16).
  change 0x0000FF00 with (Z.shiftl (Z.ones 8) 8). change 0x000000FF with (Z.shiftl (Z.ones 8) 0).
  rewrite (byte_mask p 24), (byte_mask p 16), (byte_mask p 8) by lia.
  assert (Z.testbit (Z.land p (Z.shiftl (Z.ones 8) 0)) (i - 16)
    = if decide (16 ≤ i < 24) then Z.testbit p (i - 16) else false) as ->.
  { destruct (decide (i < 16)); [rewrite Z.testbit_neg_r, decide_False by lia; done|].
    rewrite byte_mask by lia. case_decide; [by rewrite decide_True by lia|by rewrite decide_False by lia]. }
  assert (i < 8 ∨ 8 ≤ i < 16 ∨ 16 ≤ i < 24 ∨ 24 ≤ i < 32 ∨ 32 ≤ i) as H by lia.
  destruct H as [?|[?|[?|[?|?]]]];
    repeat first [rewrite decide_True by lia|rewrite decide_False by lia];
    by rewrite ?orb_false_r.
Qed.

(** Swapping them twice is the identity on 32-bit words. *)
Lemma swap_rb_involutive p : inU 32 p → swap_rb (swap_rb p) = p.
Proof.
  intros Hp. apply Z.bits_inj'. intros i Hi. rewrite swap_rb_testbit by done.
  assert (32 ≤ i → Z.testbit p i = false) as Hhigh.
  { intros H. destruct (decide (p = 0)) as [->|]; [apply Z.bits_0|].
    apply Z.bits_above_log2; [apply Hp|]. apply Z.log2_lt_pow2; [unfold inU in Hp; lia|].
    eapply Z.lt_le_trans; [apply Hp|]. apply Z.pow_le_mono_r; lia. }
  repeat case_decide; rewrite ?swap_rb_testbit by lia; repeat case_decide; try lia;
    first [f_equal; lia|symmetry; apply Hhigh; lia].
Qed.

Lemma swap_rb_word p :
  swap_rb p = renderer_word (mk_rgba (byte_of p 2) (byte_of p 1) (byte_of p 0) (byte_of p 3)).
Proof.
  apply Z.bits_inj'. intros i Hi.
  rewrite swap_rb_testbit, word_testbit by (simpl; auto using byte_of_bound). simpl.
  assert (i < 8 ∨ 8 ≤ i < 16 ∨ 16 ≤ i < 24 ∨ 24 ≤ i < 32 ∨ 32 ≤ i) as H by lia.
  destruct H as [?|[?|[?|[?|?]]]];
    repeat first [rewrite decide_True by lia|rewrite decide_False by lia];
    rewrite byte_of_testbit by lia;
    repeat first [rewrite decide_True by lia|rewrite decide_False by lia]; f_equal; lia.
Qed.

Lemma colour_word r g b :
  inU 16 r → inU 16 g → inU 16 b →
  Z.lor (colour r g b) 0xff000000 = renderer_word (mk_rgba (r / 256) (g / 256) (b / 256) 255).
Proof.
  unfold inU. change (2 ^ 16) with (256 * 256). intros Hr Hg Hb.
  assert (∀ z, 0 ≤ z < 256 * 256 → Z.land z 0xff00 = 256 * (z / 256) ∧ 0 ≤ z / 256 < 256) as Hh.
  { intros z Hz. split; [|split; [apply Z.div_pos; lia|apply Z.div_lt_upper_bound; lia]].
    replace (256 * (z / 256)) with (Z.shiftl (Z.shiftr z 8) 8)
      by (rewrite Z.shiftl_mul_pow2, Z.shiftr_div_pow2 by lia; change (2 ^ 8) with 256; lia).
    change 0xff00 with (Z.shiftl (Z.ones 8) 8). apply Z.bits_inj'. intros i Hi. rewrite byte_mask by lia.
    rewrite Z.shiftl_spec by lia. case_decide as Hd.
    - rewrite Z.shiftr_spec by lia. f_equal. lia.
    - destruct (decide (i < 8)); [by rewrite Z.testbit_neg_r by lia|].
      rewrite byte_high; [done| |lia]. rewrite Z.shiftr_div_pow2 by lia. change (2 ^ 8) with 256.
      split; [apply Z.div_pos; lia|apply Z.div_lt_upper_bound; lia]. }
  destruct (Hh g Hg) as [Eg Bg], (Hh b Hb) as [Eb Bb], (Hh r Hr) as [_ Br].
  unfold colour, renderer_word. simpl. rewrite Eg, Eb, (Z.shiftr_div_pow2 r 8) by lia. change (2 ^ 8) with 256.
  set (R := r / 256) in *. set (G := g / 256) in *. set (B := b / 256) in *.
  replace (Z.lor (Z.lor (Z.lor (Z.shiftl (256 * B) 8) (256 * G)) R) 0xff000000)
    with (Z.lor (Z.shiftl (Z.lor (Z.shiftl (Z.lor (Z.shiftl 255 8) B) 8) G) 8) R).
  - rewrite !lor_shiftl_add by (simpl; lia). simpl. lia.
  - apply Z.bits_inj'. intros i Hi. rewrite <-(Z.mul_comm G), <-(Z.mul_comm B).
    change 256 with (2 ^ 8). rewrite <-!Z.shiftl_mul_pow2 by lia.
    change 0xff000000 with (Z.shiftl 255 24). rewrite !Z.shiftl_lor, !Z.shiftl_shiftl by lia. simpl.
    rewrite !Z.lor_spec. by destruct (Z.testbit _ _), (Z.testbit _ _), (Z.testbit _ _), (Z.testbit _ _).
Qed.

(** The row of a bitmap, as [BitmapBytePad] counts its bytes. *)
Lemma bitmap_row w : BitmapBytePad w = (4 * ((w + 31) / 32))%nat.
Proof.
  unfold BitmapBytePad. rewrite Z.shiftl_mul_pow2, Z.shiftr_div_pow2 by lia.
  change (2 ^ 2) with 4. change (2 ^ 5) with 32. pose proof (Nat2Z.inj_div (w + 31) 32). lia.
Qed.

Lemma bitmap_pixel_word c x y :
  argb (bits c) = None → cursor_ok c → bitmap_pixel c y x = renderer_word <$> cursor_pixel c x y.
Proof.
  unfold cursor_ok, cursor_pixel, bitmap_pixel, bitmap_bit. intros Ha. rewrite Ha, <-bitmap_row.
  intros (_ & _ & Hc). rewrite !Forall_cons in Hc. destruct Hc as (? & ? & ? & ? & ? & ? & _).
  destruct (source _ !! _) as [s|]; [|done]. destruct (mask _ !! _) as [m|]; [|done]. simpl.
  rewrite <-!Z.shiftr_div_pow2, <-!Z.bit0_odd, !Z.shiftr_spec, !Z.add_0_l by lia.
  destruct (Z.testbit m _); [|done]. destruct (Z.testbit s _); simpl; f_equal; by apply colour_word.
Qed.

(** The conversion writes the picture, row by row, and stays inside the arrays. *)
Lemma convert_cursor_run c data :
  cursor_ok c → (bwidth (bits c) * bheight (bits c) ≤ length data)%nat →
  ∃ data', lorieConvertCursor c data = Some data' ∧ length data' = length data
    ∧ ∀ x y, (x < bwidth (bits c))%nat → (y < bheight (bits c))%nat →
      ∃ v, cursor_pixel c x y = Some v ∧ data' !! (y * bwidth (bits c) + x)%nat = Some (renderer_word v).
Proof.
  intros Hok Hl. unfold lorieConvertCursor. destruct (argb (bits c)) as [words|] eqn:Ha.
  - unfold cursor_ok in Hok. rewrite Ha in Hok. unfold cursor_pixel. rewrite Ha.
    destruct (fill_run (bwidth (bits c) * bheight (bits c)) 0 0 (λ i, swap_rb <$> words !! i) data)
      as (d & E & L & H & _).
    { intros j Hj. apply fmap_is_Some, lookup_lt_is_Some_2. lia. }
    { lia. }
    exists d. split; [done|]. split; [done|]. intros x y Hx Hy.
    assert (y * bwidth (bits c) + x < bwidth (bits c) * bheight (bits c))%nat as Hj by nia.
    specialize (H _ Hj). simpl in H. rewrite H.
    destruct (lookup_lt_is_Some_2 words (y * bwidth (bits c) + x)) as [v ->]; [lia|]. simpl.
    eexists. split; [done|]. by rewrite swap_rb_word.
  - destruct (fill_rows_run c (bheight (bits c)) 0 0 data) as (d & E & L & H & _).
    { intros x y Hx Hy. apply bitmap_pixel_some; [done..|lia]. }
    { lia. }
    exists d. split; [done|]. split; [done|]. intros x y Hx Hy.
    specialize (H x y Hx Hy). simpl in H. rewrite H.
    destruct (bitmap_pixel_some c x y Ha Hok Hx Hy) as [v Hv]. rewrite Hv.
    rewrite (bitmap_pixel_word c x y Ha Hok) in Hv. apply fmap_Some in Hv as (u & -> & ->). by exists u.
Qed.

(** ** The shared cursor *)

Record cur := mk_cur {
  cx : Z; cy : Z; cxhot : Z; cyhot : Z;
  cwidth : nat; cheight : nat;
  cbits : list Z;                   (** 512 * 512 words *)
  updated : bool; moved : bool; visible : bool;
  lk : mtx;
  csignals : nat
}.
#[export] Instance cur_eta : Settable cur :=
  λ r, mk_cur (cx r) (cy r) (cxhot r) (cyhot r) (cwidth r) (cheight r) (cbits r) (updated r)
         (moved r) (visible r) (lk r) (csignals r).

Definition lorieSetCursorVisible (v : bool) (s : cur) : cur :=
  s <| visible := v |> <| moved := true |> <| csignals ::= S |>.

(** [fromMouse] is [lorieCursorFromMouse(pDev)]. *)
Definition lorieMoveCursor (fromMouse : bool) (x y : Z) (s : cur) : cur :=
  if negb fromMouse then s
  else s <| cx := u32 x |> <| cy := u32 y |> <| moved := true |> <| csignals ::= S |>.

(** [lorieSetCursor]; [rootCursor] is the default cursor.  [None] while the mutex
    is not to be had, or where memory outside an array is touched. *)
Definition lorieSetCursor (me : Z) (world : list attempt) (rootCursor : Cursor) (fromMouse : bool)
    (pCurs : option Cursor) (x0 y0 : Z) (s : cur) : option cur :=
  if negb fromMouse then Some s
  else
    let drawn := match pCurs with
                 | Some c => if (512 <=? bwidth (bits c))%nat || (512 <=? bheight (bits c))%nat
                             then Some rootCursor else Some c
                 | None => None
                 end in
    m ← lorie_mutex_lock me world (lk s);
    s1 ← match pCurs, drawn with
         | Some c, Some d =>
           data ← lorieConvertCursor d (cbits s);
           Some (s <| cxhot := bxhot (bits c) |> <| cyhot := byhot (bits c) |>
                   <| cwidth := bwidth (bits c) |> <| cheight := bheight (bits c) |>
                   <| cbits := data |>)
         | _, _ => Some (s <| cxhot := 0 |> <| cyhot := 0 |> <| cwidth := 0%nat |> <| cheight := 0%nat |>)
         end;
    Some (lorieMoveCursor true x0 y0
            (s1 <| updated := true |> <| lk := lorie_mutex_unlock m |>)).

Definition cursor_mem : nat := Z.to_nat (512 * 512).
Lemma cursor_mem_eq : Z.of_nat cursor_mem = 512 * 512.
Proof. apply Z2Nat.id. lia. Qed.
Opaque cursor_mem.

(** C33: The renderer gets the cursor's picture: for a cursor smaller than 512 by 512, given as ARGB
    words or as bitmaps, once the mutex is had that this process did not hold before,
    [lorieSetCursor] reads and writes inside its
    arrays, stores size and hot spot, and every word the renderer will read has the red, green, blue
    and alpha of the cursor's pixel in the renderer's order: of an ARGB word by its bytes, of
    bitmaps transparent outside the mask, and inside it opaque in the foreground colour where the
    source has a bit and in the background colour elsewhere.  The mutex is free again and the
    renderer is told. *)
Theorem set_cursor_shows me world root c x0 y0 s m :
  cursor_ok c → (bwidth (bits c) < 512)%nat → (bheight (bits c) < 512)%nat →
  length (cbits s) = cursor_mem → lorie_mutex_lock me world (lk s) = Some m → depth m = 1%nat →
  ∃ s', lorieSetCursor me world root true (Some c) x0 y0 s = Some s'
    ∧ cwidth s' = bwidth (bits c) ∧ cheight s' = bheight (bits c)
    ∧ cxhot s' = bxhot (bits c) ∧ cyhot s' = byhot (bits c)
    ∧ (∀ x y, (x < cwidth s')%nat → (y < cheight s')%nat →
       ∃ v, cursor_pixel c x y = Some v ∧ cbits s' !! (y * cwidth s' + x)%nat = Some (renderer_word v))
    ∧ updated s' = true ∧ moved s' = true ∧ cx s' = u32 x0 ∧ cy s' = u32 y0
    ∧ holder (lk s') = None ∧ lockingPid (lk s') = 0.
Proof.
  intros Hok Hw Hh Hl Hm Hd. unfold lorieSetCursor. cbn [negb].
  rewrite (proj2 (Nat.leb_gt _ _) Hw), (proj2 (Nat.leb_gt _ _) Hh). cbn [orb]. rewrite Hm.
  destruct (convert_cursor_run c (cbits s) Hok) as (data & E & L & H).
  { pose proof cursor_mem_eq. rewrite Hl. nia. }
  simpl. rewrite E. simpl. eexists. split; [done|]. simpl. unfold lorie_mutex_unlock. simpl.
  rewrite Hd. by split_and!.
Qed.

Definition demo_cursor : Cursor :=
  mk_cursor (mk_bits None [5; 0; 0; 0; 2; 0; 0; 0] [7; 0; 0; 0; 7; 0; 0; 0] 3 2 1 1)
    0xffff 0 0 0 0xffff 0.
Definition demo_cur : cur :=
  mk_cur 0 0 0 0 0 0 (replicate cursor_mem 0) false false true (mk_mtx None 0 0) 0.

Lemma demo_cursor_ok : cursor_ok demo_cursor.
Proof. split_and!; [vm_compute; lia..|repeat constructor; done]. Qed.

Lemma set_cursor_shows_witness : ∃ s',
  lorieSetCursor 5 [mk_attempt false true] demo_cursor true (Some demo_cursor) 10 20 demo_cur = Some s'
  ∧ cwidth s' = 3%nat
  ∧ cbits s' !! 0%nat = Some 0xff0000ff ∧ cbits s' !! 1%nat = Some 0xff00ff00.
Proof.
  destruct (set_cursor_shows 5 [mk_attempt false true] demo_cursor demo_cursor 10 20 demo_cur
    (mk_mtx (Some 5) 1 5) demo_cursor_ok) as (s' & E & Hw & Hh & _ & _ & H & _).
  - simpl. lia.
  - simpl. lia.
  - apply length_replicate.
  - done.
  - done.
  - exists s'. split; [exact E|]. split; [exact Hw|]. simpl in Hw, Hh.
    destruct (H 0%nat 0%nat) as (u & [= <-] & Eu); [lia..|].
    destruct (H 1%nat 0%nat) as (v & [= <-] & Ev); [lia..|]. rewrite Hw in Eu, Ev. split; [exact Eu|exact Ev].
Defined.

(** A cursor of 512 pixels or more is announced with its own size and the default cursor's
    picture: [lorieSetCursor] replaces the picture but stores width and height of the cursor it
    refused, so that the renderer, which reads width times height words, reads past the array
    whenever that product exceeds it. *)
Theorem oversized_cursor_announced me world root c x0 y0 s m :
  cursor_ok root → (bwidth (bits root) < 512)%nat → (bheight (bits root) < 512)%nat →
  (512 ≤ bwidth (bits c) ∨ 512 ≤ bheight (bits c))%nat →
  (cursor_mem < bwidth (bits c) * bheight (bits c))%nat →
  length (cbits s) = cursor_mem → lorie_mutex_lock me world (lk s) = Some m →
  ∃ s', lorieSetCursor me world root true (Some c) x0 y0 s = Some s'
    ∧ cwidth s' = bwidth (bits c) ∧ cheight s' = bheight (bits c)
    ∧ (length (cbits s') < cwidth s' * cheight s')%nat.
Proof.
  intros Hok Hw Hh Hbig Hover Hl Hm. unfold lorieSetCursor. cbn [negb].
  assert ((512 <=? bwidth (bits c))%nat || (512 <=? bheight (bits c))%nat = true) as ->.
  { apply orb_true_iff. by rewrite !Nat.leb_le. }
  rewrite Hm. destruct (convert_cursor_run root (cbits s) Hok) as (data & E & L & _).
  { pose proof cursor_mem_eq. rewrite Hl. nia. }
  simpl. rewrite E. simpl. eexists. split; [done|]. simpl. split_and!; try done. lia.
Qed.

Lemma oversized_cursor_announced_witness : ∃ s',
  lorieSetCursor 5 [mk_attempt false true] demo_cursor true
    (Some (mk_cursor (mk_bits (Some []) [] [] 600 600 0 0) 0 0 0 0 0 0)) 10 20 demo_cur = Some s'
  ∧ (length (cbits s') < cwidth s' * cheight s')%nat.
Proof.
  destruct (oversized_cursor_announced 5 [mk_attempt false true] demo_cursor
    (mk_cursor (mk_bits (Some []) [] [] 600 600 0 0) 0 0 0 0 0 0) 10 20 demo_cur
    (mk_mtx (Some 5) 1 5) demo_cursor_ok) as (s' & E & _ & _ & H).
  - simpl. lia.
  - simpl. lia.
  - left. simpl. lia.
  - pose proof cursor_mem_eq. cbn [bits bwidth bheight]. lia.
  - apply length_replicate.
  - done.
  - exists s'. split; [exact E|exact H].
Defined.
