(* ===== verification/Pty.v ===== *)
(** * Terminal processes ([terminal-emulator/src/main/jni/termux.c])

    The terminal opens a pseudo-terminal, forks, and the child makes the
    terminal's other end its standard streams, drops every other descriptor,
    takes the given environment and runs a command.  [create_subprocess] yields
    what the parent returns and, where a child is born, what the child has when
    it calls [execvp].  The descriptors of a process are a finite map; what the
    system answers is the argument [penv].  The JNI function around it is in
    [PtyJni]. *)

From stdpp Require Import gmap.
From S2P Require Import Prelude.

(** ** Words and strings *)

Definition IUTF8 : Z := 0x4000.
Definition IXON : Z := 0x400.
Definition IXOFF : Z := 0x1000.

Record winsize := mk_winsize { ws_row : Z; ws_col : Z; ws_xpixel : Z; ws_ypixel : Z }.

(** [int] products; overflow is undefined. *)
Definition int_mul (a b : Z) : option Z :=
  let r := a * b in if (- 2 ^ 31 <=? r) && (r <? 2 ^ 31) then Some r else None.

Definition make_winsize (rows cols cell_width cell_height : Z) : option winsize :=
  x ← int_mul cols cell_width;
  y ← int_mul rows cell_height;
  Some (mk_winsize (u16 rows) (u16 cols) (u16 x) (u16 y)).

(** [tios.c_iflag |= IUTF8; tios.c_iflag &= ~(IXON | IXOFF)]. *)
Definition terminal_iflag (iflag : Z) : Z :=
  Z.land (Z.lor iflag IUTF8) (Z.lnot (Z.lor IXON IXOFF)).

(** [atoi] of a directory entry: the digits at its start. *)
Fixpoint atoi_digits (acc : Z) (s : list Z) : Z :=
  match s with
  | c :: s' => if (48 <=? c) && (c <=? 57) then atoi_digits (acc * 10 + (c - 48)) s' else acc
  | [] => acc
  end.
Definition atoi (s : list Z) : Z := atoi_digits 0 s.

(** The name of the entry of a descriptor, least digit last. *)
Fixpoint decimal (fuel : nat) (n : Z) (acc : list Z) : list Z :=
  match fuel with
  | O => acc
  | S fuel' =>
    let acc' := (n mod 10 + 48) :: acc in
    if n <? 10 then acc' else decimal fuel' (n / 10) acc'
  end.
Definition fd_name (fd : Z) : list Z := decimal 20 fd [].

(** ** The system *)

(** What a descriptor refers to. *)
Inductive file := Ptm | Pts | FdDir | Other (n : Z).
#[export] Instance file_eq_dec : EqDecision file.
Proof. solve_decision. Defined.

Abbreviation fdtable := (gmap Z file).

Record penv := mk_penv {
  open_ptmx : Z;                    (** descriptor, or negative *)
  grantpt : bool; unlockpt : bool; ptsname_r : bool;  (** success *)
  iflag0 : Z;                       (** [c_iflag] of a new terminal *)
  fork_pid : Z;                     (** what [fork] answers in the parent *)
  open_pts : Z;
  open_fd_dir : option Z;           (** [opendir("/proc/self/fd")] and its [dirfd] *)
  chdir_ok : list Z → bool
}.

(** The child when it calls [execvp]; where that returns, the child exits with 1. *)
Record image := mk_image {
  cmd : option (list Z);            (** [None] is a null pointer *)
  argv : option (list (list Z));
  fds : fdtable;
  environ : list (list Z);
  blocked : bool;                   (** some signal is blocked *)
  session_leader : bool;
  chdir_failed : bool               (** and said so on the terminal *)
}.

Inductive child_end := Exit (code : Z) | Exec (i : image).

(** A terminal's settings. *)
Record tty := mk_tty { iflag : Z; wsize : option winsize }.

Inductive parent_end :=
  | Throws                          (** a pending RuntimeException, -1 *)
  | Returns (ptm pid : Z).

(** ** The environment *)

Definition eq_sign : Z := 61.

(** The part before the first '='; [None] without one. *)
Fixpoint var_name (s : list Z) : option (list Z) :=
  match s with
  | [] => None
  | c :: s' => if c =? eq_sign then Some [] else (cons c) <$> var_name s'
  end.

Definition same_name (n : list Z) (s : list Z) : bool := bool_decide (var_name s = Some n).

(** [putenv]: replace the variable, or add it; without '=' remove it. *)
Definition putenv (s : list Z) (env : list (list Z)) : list (list Z) :=
  match var_name s with
  | Some n => filter (λ t, same_name n t = false) env ++ [s]
  | None => filter (λ t, same_name s t = false) env
  end.

Fixpoint getenv (n : list Z) (env : list (list Z)) : option (list Z) :=
  match env with
  | [] => None
  | s :: env' => if same_name n s then Some s else getenv n env'
  end.

(** ** The child *)

(** [dup2(pts, k)]. *)
Definition dup2 (src k : Z) (t : fdtable) : fdtable :=
  match t !! src with Some f => <[k := f]> t | None => t end.

(** One turn of the loop over [/proc/self/fd]. *)
Definition close_entry (self : Z) (t : fdtable) (d_name : list Z) : fdtable :=
  let fd := atoi d_name in
  if (2 <? fd) && negb (fd =? self) then delete fd t else t.

Definition child_closes (self : Z) (entries : list (list Z)) (t : fdtable) : fdtable :=
  delete self (foldl (close_entry self) t entries).

(** What [readdir] yields on the directory: "." and ".." and an entry for every
    open descriptor. *)
Definition fd_entries (t : fdtable) : list (list Z) :=
  [46] :: [46; 46] :: (fd_name <$> (map_to_list t).*1).

(** The child of [fork].  Two calls of it cannot fail there: [setsid], since a
    process just forked leads no group, and [sigprocmask] with [SIG_UNBLOCK] of the full set;
    the image records what they leave. *)
Definition child (e : penv) (cmd cwd : option (list Z)) (argv : option (list (list Z))) (ptm : Z)
    (envp : option (list (list Z))) (t : fdtable) : child_end :=
  let t1 := delete ptm t in
  if open_pts e <? 0 then Exit (-1)
  else
    let t2 := <[open_pts e := Pts]> t1 in
    let t3 := dup2 (open_pts e) 2 (dup2 (open_pts e) 1 (dup2 (open_pts e) 0 t2)) in
    let t4 := match open_fd_dir e with
              | Some d => let t' := <[d := FdDir]> t3 in child_closes d (fd_entries t') t'
              | None => t3
              end in
    let env := foldl (λ env s, putenv s env) [] (default [] envp) in
    Exec (mk_image cmd argv t4 env false true
      (negb (match cwd with Some d => chdir_ok e d | None => false end))).

(** ** The parent *)

(** What the parent has open, the terminal, how it ends, and the child if any.
    [None] is an overflow of the pixel size. *)
Definition create_subprocess (e : penv) (cmd cwd : option (list Z))
    (argv envp : option (list (list Z))) (rows columns cell_width cell_height : Z) (t : fdtable)
  : option (fdtable * tty * parent_end * option child_end) :=
  let ptm := open_ptmx e in
  if ptm <? 0 then Some (t, mk_tty 0 None, Throws, None)
  else
    let t1 := <[ptm := Ptm]> t in
    if negb (grantpt e && unlockpt e && ptsname_r e)
    then Some (t1, mk_tty (iflag0 e) None, Throws, None)
    else
      sz ← make_winsize rows columns cell_width cell_height;
      let y := mk_tty (terminal_iflag (iflag0 e)) (Some sz) in
      if fork_pid e <? 0 then Some (t1, y, Throws, None)
      else Some (t1, y, Returns ptm (fork_pid e), Some (child e cmd cwd argv ptm envp t1)).

(** ** Other calls *)

Definition setPtyWindowSize (rows cols cell_width cell_height : Z) (y : tty) : option tty :=
  sz ← make_winsize rows cols cell_width cell_height; Some (mk_tty (iflag y) (Some sz)).

Definition setPtyUTF8Mode (y : tty) : tty :=
  if Z.land (iflag y) IUTF8 =? 0 then mk_tty (Z.lor (iflag y) IUTF8) (wsize y) else y.

Definition WTERMSIG (status : Z) : Z := Z.land status 0x7f.
Definition WEXITSTATUS (status : Z) : Z := Z.shiftr (Z.land status 0xff00) 8.
Definition WIFEXITED (status : Z) : bool := WTERMSIG status =? 0.
Definition WIFSIGNALED (status : Z) : bool := 2 <=? WTERMSIG (status + 1).

Definition waitFor (status : Z) : Z :=
  if WIFEXITED status then WEXITSTATUS status
  else if WIFSIGNALED status then - WTERMSIG status
  else 0.

(** ** Directory entries *)

Lemma atoi_digit a d s : 0 ≤ d < 10 → atoi_digits a ((d + 48) :: s) = atoi_digits (a * 10 + d) s.
Proof.
  intros H. simpl. rewrite (proj2 (Z.leb_le 48 _)), (proj2 (Z.leb_le _ 57)) by lia. cbn [andb].
  f_equal. lia.
Qed.

Lemma atoi_decimal fuel : ∀ n, 0 ≤ n < 10 ^ Z.of_nat fuel →
  ∃ l, ∀ a acc, atoi_digits a (decimal fuel n acc) = atoi_digits (a * 10 ^ l + n) acc ∧ 0 ≤ l.
Proof.
  induction fuel as [|fuel IH]; intros n Hn.
  { exists 0. intros a acc. simpl in *. split; [f_equal; lia|lia]. }
  cbn [decimal]. destruct (Z.ltb_spec n 10) as [Hs|Hs].
  - exists 1. intros a acc. rewrite Z.mod_small by lia. rewrite atoi_digit by lia. split; [f_equal|]; lia.
  - destruct (IH (n / 10)) as [l Hl].
    { rewrite Nat2Z.inj_succ, Z.pow_succ_r in Hn by lia. split; [apply Z.div_pos; lia|].
      apply Z.div_lt_upper_bound; lia. }
    pose proof (proj2 (Hl 0 [])) as Hl0. exists (l + 1). intros a acc.
    destruct (Hl a ((n mod 10 + 48) :: acc)) as [E _]. split; [|lia].
    rewrite E, atoi_digit by (apply Z.mod_pos_bound; lia). f_equal.
    rewrite Z.pow_add_r by lia. pose proof (Z.div_mod n 10). lia.
Qed.

Lemma atoi_fd_name fd : 0 ≤ fd < 10 ^ 20 → atoi (fd_name fd) = fd.
Proof.
  intros H. destruct (atoi_decimal 20 fd H) as [l Hl]. destruct (Hl 0 []) as [E _].
  unfold atoi, fd_name. rewrite E. simpl. lia.
Qed.

(** ** The descriptors of the child *)

Lemma close_entry_lookup self t d k :
  close_entry self t d !! k
  = if decide (k = atoi d ∧ 2 < k ∧ k ≠ self) then None else t !! k.
Proof.
  unfold close_entry. destruct (Z.ltb_spec 2 (atoi d)); cbn [andb].
  - destruct (Z.eqb_spec (atoi d) self); cbn [negb].
    + rewrite decide_False; [done|lia].
    + destruct (decide (k = atoi d)) as [->|]; [rewrite decide_True by lia; apply lookup_delete_eq|].
      rewrite decide_False by lia. by apply lookup_delete_ne.
  - rewrite decide_False; [done|lia].
Qed.

(** The loop closes what it sees, except for the standard streams and the
    directory. *)
Lemma close_entries_lookup self ds : ∀ t k,
  foldl (close_entry self) t ds !! k
  = if decide (k ∈ (atoi <$> ds) ∧ 2 < k ∧ k ≠ self) then None else t !! k.
Proof.
  induction ds as [|d ds IH]; intros t k; cbn [foldl].
  { case_decide; [set_solver|done]. }
  rewrite IH, close_entry_lookup, fmap_cons.
  repeat case_decide; first [done|set_solver].
Qed.

Definition small_fds (t : fdtable) : Prop := map_Forall (λ k _, 0 ≤ k < 10 ^ 20) t.

(** Everything that is open has an entry. *)
Lemma fd_entries_complete t k f :
  small_fds t → t !! k = Some f → k ∈ (atoi <$> fd_entries t).
Proof.
  intros Hs Hk. unfold fd_entries. simpl. right. right. rewrite <-list_fmap_compose.
  apply (list_elem_of_fmap_2' _ _ k).
  - apply (list_elem_of_fmap_2' _ _ (k, f)); [by apply elem_of_map_to_list|done].
  - simpl. symmetry. apply atoi_fd_name, (Hs _ _ Hk).
Qed.

Lemma child_closes_lookup self t k :
  small_fds t → 2 < self →
  child_closes self (fd_entries t) t !! k = if decide (0 ≤ k ≤ 2) then t !! k else None.
Proof.
  intros Hs Hself. unfold child_closes. destruct (decide (k = self)) as [->|Hk].
  { rewrite lookup_delete_eq, decide_False by lia. done. }
  rewrite lookup_delete_ne, close_entries_lookup by done. destruct (t !! k) as [f|] eqn:E.
  - pose proof (Hs _ _ E) as Hr. simpl in Hr. pose proof (fd_entries_complete _ _ _ Hs E).
    repeat case_decide; try done; [lia|]. naive_solver lia.
  - by repeat case_decide.
Qed.

Lemma dup2_run src k t : t !! src = Some Pts → dup2 src k t = <[k := Pts]> t ∧ dup2 src k t !! src = Some Pts.
Proof.
  intros H. unfold dup2. rewrite H. split; [done|].
  destruct (decide (k = src)) as [->|]; [apply lookup_insert_eq|by rewrite lookup_insert_ne].
Qed.

(** ** The environment of the child *)

Lemma same_name_true n t : same_name n t = true ↔ var_name t = Some n.
Proof. unfold same_name. apply bool_decide_eq_true. Qed.

Lemma getenv_app n l1 l2 :
  getenv n (l1 ++ l2) = match getenv n l1 with Some v => Some v | None => getenv n l2 end.
Proof. induction l1 as [|s l1 IH]; simpl; [done|]. by destruct (same_name n s). Qed.

Lemma getenv_filter n m env :
  getenv n (filter (λ t, same_name m t = false) env) = if decide (n = m) then None else getenv n env.
Proof.
  induction env as [|s env IH]; [by case_decide|]. rewrite filter_cons. cbn [getenv].
  destruct (same_name m s) eqn:Hm.
  - rewrite decide_False, IH by done. case_decide as Hnm; [done|].
    destruct (same_name n s) eqn:Hn; [|done]. apply same_name_true in Hn, Hm. congruence.
  - rewrite decide_True by done. cbn [getenv]. rewrite IH.
    destruct (same_name n s) eqn:Hn; [|done]. case_decide; [congruence|done].
Qed.

Lemma getenv_putenv n s env :
  is_Some (var_name s) →
  getenv n (putenv s env) = if decide (var_name s = Some n) then Some s else getenv n env.
Proof.
  intros [m Hm]. unfold putenv. rewrite Hm, getenv_app, getenv_filter. cbn [getenv].
  destruct (same_name n s) eqn:Hn.
  - apply same_name_true in Hn. rewrite Hm in Hn. injection Hn as ->.
    by rewrite !decide_True by done.
  - assert (n ≠ m) by (intros ->; rewrite (proj2 (same_name_true m s) Hm) in Hn; done).
    rewrite !decide_False by congruence. by destruct (getenv n env).
Qed.

(** The last definition in a list. *)
Fixpoint last_def (n : list Z) (l : list (list Z)) : option (list Z) :=
  match l with
  | [] => None
  | s :: l' => match last_def n l' with
               | Some v => Some v
               | None => if decide (var_name s = Some n) then Some s else None
               end
  end.

Lemma getenv_putenvs n l : ∀ env,
  Forall (λ s, is_Some (var_name s)) l →
  getenv n (foldl (λ env s, putenv s env) env l)
  = match last_def n l with Some v => Some v | None => getenv n env end.
Proof.
  induction l as [|s l IH]; intros env Hl; [done|]. inv Hl. simpl. rewrite IH by done.
  rewrite getenv_putenv by done. destruct (last_def n l); [done|]. by case_decide.
Qed.

(** ** What a command finds *)

(** C32: What a command finds: whatever descriptors the application has open, the command starts with
    exactly 0, 1 and 2, all of them the terminal, as the leader of its own session with no signal
    blocked, and with exactly the variables it was given, the last definition of each. *)
Theorem command_starts_clean e cmd cwd args envp rows cols cw ch t t' y ptm pid d :
  create_subprocess e cmd cwd args (Some envp) rows cols cw ch t = Some (t', y, Returns ptm pid, Some d) →
  small_fds t → ptm < 10 ^ 20 → 0 ≤ open_pts e < 10 ^ 20 →
  (∃ n, open_fd_dir e = Some n ∧ 2 < n < 10 ^ 20) →
  Forall (λ s, is_Some (var_name s)) envp →
  ∃ i, d = Exec i ∧ Pty.cmd i = cmd ∧ argv i = args ∧ fds i = {[0 := Pts; 1 := Pts; 2 := Pts]}
    ∧ session_leader i = true ∧ blocked i = false
    ∧ ∀ n, getenv n (environ i) = last_def n envp.
Proof.
  intros E Hs Hb [Hp0 Hp] (self & Hd & Hself) Henv. unfold create_subprocess in E.
  destruct (open_ptmx e <? 0); [done|]. destruct (negb _); [done|].
  destruct (make_winsize _ _ _ _) as [sz|]; [|done]. cbn [mbind option_bind] in E.
  destruct (fork_pid e <? 0); [done|]. injection E as <- <- <- <- <-.
  unfold child. rewrite (proj2 (Z.ltb_ge _ _) Hp0), Hd.
  set (t1 := <[open_pts e := Pts]> (delete (open_ptmx e) (<[open_ptmx e := Ptm]> t))).
  destruct (dup2_run (open_pts e) 0 t1) as [E0 L0]; [apply lookup_insert_eq|].
  destruct (dup2_run (open_pts e) 1 _ L0) as [E1 L1].
  destruct (dup2_run (open_pts e) 2 _ L1) as [E2 _]. rewrite E2, E1, E0.
  eexists. split; [done|]. simpl. split_and!; try done.
  - apply map_eq. intros k. rewrite child_closes_lookup; [| |lia].
    + destruct (decide (k = 0)) as [->|]; [|destruct (decide (k = 1)) as [->|];
        [|destruct (decide (k = 2)) as [->|]]].
      1-3: rewrite decide_True, lookup_insert_ne by lia; by simplify_map_eq.
      rewrite decide_False by lia. by simplify_map_eq.
    + unfold t1. repeat (apply map_Forall_insert_2; [lia|]). rewrite delete_insert_eq.
      by apply map_Forall_delete.
  - intros n. rewrite getenv_putenvs by done. by destruct (last_def n envp).
Qed.

Definition demo_penv : penv :=
  mk_penv 50 true true true (Z.lor IXON 0x100) 4321 60 (Some 61) (λ _, true).
(** "A=1", "B=2", "A=3". *)
Definition demo_envp : list (list Z) := [[65; 61; 49]; [66; 61; 50]; [65; 61; 51]].
Definition demo_fds : fdtable := {[0 := Other 0; 1 := Other 1; 17 := Other 2; 128 := Other 3]}.

Lemma command_starts_clean_witness : ∃ t' y i,
  create_subprocess demo_penv (Some [115; 104]) (Some [47]) None (Some demo_envp) 24 80 10 20 demo_fds
    = Some (t', y, Returns 50 4321, Some (Exec i))
  ∧ fds i = {[0 := Pts; 1 := Pts; 2 := Pts]} ∧ getenv [65] (environ i) = Some [65; 61; 51].
Proof.
  destruct (create_subprocess demo_penv (Some [115; 104]) (Some [47]) None (Some demo_envp) 24 80 10 20 demo_fds)
    as [[[[t' y] r] d]|] eqn:E; [|by vm_compute in E].
  assert (r = Returns 50 4321) as -> by (vm_compute in E; by simplify_eq).
  destruct d as [d|]; [|vm_compute in E; by simplify_eq].
  destruct (command_starts_clean _ _ _ _ _ _ _ _ _ _ _ _ _ _ _ E) as (i & -> & _ & _ & H1 & _ & _ & H2).
  - unfold small_fds, demo_fds. repeat (apply map_Forall_insert_2; [lia|]). apply map_Forall_empty.
  - lia.
  - simpl. lia.
  - exists 61. split; [done|lia].
  - repeat constructor; by eexists.
  - exists t', y, i. split; [done|]. split; [exact H1|exact (H2 [65])].
Defined.

(** ** The parent *)

(** Descriptors of the application, on every path: a terminal that could be started costs exactly
    the one descriptor it returns; when opening fails nothing is open, but when granting,
    unlocking or naming the terminal or forking fails, an exception is thrown and the descriptor
    of the terminal stays open with nobody to know its number. *)
Theorem subprocess_descriptors e cmd cwd args envp rows cols cw ch t t' y r d :
  create_subprocess e cmd cwd args envp rows cols cw ch t = Some (t', y, r, d) →
  match r with
  | Returns ptm pid => ptm = open_ptmx e ∧ t' = <[ptm := Ptm]> t ∧ 0 ≤ pid ∧ is_Some d
  | Throws => d = None ∧ t' = (if open_ptmx e <? 0 then t else <[open_ptmx e := Ptm]> t)
  end.
Proof.
  unfold create_subprocess. destruct (open_ptmx e <? 0) eqn:Ep; [by intros [= <- _ <- <-]|].
  destruct (negb _); [by intros [= <- _ <- <-]|].
  destruct (make_winsize _ _ _ _) as [sz|]; [|done]. cbn [mbind option_bind].
  destruct (Z.ltb_spec (fork_pid e) 0); intros [= <- _ <- <-]; [done|].
  split_and!; [done..|lia|by eexists].
Qed.

(** [grantpt] fails: an exception and an open descriptor. *)
Lemma subprocess_descriptors_witness : ∃ y,
  create_subprocess (mk_penv 50 false true true 0 4321 60 (Some 61) (λ _, true)) None None None None 24 80 10 20 ∅
    = Some ({[50 := Ptm]}, y, Throws, None) ∧ ({[50 := Ptm]} : fdtable) = <[50 := Ptm]> ∅.
Proof.
  eexists. split; [done|].
  apply (subprocess_descriptors (mk_penv 50 false true true 0 4321 60 (Some 61) (λ _, true)) None None None None 24 80 10 20 ∅
    {[50 := Ptm]} (mk_tty 0 None) Throws None). done.
Defined.

(** ** Exit codes *)

(** The status words [waitpid] reports. *)
Definition exit_status (code : Z) : Z := Z.shiftl code 8.
Definition signal_status (sig : Z) (core : bool) : Z := Z.lor sig (if core then 0x80 else 0).

Definition codes : list Z := Z.of_nat <$> seq 0 256.
Definition signals : list Z := Z.of_nat <$> seq 1 126.

(** The result tells how a process ended: [waitFor] answers the exit code of a process that exited
    and minus the signal of one that was killed, with or without a core dump, for every code from
    0 to 255 and every signal, so that the two kinds of end are never confused. *)
Theorem waitFor_decodes :
  (∀ code, 0 ≤ code < 256 → waitFor (exit_status code) = code)
  ∧ (∀ sig core, 0 < sig < 127 → waitFor (signal_status sig core) = - sig).
Proof.
  split.
  - intros code Hc. assert (Forall (λ c, waitFor (exit_status c) = c) codes) as H
      by (apply (bool_decide_unpack _); by vm_compute).
    rewrite Forall_forall in H. apply H. unfold codes. apply (list_elem_of_fmap_2' _ _ (Z.to_nat code)); [|lia].
    apply elem_of_seq. lia.
  - intros sig core Hs.
    assert (Forall (λ g, waitFor (signal_status g false) = - g ∧ waitFor (signal_status g true) = - g) signals) as H
      by (apply (bool_decide_unpack _); by vm_compute).
    rewrite Forall_forall in H. assert (sig ∈ signals) as Hin.
    { unfold signals. apply (list_elem_of_fmap_2' _ _ (Z.to_nat sig)); [|lia]. apply elem_of_seq. lia. }
    destruct (H _ Hin). by destruct core.
Qed.
