(* ===== verification/PtyJni.v ===== *)
(** * The JNI entry point of the terminal ([terminal-emulator/src/main/jni/termux.c])

    [createSubprocess] copies the strings of two Java arrays into C arrays, runs
    [create_subprocess] of [Pty] and gives everything back.  The blocks of
    [malloc] and [strdup] are a finite map from addresses to contents, the
    characters held by [GetStringUTFChars] a finite map from addresses to the
    Java string they belong to; what the virtual machine and the allocator
    answer is the argument [jenv]. *)

From stdpp Require Import gmap.
From S2P Require Import Prelude Pty.

(** ** State *)

Abbreviation jstring := Z.

(** A block: an array of pointers ([None] is a null pointer), or a string. *)
Inductive block := Array (l : list (option Z)) | Str (s : list Z).
#[export] Instance block_eq_dec : EqDecision block.
Proof. solve_decision. Defined.

Record jenv := mk_jenv {
  chars_of : jstring → option (list Z);   (** [None]: [GetStringUTFChars] fails *)
  malloc_ok : Z → bool;                   (** by the address that would be given *)
  critical_ok : bool                      (** [GetPrimitiveArrayCritical] succeeds *)
}.

Record jst := mk_jst {
  heap : gmap Z block;
  next : Z;                               (** the next address *)
  held : gmap Z jstring;                  (** characters not yet released *)
  misreleased : list (jstring * jstring); (** releases naming another string: named, owner *)
  process_id : option Z                   (** the element of [processIdArray] *)
}.
#[export] Instance eta_jst : Settable jst := λ x,
  mk_jst (heap x) (next x) (held x) (misreleased x) (process_id x).

(** ** Allocation and strings *)

Definition alloc (e : jenv) (b : block) (st : jst) : option Z * jst :=
  if malloc_ok e (next st)
  then (Some (next st), st <| heap ::= <[next st := b]> |> <| next ::= Z.succ |>)
  else (None, st).

Definition GetStringUTFChars (e : jenv) (s : jstring) (st : jst) : option (Z * list Z) * jst :=
  match chars_of e s with
  | Some c => (Some (next st, c), st <| held ::= <[next st := s]> |> <| next ::= Z.succ |>)
  | None => (None, st)
  end.

(** The characters go back; the string named is meant to be theirs. *)
Definition ReleaseStringUTFChars (s : jstring) (p : option Z) (st : jst) : jst :=
  match p ≫= λ p, held st !! p with
  | Some o => st <| held ::= delete (default 0 p) |>
                 <| misreleased ::= λ l, if decide (s = o) then l else l ++ [(s, o)] |>
  | None => st
  end.

(** ** Copying an array *)

(** The loop over the elements; [acc] is what is written at [p] so far. *)
Fixpoint copy_loop (e : jenv) (p : Z) (l : list jstring) (acc : list (option Z)) (st : jst)
  : bool * jst :=
  match l with
  | [] => (true, st <| heap ::= <[p := Array (acc ++ [None])]> |>)
  | s :: l' =>
    match GetStringUTFChars e s st with
    | (None, st1) => (false, st1)
    | (Some (q, c), st1) =>
      let '(d, st2) := alloc e (Str c) st1 in
      let st3 := st2 <| heap ::= <[p := Array (acc ++ [d])]> |> in
      copy_loop e p l' (acc ++ [d]) (ReleaseStringUTFChars s (Some q) st3)
    end
  end.

(** [None] throws; otherwise the C array, if there is one. *)
Definition copy_array (e : jenv) (a : option (list jstring)) (st : jst)
  : option (option Z) * jst :=
  match default [] a with
  | [] => (Some None, st)
  | l =>
    match alloc e (Array []) st with
    | (None, st1) => (None, st1)
    | (Some p, st1) =>
      let '(ok, st2) := copy_loop e p l [] st1 in
      (if ok then Some (Some p) else None, st2)
    end
  end.

(** The pointers before the first null pointer. *)
Fixpoint until_null (l : list (option Z)) : list Z :=
  match l with
  | Some q :: l' => q :: until_null l'
  | _ => []
  end.

(** What a C function sees that walks the array. *)
Definition entries (h : gmap Z block) (p : Z) : list Z :=
  match h !! p with Some (Array l) => until_null l | _ => [] end.
Definition str_at (h : gmap Z block) (q : Z) : list Z :=
  match h !! q with Some (Str s) => s | _ => [] end.
Definition strings_at (h : gmap Z block) (p : Z) : list (list Z) := str_at h <$> entries h p.

(** [for (tmp = a; *tmp; ++tmp) free( *tmp); free(a)]. *)
Definition free_array (p : option Z) (st : jst) : jst :=
  match p with
  | Some p => st <| heap ::= λ h, delete p (foldl (λ h q, delete q h) h (entries h p)) |>
  | None => st
  end.

(** ** The entry point *)

Record outcome := mk_outcome {
  result : option Z;                (** [None]: an exception is pending and -1 returned *)
  jstate : jst;
  parent_fds : fdtable;
  child_of : option child_end
}.

Definition createSubprocess (e : jenv) (pe : penv) (cmd cwd : jstring) (args envVars : option (list jstring))
    (rows columns cell_width cell_height : Z) (t : fdtable) (st : jst) : option outcome :=
  match copy_array e args st with
  | (None, st1) => Some (mk_outcome None st1 t None)
  | (Some argv, st1) =>
    match copy_array e envVars st1 with
    | (None, st2) => Some (mk_outcome None st2 t None)
    | (Some envp, st2) =>
      let '(cmd_cwd, st3) := GetStringUTFChars e cwd st2 in
      let '(cmd_utf8, st4) := GetStringUTFChars e cmd st3 in
      '(t', y, r, d) ← create_subprocess pe (snd <$> cmd_utf8) (snd <$> cmd_cwd)
        (strings_at (heap st4) <$> argv) (strings_at (heap st4) <$> envp)
        rows columns cell_width cell_height t;
      let st5 := ReleaseStringUTFChars cmd (fst <$> cmd_utf8) st4 in
      let st6 := ReleaseStringUTFChars cmd (fst <$> cmd_cwd) st5 in
      let st7 := free_array envp (free_array argv st6) in
      if critical_ok e
      then
        let procId := match r with Returns _ pid => pid | Throws => 0 end in
        Some (mk_outcome (match r with Returns ptm _ => Some ptm | Throws => None end)
          (st7 <| process_id := Some procId |>) t' d)
      else Some (mk_outcome None st7 t' d)
    end
  end.

(** ** Fresh addresses *)

Definition fresh_above (st : jst) : Prop :=
  ∀ k, next st ≤ k → heap st !! k = None ∧ held st !! k = None.

(** Every string can be read and every allocation succeeds. *)
Definition willing (e : jenv) : Prop :=
  (∀ s, is_Some (chars_of e s)) ∧ ∀ p, malloc_ok e p = true.

Definition chars (e : jenv) (s : jstring) : list Z := default [] (chars_of e s).

Lemma release_own s p st h n m pid :
  held st !! p = None →
  ReleaseStringUTFChars s (Some p) (mk_jst h n (<[p := s]> (held st)) m pid)
  = mk_jst h n (held st) m pid.
Proof.
  intros Hp. unfold ReleaseStringUTFChars. simpl. rewrite lookup_insert_eq. simpl.
  rewrite decide_True by done. f_equal. by apply delete_insert_id.
Qed.

(** What filling the array at [p] does: a new block for every string, the pointers
    [ds] added to the array, and nothing else. *)
Record copied (st st' : jst) (p : Z) (ds0 ds : list Z) (strs : list (list Z)) : Prop := {
  copied_array : heap st' !! p = Some (Array ((Some <$> ds0 ++ ds) ++ [None]));
  copied_strs : Forall2 (λ d s, heap st' !! d = Some (Str s)) ds strs;
  copied_fresh : Forall (λ k, next st ≤ k < next st') ds;
  copied_rest : ∀ k, k ≠ p → k ∉ ds → heap st' !! k = heap st !! k;
  copied_held : held st' = held st;
  copied_mis : misreleased st' = misreleased st;
  copied_pid : process_id st' = process_id st;
  copied_next : next st ≤ next st';
  copied_ok : fresh_above st'
}.

(** One turn of the loop when nothing fails. *)
Lemma copy_loop_cons e p s l acc st :
  is_Some (chars_of e s) → (∀ q, malloc_ok e q = true) → fresh_above st →
  copy_loop e p (s :: l) acc st
  = copy_loop e p l (acc ++ [Some (next st + 1)])
      (mk_jst (<[p := Array (acc ++ [Some (next st + 1)])]> (<[next st + 1 := Str (chars e s)]> (heap st)))
         (next st + 2) (held st) (misreleased st) (process_id st)).
Proof.
  intros [c Ec] Hm Hf. cbn [copy_loop]. unfold GetStringUTFChars, chars.
  rewrite Ec. unfold alloc. rewrite Hm. cbn -[Z.add]. f_equal.
  rewrite release_own by (apply Hf; lia). by replace (Z.succ (Z.succ (next st))) with (next st + 2) by lia.
Qed.

Lemma copy_loop_run e p l : ∀ ds0 st,
  willing e → fresh_above st → p < next st →
  ∃ ds st', copy_loop e p l (Some <$> ds0) st = (true, st') ∧ copied st st' p ds0 ds (chars e <$> l).
Proof.
  induction l as [|s l IH]; intros ds0 st He Hf Hp.
  { exists [], (st <| heap ::= <[p := Array ((Some <$> ds0) ++ [None])]> |>). split; [done|].
    split; simpl; try done; rewrite ?app_nil_r; [by simplify_map_eq|constructor..|intros; by simplify_map_eq|].
    intros k Hk. simpl in *. rewrite lookup_insert_ne by lia. by apply Hf. }
  rewrite copy_loop_cons by (done || apply He). set (st1 := mk_jst _ _ _ _ _).
  assert (fresh_above st1) as Hf1.
  { intros k Hk. simpl in *. rewrite !lookup_insert_ne by lia. apply Hf. lia. }
  assert ((Some <$> ds0) ++ [Some (next st + 1)] = Some <$> (ds0 ++ [next st + 1])) as Ea by (by rewrite fmap_app).
  rewrite Ea. destruct (IH (ds0 ++ [next st + 1]) st1 He Hf1) as (ds & st' & E & C); [simpl; lia|].
  exists (next st + 1 :: ds), st'. split; [done|]. destruct C as [Ca Cs Cf Cr Ch Cm Ci Cn Co]. simpl in *.
  split; try done; try lia.
  - rewrite Ca. by rewrite <-app_assoc.
  - constructor; [|done]. rewrite Cr; [|lia|].
    { rewrite lookup_insert_ne by lia. apply lookup_insert_eq. }
    intros Hin. rewrite Forall_forall in Cf. specialize (Cf _ Hin). simpl in Cf. lia.
  - constructor; [lia|]. eapply Forall_impl; [exact Cf|]. simpl. lia.
  - intros k Hkp Hk. rewrite Cr by set_solver. rewrite !lookup_insert_ne by set_solver. done.
Qed.

Lemma until_null_map ds : until_null ((Some <$> ds) ++ [None]) = ds.
Proof. induction ds as [|d ds IH]; [done|]. csimpl. by rewrite IH. Qed.

Lemma copied_strings st st' p ds strs :
  copied st st' p [] ds strs → entries (heap st') p = ds ∧ strings_at (heap st') p = strs.
Proof.
  intros C. unfold strings_at, entries. rewrite (copied_array _ _ _ _ _ _ C). simpl.
  rewrite until_null_map. split; [done|]. pose proof (copied_strs _ _ _ _ _ _ C) as H. clear C.
  unfold str_at. induction H as [|d s ds strs Hd _ IH]; csimpl; [done|]. by rewrite Hd, IH.
Qed.

(** ** Copying and freeing *)

(** What copying a whole array gives: nothing is held, the old blocks are as they
    were, and the array, if there is one, reads as the strings. *)
Record array_copy (e : jenv) (a : option (list jstring)) (st : jst) (p : option Z) (ds : list Z) (st' : jst) : Prop := {
  ac_null : p = None ↔ default [] a = [];
  ac_nil : p = None → ds = [];
  ac_entries : ∀ q, p = Some q → entries (heap st') q = ds
    ∧ strings_at (heap st') q = chars e <$> default [] a;
  ac_new : Forall (λ k, next st ≤ k < next st') (option_list p ++ ds);
  ac_rest : ∀ k, k ∉ option_list p ++ ds → heap st' !! k = heap st !! k;
  ac_held : held st' = held st;
  ac_mis : misreleased st' = misreleased st;
  ac_pid : process_id st' = process_id st;
  ac_next : next st ≤ next st';
  ac_ok : fresh_above st'
}.

Lemma copy_array_run e a st :
  willing e → fresh_above st →
  ∃ p ds st', copy_array e a st = (Some p, st') ∧ array_copy e a st p ds st'.
Proof.
  intros He Hf. unfold copy_array. destruct (default [] a) as [|s l] eqn:Ea.
  { exists None, [], st. split; [done|]. by split. }
  unfold alloc. rewrite (proj2 He). set (st1 := set_field _ _ _).
  assert (fresh_above st1) as Hf1.
  { intros k Hk. simpl in *. rewrite lookup_insert_ne by lia. apply Hf. lia. }
  destruct (copy_loop_run e (next st) (s :: l) [] st1 He Hf1) as (ds & st' & E & C); [simpl; lia|].
  simpl fmap in E. rewrite E. exists (Some (next st)), ds, st'. split; [done|].
  pose proof (copied_next _ _ _ _ _ _ C) as Hn. simpl in Hn.
  split; try (by apply C); try (simpl in *; lia).
  - by rewrite Ea.
  - done.
  - intros q [= <-]. rewrite Ea. by apply (copied_strings st1).
  - simpl. constructor; [lia|]. eapply Forall_impl; [exact (copied_fresh _ _ _ _ _ _ C)|]. simpl. lia.
  - intros k Hk. simpl in Hk. rewrite (copied_rest _ _ _ _ _ _ C) by set_solver. simpl.
    apply lookup_insert_ne. set_solver.
Qed.

Lemma foldl_delete_lookup (ds : list Z) : ∀ (h : gmap Z block) k,
  foldl (λ h q, delete q h) h ds !! k = if decide (k ∈ ds) then None else h !! k.
Proof.
  induction ds as [|d ds IH]; intros h k; simpl; [done|]. rewrite IH.
  destruct (decide (k = d)) as [->|].
  - rewrite (decide_True (P:=d ∈ d :: ds)) by set_solver. case_decide; [done|]. apply lookup_delete_eq.
  - rewrite lookup_delete_ne by done. repeat case_decide; try done; set_solver.
Qed.

Lemma free_array_lookup e a st p ds st1 st2 k :
  array_copy e a st p ds st1 → (∀ q, p = Some q → entries (heap st2) q = ds) →
  heap (free_array p st2) !! k = if decide (k ∈ option_list p ++ ds) then None else heap st2 !! k.
Proof.
  intros C He. destruct p as [q|]; simpl.
  - rewrite (He _ eq_refl). destruct (decide (k = q)) as [->|].
    + rewrite lookup_delete_eq, decide_True by set_solver. done.
    + rewrite lookup_delete_ne, foldl_delete_lookup by done. repeat case_decide; try done; set_solver.
  - rewrite (ac_nil _ _ _ _ _ _ C eq_refl), decide_False by set_solver. done.
Qed.

(** An array that is copied keeps its place while blocks are added above it. *)
Lemma array_copy_stable e a st p ds st1 h' q :
  array_copy e a st p ds st1 → (∀ k, next st ≤ k < next st1 → h' !! k = heap st1 !! k) →
  p = Some q → entries h' q = ds ∧ strings_at h' q = chars e <$> default [] a.
Proof.
  intros C Hh ->. destruct (ac_entries _ _ _ _ _ _ C q eq_refl) as [E1 E2].
  pose proof (ac_new _ _ _ _ _ _ C) as Hn. apply Forall_cons in Hn as [Hq Hn].
  assert (entries h' q = entries (heap st1) q) as Eq by (unfold entries; rewrite Hh by lia; done).
  unfold strings_at in *. rewrite Eq, E1 in *. split; [done|]. rewrite <-E2. apply list_fmap_ext.
  intros i d Hd. unfold str_at. rewrite Hh; [done|].
  rewrite Forall_forall in Hn. apply list_elem_of_lookup_2 in Hd. exact (Hn _ Hd).
Qed.

(** The C array for a Java array. *)
Definition c_array (e : jenv) (a : option (list jstring)) : option (list (list Z)) :=
  match default [] a with [] => None | l => Some (chars e <$> l) end.

Lemma array_copy_strings e a st p ds st1 h' :
  array_copy e a st p ds st1 → (∀ k, next st ≤ k < next st1 → h' !! k = heap st1 !! k) →
  strings_at h' <$> p = c_array e a.
Proof.
  intros C Hh. pose proof (ac_null _ _ _ _ _ _ C) as Hn. unfold c_array. destruct p as [q|].
  - simpl. destruct (array_copy_stable _ _ _ _ _ _ h' q C Hh eq_refl) as [_ ->].
    destruct (default [] a) eqn:E; [|done]. discriminate (proj2 Hn eq_refl).
  - by rewrite (proj1 Hn).
Qed.

Lemma array_copy_outside e a st p ds st1 k :
  array_copy e a st p ds st1 → ¬ (next st ≤ k < next st1) → k ∉ option_list p ++ ds.
Proof.
  intros C Hk Hin. pose proof (ac_new _ _ _ _ _ _ C) as Hn. rewrite Forall_forall in Hn.
  exact (Hk (Hn _ Hin)).
Qed.

(** Two arrays copied one after the other and freed in the same order. *)
Lemma free_both e a1 a2 st p1 ds1 st1 p2 ds2 st2 st3 :
  fresh_above st →
  array_copy e a1 st p1 ds1 st1 → array_copy e a2 st1 p2 ds2 st2 → heap st3 = heap st2 →
  heap (free_array p2 (free_array p1 st3)) = heap st.
Proof.
  intros Hf C1 C2 E3. pose proof (ac_ok _ _ _ _ _ _ C1) as Hf1.
  assert (∀ k, next st ≤ k < next st1 → heap st3 !! k = heap st1 !! k) as H1.
  { intros k Hk. rewrite E3. apply (ac_rest _ _ _ _ _ _ C2), (array_copy_outside _ _ _ _ _ _ _ C2). lia. }
  assert (∀ k, heap (free_array p1 st3) !! k = if decide (k ∈ option_list p1 ++ ds1) then None else heap st2 !! k) as F1.
  { intros k. rewrite <-E3. eapply free_array_lookup; [exact C1|]. intros q Hq.
    exact (proj1 (array_copy_stable _ _ _ _ _ _ _ _ C1 H1 Hq)). }
  apply map_eq. intros k. rewrite (free_array_lookup _ _ _ _ _ _ _ _ C2).
  - rewrite F1. destruct (decide (k ∈ option_list p2 ++ ds2)) as [H|Hk2].
    + pose proof (ac_new _ _ _ _ _ _ C2) as Hn. rewrite Forall_forall in Hn. specialize (Hn _ H).
      pose proof (ac_next _ _ _ _ _ _ C1). symmetry. apply Hf. simpl in Hn. lia.
    + rewrite (ac_rest _ _ _ _ _ _ C2) by done. case_decide as Hk1.
      * pose proof (ac_new _ _ _ _ _ _ C1) as Hn. rewrite Forall_forall in Hn. specialize (Hn _ Hk1).
        symmetry. apply Hf. simpl in Hn. lia.
      * by rewrite (ac_rest _ _ _ _ _ _ C1).
  - intros q Hq. apply (array_copy_stable _ _ _ _ _ _ _ _ C2); [|done]. intros j Hj. rewrite F1.
    rewrite decide_False; [done|]. apply (array_copy_outside _ _ _ _ _ _ _ C1). lia.
Qed.

(** The two strings that are held while the child is made. *)
Lemma release_cmd_cwd cmd cwd st h n m pid :
  fresh_above st → ∀ k, k = next st →
  ReleaseStringUTFChars cmd (Some k)
    (ReleaseStringUTFChars cmd (Some (k + 1)) (mk_jst h n (<[k + 1 := cmd]> (<[k := cwd]> (held st))) m pid))
  = mk_jst h n (held st) (m ++ if decide (cmd = cwd) then [] else [(cmd, cwd)]) pid.
Proof.
  intros Hf k Hk. unfold ReleaseStringUTFChars at 2. simpl. rewrite lookup_insert_eq. cbn -[Z.add].
  rewrite decide_True by done. rewrite delete_insert_id by (rewrite lookup_insert_ne by lia; apply Hf; lia).
  unfold ReleaseStringUTFChars. simpl. rewrite lookup_insert_eq. cbn -[Z.add].
  rewrite delete_insert_id by (apply Hf; lia). case_decide; [by rewrite app_nil_r|done].
Qed.

(** C31: Java strings reach the child and the memory is given back: where strings can be read and
    memory is there, [createSubprocess] runs the command with exactly the strings of the two
    arrays (a null or empty array is a null pointer), answers the descriptor and stores the
    process id, and afterwards every block and every string is released, whether the child
    could be made or not; the working directory is released in the name of the command. *)
Theorem jni_gives_back e pe cmd cwd args envVars rows cols cw ch t st t' y r d :
  willing e → critical_ok e = true → fresh_above st →
  create_subprocess pe (Some (chars e cmd)) (Some (chars e cwd)) (c_array e args) (c_array e envVars)
    rows cols cw ch t = Some (t', y, r, d) →
  ∃ st',
    createSubprocess e pe cmd cwd args envVars rows cols cw ch t st
      = Some (mk_outcome (match r with Returns ptm _ => Some ptm | Throws => None end) st' t' d)
    ∧ heap st' = heap st ∧ held st' = held st
    ∧ misreleased st' = misreleased st ++ (if decide (cmd = cwd) then [] else [(cmd, cwd)])
    ∧ process_id st' = Some (match r with Returns _ pid => pid | Throws => 0 end).
Proof.
  intros He Hcr Hf E. destruct (copy_array_run e args st He Hf) as (p1 & ds1 & st1 & E1 & C1).
  pose proof (ac_ok _ _ _ _ _ _ C1) as Hf1.
  destruct (copy_array_run e envVars st1 He Hf1) as (p2 & ds2 & st2 & E2 & C2).
  pose proof (ac_ok _ _ _ _ _ _ C2) as Hf2.
  unfold createSubprocess. rewrite E1, E2. unfold GetStringUTFChars.
  destruct (proj1 He cwd) as [wd Ew], (proj1 He cmd) as [cm Ec]. rewrite Ew, Ec.
  unfold chars in E. rewrite Ew, Ec in E. cbn -[create_subprocess Z.add ReleaseStringUTFChars free_array].
  rewrite (array_copy_strings _ _ _ _ _ _ (heap st2) C1), (array_copy_strings _ _ _ _ _ _ (heap st2) C2 (λ _ _, eq_refl)).
  2: { intros k Hk. apply (ac_rest _ _ _ _ _ _ C2), (array_copy_outside _ _ _ _ _ _ _ C2). lia. }
  cbn [default] in E. unfold id in E. rewrite E. cbn -[ReleaseStringUTFChars free_array Z.add]. rewrite Hcr.
  rewrite <-!Z.add_1_r, (release_cmd_cwd cmd cwd st2) by done.
  eexists. split; [done|]. simpl.
  split_and!; [by eapply (free_both e args envVars)|..].
  all: destruct p1, p2; simpl; by rewrite ?(ac_held _ _ _ _ _ _ C2), ?(ac_held _ _ _ _ _ _ C1),
    ?(ac_mis _ _ _ _ _ _ C2), ?(ac_mis _ _ _ _ _ _ C1).
Qed.

Definition demo_jenv : jenv := mk_jenv (λ s, Some [s; 61; s]) (λ _, true) true.
Definition demo_jst : jst := mk_jst {[5 := Str []]} 10 ∅ [] None.

Lemma demo_jst_fresh : fresh_above demo_jst.
Proof. intros k Hk. simpl in *. split; [|done]. apply lookup_singleton_ne. lia. Qed.

Lemma jni_gives_back_witness : ∃ st' t' d,
  createSubprocess demo_jenv demo_penv 65 66 (Some [67; 68]) (Some [69]) 24 80 10 20 demo_fds demo_jst
    = Some (mk_outcome (Some 50) st' t' d)
  ∧ heap st' = {[5 := Str []]} ∧ misreleased st' = [(65, 66)] ∧ process_id st' = Some 4321.
Proof.
  destruct (create_subprocess demo_penv (Some [65; 61; 65]) (Some [66; 61; 66])
    (Some [[67; 61; 67]; [68; 61; 68]]) (Some [[69; 61; 69]]) 24 80 10 20 demo_fds)
    as [[[[t' y] r] d]|] eqn:E; [|by vm_compute in E].
  assert (r = Returns 50 4321) as -> by (vm_compute in E; by simplify_eq).
  destruct (jni_gives_back demo_jenv demo_penv 65 66 (Some [67; 68]) (Some [69]) 24 80 10 20 demo_fds
    demo_jst t' y (Returns 50 4321) d) as (st' & H1 & H2 & _ & H4 & H5).
  - split; [intros s; by eexists|done].
  - done.
  - exact demo_jst_fresh.
  - exact E.
  - exists st', t', d. done.
Defined.

(** ** A string that cannot be read *)

Lemma copy_loop_fails e p s l2 l1 : ∀ acc st,
  Forall (λ s, is_Some (chars_of e s)) l1 → (∀ q, malloc_ok e q = true) → chars_of e s = None →
  fresh_above st → is_Some (heap st !! p) → p < next st →
  ∃ st', copy_loop e p (l1 ++ s :: l2) acc st = (false, st')
    ∧ size (heap st') = (size (heap st) + length l1)%nat ∧ heap st' !! p ≠ None.
Proof.
  induction l1 as [|s1 l1 IH]; intros acc st Hl Hm Hs Hf Hp Hn.
  { exists st. cbn [app copy_loop]. unfold GetStringUTFChars. rewrite Hs. split; [done|].
    split; [simpl; lia|]. by destruct Hp as [b ->]. }
  inv Hl. cbn [app]. rewrite copy_loop_cons by done. set (st1 := mk_jst _ _ _ _ _).
  destruct (IH (acc ++ [Some (next st + 1)]) st1) as (st' & E & Esz & Hp'); try done.
  - intros k Hk. simpl in *. rewrite !lookup_insert_ne by lia. apply Hf. lia.
  - simpl. rewrite lookup_insert_eq. by eexists.
  - simpl. lia.
  - exists st'. split; [done|]. split; [|done]. rewrite Esz. simpl.
    rewrite map_size_insert_Some by (rewrite lookup_insert_ne by lia; done).
    rewrite map_size_insert_None by (apply Hf; lia). lia.
Qed.

(** A failure is paid with memory: when an element of the argument array cannot be read,
    [createSubprocess] throws without starting anything, and the array and the copies of
    all elements before it are never freed. *)
Theorem jni_argument_failure_leaks e pe cmd cwd l1 s l2 envVars rows cols cw ch t st :
  Forall (λ s, is_Some (chars_of e s)) l1 → chars_of e s = None → (∀ q, malloc_ok e q = true) →
  fresh_above st →
  ∃ st', createSubprocess e pe cmd cwd (Some (l1 ++ s :: l2)) envVars rows cols cw ch t st
      = Some (mk_outcome None st' t None)
    ∧ size (heap st') = (size (heap st) + 1 + length l1)%nat.
Proof.
  intros Hl Hs Hm Hf. unfold createSubprocess, copy_array, alloc. rewrite Hm.
  set (st1 := set_field _ _ _). cbn [default]. unfold id.
  destruct (copy_loop_fails e (next st) s l2 l1 [] st1) as (st' & E & Esz & _); try done.
  - intros k Hk. simpl in *. rewrite lookup_insert_ne by lia. apply Hf. lia.
  - simpl. rewrite lookup_insert_eq. by eexists.
  - simpl. lia.
  - destruct (l1 ++ s :: l2) as [|x xs] eqn:El; [by destruct l1|]. rewrite E.
    exists st'. split; [done|]. rewrite Esz. simpl.
    rewrite map_size_insert_None by (apply Hf; lia). lia.
Qed.

Lemma jni_argument_failure_leaks_witness :
  let e := mk_jenv (λ s, if s =? 9 then None else Some [s]) (λ _, true) true in
  ∃ st', createSubprocess e demo_penv 1 2 (Some [65; 9]) None 24 80 10 20 ∅ demo_jst
      = Some (mk_outcome None st' ∅ None) ∧ size (heap st') = 3%nat.
Proof.
  apply (jni_argument_failure_leaks (mk_jenv (λ s, if s =? 9 then None else Some [s]) (λ _, true) true)
    demo_penv 1 2 [65] 9 [] None 24 80 10 20 ∅ demo_jst).
  - repeat constructor. by eexists.
  - done.
  - done.
  - exact demo_jst_fresh.
Defined.
