(* ===== verification/Float.v ===== *)
(** * Floating-point numbers of C

    [float] is IEEE binary32 and [double] binary64, rounding to nearest even, by
    the specification in the Standard Library ([SpecFloat]).  Only what the
    input path uses: conversion from integers, from a bit pattern and between
    the widths, multiplication, division and comparison. *)

From Stdlib Require Export SpecFloat.
From S2P Require Import Prelude.

Abbreviation float := spec_float.

Definition float_of_Z (z : Z) : float := binary_normalize 24 128 z 0 false.
Definition double_of_Z (z : Z) : float := binary_normalize 53 1024 z 0 false.

(** [float] to [double] is exact. *)
Definition double_of_float (f : float) : float :=
  match f with
  | S754_finite s m e => binary_normalize 53 1024 (if s then Z.neg m else Z.pos m) e s
  | _ => f
  end.

Definition dmul : float → float → float := SFmul 53 1024.
Definition ddiv : float → float → float := SFdiv 53 1024.

(** [min] and [max] of [misc.h] are macros around a comparison. *)
Definition fmin (a b : float) : float := if SFltb a b then a else b.
Definition fmax (a b : float) : float := if SFltb b a then a else b.

(** A binary32 bit pattern. *)
Definition float_of_bits (w : Z) : float :=
  let s := Z.testbit w 31 in
  let e := Z.land (Z.shiftr w 23) 0xff in
  let m := Z.land w 0x7fffff in
  if e =? 0xff then (if m =? 0 then S754_infinity s else S754_nan)
  else if e =? 0 then (if m =? 0 then S754_zero s else S754_finite s (Z.to_pos m) (-149))
  else S754_finite s (Z.to_pos (m + 0x800000)) (e - 150).

(** The value of a number is an integer. *)
Definition is_int (f : float) (z : Z) : Prop := SFcompare f (double_of_Z z) = Some Eq.
Definition is_intb (f : float) (z : Z) : bool := SFeqb f (double_of_Z z).
