(* ===== verification/Touch.v ===== *)
(** * Touches ([lorie/cmdentrypoint.cpp], [xserver/dix/touch.c], [xserver/dix/getevents.c])

    A touch of the Android side has an id of its own; the server keeps a record
    for every finger that is down, gives it an id clients see, and lets the first
    finger act as the pointer.  The activity does not always tell that a finger
    goes down, so [handleTouchEvent] repairs the sequence before it queues an
    event.

    The state is the touch part of the device [lorieTouch]: its records
    ([last.touches]), the counter of client ids, and the events queued so far,
    each with its kind, the client's id, whether it emulates the pointer and the
    stored coordinates.  Where on the screen an event lands is the work of
    [scale_to_desktop] and not part of the model. *)

From stdpp Require Import gmap.
From S2P Require Import Prelude Float.

(** ** State *)

Definition XI_TouchBegin : Z := 18.
Definition XI_TouchUpdate : Z := 19.
Definition XI_TouchEnd : Z := 20.

Record DDXTouchPointInfo := mk_touch {
  active : bool;
  ddx_id : Z;
  client_id : Z;
  emulate_pointer : bool;
  valuator0 : option float;         (** [valuators], by axis *)
  valuator1 : option float
}.
#[export] Instance eta_touch : Settable DDXTouchPointInfo := λ t,
  mk_touch (active t) (ddx_id t) (client_id t) (emulate_pointer t) (valuator0 t) (valuator1 t).

Inductive touch_kind := ET_TouchBegin | ET_TouchUpdate | ET_TouchEnd.
#[export] Instance touch_kind_eq_dec : EqDecision touch_kind.
Proof. solve_decision. Defined.

Record touch_event := mk_touch_event {
  kind : touch_kind; touchid : Z; emulated : bool; at0 : option float; at1 : option float
}.

Record tdev := mk_tdev {
  enabled : bool;
  direct : bool;                    (** [touch->mode == XIDirectTouch] *)
  touches : list DDXTouchPointInfo; (** [last.touches] *)
  next_client_id : Z;
  queued : list touch_event;        (** newest last *)
  cursor_visible : bool
}.
#[export] Instance eta_tdev : Settable tdev := λ s,
  mk_tdev (enabled s) (direct s) (touches s) (next_client_id s) (queued s) (cursor_visible s).

(** What the server decides: [touchEmulatePointer], and whether memory for more
    records is there. *)
Record tenv := mk_tenv { touchEmulatePointer : bool; grow_ok : bool }.

(** ** Records of touches ([touch.c]) *)

(** [TouchInitDDXTouchPoint]. *)
Definition fresh_touch : DDXTouchPointInfo := mk_touch false 0 0 false None None.

Definition TouchResizeQueue (e : tenv) (s : tdev) : option tdev :=
  let n := length (touches s) in
  let size := (n + n / 2 + 1)%nat in
  if grow_ok e
  then Some (s <| touches := touches s ++ replicate (size - n) fresh_touch |>)
  else None.

Definition is_touch (id : Z) (t : DDXTouchPointInfo) : bool := active t && (ddx_id t =? id).

(** The index of the record; [TouchFindByDDXID(dev, id, FALSE)]. *)
Definition find_touch (id : Z) (s : tdev) : option nat := index_of (is_touch id) (touches s).

(** The inner loop of [TouchBeginDDXTouch]: whether to emulate the pointer, and
    the first free record. *)
Fixpoint scan (i : nat) (l : list DDXTouchPointInfo) (emulate : bool) (ti : option nat)
  : bool * option nat :=
  match l with
  | [] => (emulate, ti)
  | t :: l' =>
    let emulate' := if active t then false else emulate in
    let ti' := if active t then ti else match ti with Some _ => ti | None => Some i end in
    if negb emulate' && bool_decide (is_Some ti') then (emulate', ti')
    else scan (S i) l' emulate' ti'
  end.

(** The outer loop; out of fuel it has no result. *)
Fixpoint find_free (fuel : nat) (e : tenv) (emulate : bool) (s : tdev)
  : option (bool * option nat * tdev) :=
  match fuel with
  | O => None
  | S fuel' =>
    match scan 0 (touches s) emulate None with
    | (emulate', Some ti) => Some (emulate', Some ti, s)
    | (emulate', None) =>
      match TouchResizeQueue e s with
      | Some s' => find_free fuel' e emulate' s'
      | None => Some (emulate', None, s)
      end
    end
  end.

Definition set_touch (i : nat) (f : DDXTouchPointInfo → DDXTouchPointInfo) (s : tdev) : tdev :=
  s <| touches ::= alter f i |>.

(** The counter is an [int]; it skips zero when it wraps. *)
Definition next_id (c : Z) : Z := if s32 (c + 1) =? 0 then 1 else s32 (c + 1).

Definition TouchBeginDDXTouch (e : tenv) (id : Z) (s : tdev) : option (option nat * tdev) :=
  let emulate := touchEmulatePointer e && direct s in
  match find_touch id s with
  | Some _ => Some (None, s)
  | None =>
    '(emulate', ti, s1) ← find_free 2 e emulate s;
    match ti with
    | Some i =>
      let c := next_client_id s1 in
      Some (Some i,
        set_touch i (λ t, mk_touch true id c emulate' (valuator0 t) (valuator1 t)) s1
          <| next_client_id := next_id c |>)
    | None => Some (None, s1)
    end
  end.

Definition TouchFindByDDXID (e : tenv) (id : Z) (create : bool) (s : tdev)
  : option (option nat * tdev) :=
  match find_touch id s with
  | Some i => Some (Some i, s)
  | None => if create then TouchBeginDDXTouch e id s else Some (None, s)
  end.

Definition TouchEndDDXTouch (i : nat) (s : tdev) : tdev :=
  set_touch i (λ t, t <| active := false |>) s.

(** ** Events ([getevents.c]) *)

Definition kind_of (type : Z) : option touch_kind :=
  if type =? XI_TouchBegin then Some ET_TouchBegin
  else if type =? XI_TouchUpdate then Some ET_TouchUpdate
  else if type =? XI_TouchEnd then Some ET_TouchEnd
  else None.

(** [GetTouchEvents] and the queueing of its event; the mask has both axes. *)
Definition QueueTouchEvents (e : tenv) (type id : Z) (v0 v1 : float) (s : tdev) : option tdev :=
  if negb (enabled s) then Some s
  else
    '(found, s1) ← TouchFindByDDXID e id (type =? XI_TouchBegin) s;
    match found with
    | None => Some s1
    | Some i =>
      ti ← touches s1 !! i;
      match kind_of type with
      | None => Some s1
      | Some k =>
        let s2 := if decide (k = ET_TouchEnd) then TouchEndDDXTouch i s1 else s1 in
        let s3 := if direct s2
                  then set_touch i (λ t, t <| valuator0 := Some v0 |> <| valuator1 := Some v1 |>) s2
                  else s2 in
        Some (s3 <| queued ::= λ q, q ++ [mk_touch_event k (client_id ti) (emulate_pointer ti) (Some v0) (Some v1)] |>)
      end
    end.

(** ** A touch of the Android side ([cmdentrypoint.cpp]) *)

(** [max(min((float) x, width), 0)]; all values are small enough to be exact. *)
Definition clamp (x limit : Z) : Z := Z.max (Z.min x limit) 0.

(** [x * 0xFFFF / (float) width] in [double]. *)
Definition to_device (x limit : Z) : float := ddiv (double_of_Z (x * 0xFFFF)) (double_of_Z limit).

Record touch_msg := mk_touch_msg { type : Z; id : Z; x : Z; y : Z }.

(** The stored coordinates, if both are there, are the new ones. *)
Definition same_place (t : DDXTouchPointInfo) (px py : Z) : bool :=
  match valuator0 t, valuator1 t with
  | Some ox, Some oy => is_intb ox px && is_intb oy py
  | _, _ => false
  end.

Definition handleTouchEvent (e : tenv) (width height : Z) (m : touch_msg) (s : tdev) : option tdev :=
  let px := clamp (x m) width in
  let py := clamp (y m) height in
  let touch := find_touch (id m) s ≫= λ i, touches s !! i in
  let down := bool_decide (is_Some touch) in
  if (type m =? XI_TouchUpdate) && match touch with Some t => same_place t px py | None => false end
  then Some s
  else
    let type' := if (type m =? XI_TouchUpdate) && negb down then XI_TouchBegin else type m in
    if (type' =? XI_TouchEnd) && negb down then Some s
    else
      s' ← QueueTouchEvents e type' (id m) (to_device px width) (to_device py height) s;
      Some (s' <| cursor_visible := false |>).

(** ** The table of fingers *)

(** A finger that is down: the id clients see, whether it is the pointer, and the
    coordinates of its last event, in units of the device (a device that is not
    direct keeps none). *)
Record finger := mk_finger { client : Z; pointer : bool; place : option (float * float) }.
#[export] Instance eta_finger : Settable finger := λ v, mk_finger (client v) (pointer v) (place v).

(** What the component promises: a table of the fingers that are down by their
    ids, the next id, and the events so far. *)
Record table := mk_table {
  fingers : gmap Z finger;
  fresh : Z;
  log : list touch_event;
  tracks : bool                     (** the coordinates of fingers are kept *)
}.
#[export] Instance eta_table : Settable table := λ a,
  mk_table (fingers a) (fresh a) (log a) (tracks a).

(** The pixel on the screen that is next to [v]. *)
Definition on_screen (v limit : Z) : Z :=
  if v <? 0 then 0 else if limit <? v then Z.max 0 limit else v.

(** The coordinates of a message in units of the device. *)
Definition scaled (w h : Z) (m : touch_msg) : float * float :=
  (to_device (on_screen (x m) w) w, to_device (on_screen (y m) h) h).

(** The moves that are not passed on: the coordinates of the last event, in units
    of the device, are the new place in pixels. *)
Definition left_out (v : finger) (w h : Z) (m : touch_msg) : Prop :=
  match place v with
  | Some (ox, oy) => is_int ox (on_screen (x m) w) ∧ is_int oy (on_screen (y m) h)
  | None => False
  end.

#[export] Instance left_out_dec v w h m : Decision (left_out v w h m).
Proof. unfold left_out, is_int. destruct (place v) as [[ox oy]|]; apply _. Defined.

Definition emit (k : touch_kind) (v : finger) (p : float * float) (a : table) : table :=
  a <| log ::= λ l, l ++ [mk_touch_event k (client v) (pointer v) (Some p.1) (Some p.2)] |>.

(** A finger after an event at [p]. *)
Definition seen (a : table) (p : float * float) (v : finger) : finger :=
  if tracks a then v <| place := Some p |> else v.

Definition report (k : touch_kind) (i : Z) (v : finger) (p : float * float) (a : table) : table :=
  emit k v p (a <| fingers ::= <[i := seen a p v]> |>).

(** A finger goes down; the first one is the pointer, if [emulate] says so. *)
Definition finger_down (emulate : bool) (i : Z) (p : float * float) (a : table) : table :=
  report ET_TouchBegin i
    (mk_finger (fresh a) (emulate && bool_decide (fingers a = ∅)) None) p (a <| fresh ::= next_id |>).

Definition finger_up (i : Z) (v : finger) (p : float * float) (a : table) : table :=
  emit ET_TouchEnd v p (a <| fingers ::= delete i |>).

(** What one message does. *)
Definition table_step (emulate : bool) (w h : Z) (m : touch_msg) (a : table) : table :=
  let p := scaled w h m in
  match kind_of (type m), fingers a !! id m with
  | Some ET_TouchBegin, Some v => report ET_TouchBegin (id m) v p a
  | Some ET_TouchBegin, None | Some ET_TouchUpdate, None => finger_down emulate (id m) p a
  | Some ET_TouchUpdate, Some v =>
    if decide (left_out v w h m) then a else report ET_TouchUpdate (id m) v p a
  | Some ET_TouchEnd, Some v => finger_up (id m) v p a
  | Some ET_TouchEnd, None | None, _ => a
  end.

Definition event_view (ev : touch_event) : touch_kind * Z * bool :=
  (kind ev, touchid ev, emulated ev).

Definition place_of (t : DDXTouchPointInfo) : option (float * float) :=
  ox ← valuator0 t; oy ← valuator1 t; Some (ox, oy).

Definition finger_of (t : DDXTouchPointInfo) : finger :=
  mk_finger (client_id t) (emulate_pointer t) (place_of t).

(** The records represent the table. *)
Record represents (s : tdev) (a : table) : Prop := mk_represents {
  rep_table : ∀ i v, fingers a !! i = Some v ↔
    ∃ j t, touches s !! j = Some t ∧ active t = true ∧ ddx_id t = i ∧ v = finger_of t;
  rep_unique : ∀ j k t u, touches s !! j = Some t → touches s !! k = Some u →
    active t = true → active u = true → ddx_id t = ddx_id u → j = k;
  rep_fresh : next_client_id s = fresh a;
  rep_log : queued s = log a;
  rep_direct : direct s = tracks a;
  rep_blank : direct s = false → ∀ j t, touches s !! j = Some t → place_of t = None
}.

(** ** Finding a free record *)

Lemma scan_Some j l : ∀ i em,
  scan i l em (Some j) = (em && forallb (λ t, negb (active t)) l, Some j).
Proof.
  induction l as [|t l IH]; intros i em; simpl; [by destruct em|].
  destruct (active t), em; simpl; rewrite ?IH; done.
Qed.

Lemma scan_None l : ∀ i em,
  scan i l em None
  = (em && forallb (λ t, negb (active t)) l, Nat.add i <$> index_of (λ t, negb (active t)) l).
Proof.
  induction l as [|t l IH]; intros i em; simpl; [by destruct em|].
  destruct (active t); simpl.
  - rewrite IH. destruct em; simpl.
    all: f_equal; destruct (index_of _ l); simpl; f_equal; lia.
  - rewrite Nat.add_0_r. destruct em; simpl; [by rewrite scan_Some|done].
Qed.

Lemma index_of_app {A} (p : A → bool) l k :
  index_of p l = None → index_of p (l ++ k) = Nat.add (length l) <$> index_of p k.
Proof.
  induction l as [|x l IH]; simpl; [by destruct (index_of p k)|].
  destruct (p x); [done|]. destruct (index_of p l); [done|]. intros _. rewrite IH by done.
  by destruct (index_of p k).
Qed.

(** Two turns are enough: after growing there is a free record. *)
Lemma find_free_run e em s :
  ∃ ti s1, find_free 2 e em s = Some (em && forallb (λ t, negb (active t)) (touches s), ti, s1)
    ∧ (∃ n, s1 = s <| touches := touches s ++ replicate n fresh_touch |>)
    ∧ match ti with
      | Some i => ∃ t, touches s1 !! i = Some t ∧ active t = false
      | None => grow_ok e = false
      end.
Proof.
  cbn [find_free]. rewrite scan_None. destruct (index_of _ (touches s)) as [i|] eqn:E; simpl.
  { exists (Some i), s. split; [done|]. split.
    - exists 0%nat. simpl. rewrite app_nil_r. by destruct s.
    - apply index_of_Some in E as (t & Ht & Ha). exists t. by destruct (active t). }
  unfold TouchResizeQueue. destruct (grow_ok e) eqn:Eg.
  - set (n := (_ - _)%nat). assert (∃ k, n = S k) as [k Hk] by (exists (n - 1)%nat; lia).
    rewrite scan_None. cbn [touches eta_tdev set_field].
    assert (index_of (λ t, negb (active t)) (touches s ++ replicate n fresh_touch) = Some (length (touches s))) as ->.
    { rewrite (index_of_app _ _ _ E), Hk. simpl. by rewrite Nat.add_0_r. }
    simpl. eexists (Some _), _. split; [|split].
    + do 3 f_equal. rewrite forallb_app. destruct em; simpl; [|done].
      destruct (forallb _ (touches s)) eqn:Ef; [|done]. simpl. rewrite Hk. simpl.
      clear. induction k; simpl; done.
    + by exists n.
    + simpl. exists fresh_touch. split; [|done]. rewrite lookup_app_r, Nat.sub_diag, Hk by lia. done.
  - exists None, s. split; [done|]. split; [|done]. exists 0%nat. simpl. rewrite app_nil_r. by destruct s.
Qed.

(** ** Representation *)

Lemma rep_active s a j t :
  represents s a → touches s !! j = Some t → active t = true →
  fingers a !! ddx_id t = Some (finger_of t).
Proof. intros R Ht Ha. apply (rep_table _ _ R). by exists j, t. Qed.

Lemma find_touch_spec s a id :
  represents s a →
  match find_touch id s with
  | Some i => ∃ t, touches s !! i = Some t ∧ active t = true ∧ ddx_id t = id
      ∧ fingers a !! id = Some (finger_of t)
  | None => fingers a !! id = None
  end.
Proof.
  intros R. unfold find_touch. destruct (index_of _ _) as [i|] eqn:E.
  - apply index_of_Some in E as (t & Ht & Hp). apply andb_true_iff in Hp as [Ha Hi].
    apply Z.eqb_eq in Hi. exists t. split_and!; try done. subst. by eapply rep_active.
  - apply index_of_None in E. apply eq_None_not_Some. intros [v Hv].
    apply (rep_table _ _ R) in Hv as (j & t & Ht & Ha & Hi & _).
    rewrite Forall_lookup in E. specialize (E _ _ Ht). unfold is_touch in E.
    rewrite Ha, Hi, Z.eqb_refl in E. done.
Qed.

Lemma none_active s a :
  represents s a → forallb (λ t, negb (active t)) (touches s) = bool_decide (fingers a = ∅).
Proof.
  intros R. case_bool_decide as H.
  - apply forallb_forall. intros t Ht. apply list_elem_of_In, list_elem_of_lookup_1 in Ht as [j Hj].
    apply negb_true_iff, not_true_iff_false. intros Ha.
    assert (fingers a !! ddx_id t = Some (finger_of t)) as Hl
      by (by eapply rep_active). by rewrite H in Hl.
  - apply not_true_iff_false. intros Hf. apply H. apply map_eq. intros i. rewrite lookup_empty.
    apply eq_None_not_Some. intros [v (j & t & Ht & Ha & _)%(rep_table _ _ R)].
    rewrite forallb_forall in Hf. specialize (Hf t). rewrite Ha in Hf.
    by specialize (Hf (proj1 (list_elem_of_In _ _) (list_elem_of_lookup_2 _ _ _ Ht))).
Qed.

Lemma grown_lookup s n j t :
  (touches s ++ replicate n fresh_touch) !! j = Some t → active t = true → touches s !! j = Some t.
Proof.
  intros H Ha. apply lookup_app_Some in H as [H|[_ H]]; [done|].
  apply lookup_replicate in H as [-> _]. done.
Qed.

Lemma rep_grow s a n :
  represents s a → represents (s <| touches := touches s ++ replicate n fresh_touch |>) a.
Proof.
  intros [R1 R2 R3 R4 R5 R6]. split; try done; simpl.
  - intros i v. rewrite R1. split; intros (j & t & Ht & Ha & H); exists j, t; (split; [|done]).
    + by apply lookup_app_l_Some.
    + by eapply grown_lookup.
  - intros j k t u Ht Hu Hat Hau. apply R2; try done; by eapply grown_lookup.
  - intros Hd j t [Ht|[_ [-> _]%lookup_replicate]]%lookup_app_Some; [by eapply R6|done].
Qed.

Lemma alter_Some {A} (f : A → A) (i : nat) (l : list A) (j : nat) (u : A) :
  alter f i l !! j = Some u ↔
  (j = i ∧ ∃ t, l !! i = Some t ∧ u = f t) ∨ (j ≠ i ∧ l !! j = Some u).
Proof.
  destruct (decide (j = i)) as [->|Hj].
  - rewrite list_lookup_alter_eq, fmap_Some. split; [by left|]. by intros [[_ H]|[[] _]].
  - rewrite list_lookup_alter_ne by done. split; [by right|]. by intros [[-> _]|[_ H]].
Qed.

(** Changing record [i] keeps ids apart, when its id is nobody else's. *)
Lemma alter_unique (f : DDXTouchPointInfo → DDXTouchPointInfo) (i : nat) (l : list DDXTouchPointInfo) :
  (∀ j k t u, l !! j = Some t → l !! k = Some u → active t = true → active u = true →
    ddx_id t = ddx_id u → j = k) →
  (∀ j t u, l !! i = Some t → l !! j = Some u → active (f t) = true → active u = true →
    ddx_id (f t) = ddx_id u → j = i) →
  ∀ j k t u, alter f i l !! j = Some t → alter f i l !! k = Some u →
    active t = true → active u = true → ddx_id t = ddx_id u → j = k.
Proof.
  intros HU Hf j k t u Ht Hu Hat Hau Hid.
  apply alter_Some in Ht as [(-> & t' & Ht & ->)|[Hj Ht]];
    apply alter_Some in Hu as [(-> & u' & Hu & ->)|[Hk Hu]]; [done|..|by eapply HU].
  - symmetry. by eapply Hf.
  - by eapply Hf.
Qed.

(** The coordinates of a record that is in use are those of its finger; those of
    a record that is free are nobody's. *)
Lemma rep_store s a i t p :
  represents s a → direct s = true → touches s !! i = Some t →
  represents
    (set_touch i (λ t, t <| valuator0 := Some p.1 |> <| valuator1 := Some p.2 |>) s)
    (if active t then a <| fingers ::= <[ddx_id t := finger_of t <| place := Some p |>]> |> else a).
Proof.
  intros R Hd Ht. pose proof R as [R1 R2 R3 R4 R5 R6]. destruct p as [p0 p1].
  assert (∀ k v, (∃ j u, touches s !! j = Some u ∧ j ≠ i ∧ active u = true ∧ ddx_id u = k ∧ v = finger_of u)
    ↔ fingers a !! k = Some v ∧ (active t = true → ddx_id t ≠ k)) as Hother.
  { intros k v. rewrite R1. split.
    - intros (j & u & Hu & Hj & Hau & Hk & Hv). split; [by exists j, u|]. intros Hat Htk.
      apply Hj. eapply R2; try done. congruence.
    - intros [(j & u & Hu & Hau & Hk & Hv) Hne]. exists j, u. split_and!; try done. intros ->.
      simplify_eq. by apply Hne. }
  split; simpl; [| |by destruct (active t)..|intros; congruence].
  - intros k v. trans ((active t = true ∧ ddx_id t = k ∧ v = finger_of t <| place := Some (p0, p1) |>)
      ∨ (∃ j u, touches s !! j = Some u ∧ j ≠ i ∧ active u = true ∧ ddx_id u = k ∧ v = finger_of u)).
    + rewrite Hother. clear. destruct (active t); simpl; [rewrite lookup_insert_Some|]; naive_solver.
    + split.
      * intros [(Ha & Hk & ->)|(j & u & Hu & Hj & H)].
        { eexists i, _. rewrite alter_Some. split; [left; eauto|]. done. }
        exists j, u. rewrite alter_Some. eauto.
      * intros (j & u & [(-> & t' & Ht' & ->)|[Hj Hu]]%alter_Some & Ha & Hk & ->).
        { left. simplify_eq. done. }
        right. eauto 10.
  - apply alter_unique; [done|]. simpl. intros j t' u Ht' Hu Ha Hau Hid. by eapply R2.
Qed.

Lemma rep_begin s a i t id em :
  represents s a → touches s !! i = Some t → active t = false → fingers a !! id = None →
  represents
    (set_touch i (λ t, mk_touch true id (next_client_id s) em (valuator0 t) (valuator1 t)) s
       <| next_client_id := next_id (next_client_id s) |>)
    (a <| fingers ::= <[id := mk_finger (next_client_id s) em (place_of t)]> |> <| fresh ::= next_id |>).
Proof.
  intros R Ht Ha Hid. pose proof R as [R1 R2 R3 R4 R5 R6].
  split; simpl; [| |by rewrite R3|done|done|].
  - intros k v. destruct (decide (k = id)) as [->|Hk].
    + rewrite lookup_insert_eq. split.
      * intros [= <-]. eexists i, _. rewrite alter_Some. split; [left; eauto|]. done.
      * intros (j & u & Hu & Hau & Hi & ->).
        apply alter_Some in Hu as [(-> & t' & Ht' & ->)|[_ Hu]]; simpl in *; [by simplify_eq|].
        pose proof (rep_active _ _ _ _ R Hu Hau). congruence.
    + rewrite lookup_insert_ne by done. rewrite R1. split; intros (j & u & Hu & Hau & Hi & Hv).
      * exists j, u. rewrite alter_Some. split; [|done]. right. split; [|done]. intros ->. congruence.
      * apply alter_Some in Hu as [(-> & t' & _ & ->)|[_ Hu]]; simpl in *; [congruence|]. eauto 10.
  - apply alter_unique; [done|]. simpl. intros j t' u _ Hu _ Hau ->.
    pose proof (rep_active _ _ _ _ R Hu Hau). congruence.
  - intros Hd j u [(-> & t' & Ht' & ->)|[_ Hu]]%alter_Some; [by apply (R6 Hd i t')|by eapply R6].
Qed.

Lemma rep_end s a i t :
  represents s a → touches s !! i = Some t → active t = true →
  represents (TouchEndDDXTouch i s) (a <| fingers ::= delete (ddx_id t) |>).
Proof.
  intros [R1 R2 R3 R4 R5 R6] Ht Ha. split; try done; simpl.
  - intros k v. destruct (decide (k = ddx_id t)) as [->|Hk].
    + rewrite lookup_delete_eq. split; [done|]. intros (j & u & Hu & Hau & Hi & _).
      apply alter_Some in Hu as [(-> & t' & _ & ->)|[Hj Hu]]; simpl in *; [done|].
      destruct Hj. by eapply R2.
    + rewrite lookup_delete_ne by done. rewrite R1. split; intros (j & u & Hu & Hau & Hi & Hv).
      * exists j, u. rewrite alter_Some. split; [|done]. right. split; [|done]. intros ->. congruence.
      * apply alter_Some in Hu as [(-> & t' & _ & ->)|[_ Hu]]; simpl in *; [done|]. eauto 10.
  - apply alter_unique; [done|]. simpl. done.
  - intros Hd j u [(-> & t' & Ht' & ->)|[_ Hu]]%alter_Some; [by apply (R6 Hd i t')|by eapply R6].
Qed.

Lemma rep_emit s a k v v0 v1 :
  represents s a →
  represents (s <| queued ::= λ q, q ++ [mk_touch_event k (client v) (pointer v) (Some v0) (Some v1)] |>)
    (emit k v (v0, v1) a).
Proof. intros [R1 R2 R3 R4 R5 R6]. split; try done. simpl. by f_equal. Qed.

(** ** Events follow the table *)

Section run.
Context (e : tenv) (Hgrow : grow_ok e = true).

Definition emulates (s : tdev) : bool := touchEmulatePointer e && direct s.

(** What one event does to the table. *)
Definition table_event (emulate : bool) (type i : Z) (p : float * float) (a : table) : table :=
  match kind_of type, fingers a !! i with
  | Some ET_TouchBegin, None => finger_down emulate i p a
  | Some ET_TouchEnd, Some v => finger_up i v p a
  | Some k, Some v => report k i v p a
  | _, _ => a
  end.

Lemma begin_run id s a :
  represents s a → fingers a !! id = None →
  ∃ i t s1, TouchFindByDDXID e id true s = Some (Some i, s1)
    ∧ touches s1 !! i = Some t ∧ active t = true ∧ ddx_id t = id
    ∧ client_id t = fresh a ∧ emulate_pointer t = emulates s && bool_decide (fingers a = ∅)
    ∧ enabled s1 = enabled s ∧ direct s1 = direct s
    ∧ represents s1 (a <| fingers ::= <[id := finger_of t]> |> <| fresh ::= next_id |>).
Proof.
  intros R Hid. unfold TouchFindByDDXID, TouchBeginDDXTouch. pose proof (find_touch_spec s a id R) as Hf.
  destruct (find_touch id s) as [i|]; [destruct Hf as (t & _ & _ & _ & Hf); congruence|].
  destruct (find_free_run e (touchEmulatePointer e && direct s) s) as (ti & s1 & -> & (n & ->) & Hti).
  cbn [mbind option_bind]. destruct ti as [i|]; [|congruence]. destruct Hti as (t & Ht & Ha).
  rewrite (none_active _ _ R). pose proof (rep_grow _ _ n R) as R'.
  set (s1 := set_field touches _ s) in *. fold (emulates s). set (em := _ && _).
  exists i, (mk_touch true id (next_client_id s1) em (valuator0 t) (valuator1 t)). eexists. split; [done|].
  split_and!; try done.
  - simpl. rewrite list_lookup_alter_eq. change (touches s ++ _) with (touches s1). by rewrite Ht.
  - exact (rep_fresh _ _ R').
  - by apply (rep_begin s1 a i t id em R').
Qed.

(** An event of a record that is in use is stored and queued. *)
Lemma report_run k s a i t p :
  represents s a → touches s !! i = Some t → active t = true → fingers a !! ddx_id t = Some (finger_of t) →
  represents
    ((if direct s
      then set_touch i (λ t, t <| valuator0 := Some p.1 |> <| valuator1 := Some p.2 |>) s
      else s)
     <| queued ::= λ q, q ++ [mk_touch_event k (client_id t) (emulate_pointer t) (Some p.1) (Some p.2)] |>)
    (report k (ddx_id t) (finger_of t) p a).
Proof.
  intros R Ht Ha Hv. unfold report. destruct p as [p0 p1]. apply (rep_emit _ _ k (finger_of t) p0 p1).
  unfold seen. rewrite <-(rep_direct _ _ R). destruct (direct s) eqn:Hd.
  - pose proof (rep_store s a i t (p0, p1) R Hd Ht) as H. by rewrite Ha in H.
  - replace (set_field fingers _ a) with a; [done|]. destruct a; unfold set_field; simpl in *.
    by rewrite insert_id.
Qed.

Lemma end_run s a i t p :
  represents s a → touches s !! i = Some t → active t = true →
  represents
    ((if direct (TouchEndDDXTouch i s)
      then set_touch i (λ t, t <| valuator0 := Some p.1 |> <| valuator1 := Some p.2 |>) (TouchEndDDXTouch i s)
      else TouchEndDDXTouch i s)
     <| queued ::= λ q,
       q ++ [mk_touch_event ET_TouchEnd (client_id t) (emulate_pointer t) (Some p.1) (Some p.2)] |>)
    (finger_up (ddx_id t) (finger_of t) p a).
Proof.
  intros R Ht Ha. unfold finger_up. destruct p as [p0 p1].
  apply (rep_emit _ _ ET_TouchEnd (finger_of t) p0 p1). pose proof (rep_end _ _ _ _ R Ht Ha) as R'.
  destruct (direct (TouchEndDDXTouch i s)) eqn:Hd; [|done].
  apply (rep_store _ _ i (t <| active := false |>) (p0, p1)) in R'; [done..|].
  simpl. by rewrite list_lookup_alter_eq, Ht.
Qed.

Lemma report_fresh k a t p :
  (tracks a = false → place_of t = None) →
  report k (ddx_id t) (finger_of t) p
    (a <| fingers ::= <[ddx_id t := finger_of t]> |> <| fresh ::= next_id |>)
  = report k (ddx_id t) (mk_finger (client_id t) (emulate_pointer t) None) p (a <| fresh ::= next_id |>).
Proof.
  intros Hp. destruct a as [fs n l b]. unfold report, emit, seen, set_field. simpl in *.
  f_equal. rewrite insert_insert_eq. f_equal. destruct b; [done|]. unfold finger_of. by rewrite Hp.
Qed.

Lemma touch_queue_run type id p s a :
  represents s a → enabled s = true →
  ∃ s', QueueTouchEvents e type id p.1 p.2 s = Some s'
    ∧ enabled s' = true ∧ direct s' = direct s
    ∧ represents s' (table_event (emulates s) type id p a).
Proof.
  intros R He. unfold QueueTouchEvents, table_event. rewrite He. cbn [negb].
  pose proof (find_touch_spec s a id R) as Hf. destruct (find_touch id s) as [i|] eqn:Ef.
  - destruct Hf as (t & Ht & Ha & <- & Hv). rewrite Hv. unfold TouchFindByDDXID. rewrite Ef.
    cbn [mbind option_bind]. rewrite Ht. cbn [mbind option_bind].
    destruct (kind_of type) as [k|]; [|by eexists].
    eexists. split; [done|].
    split; [by destruct k, (direct s) eqn:Ed; rewrite ?decide_False, ?decide_True by done; simpl; rewrite ?Ed|].
    split; [by destruct k, (direct s) eqn:Ed; rewrite ?decide_False, ?decide_True by done; simpl; rewrite ?Ed|].
    destruct k; rewrite ?decide_False, ?decide_True by done; [by apply report_run..|by apply end_run].
  - rewrite Hf. destruct (Z.eqb_spec type XI_TouchBegin) as [->|Ht].
    + destruct (begin_run id s a R Hf) as (i & t & s1 & -> & Ht & Ha & <- & Hc & Hem & He1 & Hd1 & R1).
      cbn [mbind option_bind]. rewrite Ht. cbn -[finger_down decide]. rewrite decide_False by done.
      eexists. split; [done|]. split; [by destruct (direct s1) eqn:Ed; simpl; congruence|].
      split; [by destruct (direct s1) eqn:Ed; simpl; congruence|].
      pose proof (report_run ET_TouchBegin s1 _ i t p R1 Ht Ha (lookup_insert_eq _ _ _)) as R2.
      unfold finger_down. rewrite <-Hem, <-Hc. rewrite <-(report_fresh ET_TouchBegin a t p); [exact R2|].
      intros Hd. eapply (rep_blank _ _ R1); [|done]. by rewrite (rep_direct _ _ R1).
    + unfold TouchFindByDDXID. rewrite Ef. cbn [mbind option_bind]. eexists. split; [done|].
      split_and!; try done. unfold kind_of. rewrite (proj2 (Z.eqb_neq _ _) Ht).
      by destruct (type =? XI_TouchUpdate), (type =? XI_TouchEnd).
Qed.

Lemma rep_cursor s a v : represents s a → represents (s <| cursor_visible := v |>) a.
Proof. by intros []. Qed.

Lemma clamp_on_screen v limit : clamp v limit = on_screen v limit.
Proof. unfold clamp, on_screen. destruct (Z.ltb_spec v 0), (Z.ltb_spec limit v); lia. Qed.

Lemma same_place_left_out t w h m :
  same_place t (clamp (x m) w) (clamp (y m) h) = bool_decide (left_out (finger_of t) w h m).
Proof.
  rewrite !clamp_on_screen. apply eq_bool_prop_intro. rewrite bool_decide_spec.
  unfold same_place, left_out, finger_of, place_of, is_int, is_intb, SFeqb. simpl.
  destruct (valuator0 t) as [ox|]; [|done]. destruct (valuator1 t) as [oy|]; [|done]. simpl.
  destruct (SFcompare ox _) as [[]|], (SFcompare oy _) as [[]|]; simpl; naive_solver.
Qed.

Lemma handle_run w h m s a :
  represents s a → enabled s = true →
  ∃ s', handleTouchEvent e w h m s = Some s'
    ∧ enabled s' = true ∧ direct s' = direct s
    ∧ represents s' (table_step (emulates s) w h m a).
Proof.
  intros R He. pose proof (find_touch_spec s a (id m) R) as Hf.
  assert (∀ ty, ∃ s',
      (s' ← QueueTouchEvents e ty (id m) (to_device (clamp (x m) w) w) (to_device (clamp (y m) h) h) s;
       Some (s' <| cursor_visible := false |>)) = Some s'
    ∧ enabled s' = true ∧ direct s' = direct s
    ∧ represents s' (table_event (emulates s) ty (id m) (scaled w h m) a)) as Hq.
  { intros ty. destruct (touch_queue_run ty (id m) (scaled w h m) s a R He) as (s' & E & H1 & H2 & H3).
    rewrite !clamp_on_screen. cbn [scaled fst snd] in E. rewrite E.
    eexists. split; [done|]. split_and!; try done. by apply rep_cursor. }
  unfold handleTouchEvent, table_step.
  destruct (find_touch (id m) s) as [i|] eqn:Ef; cbn [mbind option_bind].
  - destruct Hf as (t & Ht & Ha & Hi & Hv). rewrite Ht, Hv.
    rewrite bool_decide_true by (by eexists). cbn [negb]. rewrite !andb_false_r, same_place_left_out.
    destruct (Hq (type m)) as (s' & E & H1 & H2 & H3). unfold table_event, kind_of in *. rewrite Hv in H3.
    destruct (Z.eqb_spec (type m) XI_TouchUpdate) as [Eu|Eu]; cbn [andb].
    + rewrite Eu in *. cbn -[decide] in *.
      destruct (decide (left_out _ w h m)); [rewrite bool_decide_true by done; by exists s|].
      rewrite bool_decide_false by done. by exists s'.
    + exists s'. by destruct (type m =? XI_TouchBegin), (type m =? XI_TouchEnd).
  - rewrite Hf. rewrite bool_decide_false by (by intros []). cbn [negb]. rewrite andb_false_r, !andb_true_r.
    destruct (Z.eqb_spec (type m) XI_TouchUpdate) as [Eu|Eu].
    + destruct (Hq XI_TouchBegin) as (s' & E & H1 & H2 & H3). exists s'. rewrite Eu. simpl. split; [done|].
      unfold table_event in H3. by rewrite Hf in H3.
    + destruct (Z.eqb_spec (type m) XI_TouchEnd) as [Ee|Ee].
      * exists s. by rewrite Ee.
      * destruct (Hq (type m)) as (s' & E & H1 & H2 & H3). exists s'. split; [done|].
        split_and!; try done. unfold table_event, kind_of in *. rewrite Hf in H3.
        apply Z.eqb_neq in Eu, Ee. rewrite Eu, Ee in *. by destruct (type m =? XI_TouchBegin).
Qed.
End run.

(** ** Sequences of messages *)

Fixpoint handle_touches (e : tenv) (w h : Z) (ms : list touch_msg) (s : tdev) : option tdev :=
  match ms with
  | [] => Some s
  | m :: ms' => s' ← handleTouchEvent e w h m s; handle_touches e w h ms' s'
  end.

Fixpoint table_steps (emulate : bool) (w h : Z) (ms : list touch_msg) (a : table) : table :=
  match ms with
  | [] => a
  | m :: ms' => table_steps emulate w h ms' (table_step emulate w h m a)
  end.

Lemma handle_touches_run e w h ms : ∀ s a,
  grow_ok e = true → represents s a → enabled s = true →
  ∃ s', handle_touches e w h ms s = Some s'
    ∧ represents s' (table_steps (emulates e s) w h ms a).
Proof.
  induction ms as [|m ms IH]; intros s a Hg R He; [by exists s|].
  destruct (handle_run e Hg w h m s a R He) as (s1 & E1 & He1 & Hd1 & R1).
  destruct (IH s1 _ Hg R1 He1) as (s' & E & R'). exists s'. simpl.
  rewrite E1. cbn [mbind option_bind]. split; [done|]. unfold emulates in *. by rewrite Hd1 in R'.
Qed.

(** C23: Touches are a table of fingers: whatever the activity sends, with coordinates anywhere, the
    records the server keeps and the events it has queued are those of the table that a finger
    enters with its first message (a move without a beginning is a beginning) and leaves with
    its end.  Every beginning, move or end of a finger that is down queues one event with the
    finger's id and its place, brought onto the screen and scaled to the device, except a move for
    which the coordinates of the finger's last event, in units of the device, equal the new place in
    pixels: those moves, and no others, are left out.  (The device is enabled and there is memory for
    its records; the last coordinates are kept by a direct device, as the touch screen is one.) *)
Theorem touch_refines_table e w h ms s a :
  grow_ok e = true → represents s a → enabled s = true →
  ∃ s', handle_touches e w h ms s = Some s'
    ∧ represents s' (table_steps (emulates e s) w h ms a).
Proof. apply handle_touches_run. Qed.

(** ** What clients see *)

(** The ids that are down, and the greatest id used: a new id is greater than all
    before, moves and ends are of ids that are down. *)
Definition replay_event (st : gset Z * Z) (ev : touch_event) : option (gset Z * Z) :=
  let c := touchid ev in
  let '(open, top) := st in
  match kind ev with
  | ET_TouchBegin =>
    if decide (c ∈ open) then Some (open, top)
    else if top <? c then Some ({[c]} ∪ open, c) else None
  | ET_TouchUpdate => if decide (c ∈ open) then Some (open, top) else None
  | ET_TouchEnd => if decide (c ∈ open) then Some (open ∖ {[c]}, top) else None
  end.

Fixpoint replay (l : list touch_event) (st : gset Z * Z) : option (gset Z * Z) :=
  match l with
  | [] => Some st
  | ev :: l' => st' ← replay_event st ev; replay l' st'
  end.

Lemma replay_snoc l ev st :
  replay (l ++ [ev]) st = st' ← replay l st; replay_event st' ev.
Proof.
  revert st. induction l as [|x l IH]; intros st; simpl.
  - by destruct (replay_event st ev).
  - destruct (replay_event st x); simpl; [apply IH|done].
Qed.

(** The ids of a table. *)
Definition clients (a : table) : gset Z := map_to_set (λ _ v, client v) (fingers a).

Lemma elem_of_clients a c : c ∈ clients a ↔ ∃ i v, fingers a !! i = Some v ∧ client v = c.
Proof. apply elem_of_map_to_set. Qed.

Record table_wf (a : table) : Prop := mk_table_wf {
  wf_below : ∀ i v, fingers a !! i = Some v → 0 < client v < fresh a;
  wf_inj : ∀ i j v u, fingers a !! i = Some v → fingers a !! j = Some u → client v = client u → i = j;
  wf_pointer : ∀ i j v u, fingers a !! i = Some v → fingers a !! j = Some u →
    pointer v = true → pointer u = true → i = j;
  wf_fresh : 0 < fresh a;
  wf_log : ∃ top, replay (log a) (∅, 0) = Some (clients a, top) ∧ top < fresh a
}.

(** Where a finger is does not matter. *)
Lemma seen_wf a i v p :
  table_wf a → fingers a !! i = Some v → table_wf (a <| fingers ::= <[i := seen a p v]> |>).
Proof.
  intros [W1 W2 W3 W4 (top & E & Ht)] Hi.
  assert (client (seen a p v) = client v ∧ pointer (seen a p v) = pointer v) as [Hc Hp]
    by (unfold seen; by destruct (tracks a)).
  assert (∀ j u, <[i := seen a p v]> (fingers a) !! j = Some u →
    ∃ u', fingers a !! j = Some u' ∧ client u' = client u ∧ pointer u' = pointer u) as Hold.
  { intros j u [[<- <-]|[_ Hj]]%lookup_insert_Some; [by exists v|by exists u]. }
  split; simpl; [..|done|].
  - intros j u (u' & Hj & <- & _)%Hold. by apply (W1 j).
  - intros j k u u2 (u' & Hj & <- & _)%Hold (u2' & Hk & <- & _)%Hold. by apply W2.
  - intros j k u u2 (u' & Hj & _ & <-)%Hold (u2' & Hk & _ & <-)%Hold. by apply W3.
  - exists top. split; [|done]. rewrite E. do 2 f_equal. apply set_eq. intros c.
    rewrite !elem_of_clients. simpl. split.
    + intros (j & u & Hj & <-). destruct (decide (j = i)) as [->|Hne].
      * exists i, (seen a p v). rewrite lookup_insert_eq. simplify_eq. done.
      * exists j, u. by rewrite lookup_insert_ne.
    + intros (j & u & (u' & Hj & Hcu & _)%Hold & <-). by exists j, u'.
Qed.

Lemma next_id_small c : 0 < c < 2 ^ 31 - 1 → next_id c = c + 1.
Proof.
  intros H. unfold next_id. rewrite (wrapS_id 32) by (unfold inS; simpl; lia).
  by rewrite (proj2 (Z.eqb_neq _ _)) by lia.
Qed.

Lemma report_wf a k i v p :
  table_wf a → fingers a !! i = Some v → k ≠ ET_TouchEnd → table_wf (report k i v p a).
Proof.
  intros W Hi Hk. unfold report.
  assert (client v ∈ clients (a <| fingers ::= <[i := seen a p v]> |>)) as Hc.
  { apply elem_of_clients. exists i, (seen a p v). simpl. rewrite lookup_insert_eq. split; [done|].
    unfold seen. by destruct (tracks a). }
  destruct (seen_wf a i v p W Hi) as [W1 W2 W3 W4 (top & E & Ht)]. split; try done. exists top. simpl.
  rewrite replay_snoc. simpl in E. rewrite E. simpl. unfold replay_event. simpl.
  destruct k; [| |done]; rewrite decide_True by done; done.
Qed.

Lemma finger_down_wf em i p a :
  table_wf a → fingers a !! i = None → fresh a < 2 ^ 31 - 1 → table_wf (finger_down em i p a).
Proof.
  intros [W1 W2 W3 W4 (top & E & Ht)] Hi Hn. pose proof (next_id_small (fresh a)) as Hnext.
  unfold finger_down, report. set (v := mk_finger _ _ _). set (v' := seen _ p v).
  assert (client v' = fresh a ∧ pointer v' = pointer v) as [Hc Hp]
    by (unfold v', seen; by destruct (tracks _)).
  split; simpl; rewrite ?Hnext by lia; try lia.
  - intros j u [[<- <-]|[_ Hj]]%lookup_insert_Some; [lia|]. specialize (W1 _ _ Hj). lia.
  - intros j k u u2 [[<- <-]|[Hij Hj]]%lookup_insert_Some [[<- <-]|[Hik Hk]]%lookup_insert_Some.
    + done.
    + intros Hv. specialize (W1 _ _ Hk). lia.
    + intros Hv. specialize (W1 _ _ Hj). lia.
    + by apply W2.
  - intros j k u u2 [[<- <-]|[Hij Hj]]%lookup_insert_Some [[<- <-]|[Hik Hk]]%lookup_insert_Some; rewrite ?Hp; simpl.
    + done.
    + intros [_ H]%andb_true_iff _. apply bool_decide_eq_true in H. by rewrite H in Hk.
    + intros _ [_ H]%andb_true_iff. apply bool_decide_eq_true in H. by rewrite H in Hj.
    + by apply W3.
  - exists (fresh a). split; [|lia]. rewrite replay_snoc, E. unfold replay_event. simpl.
    rewrite decide_False, (proj2 (Z.ltb_lt _ _)) by
      (first [lia|intros (j & u & Hj & Hu)%elem_of_clients; specialize (W1 _ _ Hj); lia]).
    do 2 f_equal. apply set_eq. intros c. rewrite elem_of_union, elem_of_singleton, !elem_of_clients. simpl.
    split.
    + intros [->|(j & u & Hj & Hu)]; [eexists i, _; by rewrite lookup_insert_eq|].
      exists j, u. rewrite lookup_insert_ne by congruence. done.
    + intros (j & u & [[_ <-]|[_ Hj]]%lookup_insert_Some & <-); [by left|right; eauto].
Qed.

Lemma finger_up_wf i v p a :
  table_wf a → fingers a !! i = Some v → table_wf (finger_up i v p a).
Proof.
  intros [W1 W2 W3 W4 (top & E & Ht)] Hi. split; simpl; try done.
  - intros j u [_ Hj]%lookup_delete_Some. by apply (W1 j).
  - intros j k u w [_ Hj]%lookup_delete_Some [_ Hk]%lookup_delete_Some. by apply W2.
  - intros j k u w [_ Hj]%lookup_delete_Some [_ Hk]%lookup_delete_Some. by apply W3.
  - exists top. split; [|done]. rewrite replay_snoc, E. unfold replay_event. simpl.
    rewrite decide_True by (apply elem_of_clients; by exists i, v).
    do 2 f_equal. apply set_eq. intros c.
    rewrite elem_of_difference, elem_of_singleton, !elem_of_clients. simpl. split.
    + intros [(j & u & Hj & Hu) Hc]. exists j, u. rewrite lookup_delete_Some. split; [|done]. split; [|done].
      intros <-. congruence.
    + intros (j & u & [Hij Hj]%lookup_delete_Some & Hu). split; [by exists j, u|].
      intros ->. destruct Hij. by apply (W2 i j v u).
Qed.

Lemma table_step_wf em w h m a :
  table_wf a → fresh a < 2 ^ 31 - 1 →
  table_wf (table_step em w h m a) ∧ fresh (table_step em w h m a) ≤ fresh a + 1.
Proof.
  intros W Hn. pose proof (next_id_small (fresh a)) as Hnext. pose proof (wf_fresh _ W).
  assert (next_id (fresh a) ≤ fresh a + 1) by (rewrite Hnext; lia).
  unfold table_step. destruct (kind_of (type m)) as [[]|], (fingers a !! id m) as [v|] eqn:Hi;
    try destruct (decide (left_out v w h m)); split; simpl; try lia; try done.
  all: first [by apply report_wf|by apply finger_down_wf|by apply finger_up_wf].
Qed.

Lemma table_steps_wf em w h ms : ∀ a,
  table_wf a → fresh a + Z.of_nat (length ms) < 2 ^ 31 → table_wf (table_steps em w h ms a).
Proof.
  induction ms as [|m ms IH]; intros a W Hn; simpl; try done. simpl length in Hn.
  destruct (table_step_wf em w h m a W) as [W' Hf]; [lia|]. apply IH; [done|lia].
Qed.

(** A device nobody touches, with [n] records. *)
Definition idle (n : nat) (dir : bool) : tdev := mk_tdev true dir (replicate n fresh_touch) 1 [] true.

Lemma idle_represents n dir : represents (idle n dir) (mk_table ∅ 1 [] dir).
Proof.
  split; try done; simpl.
  - intros i v. rewrite lookup_empty. split; [done|].
    intros (j & t & [-> _]%lookup_replicate & Ha & _). done.
  - intros j k t u [-> _]%lookup_replicate _ Ha. done.
  - by intros _ j t [-> _]%lookup_replicate.
Qed.

Lemma empty_table_wf dir : table_wf (mk_table ∅ 1 [] dir).
Proof. split; simpl; try done. by exists 0. Qed.

(** Clients see well-formed touches: from an idle device, whatever sequence of messages the
    activity sends (moves or ends of fingers that never went down included), every id begins
    with a number greater than all before, moves and ends come only while the id is down, the
    ids that are down are those of the active records, and at most one finger acts as the
    pointer. *)
Theorem touch_sequence_repaired e w h n dir ms :
  grow_ok e = true → Z.of_nat (length ms) < 2 ^ 31 - 1 →
  ∃ s' open top, handle_touches e w h ms (idle n dir) = Some s'
    ∧ replay (queued s') (∅, 0) = Some (open, top)
    ∧ (∀ c, c ∈ open ↔ ∃ t, t ∈ touches s' ∧ active t = true ∧ client_id t = c)
    ∧ (∀ j k t u, touches s' !! j = Some t → touches s' !! k = Some u →
        active t = true → active u = true →
        emulate_pointer t = true → emulate_pointer u = true → j = k).
Proof.
  intros Hg Hn.
  destruct (handle_touches_run e w h ms (idle n dir) _ Hg (idle_represents n dir) eq_refl)
    as (s' & E & R).
  set (a := table_steps _ _ _ _ _) in R.
  assert (table_wf a) as W by (apply table_steps_wf; [apply empty_table_wf|simpl; lia]).
  destruct (wf_log _ W) as (top & El & _). exists s', (clients a), top. split; [done|].
  rewrite (rep_log _ _ R). split; [done|]. split.
  - intros c. rewrite elem_of_clients. split.
    + intros (i & v & (j & t & Ht & Ha & _ & ->)%(rep_table _ _ R) & <-). exists t.
      split; [by eapply list_elem_of_lookup_2|done].
    + intros (t & [j Ht]%list_elem_of_lookup_1 & Ha & <-). exists (ddx_id t), (finger_of t).
      split; [by eapply rep_active|done].
  - intros j k t u Ht Hu Hat Hau Het Heu. apply (rep_unique _ _ R j k t u); try done.
    by apply (wf_pointer _ W _ _ _ _ (rep_active _ _ _ _ R Ht Hat) (rep_active _ _ _ _ R Hu Hau)).
Qed.

Definition demo_tenv : tenv := mk_tenv true true.

(** An end without a beginning, two fingers that only move, the first one is lifted. *)
Definition demo_touches : list touch_msg :=
  [mk_touch_msg XI_TouchEnd 7 5 5; mk_touch_msg XI_TouchUpdate 3 10 20;
   mk_touch_msg XI_TouchUpdate 4 30 40; mk_touch_msg XI_TouchEnd 3 10 20].

Lemma touch_sequence_repaired_witness : ∃ s' open top,
  handle_touches demo_tenv 800 600 demo_touches (idle 20 true) = Some s'
  ∧ event_view <$> queued s'
    = [(ET_TouchBegin, 1, true); (ET_TouchBegin, 2, false); (ET_TouchEnd, 1, true)]
  ∧ replay (queued s') (∅, 0) = Some (open, top).
Proof.
  destruct (touch_sequence_repaired demo_tenv 800 600 20 true demo_touches) as (s' & open & top & E & Hr & _).
  - done.
  - done.
  - exists s', open, top. split; [exact E|]. split; [|exact Hr].
    vm_compute in E. by injection E as <-.
Defined.

(** A finger that goes down and moves twice; the second move is left out. *)
Definition demo_drag : list touch_msg :=
  [mk_touch_msg XI_TouchBegin 3 9 9; mk_touch_msg XI_TouchUpdate 3 10 10;
   mk_touch_msg XI_TouchUpdate 3 510 510].

Lemma touch_refines_table_witness : ∃ s',
  handle_touches demo_tenv 1285 1285 demo_drag (idle 20 true) = Some s'
  ∧ represents s' (table_steps true 1285 1285 demo_drag (mk_table ∅ 1 [] true))
  ∧ event_view <$> log (table_steps true 1285 1285 demo_drag (mk_table ∅ 1 [] true))
    = [(ET_TouchBegin, 1, true); (ET_TouchUpdate, 1, true)].
Proof.
  destruct (touch_refines_table demo_tenv 1285 1285 demo_drag (idle 20 true) (mk_table ∅ 1 [] true))
    as (s' & E & R).
  - done.
  - apply idle_represents.
  - done.
  - exists s'. split; [exact E|]. split; [exact R|]. by vm_compute.
Defined.

(** ** Moves to the same place *)

(** Moves are compared in the wrong scale: a record stores coordinates of the device, which
    go to 65535, but [handleTouchEvent] compares them with pixels.  A move is left out exactly
    when the old place, scaled to the device, happens to equal the new place in pixels, so that
    repeated moves are passed on and some real moves are lost. *)
Theorem touch_move_compares_scales e w h m s i t x0 y0 :
  find_touch (id m) s = Some i → touches s !! i = Some t → type m = XI_TouchUpdate →
  enabled s = true →
  valuator0 t = Some (to_device x0 w) → valuator1 t = Some (to_device y0 h) →
  ∃ s', handleTouchEvent e w h m s = Some s'
    ∧ length (queued s')
      = (length (queued s)
         + if is_intb (to_device x0 w) (clamp (x m) w) && is_intb (to_device y0 h) (clamp (y m) h)
           then 0 else 1)%nat.
Proof.
  intros Hf Ht Hm He H0 H1. unfold handleTouchEvent. rewrite Hf, Hm. cbn [mbind option_bind]. rewrite Ht.
  unfold same_place. rewrite H0, H1, Z.eqb_refl. cbn [andb].
  destruct (is_intb _ _ && is_intb _ _); [exists s; split; [done|lia]|].
  rewrite bool_decide_true by (by eexists). cbn [andb negb]. unfold QueueTouchEvents, TouchFindByDDXID.
  rewrite He, Hf. simpl. rewrite Ht. cbn [mbind option_bind].
  eexists. split; [done|]. simpl. rewrite length_app. destruct (direct s); simpl; lia.
Qed.

(** On a screen of 1285 by 1285, a finger at (10, 10) that moves to (510, 510) is not
    seen to move. *)
Lemma touch_move_compares_scales_witness : ∃ s s',
  handle_touches demo_tenv 1285 1285 [mk_touch_msg XI_TouchBegin 3 10 10] (idle 20 true) = Some s
  ∧ handleTouchEvent demo_tenv 1285 1285 (mk_touch_msg XI_TouchUpdate 3 510 510) s = Some s'
  ∧ length (queued s') = length (queued s).
Proof.
  destruct (handle_touches demo_tenv 1285 1285 [mk_touch_msg XI_TouchBegin 3 10 10] (idle 20 true))
    as [s|] eqn:E; [|by vm_compute in E].
  destruct (touch_move_compares_scales demo_tenv 1285 1285 (mk_touch_msg XI_TouchUpdate 3 510 510) s 0
    (mk_touch true 3 1 true (Some (to_device 10 1285)) (Some (to_device 10 1285))) 10 10)
    as (s' & Es & L).
  1-6: vm_compute in E; injection E as <-; by vm_compute.
  exists s, s'. split; [done|]. split; [exact Es|]. rewrite L.
  replace (is_intb _ _ && is_intb _ _) with true by (by vm_compute). apply Nat.add_0_r.
Defined.
