(* ===== verification/Devices.v ===== *)
(** * Input devices ([lorie/InitInput.c], [xserver/dix/devices.c])

    The driver adds a mouse, a touch screen and a keyboard when the server
    starts, and a pen and an eraser when the Android side asks for them.  A
    device has a control function ([deviceProc]) that sets up its buttons and
    axes and turns it on and off; the server keeps enabled and disabled devices
    in two lists and attaches each to a master device.

    Devices live in a finite map from addresses, 0 is [NULL]; a use of a device
    that is not there has no result.  The parts of [dix/devices.c] are the ones
    these calls reach, for devices that are not masters: [EnableDevice] and
    [DisableDevice] of a master have no result here.  Sprites are kept as the
    address of the device that owns them.  Events to clients, grabs, properties
    and acceleration are not represented.  Allocation succeeds. *)

From stdpp Require Import gmap.
From S2P Require Import Prelude.

(** ** Data *)

Definition MAXDEVICES : Z := 256.
Definition MAX_BUTTONS : Z := 256.
Definition MAX_VALUATORS : Z := 36.
Definition NO_AXIS_LIMITS : Z := -1.
Definition Success : Z := 0.
Definition BadValue : Z := 2.
Definition BadMatch : Z := 8.
Definition BadImplementation : Z := 17.
Definition BadDevice : Z := 128.

Inductive what := DEVICE_INIT | DEVICE_ON | DEVICE_OFF | DEVICE_CLOSE | DEVICE_ABORT.
Inductive devtype := MASTER_POINTER | MASTER_KEYBOARD | SLAVE.
Inductive procname := CoreProc | MouseProc | TouchProc | StylusProc | KeybdProc.
Inductive devname := NoName | LorieMouse | LorieTouch | LorieKeyboard | LoriePen | LorieEraser.
Inductive mode := Relative | Absolute.
Inductive scroll_type := SCROLL_TYPE_NONE | SCROLL_TYPE_VERTICAL | SCROLL_TYPE_HORIZONTAL.
Inductive label :=
  | NoLabel | BTN_LEFT | BTN_MIDDLE | BTN_RIGHT | BTN_WHEEL_UP | BTN_WHEEL_DOWN
  | BTN_HWHEEL_LEFT | BTN_HWHEEL_RIGHT
  | REL_X | REL_Y | REL_HWHEEL | REL_WHEEL | ABS_MT_POSITION_X | ABS_MT_POSITION_Y
  | ABS_X | ABS_Y | ABS_PRESSURE | ABS_TILT_X | ABS_TILT_Y | ABS_WHEEL.

#[export] Instance devtype_eq_dec : EqDecision devtype.
Proof. solve_decision. Defined.
#[export] Instance procname_eq_dec : EqDecision procname.
Proof. solve_decision. Defined.
#[export] Instance mode_eq_dec : EqDecision mode.
Proof. solve_decision. Defined.
#[export] Instance scroll_type_eq_dec : EqDecision scroll_type.
Proof. solve_decision. Defined.

Record AxisInfo := mk_axis {
  min_value : Z; max_value : Z; resolution : Z; min_resolution : Z; max_resolution : Z;
  axis_label : label; axis_mode : mode;
  scroll : scroll_type; increment : Z; preferred : bool
}.
#[export] Instance eta_axis : Settable AxisInfo := λ a,
  mk_axis (min_value a) (max_value a) (resolution a) (min_resolution a) (max_resolution a)
    (axis_label a) (axis_mode a) (scroll a) (increment a) (preferred a).

Record ValuatorClass := mk_valuator {
  axes : list AxisInfo; h_scroll_axis : Z; v_scroll_axis : Z
}.
#[export] Instance eta_valuator : Settable ValuatorClass := λ v,
  mk_valuator (axes v) (h_scroll_axis v) (v_scroll_axis v).

(** [map] has an entry for every button from 0 to 255. *)
Record ButtonClass := mk_button { numButtons : Z; map : list Z; labels : list label }.
#[export] Instance eta_button : Settable ButtonClass := λ b,
  mk_button (numButtons b) (map b) (labels b).

Record TouchClass := mk_touchclass { max_touches : Z; num_axes : Z }.

Record device := mk_device {
  id : Z;
  dtype : devtype;
  deviceProc : procname;
  name : devname;
  inited : bool;
  enabled : bool;
  on : bool;                        (** [public.on] *)
  key : bool;                       (** has keys *)
  button : option ButtonClass;
  valuator : option ValuatorClass;
  touch : option TouchClass;
  ptrfeed : bool;
  master : Z;
  sprite : Z;                       (** the owner of the sprite *)
  paired : Z
}.
#[export] Instance eta_device : Settable device := λ d,
  mk_device (id d) (dtype d) (deviceProc d) (name d) (inited d) (enabled d) (on d) (key d)
    (button d) (valuator d) (touch d) (ptrfeed d) (master d) (sprite d) (paired d).

Record inputs := mk_inputs {
  mem : gmap Z device;
  devices : list Z;                 (** [inputInfo.devices] *)
  off_devices : list Z;
  numDevices : Z;
  pointer : Z; keyboard : Z;        (** the core masters *)
  next : Z;                         (** the next address *)
  lorieMouse : Z; lorieTouch : Z; lorieKeyboard : Z; loriePen : Z; lorieEraser : Z
}.
#[export] Instance eta_inputs : Settable inputs := λ s,
  mk_inputs (mem s) (devices s) (off_devices s) (numDevices s) (pointer s) (keyboard s) (next s)
    (lorieMouse s) (lorieTouch s) (lorieKeyboard s) (loriePen s) (lorieEraser s).

(** [keymap_ok]: the keymap compiles. *)
Record dvenv := mk_dvenv { keymap_ok : bool }.

(** ** Classes of a device *)

Definition InitButtonClassDeviceStruct (n : Z) (ls : list label) (m : list Z) (d : device)
  : bool * device :=
  match button d with
  | Some _ => (false, d)
  | None =>
    if MAX_BUTTONS <=? n then (false, d)
    else
      let m' := 0 :: (take (Z.to_nat n) (drop 1 m))
                  ++ (Z.of_nat <$> seq (S (Z.to_nat n)) (255 - Z.to_nat n)) in
      (true, d <| button := Some (mk_button n m' (take (Z.to_nat n) ls)) |>)
  end.

Definition SetScrollValuator (axnum : nat) (ty : scroll_type) (inc : Z) (pref : bool) (d : device)
  : bool * device :=
  match valuator d with
  | None => (false, d)
  | Some v =>
    if (length (axes v) <=? axnum)%nat then (false, d)
    else
      let set_axes g v := v <| axes ::= alter g axnum |> in
      let current := match ty with SCROLL_TYPE_VERTICAL => v_scroll_axis v | _ => h_scroll_axis v end in
      match ty with
      | SCROLL_TYPE_NONE =>
        (true, d <| valuator := Some (set_axes (λ a, a <| scroll := ty |>) v) |>)
      | _ =>
        if inc =? 0 then (false, d)
        else if negb (current =? -1) && negb (Z.of_nat axnum =? current)
             && match axes v !! Z.to_nat current with
                | Some a => bool_decide (scroll a = ty) && pref && preferred a
                | None => false
                end
        then (false, d)
        else
          let v1 := match ty with
                    | SCROLL_TYPE_VERTICAL => v <| v_scroll_axis := Z.of_nat axnum |>
                    | _ => v <| h_scroll_axis := Z.of_nat axnum |>
                    end in
          let v2 := set_axes (λ a, a <| scroll := ty |> <| increment := inc |> <| preferred := pref |>) v1 in
          (true, d <| valuator := Some v2 |>)
      end
  end.

Definition InitValuatorAxisStruct (axnum : nat) (l : label) (minval maxval res min_res max_res : Z)
    (md : mode) (d : device) : bool * device :=
  match valuator d with
  | None => (false, d)
  | Some v =>
    if (length (axes v) <=? axnum)%nat then (false, d)
    else if (maxval <? minval) && bool_decide (md = Absolute) then (false, d)
    else
      let set a := mk_axis minval maxval res min_res max_res l md (scroll a) (increment a) (preferred a) in
      SetScrollValuator axnum SCROLL_TYPE_NONE 0 false
        (d <| valuator := Some (v <| axes ::= alter set axnum |>) |>)
  end.

Definition blank_axis : AxisInfo := mk_axis 0 0 0 0 0 NoLabel Relative SCROLL_TYPE_NONE 0 false.

Definition InitValuatorClassDeviceStruct (ls : list label) (md : mode) (d : device) : bool * device :=
  let n := Z.to_nat (Z.min (Z.of_nat (length ls)) MAX_VALUATORS) in
  let d0 := d <| valuator := Some (mk_valuator (replicate n blank_axis) (-1) (-1)) |> in
  (true,
   foldl (λ d i, snd (InitValuatorAxisStruct i (default NoLabel (ls !! i))
                        NO_AXIS_LIMITS NO_AXIS_LIMITS 0 0 0 md d)) d0 (seq 0 n)).

(** [XIDirectTouch] with at least two axes. *)
Definition InitTouchClassDeviceStruct (max_t n_axes : Z) (d : device) : bool * device :=
  match touch d, valuator d with
  | None, Some _ =>
    if n_axes <? 2 then (false, d)
    else (true, d <| touch := Some (mk_touchclass max_t (Z.min n_axes MAX_VALUATORS)) |>)
  | _, _ => (false, d)
  end.

Definition InitPtrFeedbackClassDeviceStruct (d : device) : bool * device :=
  (true, d <| ptrfeed := true |>).

(** [InitPointerAccelerationScheme(dev, PtrAccelPredictable)] of a slave. *)
Definition InitPointerAccelerationScheme (d : device) : bool * device :=
  (bool_decide (is_Some (valuator d)), d).

(** [a || b || ...] of calls that must all succeed. *)
Fixpoint all_ok (fs : list (device → bool * device)) (d : device) : bool * device :=
  match fs with
  | [] => (true, d)
  | f :: fs' => let '(ok, d') := f d in if ok then all_ok fs' d' else (false, d')
  end.

(** ** Control functions ([InitInput.c]) *)

Definition NBUTTONS : Z := 10.

Definition lorieInitPointerButtons (d : device) : bool * device :=
  let map := 0 :: (Z.of_nat <$> seq 1 10) in
  let btn_labels := [BTN_LEFT; BTN_MIDDLE; BTN_RIGHT; BTN_WHEEL_UP; BTN_WHEEL_DOWN;
                     BTN_HWHEEL_LEFT; BTN_HWHEEL_RIGHT; NoLabel; NoLabel; NoLabel] in
  InitButtonClassDeviceStruct NBUTTONS btn_labels map d.

(** What the four functions do except for their set-up. *)
Definition switch (init : device → bool * device) (w : what) (d : device) : Z * device :=
  match w with
  | DEVICE_INIT =>
    let '(ok, d') := init (d <| on := false |>) in (if ok then Success else BadValue, d')
  | DEVICE_ON => (Success, d <| on := true |>)
  | DEVICE_OFF | DEVICE_CLOSE => (Success, d <| on := false |>)
  | DEVICE_ABORT => (BadMatch, d)
  end.

Definition lorieMouseProc : what → device → Z * device :=
  let ls := [REL_X; REL_Y; REL_HWHEEL; REL_WHEEL] in
  let axis i l := InitValuatorAxisStruct i l NO_AXIS_LIMITS NO_AXIS_LIMITS 0 0 0 Relative in
  switch (all_ok
    [lorieInitPointerButtons; InitValuatorClassDeviceStruct ls Relative;
     axis 0%nat REL_X; axis 1%nat REL_Y; axis 2%nat REL_HWHEEL; axis 3%nat REL_WHEEL;
     SetScrollValuator 2 SCROLL_TYPE_HORIZONTAL 1 false;
     SetScrollValuator 3 SCROLL_TYPE_VERTICAL 1 true;
     InitPtrFeedbackClassDeviceStruct; InitPointerAccelerationScheme]).

(** [map[0] = 1] and nothing else. *)
Definition lorieTouchProc : what → device → Z * device :=
  let ls := [ABS_MT_POSITION_X; ABS_MT_POSITION_Y] in
  switch (all_ok
    [InitValuatorClassDeviceStruct ls Absolute;
     InitButtonClassDeviceStruct 1 [BTN_LEFT] [1; 0];
     InitTouchClassDeviceStruct 20 2;
     InitValuatorAxisStruct 0 ABS_MT_POSITION_X 0 0xFFFF 10000 0 10000 Absolute;
     InitValuatorAxisStruct 1 ABS_MT_POSITION_Y 0 0xFFFF 10000 0 10000 Absolute]).

Definition lorieStylusProc : what → device → Z * device :=
  let ls := [ABS_X; ABS_Y; ABS_PRESSURE; ABS_TILT_X; ABS_TILT_Y; ABS_WHEEL] in
  switch (all_ok
    [InitValuatorClassDeviceStruct ls Absolute;
     InitValuatorAxisStruct 0 ABS_X 0 0x3FFFF 10000 0 10000 Absolute;
     InitValuatorAxisStruct 1 ABS_Y 0 0x3FFFF 10000 0 10000 Absolute;
     InitValuatorAxisStruct 2 ABS_PRESSURE 0 0xFFFF 1 0 1 Absolute;
     InitValuatorAxisStruct 3 ABS_TILT_X (-64) 63 57 0 57 Absolute;
     InitValuatorAxisStruct 4 ABS_TILT_Y (-64) 63 57 0 57 Absolute;
     InitValuatorAxisStruct 5 ABS_WHEEL (-900) 899 1 0 1 Absolute;
     InitPtrFeedbackClassDeviceStruct;
     InitButtonClassDeviceStruct 3 [NoLabel; NoLabel; NoLabel] [0; 1; 2; 3]]).

(** The result of the keyboard's set-up is not looked at. *)
Definition lorieKeybdProc (e : dvenv) (w : what) (d : device) : Z * device :=
  match w with
  | DEVICE_INIT => (Success, d <| key := keymap_ok e |>)
  | DEVICE_ON => (Success, d <| on := true |>)
  | DEVICE_OFF => (Success, d <| on := false |>)
  | DEVICE_CLOSE => (Success, d)
  | DEVICE_ABORT => (BadMatch, d)
  end.

Definition run_proc (e : dvenv) (w : what) (d : device) : Z * device :=
  match deviceProc d with
  | MouseProc => lorieMouseProc w d
  | TouchProc => lorieTouchProc w d
  | StylusProc => lorieStylusProc w d
  | KeybdProc => lorieKeybdProc e w d
  | CoreProc => (Success, d)
  end.

(** ** The server's devices ([devices.c]) *)

Definition deref (a : Z) : M inputs device := s ← get; of_option (mem s !! a).
Definition upd (a : Z) (f : device → device) : M inputs () :=
  d ← deref a; modify (λ s, s <| mem ::= <[a := f d]> |>).

(** Calls the control function of a device. *)
Definition call_proc (e : dvenv) (w : what) (a : Z) : M inputs Z :=
  d ← deref a;
  let '(ret, d') := run_proc e w d in
  upd a (λ _, d') ;; mret ret.

Definition IsMaster (d : device) : bool :=
  match dtype d with MASTER_POINTER | MASTER_KEYBOARD => true | SLAVE => false end.

Definition IsPointerDevice (d : device) : bool :=
  bool_decide (dtype d = MASTER_POINTER)
  || bool_decide (is_Some (valuator d)) && bool_decide (is_Some (button d))
  || bool_decide (is_Some (valuator d)) && negb (key d).

(** The partner of a master. *)
Definition GetPairedDevice (d : device) : M inputs Z :=
  if negb (IsMaster d) && negb (master d =? 0)
  then m ← deref (master d); mret (paired m)
  else mret (paired d).

(** [MASTER_ATTACHED]: the device's own master. *)
Definition GetMaster_attached (a : Z) : M inputs Z :=
  d ← deref a; mret (if IsMaster d then a else master d).

(** [MASTER_POINTER] or [MASTER_KEYBOARD]: that one of the pair. *)
Definition GetMaster (a : Z) (which : devtype) : M inputs Z :=
  m ← GetMaster_attached a;
  if m =? 0 then mret 0
  else
    d ← deref m;
    if bool_decide (dtype d = which) then mret m else GetPairedDevice d.

Definition IsFloating (a : Z) : M inputs bool :=
  d ← deref a;
  if IsMaster d then mret false
  else k ← GetMaster a MASTER_KEYBOARD; mret (k =? 0).

(** The lowest id from 2 on that no device has. *)
Definition used_ids (s : inputs) : list Z :=
  omap (λ a, id <$> mem s !! a) (devices s ++ off_devices s).

Fixpoint first_free (used : list Z) (candidates : list Z) : option Z :=
  match candidates with
  | [] => None
  | i :: l => if decide (i ∈ used) then first_free used l else Some i
  end.

Definition free_id (s : inputs) : option Z :=
  first_free (used_ids s) (Z.of_nat <$> seq 2 254).

Definition new_device (i : Z) (p : procname) : device :=
  mk_device i SLAVE p NoName false false false false None None None false 0 0 0.

Definition AddInputDevice (p : procname) : M inputs Z :=
  s ← get;
  match free_id s with
  | None => mret 0
  | Some i =>
    let a := next s in
    modify (λ s, s <| mem ::= <[a := new_device i p]> |> <| off_devices ::= λ l, l ++ [a] |>
                   <| numDevices ::= Z.succ |> <| next ::= Z.succ |>) ;;
    mret a
  end.

Definition AssignTypeAndName (a : Z) (n : devname) : M inputs () := upd a (λ d, d <| name := n |>).

Definition ActivateDevice (e : dvenv) (a : Z) : M inputs Z :=
  if a =? 0 then mret BadImplementation
  else
    ret ← call_proc e DEVICE_INIT a;
    upd a (λ d, d <| inited := ret =? Success |>) ;;
    mret ret.

(** The greatest number of buttons of the enabled slaves of a master. *)
Definition slave_buttons (s : inputs) (m a : Z) : Z :=
  match mem s !! a with
  | Some d =>
    if IsMaster d || negb (master d =? m) then 0
    else match button d with Some b => numButtons b | None => 0 end
  | None => 0
  end.

Definition max_buttons (s : inputs) (m : Z) : Z :=
  foldr Z.max 0 (slave_buttons s m <$> devices s).

Definition RecalculateMasterButtons (a : Z) : M inputs () :=
  d ← deref a;
  if negb (bool_decide (is_Some (button d))) || IsMaster d then skip
  else
    m ← GetMaster a MASTER_POINTER;
    if m =? 0 then skip
    else
      s ← get;
      md ← deref m;
      match button md with
      | Some b =>
        when (negb (numButtons b =? max_buttons s m))
          (upd m (λ d, d <| button := Some (b <| numButtons := max_buttons s m |>) |>))
      | None => skip
      end.

Definition not_master (m : Z) : M inputs bool :=
  if m =? 0 then mret false else md ← deref m; mret (negb (IsMaster md)).

(** The call of [RecalculateMasterButtons] with the master returns at once. *)
Definition AttachDevice (a m : Z) : M inputs Z :=
  if a =? 0 then mret BadDevice
  else
    d ← deref a;
    if IsMaster d then mret BadDevice
    else
      bad ← not_master m;
      if (bad : bool) then mret BadDevice
      else
        floating ← IsFloating a;
        if (floating : bool) && (m =? 0) && enabled d then mret Success
        else
          upd a (λ d, d <| master := m |>) ;;
          (if m =? 0 then upd a (λ d, d <| sprite := a |> <| paired := a |>)
           else
             md ← deref m;
             upd a (λ d, d <| sprite := sprite md |> <| paired := m |>)) ;;
          mret Success.

Definition EnableDevice (e : dvenv) (a : Z) : M inputs bool :=
  d ← deref a;
  s ← get;
  let listed := bool_decide (a ∈ off_devices s) in
  (if sprite d =? 0
   then
     if IsMaster d then ub
     else _ ← AttachDevice a (if IsPointerDevice d then pointer s else keyboard s); skip
   else skip) ;;
  if negb listed || negb (inited d) then mret false
  else
    ret ← call_proc e DEVICE_ON a;
    if negb (ret =? Success) then mret false
    else
      upd a (λ d, d <| enabled := true |>) ;;
      modify (λ s, s <| off_devices ::= filter (λ x, x ≠ a) |> <| devices ::= λ l, l ++ [a] |>) ;;
      RecalculateMasterButtons a ;;
      mret true.

Definition DisableDevice (e : dvenv) (a : Z) : M inputs bool :=
  d ← deref a;
  s ← get;
  if negb (enabled d) then mret true
  else if negb (bool_decide (a ∈ devices s)) then mret false
  else if IsMaster d then ub
  else
    upd a (λ d, d <| paired := 0 |>) ;;
    _ ← call_proc e DEVICE_OFF a;
    upd a (λ d, d <| enabled := false |> <| sprite := 0 |>) ;;
    modify (λ s, s <| devices ::= filter (λ x, x ≠ a) |> <| off_devices ::= cons a |>) ;;
    RecalculateMasterButtons a ;;
    upd a (λ d, d <| master := 0 |>) ;;
    mret true.

(** The device is freed. *)
Definition CloseDevice (e : dvenv) (a : Z) : M inputs () :=
  d ← deref a;
  when (inited d) (_ ← call_proc e DEVICE_CLOSE a; skip) ;;
  modify (λ s, s <| mem ::= delete a |>).

(** The two searches in one: no device is in both lists. *)
Definition RemoveDevice (e : dvenv) (a : Z) : M inputs Z :=
  s ← get;
  if (a =? 0) || (a =? keyboard s) || (a =? pointer s) then mret BadImplementation
  else
    d ← deref a;
    when (inited d) (_ ← DisableDevice e a; skip) ;;
    s1 ← get;
    let listed := bool_decide (a ∈ devices s1 ++ off_devices s1) in
    when listed (CloseDevice e a) ;;
    modify (λ s, s <| devices ::= filter (λ x, x ≠ a) |> <| off_devices ::= filter (λ x, x ≠ a) |>) ;;
    when (listed && inited d) (modify (λ s, s <| numDevices ::= Z.pred |>)) ;;
    mret (if listed then Success else BadMatch).

(** ** The driver's devices ([InitInput.c]) *)

(** One of the two devices for a stylus. *)
Definition plug_stylus (e : dvenv) (n : devname) : M inputs Z :=
  a ← AddInputDevice StylusProc;
  AssignTypeAndName a n ;;
  _ ← ActivateDevice e a;
  _ ← EnableDevice e a;
  s ← get;
  _ ← AttachDevice a (pointer s);
  mret a.

Definition lorieSetStylusEnabled (e : dvenv) (en : bool) : M inputs () :=
  s ← get;
  if en
  then
    (if loriePen s =? 0
     then a ← plug_stylus e LoriePen; modify (λ s, s <| loriePen := a |>)
     else skip) ;;
    (if lorieEraser s =? 0
     then a ← plug_stylus e LorieEraser; modify (λ s, s <| lorieEraser := a |>)
     else skip)
  else
    (if loriePen s =? 0 then skip
     else _ ← RemoveDevice e (loriePen s); modify (λ s, s <| loriePen := 0 |>)) ;;
    (if lorieEraser s =? 0 then skip
     else _ ← RemoveDevice e (lorieEraser s); modify (λ s, s <| lorieEraser := 0 |>)).

Definition InitInput (e : dvenv) : M inputs () :=
  m ← AddInputDevice MouseProc; modify (λ s, s <| lorieMouse := m |>) ;;
  t ← AddInputDevice TouchProc; modify (λ s, s <| lorieTouch := t |>) ;;
  k ← AddInputDevice KeybdProc; modify (λ s, s <| lorieKeyboard := k |>) ;;
  AssignTypeAndName m LorieMouse ;; AssignTypeAndName t LorieTouch ;; AssignTypeAndName k LorieKeyboard ;;
  _ ← ActivateDevice e m; _ ← ActivateDevice e t; _ ← ActivateDevice e k;
  _ ← EnableDevice e m; _ ← EnableDevice e t; _ ← EnableDevice e k;
  s ← get;
  _ ← AttachDevice m (pointer s); _ ← AttachDevice t (pointer s); _ ← AttachDevice k (keyboard s);
  if negb (loriePen s =? 0) && negb (lorieEraser s =? 0)
  then modify (λ s, s <| loriePen := 0 |> <| lorieEraser := 0 |>) ;; lorieSetStylusEnabled e true
  else skip.

(** ** The core devices *)

Definition core_button : ButtonClass := mk_button 10 (0 :: (Z.of_nat <$> seq 1 255)) [].

(** A server with nothing but the two core devices. *)
Definition core_only : inputs :=
  mk_inputs
    {[1 := mk_device 2 MASTER_POINTER CoreProc NoName true true true false (Some core_button)
             (Some (mk_valuator [] (-1) (-1))) None true 0 1 2;
      2 := mk_device 3 MASTER_KEYBOARD CoreProc NoName true true true true None None None false 0 1 1]}
    [1; 2] [] 2 1 2 3 0 0 0 0 0.

(** ** Reading the state *)

Lemma dev_deref_run a d s : mem s !! a = Some d → deref a s = Some (d, s).
Proof. intros H. unfold deref. mrun. by rewrite H. Qed.

Lemma dev_upd_run a d f s : mem s !! a = Some d → upd a f s = Some ((), s <| mem ::= <[a := f d]> |>).
Proof. intros H. unfold upd. by mstep (dev_deref_run _ _ _ H). Qed.

Lemma call_proc_run e w a d s ret d' :
  mem s !! a = Some d → run_proc e w d = (ret, d') →
  call_proc e w a s = Some (ret, s <| mem ::= <[a := d']> |>).
Proof.
  intros H E. unfold call_proc. mstep (dev_deref_run _ _ _ H). rewrite E.
  by mstep (dev_upd_run _ _ (λ _, d') _ H).
Qed.

(** The core devices are there, and each is the partner of the other. *)
Record masters_ok (s : inputs) : Prop := mk_masters_ok {
  mo_pointer : ∃ d, mem s !! pointer s = Some d ∧ dtype d = MASTER_POINTER
    ∧ paired d = keyboard s ∧ sprite d ≠ 0;
  mo_keyboard : ∃ d, mem s !! keyboard s = Some d ∧ dtype d = MASTER_KEYBOARD
    ∧ paired d = pointer s ∧ sprite d ≠ 0;
  mo_pointer_nz : pointer s ≠ 0;
  mo_keyboard_nz : keyboard s ≠ 0
}.

Definition core_master (s : inputs) (m : Z) : Prop := m = pointer s ∨ m = keyboard s.

Lemma core_master_run s m :
  masters_ok s → core_master s m →
  m ≠ 0 ∧ ∃ md, mem s !! m = Some md ∧ IsMaster md = true ∧ sprite md ≠ 0
    ∧ (dtype md = MASTER_POINTER ∧ m = pointer s ∧ paired md = keyboard s
       ∨ dtype md = MASTER_KEYBOARD ∧ m = keyboard s ∧ paired md = pointer s).
Proof.
  intros [(p & Hp & Tp & Pp & Sp) (k & Hk & Tk & Pk & Sk) Np Nk] [->| ->]; (split; [done|]).
  - exists p. unfold IsMaster. rewrite Tp. split_and!; auto.
  - exists k. unfold IsMaster. rewrite Tk. split_and!; auto.
Qed.

Lemma attached_run a d s :
  mem s !! a = Some d → IsMaster d = false → GetMaster_attached a s = Some (master d, s).
Proof. intros H Hm. unfold GetMaster_attached. mstep (dev_deref_run _ _ _ H). by rewrite Hm. Qed.

(** A slave of a core device has both of them. *)
Lemma get_master_run a d s which :
  masters_ok s → mem s !! a = Some d → IsMaster d = false → core_master s (master d) →
  which ≠ SLAVE →
  GetMaster a which s
  = Some (match which with MASTER_POINTER => pointer s | _ => keyboard s end, s).
Proof.
  intros Ho H Hm Hc Hw. unfold GetMaster. mstep (attached_run _ _ _ H Hm).
  destruct (core_master_run _ _ Ho Hc) as (Hz & md & Hmd & Him & _ & Hcase).
  rewrite (proj2 (Z.eqb_neq _ _) Hz). mstep (dev_deref_run _ _ _ Hmd).
  destruct Hcase as [(Ht & -> & Hp)|(Ht & -> & Hp)]; rewrite Ht; unfold GetPairedDevice;
    rewrite Him; cbn [negb andb]; rewrite Hp; destruct which; done.
Qed.

Lemma floating_run a d s :
  mem s !! a = Some d → IsMaster d = false → master d = 0 → IsFloating a s = Some (true, s).
Proof.
  intros H Hm H0. unfold IsFloating. mstep (dev_deref_run _ _ _ H). rewrite Hm. unfold GetMaster.
  mrun. rewrite (attached_run _ _ _ H Hm), H0. done.
Qed.

Lemma attached_not_floating a d s :
  masters_ok s → mem s !! a = Some d → IsMaster d = false → core_master s (master d) →
  IsFloating a s = Some (false, s).
Proof.
  intros Ho H Hm Hc. unfold IsFloating. mstep (dev_deref_run _ _ _ H). rewrite Hm.
  mstep (get_master_run a d s MASTER_KEYBOARD Ho H Hm Hc ltac:(done)).
  by rewrite (proj2 (Z.eqb_neq _ _) (mo_keyboard_nz _ Ho)).
Qed.

Definition attach_to (m : Z) (md d : device) : device :=
  d <| master := m |> <| sprite := sprite md |> <| paired := m |>.

Lemma attach_run a d m md s fl :
  a ≠ 0 → mem s !! a = Some d → IsMaster d = false → a ≠ m →
  m ≠ 0 → mem s !! m = Some md → IsMaster md = true → IsFloating a s = Some (fl, s) →
  AttachDevice a m s = Some (Success, s <| mem ::= <[a := attach_to m md d]> |>).
Proof.
  intros Ha H Hm Ham Hz Hmd Him Hfl. unfold AttachDevice, not_master.
  rewrite (proj2 (Z.eqb_neq _ _) Ha). mstep (dev_deref_run _ _ _ H). rewrite Hm.
  rewrite (proj2 (Z.eqb_neq _ _) Hz). rewrite (bind_run _ _ s false s).
  2: { mstep (dev_deref_run _ _ _ Hmd). by rewrite Him. }
  cbv beta iota. mstep Hfl. rewrite andb_false_r. cbn [andb].
  mstep (dev_upd_run _ _ (λ d, d <| master := m |>) _ H). set (s1 := set_field mem _ s).
  assert (mem s1 !! m = Some md) as Hmd1 by (simpl; by rewrite lookup_insert_ne).
  assert (mem s1 !! a = Some (d <| master := m |>)) as H1 by (simpl; apply lookup_insert_eq).
  rewrite (bind_run _ _ s1 () (s1 <| mem ::= <[a := attach_to m md d]> |>)).
  2: { mstep (dev_deref_run _ _ _ Hmd1). rewrite (dev_upd_run _ _ _ _ H1). done. }
  cbv beta. unfold mret, M_ret. do 2 f_equal. unfold s1. destruct s; simpl. f_equal.
  apply insert_insert_eq.
Qed.

(** ** Buttons of the core pointer *)

Lemma alter_as_insert (f : device → device) (i : Z) (m : gmap Z device) d :
  m !! i = Some d → alter f i m = <[i := f d]> m.
Proof.
  intros H. apply map_eq. intros k. destruct (decide (k = i)) as [->|Hk].
  - by rewrite lookup_alter_eq, lookup_insert_eq, H.
  - by rewrite lookup_alter_ne, lookup_insert_ne by done.
Qed.

Definition set_count (n : Z) (d : device) : device :=
  match button d with
  | Some b => d <| button := Some (b <| numButtons := n |>) |>
  | None => d
  end.

Definition recount (n : Z) (s : inputs) : inputs := s <| mem ::= alter (set_count n) (pointer s) |>.
Definition set_buttons (s : inputs) : inputs := recount (max_buttons s (pointer s)) s.

Lemma set_count_twice n k d : set_count n (set_count k d) = set_count n d.
Proof. unfold set_count. destruct (button d) eqn:E; simpl; [done|by rewrite E]. Qed.

Lemma set_count_same d b : button d = Some b → set_count (numButtons b) d = d.
Proof. intros E. unfold set_count. rewrite E. destruct d, b. simpl in *. by rewrite E. Qed.

Lemma set_count_master n d : IsMaster (set_count n d) = IsMaster d.
Proof. unfold set_count. by destruct (button d). Qed.

Lemma max_buttons_ext s s' m :
  devices s = devices s' →
  (∀ a, a ∈ devices s → slave_buttons s m a = slave_buttons s' m a) →
  max_buttons s m = max_buttons s' m.
Proof.
  intros Hd H. unfold max_buttons. rewrite <-Hd. f_equal. apply list_fmap_ext.
  intros i a Ha. apply H. by eapply list_elem_of_lookup_2.
Qed.

Lemma slave_buttons_recount n s m a :
  masters_ok s → slave_buttons (recount n s) m a = slave_buttons s m a.
Proof.
  intros Ho. unfold slave_buttons, recount. simpl. destruct (decide (a = pointer s)) as [->|Ha].
  - destruct (mo_pointer _ Ho) as (d & Hd & Ht & _). rewrite lookup_alter_eq, Hd. simpl.
    rewrite set_count_master. unfold IsMaster. by rewrite Ht.
  - by rewrite lookup_alter_ne by done.
Qed.

Lemma set_buttons_recount n s : masters_ok s → set_buttons (recount n s) = set_buttons s.
Proof.
  intros Ho. unfold set_buttons. simpl.
  rewrite (max_buttons_ext (recount n s) s) by (try done; intros; by apply slave_buttons_recount).
  unfold recount. destruct s; simpl. f_equal. rewrite alter_alter_eq. apply alter_ext.
  intros d _. apply set_count_twice.
Qed.

Lemma masters_recount n s : masters_ok s → masters_ok (recount n s).
Proof.
  intros [(p & Hp & Tp & Pp & Sp) (k & Hk & Tk & Pk & Sk) Np Nk].
  split; try done; simpl.
  - exists (set_count n p). rewrite lookup_alter_eq, Hp. split; [done|]. unfold set_count. by destruct (button p).
  - assert (keyboard s ≠ pointer s) by (intros E; rewrite E, Hp in Hk; injection Hk as ->; congruence).
    exists k. by rewrite lookup_alter_ne by done.
Qed.

(** The count is current where it is what a recount gives. *)
Definition buttons_current (s : inputs) : Prop := set_buttons s = s.

Lemma recalculate_run a d s :
  masters_ok s → mem s !! a = Some d → IsMaster d = false → core_master s (master d) →
  RecalculateMasterButtons a s
  = Some ((), if bool_decide (is_Some (button d)) then set_buttons s else s).
Proof.
  intros Ho H Hm Hc. unfold RecalculateMasterButtons. mstep (dev_deref_run _ _ _ H). rewrite Hm, orb_false_r.
  case_bool_decide as Hb; cbn [negb]; [|done].
  mstep (get_master_run a d s MASTER_POINTER Ho H Hm Hc ltac:(done)).
  rewrite (proj2 (Z.eqb_neq _ _) (mo_pointer_nz _ Ho)). mrun.
  destruct (mo_pointer _ Ho) as (p & Hp & _). rewrite (dev_deref_run _ _ _ Hp).
  unfold set_buttons, recount. destruct (button p) as [b|] eqn:Eb.
  - destruct (Z.eqb_spec (numButtons b) (max_buttons s (pointer s))) as [E|E]; cbn [negb when].
    + unfold skip. do 2 f_equal. rewrite <-E. destruct s; simpl in *. f_equal.
      symmetry. apply alter_id. intros d' Hd'. rewrite Hp in Hd'. injection Hd' as ->.
      by apply set_count_same.
    + rewrite (dev_upd_run _ _ _ _ Hp). do 2 f_equal. destruct s; simpl in *. f_equal.
      rewrite (alter_as_insert _ _ _ _ Hp). unfold set_count. by rewrite Eb.
  - unfold skip. do 2 f_equal. destruct s; simpl in *. f_equal. symmetry. apply alter_id.
    intros d' Hd'. rewrite Hp in Hd'. injection Hd' as ->. unfold set_count. by rewrite Eb.
Qed.

(** ** Enabling and removing *)

Definition slave_ready (s : inputs) (a : Z) (d : device) : Prop :=
  a ≠ 0 ∧ mem s !! a = Some d ∧ IsMaster d = false ∧ ¬ core_master s a ∧ deviceProc d ≠ CoreProc
  ∧ inited d = true.

Lemma masters_ext s s' :
  pointer s' = pointer s → keyboard s' = keyboard s →
  mem s' !! pointer s = mem s !! pointer s → mem s' !! keyboard s = mem s !! keyboard s →
  masters_ok s → masters_ok s'.
Proof. intros Ep Ek Hp Hk [Mp Mk Np Nk]. split; rewrite ?Ep, ?Ek, ?Hp, ?Hk; done. Qed.

Lemma run_on e d : deviceProc d ≠ CoreProc → run_proc e DEVICE_ON d = (Success, d <| on := true |>).
Proof. unfold run_proc. by destruct (deviceProc d). Qed.

Lemma run_off e d : deviceProc d ≠ CoreProc → run_proc e DEVICE_OFF d = (Success, d <| on := false |>).
Proof. unfold run_proc. by destruct (deviceProc d). Qed.

Definition if_buttons (d : device) (s : inputs) : inputs :=
  if bool_decide (is_Some (button d)) then set_buttons s else s.

Definition enabled_device (m : Z) (md d : device) : device :=
  attach_to m md d <| on := true |> <| enabled := true |>.

Lemma enable_run e s a d md :
  masters_ok s → slave_ready s a d → sprite d = 0 → master d = 0 → a ∈ off_devices s →
  let m := if IsPointerDevice d then pointer s else keyboard s in
  mem s !! m = Some md →
  EnableDevice e a s
  = Some (true, if_buttons d
      (s <| mem ::= <[a := enabled_device m md d]> |>
         <| off_devices ::= filter (λ x, x ≠ a) |> <| devices ::= λ l, l ++ [a] |>)).
Proof.
  intros Ho (Ha & H & Hm & Hc & Hp & Hi) Hs H0 Hoff m Hmd. unfold EnableDevice.
  assert (core_master s m) as Hcm by (unfold m, core_master; destruct (IsPointerDevice d); auto).
  destruct (core_master_run _ _ Ho Hcm) as (Hz & md' & Hmd' & Him & _).
  rewrite Hmd in Hmd'. injection Hmd' as <-.
  assert (a ≠ m) as Ham by (intros ->; done).
  mstep (dev_deref_run _ _ _ H). rewrite bind_get. rewrite Hs. cbn [Z.eqb].
  rewrite Hm. fold m. set (s1 := s <| mem ::= <[a := attach_to m md d]> |>).
  rewrite (bind_run _ _ s () s1).
  2: { mstep (attach_run a d m md s true Ha H Hm Ham Hz Hmd Him (floating_run _ _ _ H Hm H0)). done. }
  cbv beta. rewrite bool_decide_true, Hi by done. cbn [negb orb].
  assert (mem s1 !! a = Some (attach_to m md d)) as H1 by (simpl; apply lookup_insert_eq).
  mstep (call_proc_run e DEVICE_ON a _ _ _ _ H1 (run_on e (attach_to m md d) Hp)).
  rewrite Z.eqb_refl. cbn [negb].
  set (s2 := s1 <| mem ::= _ |>).
  assert (mem s2 !! a = Some (attach_to m md d <| on := true |>)) as H2 by (simpl; apply lookup_insert_eq).
  mstep (dev_upd_run _ _ (λ d, d <| enabled := true |>) _ H2). rewrite bind_modify.
  set (s3 := set_field devices _ _).
  assert (mem s3 !! a = Some (enabled_device m md d)) as H3 by (simpl; apply lookup_insert_eq).
  assert (masters_ok s3) as Ho3.
  { apply (masters_ext s); try done; simpl; rewrite !lookup_insert_ne by (intros E; apply Hc; rewrite E; unfold core_master; auto); done. }
  mstep (recalculate_run a _ s3 Ho3 H3 Hm Hcm). unfold if_buttons.
  assert (s3 = s <| mem ::= <[a := enabled_device m md d]> |>
         <| off_devices ::= filter (λ x, x ≠ a) |> <| devices ::= λ l, l ++ [a] |>) as ->.
  { unfold s3, s2, s1. destruct s; simpl. f_equal. by rewrite !insert_insert_eq. }
  done.
Qed.

Lemma set_buttons_off a s (g : gmap Z device → gmap Z device) :
  a ∉ devices s → a ≠ pointer s →
  (∀ m k, k ≠ a → g m !! k = m !! k) → (∀ m f k, k ≠ a → g (alter f k m) = alter f k (g m)) →
  set_buttons s <| mem ::= g |> = set_buttons (s <| mem ::= g |>).
Proof.
  intros Ha Hp Hg Hc.
  assert (max_buttons (s <| mem ::= g |>) (pointer s) = max_buttons s (pointer s)) as E.
  { apply max_buttons_ext; [done|]. intros k Hk. unfold slave_buttons. simpl in *.
    rewrite Hg; [done|]. intros ->. done. }
  unfold set_buttons. change (pointer (s <| mem ::= g |>)) with (pointer s). rewrite E.
  unfold recount. destruct s; simpl in *. f_equal. by apply Hc.
Qed.

Lemma insert_alter_ne (a k : Z) (d : device) f (m : gmap Z device) :
  k ≠ a → <[a := d]> (alter f k m) = alter f k (<[a := d]> m).
Proof.
  intros Hk. apply map_eq. intros j. destruct (decide (j = a)) as [->|Hj].
  - by rewrite lookup_alter_ne, !lookup_insert_eq by done.
  - rewrite lookup_insert_ne by done. destruct (decide (j = k)) as [->|].
    + by rewrite !lookup_alter_eq, lookup_insert_ne by done.
    + by rewrite !lookup_alter_ne, lookup_insert_ne by done.
Qed.

Definition disabled_device (d : device) : device :=
  d <| paired := 0 |> <| on := false |> <| enabled := false |> <| sprite := 0 |> <| master := 0 |>.

Lemma disable_run e s a d :
  masters_ok s → slave_ready s a d → enabled d = true → a ∈ devices s → core_master s (master d) →
  DisableDevice e a s
  = Some (true, if_buttons d
      (s <| mem ::= <[a := disabled_device d]> |>
         <| devices ::= filter (λ x, x ≠ a) |> <| off_devices ::= cons a |>)).
Proof.
  intros Ho (Ha & H & Hm & Hc & Hp & Hi) He Hin Hcm. unfold DisableDevice.
  mstep (dev_deref_run _ _ _ H). rewrite bind_get, He, bool_decide_true, Hm by done. cbn [negb].
  mstep (dev_upd_run _ _ (λ d, d <| paired := 0 |>) _ H). set (s1 := set_field mem _ s).
  assert (mem s1 !! a = Some (d <| paired := 0 |>)) as H1 by (simpl; apply lookup_insert_eq).
  assert (run_proc e DEVICE_OFF (d <| paired := 0 |>) = (Success, d <| paired := 0 |> <| on := false |>)) as Eoff
    by (by apply run_off).
  mstep (call_proc_run _ _ _ _ _ _ _ H1 Eoff).
  set (s2 := set_field mem _ s1).
  assert (mem s2 !! a = Some (d <| paired := 0 |> <| on := false |>)) as H2 by (simpl; apply lookup_insert_eq).
  mstep (dev_upd_run _ _ (λ d, d <| enabled := false |> <| sprite := 0 |>) _ H2). rewrite bind_modify.
  set (d3 := d <| paired := 0 |> <| on := false |> <| enabled := false |> <| sprite := 0 |>).
  set (s3 := set_field off_devices _ _).
  assert (mem s3 !! a = Some d3) as H3 by (simpl; apply lookup_insert_eq).
  assert (masters_ok s3) as Ho3.
  { apply (masters_ext s); try done; simpl; rewrite !lookup_insert_ne by (intros E; apply Hc; rewrite E; unfold core_master; auto); done. }
  mstep (recalculate_run a _ s3 Ho3 H3 Hm Hcm).
  assert (a ≠ pointer s) as Hap by (intros ->; apply Hc; by left).
  assert (a ∉ devices s3) as Hnd by (simpl; rewrite list_elem_of_filter; tauto).
  set (s4 := s <| mem ::= <[a := disabled_device d]> |>
               <| devices ::= filter (λ x, x ≠ a) |> <| off_devices ::= cons a |>).
  assert (s3 <| mem ::= <[a := disabled_device d]> |> = s4) as E4.
  { unfold s4, s3, s2, s1. destruct s; simpl. f_equal. by rewrite !insert_insert_eq. }
  change (button d3) with (button d). unfold if_buttons. case_bool_decide.
  - assert (mem (set_buttons s3) !! a = Some d3) as H4.
    { unfold set_buttons, recount. simpl. by rewrite lookup_alter_ne. }
    mstep (dev_upd_run _ _ (λ d, d <| master := 0 |>) _ H4).
    change (d3 <| master := 0 |>) with (disabled_device d).
    rewrite (set_buttons_off a s3 (<[a := disabled_device d]>)), E4; try done.
    + intros m k Hk. by rewrite lookup_insert_ne.
    + intros m f k Hk. by apply insert_alter_ne.
  - mstep (dev_upd_run _ _ (λ d, d <| master := 0 |>) _ H3).
    change (d3 <| master := 0 |>) with (disabled_device d). by rewrite E4.
Qed.

(** The state without a device that was enabled. *)
Definition without (a : Z) (s : inputs) : inputs :=
  s <| mem ::= delete a |> <| devices ::= filter (λ x, x ≠ a) |> <| numDevices ::= Z.pred |>.

Lemma filter_out a (l : list Z) : a ∉ l → filter (λ x, x ≠ a) l = l.
Proof. intros H. apply filter_all. apply Forall_forall. intros x Hx ->. done. Qed.

Lemma filter_twice a (l : list Z) : filter (λ x, x ≠ a) (filter (λ x, x ≠ a) l) = filter (λ x, x ≠ a) l.
Proof. apply filter_out. rewrite list_elem_of_filter. tauto. Qed.

Lemma run_close e d : run_proc e DEVICE_CLOSE d = (Success, snd (run_proc e DEVICE_CLOSE d)).
Proof. unfold run_proc. by destruct (deviceProc d). Qed.

Lemma close_run e s a d : mem s !! a = Some d → CloseDevice e a s = Some ((), s <| mem ::= delete a |>).
Proof.
  intros H. unfold CloseDevice. mstep (dev_deref_run _ _ _ H). destruct (inited d); cbn [when]; [|done].
  rewrite (bind_run _ _ s () (s <| mem ::= <[a := snd (run_proc e DEVICE_CLOSE d)]> |>)).
  - unfold modify. do 2 f_equal. destruct s; simpl. f_equal. apply delete_insert_eq.
  - by mstep (call_proc_run e DEVICE_CLOSE a _ _ _ _ H (run_close e d)).
Qed.

Lemma remove_run e s a d :
  masters_ok s → slave_ready s a d → enabled d = true → a ∈ devices s → a ∉ off_devices s →
  core_master s (master d) →
  RemoveDevice e a s = Some (Success, if_buttons d (without a s)).
Proof.
  intros Ho Hr He Hin Hout Hcm. pose proof Hr as (Ha & H & Hm & Hc & Hp & Hi). unfold RemoveDevice.
  rewrite bind_get. rewrite !(proj2 (Z.eqb_neq a _)) by (done || intros ->; apply Hc; unfold core_master; auto).
  cbn [orb]. mstep (dev_deref_run _ _ _ H). rewrite Hi, bind_when_true.
  set (s1 := s <| mem ::= <[a := disabled_device d]> |>
               <| devices ::= filter (λ x, x ≠ a) |> <| off_devices ::= cons a |>).
  rewrite (bind_run _ _ s () (if_buttons d s1)).
  2: { by mstep (disable_run e s a d Ho Hr He Hin Hcm). }
  cbv beta. rewrite bind_get.
  assert (devices (if_buttons d s1) = filter (λ x, x ≠ a) (devices s)
    ∧ off_devices (if_buttons d s1) = a :: off_devices s) as [Ed Eo]
    by (unfold if_buttons; by case_bool_decide).
  rewrite Ed, Eo. rewrite bool_decide_true by (apply elem_of_app; right; by left). cbv zeta.
  assert (a ≠ pointer s) as Hap by (intros ->; apply Hc; by left).
  assert (mem (if_buttons d s1) !! a = Some (disabled_device d)) as H1.
  { unfold if_buttons. case_bool_decide; unfold set_buttons, recount; simpl; rewrite ?lookup_alter_ne by done; apply lookup_insert_eq. }
  rewrite bind_when_true. mstep (close_run e _ _ _ H1). rewrite bind_modify. cbn [andb].
  rewrite bind_when_true, bind_modify. unfold mret, M_ret. do 2 f_equal.
  assert (∀ x, x = s1 <| mem ::= delete a |> →
    x <| devices ::= filter (λ x, x ≠ a) |> <| off_devices ::= filter (λ x, x ≠ a) |>
      <| numDevices ::= Z.pred |> = without a s) as Hx.
  { intros x ->. unfold s1, without. destruct s; simpl in *. f_equal.
    - by rewrite delete_insert_eq.
    - apply filter_twice.
    - rewrite filter_cons, decide_False by tauto. by apply filter_out. }
  unfold if_buttons. case_bool_decide; [|by apply Hx].
  rewrite (set_buttons_off a s1 (delete a)).
  - rewrite <-(Hx _ eq_refl). set (x := s1 <| mem ::= delete a |>). set (y := x <| devices ::= filter (λ x, x ≠ a) |> <| off_devices ::= filter (λ x, x ≠ a) |>
      <| numDevices ::= Z.pred |>).
    assert (max_buttons x (pointer x) = max_buttons y (pointer x)) as E.
    { apply max_buttons_ext; [|done]. symmetry. apply filter_twice. }
    unfold set_buttons. change (pointer y) with (pointer x). by rewrite E.
  - simpl. rewrite list_elem_of_filter. tauto.
  - done.
  - intros m k Hk. by rewrite lookup_delete_ne.
  - intros m f k Hk. by apply delete_alter_ne.
Qed.

(** ** The invariant *)

Record dwf (s : inputs) : Prop := mk_dwf {
  dw_masters : masters_ok s;
  dw_nodup : NoDup (devices s ++ off_devices s);
  dw_dom : ∀ a, a ∈ devices s ++ off_devices s ↔ is_Some (mem s !! a);
  dw_addr : ∀ a, is_Some (mem s !! a) → 0 < a < next s;
  dw_ids : ∀ a b d f, mem s !! a = Some d → mem s !! b = Some f → id d = id f → a = b;
  dw_range : ∀ a d, mem s !! a = Some d → 2 ≤ id d < MAXDEVICES;
  dw_enabled : ∀ a d, mem s !! a = Some d → enabled d = true ↔ a ∈ devices s;
  dw_attached : ∀ a d, mem s !! a = Some d → IsMaster d = false → enabled d = true →
    core_master s (master d)
}.

Lemma dw_next_fresh s : dwf s → mem s !! next s = None.
Proof. intros W. apply eq_None_not_Some. intros Hs. pose proof (dw_addr _ W _ Hs). lia. Qed.

Lemma dw_next_unlisted s : dwf s → next s ∉ devices s ++ off_devices s.
Proof. intros W Hin%(dw_dom _ W). rewrite (dw_next_fresh _ W) in Hin. by destruct Hin. Qed.

Lemma dw_core s m : dwf s → core_master s m → 0 < m < next s.
Proof.
  intros W Hc. destruct (core_master_run _ _ (dw_masters _ W) Hc) as (_ & md & H & _).
  apply (dw_addr _ W). by eexists.
Qed.

Lemma dw_next_not_core s : dwf s → ¬ core_master s (next s).
Proof. intros W Hc. pose proof (dw_core _ _ W Hc). lia. Qed.

(** ** Free ids *)

Lemma first_free_Some used cs i : first_free used cs = Some i → i ∈ cs ∧ i ∉ used.
Proof.
  induction cs as [|c cs IH]; simpl; [done|]. case_decide.
  - intros H1. destruct (IH H1). set_solver.
  - intros [= ->]. set_solver.
Qed.

Lemma first_free_None used cs : first_free used cs = None → cs ⊆ used.
Proof.
  induction cs as [|c cs IH]; simpl; [set_solver|]. case_decide; [|done].
  intros H1. specialize (IH H1). set_solver.
Qed.

Lemma used_ids_spec s i :
  dwf s → i ∈ used_ids s ↔ ∃ a d, mem s !! a = Some d ∧ id d = i.
Proof.
  intros W. unfold used_ids. rewrite list_elem_of_omap. split.
  - intros (a & _ & H). apply fmap_Some in H as (d & Hd & ->). eauto.
  - intros (a & d & Hd & <-). exists a. rewrite Hd. split; [|done]. apply (dw_dom _ W). by eexists.
Qed.

Lemma free_id_Some s i :
  dwf s → free_id s = Some i → 2 ≤ i < MAXDEVICES ∧ ∀ a d, mem s !! a = Some d → id d ≠ i.
Proof.
  intros W [Hc Hu]%first_free_Some. split.
  - apply list_elem_of_fmap_1 in Hc as (n & -> & Hn). apply elem_of_seq in Hn. unfold MAXDEVICES. lia.
  - intros a d Hd Hi. apply Hu. apply used_ids_spec; eauto.
Qed.

Lemma free_id_exists s :
  (length (devices s ++ off_devices s) < 254)%nat → ∃ i, free_id s = Some i.
Proof.
  intros Hl. unfold free_id. destruct (first_free _ _) as [i|] eqn:E; [by exists i|].
  apply first_free_None in E. exfalso.
  assert (NoDup (Z.of_nat <$> seq 2 254)) as Hnd by (apply NoDup_fmap_2; [apply _|apply NoDup_seq]).
  pose proof (submseteq_length _ _ (NoDup_submseteq _ _ Hnd E)) as Hlen.
  rewrite length_fmap, length_seq in Hlen. unfold used_ids in Hlen.
  assert (∀ l, length (omap (λ a, id <$> mem s !! a) l) ≤ length l)%nat as Ho.
  { induction l as [|a l IH]; csimpl; [lia|]. destruct (mem s !! a); csimpl; lia. }
  specialize (Ho (devices s ++ off_devices s)). lia.
Qed.

(** ** Plugging in a stylus *)

Definition pointer_sprite (s : inputs) : Z :=
  match mem s !! pointer s with Some d => sprite d | None => 0 end.

(** The device after its set-up. *)
Definition stylus_init (i : Z) (n : devname) : device :=
  snd (lorieStylusProc DEVICE_INIT (new_device i StylusProc <| name := n |>)) <| inited := true |>.

Definition stylus (s : inputs) (i : Z) (n : devname) : device :=
  stylus_init i n <| master := pointer s |> <| sprite := pointer_sprite s |> <| paired := pointer s |>
    <| on := true |> <| enabled := true |>.

Definition plug (i : Z) (n : devname) (s : inputs) : inputs :=
  s <| mem ::= <[next s := stylus s i n]> |> <| devices ::= λ l, l ++ [next s] |>
    <| numDevices ::= Z.succ |> <| next ::= Z.succ |>.

Lemma stylus_init_run e i n :
  run_proc e DEVICE_INIT (new_device i StylusProc <| name := n |>)
  = (Success, snd (lorieStylusProc DEVICE_INIT (new_device i StylusProc <| name := n |>))).
Proof. vm_compute. done. Qed.

Lemma bind_assoc {S A B C} (m : M S A) (k : M S B) (f : B → M S C) s b s' :
  (m ;; k) s = Some (b, s') → (m ;; x ← k; f x) s = f b s'.
Proof. unfold mbind, M_bind. destruct (m s) as [[a s1]|]; [|done]. by intros ->. Qed.

Lemma enable_attach_run e s a d md :
  masters_ok s → slave_ready s a d → sprite d = 0 → master d = 0 → a ∈ off_devices s →
  IsPointerDevice d = true → is_Some (button d) → mem s !! pointer s = Some md →
  (_ ← EnableDevice e a; s ← get; _ ← AttachDevice a (pointer s); mret a) s
  = Some (a, set_buttons (s <| mem ::= <[a := enabled_device (pointer s) md d]> |>
      <| off_devices ::= filter (λ x, x ≠ a) |> <| devices ::= λ l, l ++ [a] |>)).
Proof.
  intros Ho Hr Hs Hm Hoff Hp Hb Hmd. pose proof Hr as (Ha0 & H & HM & Hc & _).
  assert (a ≠ pointer s ∧ a ≠ keyboard s) as [Hap Hak] by (split; intros ->; apply Hc; unfold core_master; auto).
  pose proof (enable_run e s a d md Ho Hr Hs Hm Hoff) as E. rewrite Hp in E. specialize (E Hmd).
  unfold if_buttons in E. rewrite bool_decide_true in E by done. mstep E. rewrite bind_get.
  set (s4 := set_field devices _ _). set (s5 := set_buttons s4). clear E.
  assert (mem s5 !! a = Some (enabled_device (pointer s) md d)) as H5.
  { unfold s5, set_buttons, recount. simpl. rewrite lookup_alter_ne by done. apply lookup_insert_eq. }
  assert (masters_ok s5) as Ho5.
  { apply masters_recount. apply (masters_ext s); try done; simpl; rewrite !lookup_insert_ne by done; done. }
  destruct (mo_pointer _ Ho5) as (md5 & Hmd5 & Ht5 & _).
  assert (sprite md5 = sprite md) as Hs5.
  { unfold s5, set_buttons, recount in Hmd5. simpl in Hmd5. rewrite lookup_alter_eq, lookup_insert_ne, Hmd in Hmd5 by done.
    injection Hmd5 as <-. unfold set_count. by destruct (button md). }
  assert (IsMaster md5 = true) as Him5 by (unfold IsMaster; by rewrite Ht5).
  assert (core_master s5 (master (enabled_device (pointer s) md d))) as Hcm5 by (by left).
  mstep (attach_run a _ (pointer s5) md5 s5 false Ha0 H5 HM Hap (mo_pointer_nz _ Ho5) Hmd5 Him5
    (attached_not_floating _ _ _ Ho5 H5 HM Hcm5)).
  unfold mret, M_ret. do 2 f_equal.
  assert (attach_to (pointer s5) md5 (enabled_device (pointer s) md d) = enabled_device (pointer s) md d) as ->.
  { unfold enabled_device, attach_to. rewrite Hs5. change (pointer s5) with (pointer s). by destruct d. }
  clearbody s5. destruct s5; simpl in *. f_equal. by apply insert_id.
Qed.

Lemma stylus_init_facts i n :
  IsMaster (stylus_init i n) = false ∧ deviceProc (stylus_init i n) ≠ CoreProc
  ∧ inited (stylus_init i n) = true ∧ sprite (stylus_init i n) = 0 ∧ master (stylus_init i n) = 0
  ∧ IsPointerDevice (stylus_init i n) = true ∧ is_Some (button (stylus_init i n))
  ∧ id (stylus_init i n) = i ∧ enabled (stylus_init i n) = false.
Proof. split_and!; try (vm_compute; done). vm_compute. by eexists. Qed.

Lemma activate_run e a d d1 s :
  a ≠ 0 → mem s !! a = Some d → run_proc e DEVICE_INIT d = (Success, d1) →
  ActivateDevice e a s = Some (Success, s <| mem ::= <[a := d1 <| inited := true |>]> |>).
Proof.
  intros Ha0 H E. unfold ActivateDevice. rewrite (proj2 (Z.eqb_neq _ _) Ha0).
  mstep (call_proc_run _ _ _ _ _ _ _ H E). set (s1 := set_field mem _ s).
  assert (mem s1 !! a = Some d1) as H1 by (simpl; apply lookup_insert_eq).
  mstep (dev_upd_run _ _ (λ d, d <| inited := Success =? Success |>) _ H1). unfold mret, M_ret. do 2 f_equal.
  unfold s1. destruct s; simpl. f_equal. by rewrite insert_insert_eq.
Qed.

Lemma activate_stylus_run e a i n s :
  a ≠ 0 → mem s !! a = Some (new_device i StylusProc) →
  (AssignTypeAndName a n ;; ActivateDevice e a) s
  = Some (Success, s <| mem ::= <[a := stylus_init i n]> |>).
Proof.
  intros Ha0 H1. unfold AssignTypeAndName. mstep (dev_upd_run _ _ (λ d, d <| name := n |>) _ H1).
  set (s2 := set_field mem _ s).
  assert (mem s2 !! a = Some (new_device i StylusProc <| name := n |>)) as H2 by (simpl; apply lookup_insert_eq).
  rewrite (activate_run _ _ _ _ _ Ha0 H2 (stylus_init_run e i n)). do 2 f_equal.
  unfold s2. destruct s; simpl. f_equal. apply insert_insert_eq.
Qed.

Lemma plug_run e n s i :
  dwf s → free_id s = Some i → plug_stylus e n s = Some (next s, set_buttons (plug i n s)).
Proof.
  intros W Hi. unfold plug_stylus. set (a := next s).
  pose proof (dw_masters _ W) as Ho. destruct (mo_pointer _ Ho) as (md & Hmd & Htd & _ & Hsd).
  assert (a ≠ pointer s ∧ a ≠ keyboard s ∧ a ≠ 0) as (Hap & Hak & Ha0).
  { pose proof (dw_core _ _ W (or_introl eq_refl)). pose proof (dw_core _ _ W (or_intror eq_refl)).
    unfold a. lia. }
  pose proof (dw_next_unlisted _ W) as Hun. rewrite elem_of_app in Hun.
  set (s1 := s <| mem ::= <[a := new_device i StylusProc]> |> <| off_devices ::= λ l, l ++ [a] |>
               <| numDevices ::= Z.succ |> <| next ::= Z.succ |>).
  assert (AddInputDevice StylusProc s = Some (a, s1)) as E1 by (unfold AddInputDevice; rewrite bind_get, Hi; done).
  mstep E1. assert (mem s1 !! a = Some (new_device i StylusProc)) as H1 by (simpl; apply lookup_insert_eq).
  pose proof (activate_stylus_run e a i n s1 Ha0 H1) as E3.
  destruct (stylus_init_facts i n) as (F1 & F2 & F3 & F4 & F5 & F6 & F7 & _).
  unfold plug, stylus, pointer_sprite. rewrite Hmd. revert E3 F1 F2 F3 F4 F5 F6 F7.
  generalize (stylus_init i n). intros d E3 F1 F2 F3 F4 F5 F6 F7.
  set (s3 := s1 <| mem ::= <[a := d]> |>) in E3.
  etransitivity; [exact (bind_assoc _ _ (λ _, _) _ _ _ E3)|].
  assert (mem s3 !! a = Some d) as H3 by (simpl; apply lookup_insert_eq).
  rewrite (enable_attach_run e s3 a d md); try done.
  - do 3 f_equal. unfold s3, s1, enabled_device, attach_to. destruct s; simpl in *. f_equal; [by rewrite !insert_insert_eq|].
    rewrite filter_app, filter_out by tauto. rewrite filter_cons, decide_False by tauto. apply app_nil_r.
  - apply (masters_ext s); try done; simpl; rewrite !lookup_insert_ne by done; done.
  - split_and!; try done. intros [E|E]; simpl in E; done.
  - simpl. set_solver.
  - simpl. by rewrite !lookup_insert_ne by done.
Qed.

(** ** The operations keep the invariant *)

Lemma dwf_recount n s : dwf s → dwf (recount n s).
Proof.
  intros W. assert (∀ a d', mem (recount n s) !! a = Some d' →
    ∃ d, mem s !! a = Some d ∧ id d' = id d ∧ enabled d' = enabled d ∧ dtype d' = dtype d ∧ master d' = master d) as Hl.
  { intros a d' H. simpl in H. apply lookup_alter_Some in H as [(<- & d & Hd & ->)|[_ H]]; [|eauto 10].
    exists d. unfold set_count. destruct (button d); done. }
  assert (∀ a, is_Some (mem (recount n s) !! a) ↔ is_Some (mem s !! a)) as Hs
    by (intros a; apply lookup_alter_is_Some).
  destruct W as [W1 W2 W3 W4 W5 W6 W7 W8]. split; try done.
  - by apply masters_recount.
  - intros a. rewrite Hs. apply W3.
  - intros a Ha%Hs. by apply W4.
  - intros a b d f Ha Hb. apply Hl in Ha as (d0 & Ha & Ei & _). apply Hl in Hb as (f0 & Hb & Ej & _).
    rewrite Ei, Ej. by apply W5.
  - intros a d (d0 & Ha & -> & _)%Hl. by apply (W6 a).
  - intros a d (d0 & Ha & _ & -> & _)%Hl. by apply W7.
  - intros a d (d0 & Ha & _ & Ee & Et & Em)%Hl Hm He. rewrite Em. apply (W8 a d0); try congruence.
    unfold IsMaster in *. by rewrite <-Et.
Qed.

Lemma stylus_facts s i n :
  IsMaster (stylus s i n) = false ∧ deviceProc (stylus s i n) ≠ CoreProc ∧ inited (stylus s i n) = true
  ∧ is_Some (button (stylus s i n)) ∧ id (stylus s i n) = i ∧ enabled (stylus s i n) = true
  ∧ master (stylus s i n) = pointer s.
Proof.
  destruct (stylus_init_facts i n) as (F1 & F2 & F3 & _ & _ & _ & F7 & F8 & _). unfold stylus.
  revert F1 F2 F3 F7 F8. by generalize (stylus_init i n).
Qed.

Lemma dwf_plug i n s : dwf s → free_id s = Some i → dwf (plug i n s).
Proof.
  intros W Hi. destruct (free_id_Some _ _ W Hi) as [Hr Hf].
  destruct (stylus_facts s i n) as (F1 & _ & _ & _ & F5 & F6 & F7).
  pose proof (dw_next_fresh _ W) as Hfr. pose proof (dw_next_unlisted _ W) as Hun.
  pose proof (dw_core _ _ W (or_introl eq_refl)). pose proof (dw_core _ _ W (or_intror eq_refl)).
  unfold plug. revert F1 F5 F6 F7. generalize (stylus s i n). intros d0 F1 F5 F6 F7.
  destruct W as [W1 W2 W3 W4 W5 W6 W7 W8]. split; simpl.
  - apply (masters_ext s); try done; simpl; rewrite lookup_insert_ne by lia; done.
  - rewrite <-app_assoc. simpl. rewrite <-Permutation_middle. by constructor.
  - intros a. rewrite lookup_insert_is_Some'. rewrite <-W3, !elem_of_app, list_elem_of_singleton.
    split; [intros [[H1|H1]|H1]|intros [H1|[H1|H1]]]; auto.
  - intros a. rewrite lookup_insert_is_Some'. intros [<-|Ha]; [lia|]. specialize (W4 _ Ha). lia.
  - intros a b d f [[<- <-]|[Ha Hd]]%lookup_insert_Some [[<- <-]|[Hb Hf']]%lookup_insert_Some.
    + done.
    + intros E. destruct (Hf _ _ Hf'). congruence.
    + intros E. destruct (Hf _ _ Hd). congruence.
    + by apply W5.
  - intros a d [[<- <-]|[Ha Hd]]%lookup_insert_Some; [by rewrite F5|by apply (W6 a)].
  - intros a d [[<- <-]|[Ha Hd]]%lookup_insert_Some.
    + rewrite F6. split; [|done]. intros _. apply elem_of_app. right. by apply list_elem_of_singleton.
    + rewrite (W7 _ _ Hd). rewrite elem_of_app, list_elem_of_singleton.
      split; [tauto|]. intros [Hx| ->]; [done|tauto].
  - intros a d [[<- <-]|[Ha Hd]]%lookup_insert_Some.
    + intros _ _. rewrite F7. by left.
    + by apply (W8 a).
Qed.

Lemma dwf_without a s : dwf s → a ∈ devices s → ¬ core_master s a → dwf (without a s).
Proof.
  intros [W1 W2 W3 W4 W5 W6 W7 W8] Ha Hc.
  assert (a ∉ off_devices s) as Ho.
  { intros Ho. apply NoDup_app in W2 as (_ & W2 & _). by apply (W2 a). }
  split; simpl.
  - apply (masters_ext s); try done; simpl; rewrite lookup_delete_ne by (intros ->; apply Hc; unfold core_master; auto); done.
  - apply NoDup_app in W2 as (N1 & N2 & N3). apply NoDup_app. split_and!; [by apply NoDup_filter| |done].
    intros x [_ Hx]%list_elem_of_filter. by apply N2.
  - intros x. rewrite lookup_delete_is_Some, <-W3, !elem_of_app, list_elem_of_filter.
    split; [intros [[Hx H1]|Hx]; (split; [congruence|auto])|].
    intros [Hx [H1|H1]]; [left; split; [congruence|done]|by right].
  - intros x [_ Hx]%lookup_delete_is_Some. by apply W4.
  - intros x y d f [_ Hx]%lookup_delete_Some [_ Hy]%lookup_delete_Some. by apply W5.
  - intros x d [_ Hx]%lookup_delete_Some. by apply (W6 x).
  - intros x d [Hne Hx]%lookup_delete_Some. rewrite (W7 _ _ Hx), list_elem_of_filter.
    split; [|tauto]. intros Hd. split; [congruence|done].
  - intros x d [_ Hx]%lookup_delete_Some. by apply (W8 x).
Qed.

Lemma dwf_statics p er s : dwf s → dwf (s <| loriePen := p |> <| lorieEraser := er |>).
Proof. intros [W1 W2 W3 W4 W5 W6 W7 W8]. split; try done. by apply (masters_ext s). Qed.

(** ** Recounting commutes *)

Lemma plug_recount k i n s :
  next s ≠ pointer s → plug i n (recount k s) = recount k (plug i n s).
Proof.
  intros Hn. unfold plug, recount.
  assert (stylus (set_field mem (alter (set_count k) (pointer s)) s) i n = stylus s i n) as E.
  { unfold stylus, pointer_sprite. simpl pointer. simpl mem. rewrite lookup_alter_eq.
    destruct (mem s !! pointer s) as [d|]; simpl; [|done].
    assert (sprite (set_count k d) = sprite d) as -> by (unfold set_count; by destruct (button d)). done. }
  rewrite E. generalize (stylus s i n). intros d. destruct s; simpl in *. f_equal.
  by apply insert_alter_ne.
Qed.

Lemma without_recount k a s : a ≠ pointer s → without a (recount k s) = recount k (without a s).
Proof. intros Hn. unfold without, recount. destruct s; simpl in *. f_equal. by apply delete_alter_ne. Qed.

(** What was plugged in last goes without a trace. *)
Lemma without_plug2 i j s :
  dwf s →
  without (next s + 1) (without (next s) (plug j LorieEraser (plug i LoriePen s)))
  = s <| next ::= Z.add 2 |>.
Proof.
  intros W. pose proof (dw_next_unlisted _ W) as Hun. rewrite elem_of_app in Hun.
  pose proof (dw_next_fresh _ W) as Hf.
  assert (mem s !! (next s + 1) = None ∧ next s + 1 ∉ devices s) as [Hf1 Hun1].
  { assert (mem s !! (next s + 1) = None) as E.
    { apply eq_None_not_Some. intros Hs. pose proof (dw_addr _ W _ Hs). lia. }
    split; [done|]. intros Hin. assert (is_Some (mem s !! (next s + 1))) as [d Hd]
      by (apply (dw_dom _ W), elem_of_app; by left). congruence. }
  unfold plug. generalize (stylus s i LoriePen). intros d1. set (s1 := set_field next _ _).
  generalize (stylus s1 j LorieEraser). intros d2. unfold s1, without. clear s1 W. destruct s; simpl in *. f_equal.
  - rewrite <-Z.add_1_r. rewrite delete_insert_ne, delete_insert_eq by lia.
    rewrite delete_insert_eq, delete_id; [by rewrite delete_id|]. rewrite lookup_delete_None. by right.
  - rewrite <-Z.add_1_r, !filter_app. rewrite (filter_out next0) by tauto.
    rewrite (filter_out (next0 + 1) devices0) by tauto.
    rewrite !filter_cons, !filter_nil, decide_False, decide_True by lia.
    rewrite filter_nil, filter_cons, filter_nil, decide_False by lia. by rewrite !app_nil_r.
  - lia.
  - lia.
Qed.

(** ** Requests for a stylus *)

Definition with_stylus (p er : Z) (s : inputs) : inputs := s <| loriePen := p |> <| lorieEraser := er |>.

Lemma plug_with_stylus i n p er s : plug i n (with_stylus p er s) = with_stylus p er (plug i n s).
Proof. done. Qed.
Lemma set_buttons_with_stylus p er s : set_buttons (with_stylus p er s) = with_stylus p er (set_buttons s).
Proof. done. Qed.
Lemma without_with_stylus a p er s : without a (with_stylus p er s) = with_stylus p er (without a s).
Proof. done. Qed.

Definition room (s : inputs) : nat := length (devices s ++ off_devices s).

Lemma plug_room i n s : room (plug i n s) = S (room s).
Proof. unfold room, plug. simpl. rewrite !length_app. simpl. lia. Qed.

Lemma used_ids_recount k s : used_ids (recount k s) = used_ids s.
Proof.
  unfold used_ids. simpl.
  assert (∀ a, id <$> alter (set_count k) (pointer s) (mem s) !! a = id <$> mem s !! a) as H.
  { intros a. destruct (decide (a = pointer s)) as [->|Ha]; [|by rewrite lookup_alter_ne].
    rewrite lookup_alter_eq. destruct (mem s !! pointer s) as [d|]; simpl; [|done].
    unfold set_count. by destruct (button d). }
  induction (devices s ++ off_devices s) as [|a l IH]; csimpl; [done|]. by rewrite H, IH.
Qed.

Lemma stylus_on_run e s :
  dwf s → loriePen s = 0 → lorieEraser s = 0 → (room s + 2 ≤ 254)%nat →
  ∃ i j, i ≠ j ∧ dwf (plug i LoriePen s) ∧ dwf (plug j LorieEraser (plug i LoriePen s))
    ∧ lorieSetStylusEnabled e true s
      = Some ((), with_stylus (next s) (next s + 1)
          (set_buttons (plug j LorieEraser (plug i LoriePen s)))).
Proof.
  intros W Hp He Hr. destruct (free_id_exists s) as [i Hi]; [unfold room in Hr; lia|].
  pose proof (dwf_plug i LoriePen s W Hi) as W1.
  pose proof (dw_core _ _ W (or_introl eq_refl)) as Hc.
  set (k := max_buttons (plug i LoriePen s) (pointer s)).
  set (s1 := with_stylus (next s) 0 (recount k (plug i LoriePen s))).
  assert (dwf s1) as Ws1 by (apply dwf_statics, dwf_recount, W1).
  assert (∃ j, free_id s1 = Some j) as [j Hj].
  { apply free_id_exists. pose proof (plug_room i LoriePen s). unfold room in *. simpl in *. lia. }
  assert (dwf (plug j LorieEraser (plug i LoriePen s))) as W2.
  { apply dwf_plug; [done|]. rewrite <-Hj. unfold free_id. f_equal. symmetry. apply used_ids_recount. }
  exists i, j. split.
  { destruct (free_id_Some _ _ Ws1 Hj) as [_ Hne]. specialize (Hne (next s) (stylus s i LoriePen)).
    rewrite <-(proj1 (proj2 (proj2 (proj2 (proj2 (stylus_facts s i LoriePen)))))) at 1. apply Hne.
    unfold s1, with_stylus, recount. simpl mem. rewrite lookup_alter_ne by (simpl; lia). apply lookup_insert_eq. }
  split; [done|]. split; [done|]. unfold lorieSetStylusEnabled. rewrite bind_get, Hp, He. cbn [Z.eqb].
  rewrite (bind_run _ _ s () s1).
  2: { mstep (plug_run e LoriePen s i W Hi). unfold modify. do 2 f_equal. unfold s1, with_stylus, set_buttons.
       fold k. unfold recount. by destruct s; simpl in *; subst. }
  cbv beta. mstep (plug_run e LorieEraser s1 j Ws1 Hj). unfold modify. do 2 f_equal.
  unfold s1. rewrite plug_with_stylus, set_buttons_with_stylus, plug_recount by (simpl; lia).
  rewrite set_buttons_recount by apply (dw_masters _ W2). done.
Qed.

(** A device that can be removed. *)
Definition plugged_in (s : inputs) (a : Z) : Prop :=
  ∃ d, slave_ready s a d ∧ enabled d = true ∧ is_Some (button d).

Lemma remove_plugged e s a :
  dwf s → plugged_in s a →
  RemoveDevice e a s = Some (Success, set_buttons (without a s)) ∧ a ∈ devices s ∧ ¬ core_master s a.
Proof.
  intros W (d & Hr & He & Hb). pose proof Hr as (_ & H & Hm & Hc & _).
  assert (a ∈ devices s) as Hin by (by apply (dw_enabled _ W _ _ H)).
  split; [|done]. rewrite (remove_run e s a d (dw_masters _ W) Hr He Hin).
  - unfold if_buttons. by rewrite bool_decide_true.
  - intros Ho. pose proof (dw_nodup _ W) as Hn. apply NoDup_app in Hn as (_ & Hn & _). by apply (Hn a).
  - by apply (dw_attached _ W a d).
Qed.

Lemma plugged_in_recount n s a : plugged_in s a → plugged_in (recount n s) a.
Proof.
  intros (d & (H1 & H2 & H3 & H4 & H5) & Hd). exists d. split; [|done]. split_and!; try done; try apply H5.
  simpl. rewrite lookup_alter_ne; [done|]. intros E. apply H4. left. done.
Qed.

Lemma stylus_off_run e s p er :
  dwf s → loriePen s = p → lorieEraser s = er → p ≠ er → plugged_in s p → plugged_in s er →
  lorieSetStylusEnabled e false s
    = Some ((), with_stylus 0 0 (set_buttons (without er (without p s)))) ∧ dwf (without er (without p s)).
Proof.
  intros W Hp He Hne Pp Pe. destruct (remove_plugged e s p W Pp) as (E1 & Hin1 & Hc1).
  pose proof (dwf_without p s W Hin1 Hc1) as W1. unfold lorieSetStylusEnabled. rewrite bind_get.
  assert (p ≠ 0 ∧ er ≠ 0) as [Hp0 He0] by (destruct Pp as (? & (? & _) & _), Pe as (? & (? & _) & _); done).
  rewrite Hp, He, (proj2 (Z.eqb_neq _ _) Hp0), (proj2 (Z.eqb_neq _ _) He0).
  set (k := max_buttons (without p s) (pointer s)). set (s1 := with_stylus 0 er (recount k (without p s))).
  rewrite (bind_run _ _ s () s1).
  2: { mstep E1. unfold modify. do 2 f_equal. unfold s1, set_buttons. fold k. unfold with_stylus, recount.
       destruct s; simpl in *. by subst. }
  cbv beta. assert (dwf s1) as Ws1 by (apply dwf_statics, dwf_recount, W1).
  assert (plugged_in (without p s) er) as Pe1.
  { destruct Pe as (d & (H1 & H2 & H3 & H4 & H5) & Hd). exists d. split; [|done]. split_and!; try done; try apply H5.
    simpl. by rewrite lookup_delete_ne. }
  assert (plugged_in s1 er) as Pe2 by (apply (plugged_in_recount k) in Pe1; exact Pe1).
  destruct (remove_plugged e s1 er Ws1 Pe2) as (E2 & Hin2 & Hc2).
  pose proof (dwf_without er (without p s) W1 Hin2 Hc2) as W2.
  mstep E2. unfold modify. split; [|done]. do 2 f_equal. unfold s1.
  rewrite without_with_stylus, set_buttons_with_stylus, without_recount
    by (intros E; apply Hc2; left; exact E).
  rewrite set_buttons_recount by apply (dw_masters _ W2). done.
Qed.

(** Either both devices for a stylus are there, or none. *)
Definition stylus_ok (s : inputs) : Prop :=
  loriePen s = 0 ∧ lorieEraser s = 0
  ∨ loriePen s ≠ lorieEraser s ∧ plugged_in s (loriePen s) ∧ plugged_in s (lorieEraser s).

(** Ids are left for the two devices. *)
Definition has_room (s : inputs) : Prop :=
  (room s + (if (loriePen s =? 0)%Z then 2 else 0) ≤ 254)%nat.

Fixpoint stylus_requests (e : dvenv) (bs : list bool) : M inputs () :=
  match bs with
  | [] => skip
  | b :: bs' => lorieSetStylusEnabled e b ;; stylus_requests e bs'
  end.

Lemma plugged_new s i n s' :
  dwf s → mem s' !! next s = Some (stylus s i n) → pointer s' = pointer s → keyboard s' = keyboard s →
  plugged_in s' (next s).
Proof.
  intros W H Ep Ek. destruct (stylus_facts s i n) as (F1 & F2 & F3 & F4 & _ & F6 & _).
  pose proof (dw_core _ _ W (or_introl eq_refl)). pose proof (dw_next_not_core _ W).
  exists (stylus s i n). split; [|done]. split_and!; try done; [lia|]. unfold core_master in *. by rewrite Ep, Ek.
Qed.

Lemma stylus_on_lookup s i j a :
  dwf s →
  let s' := with_stylus (next s) (next s + 1) (set_buttons (plug j LorieEraser (plug i LoriePen s))) in
  a ≠ pointer s →
  mem s' !! a = if decide (a = next s) then Some (stylus s i LoriePen)
                else if decide (a = next s + 1) then Some (stylus (plug i LoriePen s) j LorieEraser)
                else mem s !! a.
Proof.
  intros W s' Ha. unfold s', with_stylus, set_buttons, recount. simpl mem. simpl pointer.
  rewrite lookup_alter_ne by done. rewrite <-Z.add_1_r. repeat case_decide; subst; try lia.
  - rewrite lookup_insert_ne by lia. apply lookup_insert_eq.
  - apply lookup_insert_eq.
  - by rewrite !lookup_insert_ne by lia.
Qed.

Lemma stylus_on_ok e s :
  dwf s → loriePen s = 0 → lorieEraser s = 0 → (room s + 2 ≤ 254)%nat →
  ∃ s', lorieSetStylusEnabled e true s = Some ((), s') ∧ dwf s' ∧ loriePen s' ≠ 0
    ∧ loriePen s' ≠ lorieEraser s' ∧ plugged_in s' (loriePen s') ∧ plugged_in s' (lorieEraser s')
    ∧ room s' = (room s + 2)%nat.
Proof.
  intros W Hp He Hr. destruct (stylus_on_run e s W Hp He Hr) as (i & j & _ & W1 & W2 & E).
  pose proof (dw_core _ _ W (or_introl eq_refl)) as Hc. eexists. split; [exact E|].
  pose proof (stylus_on_lookup s i j) as Hl. cbv zeta in Hl. set (s' := with_stylus _ _ _) in *.
  split; [apply dwf_statics, dwf_recount, W2|]. simpl loriePen. simpl lorieEraser.
  split; [lia|]. split; [lia|]. split_and!.
  - eapply (plugged_new s i LoriePen s'); try done. rewrite Hl by (done || lia). by rewrite decide_True.
  - eapply (plugged_new (plug i LoriePen s) j LorieEraser s'); try done. simpl next. rewrite <-Z.add_1_r.
    rewrite Hl by (done || lia). rewrite decide_False by lia. by rewrite decide_True.
  - transitivity (room (plug j LorieEraser (plug i LoriePen s))); [done|]. rewrite !plug_room. lia.
Qed.

Lemma stylus_off_ok e s :
  dwf s → loriePen s ≠ lorieEraser s → plugged_in s (loriePen s) → plugged_in s (lorieEraser s) →
  ∃ s', lorieSetStylusEnabled e false s = Some ((), s') ∧ dwf s' ∧ loriePen s' = 0 ∧ lorieEraser s' = 0
    ∧ (room s' + 2 = room s)%nat.
Proof.
  intros W Hne Pp Pe.
  destruct (stylus_off_run e s _ _ W eq_refl eq_refl Hne Pp Pe) as [E W2]. eexists. split; [exact E|].
  split; [apply dwf_statics, dwf_recount, W2|]. split; [done|]. split; [done|].
  destruct (remove_plugged e s _ W Pp) as (_ & Hin1 & _), (remove_plugged e s _ W Pe) as (_ & Hin2 & _).
  pose proof (dw_nodup _ W) as Hnd. apply NoDup_app in Hnd as (Hnd & _).
  unfold room. simpl. rewrite !length_app. set (p := loriePen s) in *. set (er := lorieEraser s) in *.
  assert (∀ (x : Z) (l : list Z), NoDup l → x ∈ l → S (length (filter (λ y, y ≠ x) l)) = length l) as Hlen.
  { intros x l Hl Hx. apply list_elem_of_split in Hx as (l1 & l2 & ->).
    apply NoDup_app in Hl as (_ & H1 & H2). apply NoDup_cons in H2 as [H2 _].
    rewrite filter_app, filter_cons, decide_False by tauto.
    rewrite !filter_out, !length_app; [simpl; lia|done|]. intros Hx. apply (H1 x Hx). by left. }
  pose proof (Hlen p (devices s) Hnd Hin1).
  pose proof (Hlen er (filter (λ y, y ≠ p) (devices s))) as H2. rewrite <-H2 in H; [lia|by apply NoDup_filter|].
  apply list_elem_of_filter. split; congruence.
Qed.

Lemma stylus_request_ok e b s :
  dwf s → stylus_ok s → has_room s →
  ∃ s', lorieSetStylusEnabled e b s = Some ((), s') ∧ dwf s' ∧ stylus_ok s' ∧ has_room s'
    ∧ (loriePen s' ≠ 0 ↔ b = true).
Proof.
  intros W Ok Hr. unfold has_room in *. destruct Ok as [[Hp He]|(Hne & Pp & Pe)].
  - rewrite Hp in Hr. simpl in Hr. destruct b.
    + destruct (stylus_on_ok e s W Hp He Hr) as (s' & E & W' & Hn & Hne & Pp & Pe & Hr').
      exists s'. rewrite (proj2 (Z.eqb_neq _ _) Hn). split_and!; try done; [by right|lia].
    + exists s. unfold lorieSetStylusEnabled. rewrite bind_get, Hp, He. simpl. split_and!; try done. by left.
  - assert (loriePen s ≠ 0 ∧ lorieEraser s ≠ 0) as [Hp0 He0]
      by (destruct Pp as (? & (? & _) & _), Pe as (? & (? & _) & _); done).
    rewrite (proj2 (Z.eqb_neq _ _) Hp0) in Hr. destruct b.
    + exists s. unfold lorieSetStylusEnabled. rewrite bind_get.
      rewrite (proj2 (Z.eqb_neq _ _) Hp0), (proj2 (Z.eqb_neq _ _) He0).
      split_and!; try done. by right.
    + destruct (stylus_off_ok e s W Hne Pp Pe) as (s' & E & W' & Hp' & He' & Hr'). exists s'. rewrite Hp'. simpl.
      split_and!; try done; [by left|lia].
Qed.

(** C25: The devices stay in order: after any sequence of requests for a stylus, the requests having
    returned, every device is in exactly one of the two lists, ids and addresses are unique and in
    range, a device is on exactly when it is in the list of enabled ones and then belongs to a core
    device, and pen and eraser are both there, enabled and usable, or both gone, as the last request
    asked. *)
Theorem stylus_requests_invariant e bs : ∀ s,
  dwf s → stylus_ok s → has_room s →
  ∃ s', stylus_requests e bs s = Some ((), s') ∧ dwf s' ∧ stylus_ok s' ∧ has_room s'
    ∧ (∀ b, last bs = Some b → loriePen s' ≠ 0 ↔ b = true).
Proof.
  induction bs as [|b bs IH]; intros s W Ok Hr; [by exists s|].
  destruct (stylus_request_ok e b s W Ok Hr) as (s1 & E1 & W1 & Ok1 & Hr1 & Hb).
  destruct (IH s1 W1 Ok1 Hr1) as (s' & E & W' & Ok' & Hr' & Hl). exists s'.
  cbn [stylus_requests]. mstep E1. split_and!; try done. intros c. destruct bs as [|b' bs].
  - intros [= <-]. cbn [stylus_requests] in E. unfold skip in E. by injection E as <-.
  - by apply Hl.
Qed.

(** C26: A stylus comes and goes without a trace: enabling the stylus and disabling it again gives
    back the very state from before, lists, ids, counts and the button count of the core pointer
    included, except that addresses were used. *)
Theorem stylus_roundtrip e s :
  dwf s → loriePen s = 0 → lorieEraser s = 0 → (room s + 2 ≤ 254)%nat → buttons_current s →
  (lorieSetStylusEnabled e true ;; lorieSetStylusEnabled e false) s
  = Some ((), s <| next ::= Z.add 2 |>).
Proof.
  intros W Hp He Hr Hb.
  destruct (stylus_on_run e s W Hp He Hr) as (i & j & _ & _ & _ & E).
  destruct (stylus_on_ok e s W Hp He Hr) as (s' & E' & W' & Hn & Hne & Pp & Pe & _).
  rewrite E in E'. injection E' as <-. mstep E.
  destruct (stylus_off_run e _ _ _ W' eq_refl eq_refl Hne Pp Pe) as [-> _]. do 2 f_equal.
  simpl loriePen. simpl lorieEraser. rewrite !without_with_stylus, set_buttons_with_stylus.
  pose proof (dw_core _ _ W (or_introl eq_refl)).
  unfold set_buttons at 2. rewrite !without_recount by (simpl; lia). rewrite without_plug2 by done.
  rewrite set_buttons_recount by (apply (masters_ext s); try done; apply (dw_masters _ W)).
  assert (set_buttons (s <| next ::= Z.add 2 |>) = set_buttons s <| next ::= Z.add 2 |>) as -> by done.
  rewrite Hb. unfold with_stylus. destruct s; simpl in *. by subst.
Qed.

Lemma used_ids_all s l :
  dwf s → NoDup l → (∀ a, a ∈ l → is_Some (mem s !! a)) →
  let u := omap (λ a, id <$> mem s !! a) l in NoDup u ∧ length u = length l.
Proof.
  intros W. induction l as [|a l IH]; intros Hn Hl; [split; [constructor|done]|].
  apply NoDup_cons in Hn as [Ha Hn]. destruct (Hl a ltac:(by left)) as [d Hd].
  destruct IH as [I1 I2]; [done|intros b Hb; apply Hl; by right|]. cbv zeta in *. csimpl. rewrite Hd. csimpl.
  split; [|lia]. constructor; [|done]. rewrite list_elem_of_omap. intros (b & Hb & E).
  apply fmap_Some in E as (f & Hf & E). by rewrite (dw_ids _ W a b d f Hd Hf E) in Ha.
Qed.

Lemma free_id_full s : dwf s → room s = 254%nat → free_id s = None.
Proof.
  intros W Hr. destruct (free_id s) as [i|] eqn:E; [|done]. exfalso.
  destruct (free_id_Some _ _ W E) as [Hi Hf].
  destruct (used_ids_all s _ W (dw_nodup _ W)) as [Hn Hl]; [intros a; apply (dw_dom _ W)|].
  fold (used_ids s) in Hn, Hl. unfold room in Hr. rewrite Hr in Hl.
  assert (i :: used_ids s ⊆+ (Z.of_nat <$> seq 2 254)) as H%submseteq_length.
  { apply NoDup_submseteq.
    - constructor; [|done]. rewrite (used_ids_spec s i W). intros (a & d & Hd & Hid). by apply (Hf a d).
    - assert (∀ j, 2 ≤ j < MAXDEVICES → j ∈ (Z.of_nat <$> seq 2 254)) as Hj.
      { intros j Hj. apply list_elem_of_fmap. exists (Z.to_nat j). unfold MAXDEVICES in Hj.
        rewrite elem_of_seq. lia. }
      intros j [->|Hu]%elem_of_cons; [by apply Hj|].
      apply (used_ids_spec s j W) in Hu as (a & d & Hd & <-). apply Hj. by apply (dw_range _ W a). }
  rewrite length_fmap, length_seq in H. simpl in H. lia.
Qed.

(** Too many devices: when the server has 254 devices, so that no id is left, [AddInputDevice] answers a null pointer, which
    [lorieSetStylusEnabled] uses. *)
Theorem stylus_ids_exhausted e s :
  dwf s → loriePen s = 0 → room s = 254%nat → lorieSetStylusEnabled e true s = None.
Proof.
  intros W Hp Hi%free_id_full; [|done]. unfold lorieSetStylusEnabled. rewrite bind_get, Hp. cbn [Z.eqb].
  assert (mem s !! 0 = None) as H0.
  { apply eq_None_not_Some. intros Hs. pose proof (dw_addr _ W _ Hs). lia. }
  assert (plug_stylus e LoriePen s = None) as E.
  { assert (AddInputDevice StylusProc s = Some (0, s)) as E1 by (unfold AddInputDevice; by rewrite bind_get, Hi).
    unfold plug_stylus. mstep E1. unfold AssignTypeAndName, upd, deref, mbind, M_bind. simpl. by rewrite H0. }
  unfold mbind, M_bind. by rewrite E.
Qed.

(** ** Start of the driver *)

Definition drivers (s : inputs) : Z * Z * Z := (lorieMouse s, lorieTouch s, lorieKeyboard s).

(** A step that changes one device, adds it or moves it, and may recount buttons. *)
Record frame (s s' : inputs) (a : Z) : Prop := mk_frame {
  fr_wf : dwf s';
  fr_rest : ∀ b, b ≠ a → b ≠ pointer s → mem s' !! b = mem s !! b;
  fr_pointer : pointer s' = pointer s;
  fr_keyboard : keyboard s' = keyboard s;
  fr_pen : loriePen s' = loriePen s;
  fr_eraser : lorieEraser s' = lorieEraser s;
  fr_drivers : drivers s' = drivers s
}.

Definition added_device (p : procname) (i : Z) (s : inputs) : inputs :=
  s <| mem ::= <[next s := new_device i p]> |> <| off_devices ::= λ l, l ++ [next s] |>
    <| numDevices ::= Z.succ |> <| next ::= Z.succ |>.

Lemma added_wf p s i : dwf s → free_id s = Some i → dwf (added_device p i s).
Proof.
  intros W Hi. destruct (free_id_Some _ _ W Hi) as [Hri Hf].
  pose proof (dw_next_fresh _ W) as Hfr. pose proof (dw_next_unlisted _ W) as Hun.
  pose proof (dw_core _ _ W (or_introl eq_refl)). pose proof (dw_core _ _ W (or_intror eq_refl)).
  destruct W as [W1 W2 W3 W4 W5 W6 W7 W8]. split; simpl.
  - apply (masters_ext s); try done; simpl; rewrite lookup_insert_ne by lia; done.
  - rewrite app_assoc. rewrite <-Permutation_cons_append. by constructor.
  - intros a. rewrite lookup_insert_is_Some'. rewrite app_assoc, elem_of_app, W3, list_elem_of_singleton.
    split; [intros [H1|H1]|intros [H1|H1]]; auto.
  - intros a. rewrite lookup_insert_is_Some'. intros [<-|Ha]; [lia|]. specialize (W4 _ Ha). lia.
  - intros a b d f [[<- <-]|[Ha Hd]]%lookup_insert_Some [[<- <-]|[Hb Hf']]%lookup_insert_Some; simpl.
    + done.
    + intros E. by destruct (Hf _ _ Hf').
    + intros E. by destruct (Hf _ _ Hd).
    + by apply W5.
  - intros a d [[<- <-]|[Ha Hd]]%lookup_insert_Some; [done|by apply (W6 a)].
  - intros a d [[<- <-]|[Ha Hd]]%lookup_insert_Some; [|by apply W7]. simpl. split; [done|].
    intros Hin. destruct Hun. apply elem_of_app. by left.
  - intros a d [[<- <-]|[Ha Hd]]%lookup_insert_Some; [done|by apply (W8 a)].
Qed.

Lemma add_step p s :
  dwf s → (room s < 254)%nat →
  ∃ i, AddInputDevice p s = Some (next s, added_device p i s) ∧ dwf (added_device p i s).
Proof.
  intros W Hr. destruct (free_id_exists s Hr) as [i Hi]. exists i. split; [|by apply added_wf].
  unfold AddInputDevice. by rewrite bind_get, Hi.
Qed.

(** A device that is changed but keeps its place. *)
Lemma update_step s a d d' :
  dwf s → mem s !! a = Some d → IsMaster d = false → IsMaster d' = false →
  id d' = id d → enabled d' = enabled d → (enabled d' = true → core_master s (master d')) →
  frame s (s <| mem ::= <[a := d']> |>) a.
Proof.
  intros W Hd Hm Hm' Hi He Hcm.
  assert (a ≠ pointer s ∧ a ≠ keyboard s) as [Hp Hk].
  { destruct (mo_pointer _ (dw_masters _ W)) as (p & Ep & Tp & _), (mo_keyboard _ (dw_masters _ W)) as (k & Ek & Tk & _).
    split; intros ->; unfold IsMaster in Hm; [rewrite Ep in Hd|rewrite Ek in Hd]; injection Hd as ->;
      by rewrite ?Tp, ?Tk in Hm. }
  destruct W as [W1 W2 W3 W4 W5 W6 W7 W8]. split; simpl; try done.
  2: { intros b Hb _. by rewrite lookup_insert_ne. }
  split; simpl; try done.
  - apply (masters_ext s); try done; simpl; rewrite lookup_insert_ne by done; done.
  - intros b. rewrite lookup_insert_is_Some', W3. split; [by right|]. intros [<-|Hb]; [by eexists|done].
  - intros b. rewrite lookup_insert_is_Some'. intros [<-|Hb]; apply W4; [by eexists|done].
  - intros b c x y [[<- <-]|[Hb Hx]]%lookup_insert_Some [[<- <-]|[Hc Hy]]%lookup_insert_Some.
    + done.
    + rewrite Hi. by apply W5.
    + rewrite Hi. by apply W5.
    + by apply W5.
  - intros b x [[<- <-]|[Hb Hx]]%lookup_insert_Some; [rewrite Hi; by apply (W6 a)|by apply (W6 b)].
  - intros b x [[<- <-]|[Hb Hx]]%lookup_insert_Some; [rewrite He; by apply W7|by apply W7].
  - intros b x [[<- <-]|[Hb Hx]]%lookup_insert_Some; [auto|by apply (W8 b)].
Qed.

Lemma enable_step e s a d :
  dwf s → slave_ready s a d → sprite d = 0 → master d = 0 → enabled d = false → a ∈ off_devices s →
  let m := if IsPointerDevice d then pointer s else keyboard s in
  ∃ md s', mem s !! m = Some md ∧ EnableDevice e a s = Some (true, s')
    ∧ mem s' !! a = Some (enabled_device m md d) ∧ frame s s' a
    ∧ devices s' = devices s ++ [a] ∧ off_devices s' = filter (λ x, x ≠ a) (off_devices s)
    ∧ next s' = next s.
Proof.
  intros W Hr Hs Hm0 He Hoff m. pose proof Hr as (Ha0 & Hd & Hm & Hc & _).
  assert (core_master s m) as Hcm by (unfold m, core_master; destruct (IsPointerDevice d); auto).
  destruct (core_master_run _ _ (dw_masters _ W) Hcm) as (_ & md & Hmd & _). exists md. eexists. split; [done|].
  split; [by apply (enable_run e s a d md (dw_masters _ W) Hr Hs Hm0 Hoff Hmd)|].
  set (s1 := set_field devices _ _).
  assert (a ≠ pointer s) as Hap by (intros ->; apply Hc; by left).
  assert (dwf s1) as W1.
  { pose proof (dw_nodup _ W) as Hnd. apply NoDup_app in Hnd as (N1 & N2 & N3).
    assert (a ∉ devices s) as Hnin by (intros Hin; by apply (N2 a)).
    assert (∀ b, b ∈ devices s1 ++ off_devices s1 ↔ b ∈ devices s ++ off_devices s) as Hin.
    { intros b. simpl. rewrite !elem_of_app, list_elem_of_singleton, list_elem_of_filter.
      destruct (decide (b = a)) as [->|]; tauto. }
    destruct W as [M1 M2 M3 M4 M5 M6 M7 M8]. split.
    - apply (masters_ext s); try done; simpl; rewrite lookup_insert_ne by (intros E; apply Hc; rewrite E; unfold core_master; auto); done.
    - simpl. apply NoDup_app. split_and!; [|..|by apply NoDup_filter].
      + apply NoDup_app. split_and!; [done| |apply NoDup_singleton]. intros x Hx ->%list_elem_of_singleton. done.
      + intros x [Hx| ->%list_elem_of_singleton]%elem_of_app [Hx1 Hx2]%list_elem_of_filter; [|tauto]. by apply (N2 x).
    - intros b. rewrite Hin, M3. simpl. rewrite lookup_insert_is_Some'. split; [by right|].
      intros [<-|Hb]; [by eexists|done].
    - intros b. simpl. rewrite lookup_insert_is_Some'. intros [<-|Hb]; apply M4; [by eexists|done].
    - intros b c x y. simpl. intros [[<- <-]|[Hb Hx]]%lookup_insert_Some [[<- <-]|[Hc' Hy]]%lookup_insert_Some;
        [done|exact (M5 a c d y Hd Hy)|exact (M5 b a x d Hx Hd)|by apply M5].
    - intros b x. simpl. intros [[<- <-]|[Hb Hx]]%lookup_insert_Some; [exact (M6 a d Hd)|by apply (M6 b)].
    - intros b x. simpl. intros [[<- <-]|[Hb Hx]]%lookup_insert_Some; simpl.
      + split; [|done]. intros _. apply elem_of_app. right. by apply list_elem_of_singleton.
      + rewrite (M7 _ _ Hx), elem_of_app, list_elem_of_singleton. split; [by left|]. by intros [H1| ->].
    - intros b x. simpl. intros [[<- <-]|[Hb Hx]]%lookup_insert_Some; [intros _ _; exact Hcm|by apply (M8 b)]. }
  assert (∀ b, b ≠ pointer s → mem (if_buttons d s1) !! b = mem s1 !! b) as Hl.
  { intros b Hb. unfold if_buttons. case_bool_decide; [|done]. unfold set_buttons, recount. simpl.
    by rewrite lookup_alter_ne. }
  split_and!.
  - rewrite Hl by done. simpl. apply lookup_insert_eq.
  - split; try (unfold if_buttons; by case_bool_decide).
    + unfold if_buttons. case_bool_decide; [by apply dwf_recount|done].
    + intros b Hb Hbp. rewrite Hl by done. simpl. by rewrite lookup_insert_ne.
  - unfold if_buttons. by case_bool_decide.
  - unfold if_buttons. by case_bool_decide.
  - unfold if_buttons. by case_bool_decide.
Qed.

(** A device of the driver after its set-up. *)
Definition prepared (e : dvenv) (p : procname) (n : devname) (i : Z) : device :=
  snd (run_proc e DEVICE_INIT (new_device i p <| name := n |>)) <| inited := true |>.

Definition own_proc (p : procname) : Prop := p = MouseProc ∨ p = TouchProc ∨ p = KeybdProc.

Lemma prepared_run e p n i :
  own_proc p →
  run_proc e DEVICE_INIT (new_device i p <| name := n |>)
  = (Success, snd (run_proc e DEVICE_INIT (new_device i p <| name := n |>))).
Proof. intros [->|[->| ->]]; vm_compute; done. Qed.

Lemma prepared_facts e p n i :
  own_proc p →
  IsMaster (prepared e p n i) = false ∧ deviceProc (prepared e p n i) = p
  ∧ inited (prepared e p n i) = true ∧ sprite (prepared e p n i) = 0 ∧ master (prepared e p n i) = 0
  ∧ IsPointerDevice (prepared e p n i) = negb (bool_decide (p = KeybdProc))
  ∧ id (prepared e p n i) = i ∧ enabled (prepared e p n i) = false.
Proof. intros [->|[->| ->]]; destruct e as [[]]; vm_compute; done. Qed.

Lemma own_not_core p : own_proc p → p ≠ CoreProc.
Proof. by intros [->|[->| ->]]. Qed.

Lemma assign_step n s a i p :
  dwf s → mem s !! a = Some (new_device i p) →
  let s' := s <| mem ::= <[a := new_device i p <| name := n |>]> |> in
  AssignTypeAndName a n s = Some ((), s') ∧ frame s s' a.
Proof.
  intros W H s'. split; [exact (dev_upd_run _ _ (λ d, d <| name := n |>) _ H)|]. by apply (update_step s a _ _ W H).
Qed.

Lemma activate_step e s a p n i :
  own_proc p → dwf s → mem s !! a = Some (new_device i p <| name := n |>) →
  let s' := s <| mem ::= <[a := prepared e p n i]> |> in
  ActivateDevice e a s = Some (Success, s') ∧ frame s s' a.
Proof.
  intros Hp W H s'. destruct (prepared_facts e p n i Hp) as (F1 & _ & _ & _ & _ & _ & F7 & F8).
  split; [|by apply (update_step s a _ _ W H); try done; rewrite F8].
  assert (a ≠ 0) as Ha0 by (intros ->; pose proof (dw_addr _ W 0 (ltac:(by eexists))); lia).
  exact (activate_run _ _ _ _ _ Ha0 H (prepared_run e p n i Hp)).
Qed.

Lemma attach_step s a d m :
  dwf s → mem s !! a = Some d → IsMaster d = false → enabled d = true → core_master s m →
  ∃ md, let s' := s <| mem ::= <[a := attach_to m md d]> |> in
    AttachDevice a m s = Some (Success, s') ∧ frame s s' a.
Proof.
  intros W H Hm He Hcm. destruct (core_master_run _ _ (dw_masters _ W) Hcm) as (Hz & md & Hmd & Him & _).
  exists md. intros s'.
  assert (a ≠ 0) as Ha0 by (intros ->; pose proof (dw_addr _ W 0 (ltac:(by eexists))); lia).
  split; [|by apply (update_step s a d _ W H)].
  apply (attach_run a d m md s false); try done.
  - intros ->. congruence.
  - apply (attached_not_floating a d s (dw_masters _ W) H Hm). by apply (dw_attached _ W a).
Qed.

(** What a device can do once it is set up: the mouse has ten buttons, mapped to themselves, and
    scrolls on its axes 2 and 3; the touch screen takes twenty touches on two axes of 16 bits, its
    only button mapped to nothing; the keyboard has keys when its keymap compiles. *)
Definition fits (e : dvenv) (p : procname) (d : device) : Prop :=
  match p with
  | MouseProc => ∃ bt v, button d = Some bt ∧ numButtons bt = 10 ∧ take 11 (map bt) = Z.of_nat <$> seq 0 11
      ∧ valuator d = Some v ∧ length (axes v) = 4%nat ∧ h_scroll_axis v = 2 ∧ v_scroll_axis v = 3
      ∧ (scroll <$> axes v) = [SCROLL_TYPE_NONE; SCROLL_TYPE_NONE; SCROLL_TYPE_HORIZONTAL; SCROLL_TYPE_VERTICAL]
      ∧ touch d = None ∧ key d = false
  | TouchProc => ∃ bt v, button d = Some bt ∧ numButtons bt = 1 ∧ map bt !! 1%nat = Some 0
      ∧ valuator d = Some v ∧ ((λ x, (min_value x, max_value x)) <$> axes v) = [(0, 65535); (0, 65535)]
      ∧ touch d = Some (mk_touchclass 20 2) ∧ key d = false
  | KeybdProc => key d = keymap_ok e ∧ button d = None ∧ valuator d = None ∧ touch d = None
  | _ => False
  end.

(** The device is enabled, on, and belongs to a core device. *)
Definition up (e : dvenv) (s : inputs) (a : Z) (p : procname) (n : devname) (m : Z) : Prop :=
  ∃ d, mem s !! a = Some d ∧ name d = n ∧ enabled d = true ∧ on d = true ∧ master d = m ∧ fits e p d.

(** Enabling a device that is set up, and attaching it. *)
Definition attached (m : Z) (md md' : device) (d : device) : device :=
  attach_to m md' (enabled_device m md d).

Lemma prepared_fits e p n i :
  own_proc p → fits e p (prepared e p n i) ∧ name (prepared e p n i) = n.
Proof.
  intros [->|[->| ->]]; destruct e as [[]]; (split; [|reflexivity]).
  1-4: eexists; eexists; (split; [reflexivity|]); repeat (split; [reflexivity|]); reflexivity.
  all: repeat (split; [reflexivity|]); reflexivity.
Qed.

Lemma attached_up e s a p n i m md md' :
  own_proc p → mem s !! a = Some (attached m md md' (prepared e p n i)) → up e s a p n m.
Proof.
  intros Hp H. destruct (prepared_fits e p n i Hp) as [F1 F2].
  exists (attached m md md' (prepared e p n i)). split_and!; try done.
Qed.

Lemma up_keep e s s' a p n m : up e s a p n m → mem s' !! a = mem s !! a → up e s' a p n m.
Proof. intros (d & H1 & H2) E. exists d. by rewrite E. Qed.

(** The three devices are added and named. *)
Lemma frame_lookup s s' a b (d : device) :
  frame s s' a → b ≠ a → b ≠ pointer s → mem s !! b = Some d → mem s' !! b = Some d.
Proof. intros F Ha Hp H. by rewrite (fr_rest _ _ _ F). Qed.

Lemma dwf_pick f s : 
  (∀ s, mem (f s) = mem s ∧ devices (f s) = devices s ∧ off_devices (f s) = off_devices s
     ∧ pointer (f s) = pointer s ∧ keyboard (f s) = keyboard s ∧ next (f s) = next s) →
  dwf s → dwf (f s).
Proof.
  intros Hf [W1 W2 W3 W4 W5 W6 W7 W8]. destruct (Hf s) as (E1 & E2 & E3 & E4 & E5 & E6).
  split; unfold core_master; rewrite ?E1, ?E2, ?E3, ?E4, ?E5, ?E6; try done.
  apply (masters_ext s); rewrite ?E1; done.
Qed.

Section init.
Context (e : dvenv) (s : inputs) (W : dwf s).
Let a := next s.
Let b := next s + 1.
Let c := next s + 2.

Lemma fresh_addresses :
  a ≠ pointer s ∧ b ≠ pointer s ∧ c ≠ pointer s ∧ a ≠ keyboard s ∧ b ≠ keyboard s ∧ c ≠ keyboard s
  ∧ a ≠ 0 ∧ b ≠ 0 ∧ c ≠ 0.
Proof.
  pose proof (dw_core _ _ W (or_introl eq_refl)). pose proof (dw_core _ _ W (or_intror eq_refl)).
  unfold a, b, c. lia.
Qed.

(** What the steps of [InitInput] keep. *)
Record added (s' : inputs) (da db dc : device) : Prop := mk_added {
  ad_wf : dwf s';
  ad_core : pointer s' = pointer s ∧ keyboard s' = keyboard s;
  ad_a : mem s' !! a = Some da; ad_b : mem s' !! b = Some db; ad_c : mem s' !! c = Some dc;
  ad_stylus : loriePen s' = loriePen s ∧ lorieEraser s' = lorieEraser s;
  ad_drivers : drivers s' = (a, b, c);
  ad_rest : ∀ x, x < a → x ≠ pointer s → mem s' !! x = mem s !! x
}.

Lemma added_frame s1 s2 x da db dc da' db' dc' :
  added s1 da db dc → frame s1 s2 x → x = a ∨ x = b ∨ x = c →
  (if decide (x = a) then mem s2 !! a = Some da' else da' = da) →
  (if decide (x = b) then mem s2 !! b = Some db' else db' = db) →
  (if decide (x = c) then mem s2 !! c = Some dc' else dc' = dc) →
  added s2 da' db' dc'.
Proof.
  intros [A1 [A2 A2'] A3 A4 A5 [A6 A6'] A7 A10] F Hcase Ha Hb Hc.
  destruct fresh_addresses as (N1 & N2 & N3 & _).
  assert (∀ y dy dy', y ≠ pointer s → mem s1 !! y = Some dy →
    (if decide (x = y) then mem s2 !! y = Some dy' else dy' = dy) → mem s2 !! y = Some dy') as Hl.
  { intros y dy dy' Hy H. destruct (decide (x = y)) as [->|Hxy]; [done|]. intros ->.
    apply (frame_lookup s1 s2 x); try done; congruence. }
  destruct F as [F1 F2 F3 F4 F5 F6 F7].
  split; [done|split; congruence|exact (Hl _ _ _ N1 A3 Ha)|exact (Hl _ _ _ N2 A4 Hb)|exact (Hl _ _ _ N3 A5 Hc)
    |split; congruence|congruence|].
  intros y Hy Hyp. rewrite F2; [by apply A10| |congruence]. unfold a, b, c in *. lia.
Qed.

Ltac which := first [rewrite decide_True by (unfold a, b, c; lia) | rewrite decide_False by (unfold a, b, c; lia)].

Lemma added_a s1 s2 da db dc d :
  added s1 da db dc → frame s1 s2 a → mem s2 !! a = Some d → added s2 d db dc.
Proof. intros A F H. eapply (added_frame s1 s2 a _ _ _ _ _ _ A F); [auto|which; done..]. Qed.

Lemma added_b s1 s2 da db dc d :
  added s1 da db dc → frame s1 s2 b → mem s2 !! b = Some d → added s2 da d dc.
Proof. intros A F H. eapply (added_frame s1 s2 b _ _ _ _ _ _ A F); [auto|which; done..]. Qed.

Lemma added_c s1 s2 da db dc d :
  added s1 da db dc → frame s1 s2 c → mem s2 !! c = Some d → added s2 da db d.
Proof. intros A F H. eapply (added_frame s1 s2 c _ _ _ _ _ _ A F); [auto|which; done..]. Qed.

Definition lists (s' : inputs) (on_ off : list Z) : Prop :=
  devices s' = devices s ++ on_ ∧ off_devices s' = off_devices s ++ off ∧ next s' = next s + 3.

Lemma add_phase :
  (room s + 3 ≤ 254)%nat →
  ∃ i j k s3,
    added s3 (new_device i MouseProc) (new_device j TouchProc) (new_device k KeybdProc)
    ∧ lists s3 [] [a; b; c]
    ∧ ∀ B (f : Z → Z → Z → M inputs B),
      (m ← AddInputDevice MouseProc; modify (λ s, s <| lorieMouse := m |>) ;;
       t ← AddInputDevice TouchProc; modify (λ s, s <| lorieTouch := t |>) ;;
       k ← AddInputDevice KeybdProc; modify (λ s, s <| lorieKeyboard := k |>) ;; f m t k) s
      = f a b c s3.
Proof.
  intros Hroom. destruct fresh_addresses as (N1 & N2 & N3 & _). unfold a, b, c in *.
  destruct (add_step MouseProc s W) as (i & E1 & W1); [unfold room in *; lia|].
  set (s1 := added_device MouseProc i s <| lorieMouse := next s |>).
  assert (dwf s1) as W1' by (by apply (dwf_pick (λ x, x <| lorieMouse := next s |>))).
  assert (room s1 = S (room s)) as R1 by (unfold room; simpl; rewrite !length_app; simpl; lia).
  assert (next s1 = next s + 1) as En1 by (simpl; lia).
  destruct (add_step TouchProc s1 W1') as (j & E2 & W2); [lia|]. rewrite En1 in E2.
  set (s2 := added_device TouchProc j s1 <| lorieTouch := next s + 1 |>).
  assert (dwf s2) as W2' by (by apply (dwf_pick (λ x, x <| lorieTouch := next s + 1 |>))).
  assert (room s2 = S (room s1)) as R2 by (unfold room; simpl; rewrite !length_app; simpl; lia).
  assert (next s2 = next s + 2) as En2 by (simpl; lia).
  destruct (add_step KeybdProc s2 W2') as (k & E3 & W3); [lia|]. rewrite En2 in E3.
  set (s3 := added_device KeybdProc k s2 <| lorieKeyboard := next s + 2 |>).
  assert (dwf s3) as W3' by (by apply (dwf_pick (λ x, x <| lorieKeyboard := next s + 2 |>))).
  exists i, j, k, s3. split; [|split].
  - assert (mem s3 = <[next s + 2 := new_device k KeybdProc]> (<[next s + 1 := new_device j TouchProc]>
      (<[next s := new_device i MouseProc]> (mem s)))) as Em
      by (rewrite <-En2, <-En1; done).
    split; rewrite ?Em; try done.
    + rewrite !lookup_insert_ne by lia. apply lookup_insert_eq.
    + rewrite lookup_insert_ne by lia. apply lookup_insert_eq.
    + apply lookup_insert_eq.
    + intros x Hx _. by rewrite !lookup_insert_ne by (unfold a in Hx; lia).
  - unfold lists. split_and!.
    + simpl. by rewrite app_nil_r.
    + assert (off_devices s3 = ((off_devices s ++ [next s]) ++ [next s1]) ++ [next s2]) as -> by done.
      rewrite En1, En2, <-!app_assoc. done.
    + simpl. lia.
  - intros B f. mstep E1. rewrite bind_modify. fold s1. mstep E2. rewrite bind_modify. fold s2. mstep E3.
    rewrite bind_modify. done.
Qed.

Notation named p n i := (new_device i p <| name := n |>).

Lemma name_phase s1 i j k :
  added s1 (new_device i MouseProc) (new_device j TouchProc) (new_device k KeybdProc) → lists s1 [] [a; b; c] →
  ∃ s2, added s2 (named MouseProc LorieMouse i) (named TouchProc LorieTouch j) (named KeybdProc LorieKeyboard k)
    ∧ lists s2 [] [a; b; c]
    ∧ ∀ B (f : M inputs B),
      (AssignTypeAndName a LorieMouse ;; AssignTypeAndName b LorieTouch ;; AssignTypeAndName c LorieKeyboard ;; f) s1
      = f s2.
Proof.
  intros A1 L1.
  destruct (assign_step LorieMouse s1 a i MouseProc (ad_wf _ _ _ _ A1) (ad_a _ _ _ _ A1)) as [E1 F1].
  pose proof (added_a _ _ _ _ _ _ A1 F1 (lookup_insert_eq _ _ _)) as A2.
  destruct (assign_step LorieTouch _ b j TouchProc (ad_wf _ _ _ _ A2) (ad_b _ _ _ _ A2)) as [E2 F2].
  pose proof (added_b _ _ _ _ _ _ A2 F2 (lookup_insert_eq _ _ _)) as A3.
  destruct (assign_step LorieKeyboard _ c k KeybdProc (ad_wf _ _ _ _ A3) (ad_c _ _ _ _ A3)) as [E3 F3].
  pose proof (added_c _ _ _ _ _ _ A3 F3 (lookup_insert_eq _ _ _)) as A4.
  eexists. split; [exact A4|]. split; [exact L1|]. intros B f. mstep E1. mstep E2. by mstep E3.
Qed.

Lemma activate_phase s1 i j k :
  added s1 (named MouseProc LorieMouse i) (named TouchProc LorieTouch j) (named KeybdProc LorieKeyboard k) →
  lists s1 [] [a; b; c] →
  ∃ s2, added s2 (prepared e MouseProc LorieMouse i) (prepared e TouchProc LorieTouch j)
      (prepared e KeybdProc LorieKeyboard k)
    ∧ lists s2 [] [a; b; c]
    ∧ ∀ B (f : M inputs B),
      (_ ← ActivateDevice e a; _ ← ActivateDevice e b; _ ← ActivateDevice e c; f) s1 = f s2.
Proof.
  intros A1 L1.
  destruct (activate_step e s1 a MouseProc LorieMouse i ltac:(by left) (ad_wf _ _ _ _ A1) (ad_a _ _ _ _ A1)) as [E1 F1].
  pose proof (added_a _ _ _ _ _ _ A1 F1 (lookup_insert_eq _ _ _)) as A2.
  destruct (activate_step e _ b TouchProc LorieTouch j ltac:(by right; left) (ad_wf _ _ _ _ A2) (ad_b _ _ _ _ A2)) as [E2 F2].
  pose proof (added_b _ _ _ _ _ _ A2 F2 (lookup_insert_eq _ _ _)) as A3.
  destruct (activate_step e _ c KeybdProc LorieKeyboard k ltac:(by right; right) (ad_wf _ _ _ _ A3) (ad_c _ _ _ _ A3)) as [E3 F3].
  pose proof (added_c _ _ _ _ _ _ A3 F3 (lookup_insert_eq _ _ _)) as A4.
  eexists. split; [exact A4|]. split; [exact L1|]. intros B f. mstep E1. mstep E2. by mstep E3.
Qed.

(** The core device a device of the driver belongs to. *)
Definition home (p : procname) : Z := if bool_decide (p = KeybdProc) then keyboard s else pointer s.

Lemma enable_own s1 x p n i :
  own_proc p → dwf s1 → pointer s1 = pointer s → keyboard s1 = keyboard s → x ≠ pointer s → x ≠ keyboard s →
  mem s1 !! x = Some (prepared e p n i) → x ∈ off_devices s1 →
  ∃ md s2, EnableDevice e x s1 = Some (true, s2)
    ∧ mem s2 !! x = Some (enabled_device (home p) md (prepared e p n i)) ∧ frame s1 s2 x
    ∧ devices s2 = devices s1 ++ [x] ∧ off_devices s2 = filter (λ y, y ≠ x) (off_devices s1)
    ∧ next s2 = next s1.
Proof.
  intros Hp W1 Ep Ek Hx1 Hx2 H Hoff.
  destruct (prepared_facts e p n i Hp) as (F1 & F2 & F3 & F4 & F5 & F6 & F7 & F8).
  assert (x ≠ 0) as Hx0 by (intros ->; pose proof (dw_addr _ W1 0 (ltac:(by eexists))); lia).
  assert (slave_ready s1 x (prepared e p n i)) as Hr.
  { split_and!; try done; [|rewrite F2; by apply own_not_core]. unfold core_master. rewrite Ep, Ek. tauto. }
  destruct (enable_step e s1 x _ W1 Hr F4 F5 F8 Hoff) as (md & s2 & _ & E & Hm & F & L1 & L2 & L3).
  exists md, s2. split_and!; try done. rewrite Hm, F6, Ep, Ek. unfold home. by destruct (bool_decide _).
Qed.

Lemma fresh_lists :
  a ∉ off_devices s ∧ b ∉ off_devices s ∧ c ∉ off_devices s.
Proof.
  assert (∀ x, x ∈ off_devices s → x < next s) as H.
  { intros x Hx. apply (dw_addr _ W). apply (dw_dom _ W). apply elem_of_app. by right. }
  unfold a, b, c. split_and!; intros Hx%H; lia.
Qed.

Lemma lists_enable s1 s2 x on_ off :
  lists s1 on_ (x :: off) → x ∉ off_devices s → x ∉ off →
  devices s2 = devices s1 ++ [x] → off_devices s2 = filter (λ y, y ≠ x) (off_devices s1) → next s2 = next s1 →
  lists s2 (on_ ++ [x]) off.
Proof.
  intros (L1 & L2 & L3) N1 N2 E1 E2 E3. unfold lists. rewrite E1, E2, E3, L1, L2, app_assoc.
  rewrite filter_app, filter_cons, decide_False by tauto. by rewrite !filter_out.
Qed.

Lemma enable_phase s1 i j k :
  added s1 (prepared e MouseProc LorieMouse i) (prepared e TouchProc LorieTouch j)
    (prepared e KeybdProc LorieKeyboard k) → lists s1 [] [a; b; c] →
  ∃ ma mb mc s2,
    added s2 (enabled_device (pointer s) ma (prepared e MouseProc LorieMouse i))
      (enabled_device (pointer s) mb (prepared e TouchProc LorieTouch j))
      (enabled_device (keyboard s) mc (prepared e KeybdProc LorieKeyboard k))
    ∧ lists s2 [a; b; c] []
    ∧ ∀ B (f : M inputs B),
      (_ ← EnableDevice e a; _ ← EnableDevice e b; _ ← EnableDevice e c; f) s1 = f s2.
Proof.
  destruct fresh_addresses as (P1 & P2 & P3 & K1 & K2 & K3 & _), fresh_lists as (N1 & N2 & N3).
  assert (a ∉ [b; c] ∧ b ∉ [c]) as [Na Nb]
    by (unfold a, b, c; rewrite !not_elem_of_cons; split_and!; (lia || apply not_elem_of_nil)).
  intros A1 L1.
  destruct (enable_own s1 a MouseProc LorieMouse i ltac:(by left) (ad_wf _ _ _ _ A1) (proj1 (ad_core _ _ _ _ A1))
    (proj2 (ad_core _ _ _ _ A1)) P1 K1 (ad_a _ _ _ _ A1)) as (ma & s2 & E1 & H1 & F1 & D1 & D2 & D3).
  { rewrite (proj1 (proj2 L1)). set_solver. }
  pose proof (added_a _ _ _ _ _ _ A1 F1 H1) as A2.
  pose proof (lists_enable s1 s2 a [] [b; c] L1 N1 Na D1 D2 D3) as L2.
  destruct (enable_own s2 b TouchProc LorieTouch j ltac:(by right; left) (ad_wf _ _ _ _ A2) (proj1 (ad_core _ _ _ _ A2))
    (proj2 (ad_core _ _ _ _ A2)) P2 K2 (ad_b _ _ _ _ A2)) as (mb & s3 & E2 & H2 & F2 & D4 & D5 & D6).
  { rewrite (proj1 (proj2 L2)). set_solver. }
  pose proof (added_b _ _ _ _ _ _ A2 F2 H2) as A3.
  pose proof (lists_enable s2 s3 b [a] [c] L2 N2 Nb D4 D5 D6) as L3.
  destruct (enable_own s3 c KeybdProc LorieKeyboard k ltac:(by right; right) (ad_wf _ _ _ _ A3) (proj1 (ad_core _ _ _ _ A3))
    (proj2 (ad_core _ _ _ _ A3)) P3 K3 (ad_c _ _ _ _ A3)) as (mc & s4 & E3 & H3 & F3 & D7 & D8 & D9).
  { rewrite (proj1 (proj2 L3)). set_solver. }
  exists ma, mb, mc, s4. split; [exact (added_c _ _ _ _ _ _ A3 F3 H3)|].
  split; [apply (lists_enable s3 s4 c [a; b] [] L3 N3); [set_solver|done..]|].
  intros B f. mstep E1. mstep E2. by mstep E3.
Qed.

Lemma attach_phase s1 da db dc ma mb mc :
  added s1 (enabled_device (pointer s) ma da) (enabled_device (pointer s) mb db) (enabled_device (keyboard s) mc dc) →
  IsMaster da = false → IsMaster db = false → IsMaster dc = false → lists s1 [a; b; c] [] →
  ∃ ma' mb' mc' s2,
    added s2 (attached (pointer s) ma ma' da) (attached (pointer s) mb mb' db) (attached (keyboard s) mc mc' dc)
    ∧ lists s2 [a; b; c] []
    ∧ ∀ B (f : M inputs B),
      (_ ← AttachDevice a (pointer s); _ ← AttachDevice b (pointer s); _ ← AttachDevice c (keyboard s); f) s1 = f s2.
Proof.
  intros A1 Ma Mb Mc L1.
  destruct (attach_step s1 a _ (pointer s) (ad_wf _ _ _ _ A1) (ad_a _ _ _ _ A1) Ma eq_refl) as (ma' & E1 & F1).
  { left. symmetry. apply (ad_core _ _ _ _ A1). }
  pose proof (added_a _ _ _ _ _ _ A1 F1 (lookup_insert_eq _ _ _)) as A2.
  destruct (attach_step _ b _ (pointer s) (ad_wf _ _ _ _ A2) (ad_b _ _ _ _ A2) Mb eq_refl) as (mb' & E2 & F2).
  { left. symmetry. apply (ad_core _ _ _ _ A2). }
  pose proof (added_b _ _ _ _ _ _ A2 F2 (lookup_insert_eq _ _ _)) as A3.
  destruct (attach_step _ c _ (keyboard s) (ad_wf _ _ _ _ A3) (ad_c _ _ _ _ A3) Mc eq_refl) as (mc' & E3 & F3).
  { right. symmetry. apply (ad_core _ _ _ _ A3). }
  pose proof (added_c _ _ _ _ _ _ A3 F3 (lookup_insert_eq _ _ _)) as A4.
  exists ma', mb', mc'. eexists. split; [exact A4|]. split; [exact L1|]. intros B f. mstep E1. mstep E2. by mstep E3.
Qed.
End init.

(** Enabling a stylus leaves other devices alone. *)
Lemma stylus_on_rest e s s' :
  dwf s → loriePen s = 0 → lorieEraser s = 0 → (room s + 2 ≤ 254)%nat →
  lorieSetStylusEnabled e true s = Some ((), s') →
  (∀ x, x < next s → x ≠ pointer s → mem s' !! x = mem s !! x)
  ∧ loriePen s' = next s ∧ lorieEraser s' = next s + 1
  ∧ devices s' = devices s ++ [next s; next s + 1] ∧ off_devices s' = off_devices s
  ∧ pointer s' = pointer s ∧ keyboard s' = keyboard s ∧ drivers s' = drivers s.
Proof.
  intros W Hp He Hr E. destruct (stylus_on_run e s W Hp He Hr) as (i & j & _ & _ & _ & E').
  rewrite E in E'. injection E' as ->. split_and!; try done.
  - intros x Hx Hxp. rewrite stylus_on_lookup by done. rewrite !decide_False by lia. done.
  - simpl. rewrite <-app_assoc. done.
Qed.

(** The first part of [InitInput]. *)
Lemma own_devices_run e s :
  dwf s → (room s + 3 ≤ 254)%nat →
  ∃ s', dwf s' ∧ (∀ x, x < next s → x ≠ pointer s → mem s' !! x = mem s !! x)
    ∧ drivers s' = (next s, next s + 1, next s + 2)
    ∧ up e s' (next s) MouseProc LorieMouse (pointer s)
    ∧ up e s' (next s + 1) TouchProc LorieTouch (pointer s)
    ∧ up e s' (next s + 2) KeybdProc LorieKeyboard (keyboard s)
    ∧ pointer s' = pointer s ∧ keyboard s' = keyboard s
    ∧ lists s s' [next s; next s + 1; next s + 2] []
    ∧ loriePen s' = loriePen s ∧ lorieEraser s' = lorieEraser s
    ∧ InitInput e s =
      (if negb (loriePen s =? 0) && negb (lorieEraser s =? 0)
       then modify (λ s, s <| loriePen := 0 |> <| lorieEraser := 0 |>) ;; lorieSetStylusEnabled e true
       else skip) s'.
Proof.
  intros W Hr. destruct (add_phase s W Hr) as (i & j & k & s1 & A1 & L1 & E1).
  destruct (name_phase s W s1 i j k A1 L1) as (s2 & A2 & L2 & E2).
  destruct (activate_phase e s W s2 i j k A2 L2) as (s3 & A3 & L3 & E3).
  destruct (enable_phase e s W s3 i j k A3 L3) as (ma & mb & mc & s4 & A4 & L4 & E4).
  destruct (attach_phase s W s4 _ _ _ ma mb mc A4) as (ma' & mb' & mc' & s5 & A5 & L5 & E5);
    [by apply prepared_facts; unfold own_proc; auto..|done|].
  exists s5. pose proof A5 as [A A' Ha Hb Hc [Hs1 Hs2] Hd Hrest].
  split_and!; try done; try apply A'; try (by eapply attached_up; [unfold own_proc; auto|]).
  unfold InitInput. rewrite E1, E2, E3, E4, bind_get.
  destruct (ad_core _ _ _ _ _ A4) as [-> ->]. rewrite E5.
  by destruct (ad_stylus _ _ _ _ _ A4) as [-> ->].
Qed.

(** C24: The devices at the start of a server generation: with ids left for them, [InitInput] leaves
    the device lists in order and its mouse, touch screen and keyboard are enabled, switched on, and
    belong to the core pointer, the core pointer and the core keyboard. The mouse has ten buttons mapped
    to themselves and four axes, of which the third scrolls horizontally and the fourth vertically; the
    touch screen has two axes from 0 to 65535, at most 20 touches on two axes, and one button, which is
    mapped to none; the keyboard has its keys exactly if the keymap compiles, and neither buttons nor
    axes. No other device but the core pointer is changed. When the server was reset while pen and eraser
    were plugged in, their stale pointers are replaced by two fresh devices that are enabled and have buttons, and are
    left alone otherwise. *)
Theorem init_input_devices e s :
  dwf s →
  let stale := negb (loriePen s =? 0) && negb (lorieEraser s =? 0) in
  (room s + 3 + (if stale then 2 else 0) ≤ 254)%nat →
  ∃ s', InitInput e s = Some ((), s') ∧ dwf s' ∧ off_devices s' = off_devices s
    ∧ devices s' = devices s ++ [lorieMouse s'; lorieTouch s'; lorieKeyboard s']
        ++ (if stale then [loriePen s'; lorieEraser s'] else [])
    ∧ up e s' (lorieMouse s') MouseProc LorieMouse (pointer s)
    ∧ up e s' (lorieTouch s') TouchProc LorieTouch (pointer s)
    ∧ up e s' (lorieKeyboard s') KeybdProc LorieKeyboard (keyboard s)
    ∧ (if stale
       then loriePen s' ≠ lorieEraser s' ∧ plugged_in s' (loriePen s') ∧ plugged_in s' (lorieEraser s')
       else loriePen s' = loriePen s ∧ lorieEraser s' = lorieEraser s)
    ∧ (∀ x d, mem s !! x = Some d → x ≠ pointer s → mem s' !! x = Some d).
Proof.
  intros W stale Hr. pose proof (dw_core _ _ W (or_introl eq_refl)) as Hcp.
  destruct (own_devices_run e s W ltac:(lia))
    as (s1 & W1 & Hk & Hd & U1 & U2 & U3 & Ep & Ek & (L1 & L2 & L3) & Hp & He & E).
  assert (∀ x d, mem s !! x = Some d → x < next s) as Hx.
  { intros x d H. apply (dw_addr _ W). by eexists. }
  fold stale in E. destruct stale.
  - assert (dwf (with_stylus 0 0 s1)) as W2 by (by apply dwf_statics).
    assert (room (with_stylus 0 0 s1) + 2 ≤ 254)%nat as Hr'.
    { unfold room in *. simpl. rewrite L1, L2, !length_app in *. simpl in *. lia. }
    destruct (stylus_on_ok e _ W2 eq_refl eq_refl Hr') as (s' & E' & W' & _ & Hne & Pp & Pe & _).
    destruct (stylus_on_rest e _ s' W2 eq_refl eq_refl Hr' E')
      as (Hk' & Hpen & Her & D1 & D2 & D3 & D4 & D5). simpl in Hk', Hpen, Her, D1, D2.
    exists s'. rewrite E, bind_modify. split; [exact E'|].
    assert (drivers s' = (next s, next s + 1, next s + 2)) as [= Em Et Eb] by (rewrite D5; exact Hd).
    split_and!; try done; rewrite ?Em, ?Et, ?Eb, ?Hpen, ?Her.
    + by rewrite D2, L2, app_nil_r.
    + by rewrite D1, L1, <-app_assoc.
    + apply (up_keep e s1); [done|]. apply Hk'; lia.
    + apply (up_keep e s1); [done|]. apply Hk'; lia.
    + apply (up_keep e s1); [done|]. apply Hk'; lia.
    + intros x d H Hxp. pose proof (Hx _ _ H). rewrite Hk', Hk; try done; [lia|congruence].
  - exists s1. injection Hd as Em Et Eb. rewrite E, Em, Et, Eb, L1, L2, !app_nil_r. split_and!; try done.
    intros x d H Hxp. rewrite Hk; [done| |done]. by eapply Hx.
Qed.

(** ** Concrete servers *)

Lemma core_only_wf : dwf core_only.
Proof.
  assert (∀ a d, mem core_only !! a = Some d →
    a = 1 ∧ id d = 2 ∧ IsMaster d = true ∧ enabled d = true
    ∨ a = 2 ∧ id d = 3 ∧ IsMaster d = true ∧ enabled d = true) as H.
  { intros a d. simpl. intros [[<- <-]|[Ha H]]%lookup_insert_Some; [by left|].
    apply lookup_singleton_Some in H as [<- <-]. by right. }
  split; simpl.
  - split; try done; eexists; by vm_compute.
  - apply (bool_decide_unpack _). vm_compute. done.
  - intros a. split.
    + intros [->|[->|[]%not_elem_of_nil]%elem_of_cons]%elem_of_cons; eexists; by vm_compute.
    + intros [d Hd]. destruct (H _ _ Hd) as [[-> _]|[-> _]]; set_solver.
  - intros a [d Hd]. destruct (H _ _ Hd) as [[-> _]|[-> _]]; simpl; lia.
  - intros a b d f Hd Hf E. destruct (H _ _ Hd) as [(-> & I & _)|(-> & I & _)],
      (H _ _ Hf) as [(-> & J & _)|(-> & J & _)]; done || lia.
  - intros a d Hd. unfold MAXDEVICES. destruct (H _ _ Hd) as [(-> & -> & _)|(-> & -> & _)]; lia.
  - intros a d Hd. destruct (H _ _ Hd) as [(-> & _ & _ & ->)|(-> & _ & _ & ->)]; set_solver.
  - intros a d Hd. by destruct (H _ _ Hd) as [(-> & _ & -> & _)|(-> & _ & -> & _)].
Qed.

(** A server with [n] more devices, as many as there are ids for. *)
Definition crowd (s : inputs) : inputs :=
  match free_id s with Some i => added_device StylusProc i s | None => s end.
Definition crowded (n : nat) : inputs := Nat.iter n crowd core_only.

Lemma crowded_wf n : (n ≤ 252)%nat → dwf (crowded n) ∧ room (crowded n) = (n + 2)%nat ∧ loriePen (crowded n) = 0.
Proof.
  induction n as [|n IH]; intros Hn; [by split; [exact core_only_wf|]|]. destruct IH as (W & Hr & Hp); [lia|].
  unfold crowded in *. simpl. set (s := Nat.iter n crowd core_only) in *. unfold crowd.
  destruct (free_id_exists s) as [i Hi]; [unfold room in Hr; lia|]. rewrite Hi.
  split; [by apply added_wf|]. split; [|done]. unfold room in *. simpl. rewrite !length_app in *. simpl. lia.
Qed.

Lemma stylus_requests_invariant_witness :
  ∃ s', stylus_requests (mk_dvenv true) [true; false; true; true] core_only = Some ((), s') ∧ dwf s'
    ∧ loriePen s' ≠ 0.
Proof.
  destruct (stylus_requests_invariant (mk_dvenv true) [true; false; true; true] core_only core_only_wf)
    as (s' & E & W & _ & _ & H).
  - left. done.
  - apply (bool_decide_unpack _). vm_compute. exact I.
  - exists s'. split; [exact E|]. split; [exact W|]. by apply (H true).
Defined.

Lemma stylus_roundtrip_witness :
  (lorieSetStylusEnabled (mk_dvenv true) true ;; lorieSetStylusEnabled (mk_dvenv true) false) (set_buttons core_only)
  = Some ((), set_buttons core_only <| next ::= Z.add 2 |>).
Proof.
  assert (room (set_buttons core_only) + 2 ≤ 254)%nat as Hr by (simpl; lia).
  exact (stylus_roundtrip (mk_dvenv true) (set_buttons core_only) (dwf_recount _ _ core_only_wf) eq_refl eq_refl Hr
    (set_buttons_recount _ _ (dw_masters _ core_only_wf))).
Defined.

Lemma stylus_ids_exhausted_witness :
  room (crowded 252) = 254%nat ∧ lorieSetStylusEnabled (mk_dvenv true) true (crowded 252) = None.
Proof.
  destruct (crowded_wf 252 ltac:(lia)) as (W & Hr & Hp). split; [exact Hr|].
  exact (stylus_ids_exhausted (mk_dvenv true) (crowded 252) W Hp Hr).
Defined.

Lemma init_input_devices_witness :
  ∃ s', InitInput (mk_dvenv true) (core_only <| loriePen := 7 |> <| lorieEraser := 9 |>) = Some ((), s')
    ∧ dwf s' ∧ devices s' = [1; 2; lorieMouse s'; lorieTouch s'; lorieKeyboard s'; loriePen s'; lorieEraser s'].
Proof.
  destruct (init_input_devices (mk_dvenv true) (core_only <| loriePen := 7 |> <| lorieEraser := 9 |>))
    as (s' & E & W & _ & D & _).
  - apply dwf_statics, core_only_wf.
  - apply (bool_decide_unpack _). vm_compute. exact I.
  - exists s'. split; [exact E|]. split; [exact W|]. exact D.
Defined.
