(* ===== verification/Work.v ===== *)
(** * Work procedures ([xserver/dix/dixutils.c] with [patches/xserver.patch])

    [handleLorieEvents] runs on the input thread, [lorieChoreographerFrameCallback]
    on another one, and both leave what touches the state of the server to the main
    thread: they queue a procedure with [QueueWorkProc], and the main loop calls
    [ProcessWorkQueue].

    The queue is the singly linked list of the source: [workQueue] is its head,
    [workQueueLast] points at the link that ends it, which is either the head or
    the [next] of a node.  A node is its address; reading the link of a node that
    is not there has no result.  What a procedure does is up to the caller; the
    queue only sees whether it returns [TRUE].

    The build patches the file: a spin lock protects the list and is given back
    while a procedure runs.  The first part takes each call as a whole and shows
    that the list is a queue.  The second interleaves the steps of the main thread
    with those of any number of threads that queue, with the lock, and shows that
    nothing is lost. *)

From stdpp Require Import gmap.
From S2P Require Import Prelude.

(** ** State *)

Inductive link := Head | Next (n : Z).
#[export] Instance link_eq_dec : EqDecision link.
Proof. solve_decision. Defined.

Record wq := mk_wq {
  nexts : gmap Z (option Z);        (** [next] of each node *)
  workQueue : option Z;
  workQueueLast : link;
  called : list Z                   (** calls so far, newest last *)
}.
#[export] Instance eta_wq : Settable wq := λ s,
  mk_wq (nexts s) (workQueue s) (workQueueLast s) (called s).

Definition empty_wq : wq := mk_wq ∅ None Head [].

Definition load (l : link) : M wq (option Z) :=
  s ← get; match l with Head => mret (workQueue s) | Next n => of_option (nexts s !! n) end.

Definition store (l : link) (v : option Z) : M wq () :=
  match l with
  | Head => modify (λ s, s <| workQueue := v |>)
  | Next n => _ ← load l; modify (λ s, s <| nexts ::= <[n := v]> |>)
  end.

(** ** Operations *)

(** [n] is the address [malloc] returns. *)
Definition QueueWorkProc (n : Z) : M wq () :=
  modify (λ s, s <| nexts ::= <[n := None]> |>) ;;
  s ← get;
  store (workQueueLast s) (Some n) ;;
  modify (λ s, s <| workQueueLast := Next n |>).

Section process.
Context (done_ : Z → bool).         (** whether the procedure of a node returns [TRUE] *)

(** The loop from the link [p] on; what is left is [p] at the end of the list. *)
Fixpoint process_from (fuel : nat) (p : link) : M wq () :=
  match fuel with
  | O => ub
  | S fuel' =>
    q ← load p;
    match q with
    | None => modify (λ s, s <| workQueueLast := p |>)
    | Some n =>
      modify (λ s, s <| called ::= λ l, l ++ [n] |>) ;;
      if done_ n
      then
        next ← load (Next n);
        store p next ;;
        modify (λ s, s <| nexts ::= delete n |>) ;;
        process_from fuel' p
      else process_from fuel' (Next n)
    end
  end.

(** One turn per node and one for the end. *)
Definition ProcessWorkQueue : M wq () :=
  s ← get; process_from (S (size (nexts s))) Head.

End process.

Fixpoint clear_from (fuel : nat) : M wq () :=
  match fuel with
  | O => ub
  | S fuel' =>
    q ← load Head;
    match q with
    | None => modify (λ s, s <| workQueueLast := Head |>)
    | Some n =>
      next ← load (Next n);
      store Head next ;;
      modify (λ s, s <| nexts ::= delete n |>) ;;
      clear_from fuel'
    end
  end.

Definition ClearWorkQueue : M wq () := s ← get; clear_from (S (size (nexts s))).

(** ** Lists of nodes *)

(** The nodes of [l] follow each other from [o] on, and the last one links to [e]. *)
Fixpoint segment (m : gmap Z (option Z)) (o : option Z) (l : list Z) (e : option Z) : Prop :=
  match l with
  | [] => o = e
  | n :: l' => o = Some n ∧ ∃ o', m !! n = Some o' ∧ segment m o' l' e
  end.

(** The link behind the nodes of [l]. *)
Definition end_link (l : list Z) : link :=
  match last l with Some n => Next n | None => Head end.

Record queue_of (s : wq) (l : list Z) : Prop := mk_queue_of {
  qo_segment : segment (nexts s) (workQueue s) l None;
  qo_nodup : NoDup l;
  qo_last : workQueueLast s = end_link l;
  qo_dom : ∀ n, is_Some (nexts s !! n) ↔ n ∈ l
}.

Lemma segment_agree m m' o l e : (∀ n, n ∈ l → m' !! n = m !! n) → segment m o l e → segment m' o l e.
Proof.
  revert o. induction l as [|n l IH]; intros o H; simpl; [done|]. intros (-> & o' & Hn & Hc).
  split; [done|]. exists o'. split; [rewrite H; [done|by left]|]. apply IH; [|done]. intros x Hx. apply H. by right.
Qed.

Lemma segment_app m o l k e : segment m o (l ++ k) e ↔ ∃ o', segment m o l o' ∧ segment m o' k e.
Proof.
  revert o. induction l as [|n l IH]; intros o; simpl; [naive_solver|]. setoid_rewrite IH. naive_solver.
Qed.

Lemma end_link_snoc l n : end_link (l ++ [n]) = Next n.
Proof. unfold end_link. by rewrite last_snoc. Qed.

Lemma load_end s l e : segment (nexts s) (workQueue s) l e → load (end_link l) s = Some (e, s).
Proof.
  destruct l as [|n l] using rev_ind; [by intros <-|]. rewrite end_link_snoc, segment_app. clear IHl.
  intros (o & _ & -> & o' & H & <-). unfold load. rewrite bind_get, H. done.
Qed.

Lemma store_end s l e v :
  NoDup l → segment (nexts s) (workQueue s) l e →
  ∃ s', store (end_link l) v s = Some ((), s') ∧ segment (nexts s') (workQueue s') l v
    ∧ (∀ n, n ∉ l → nexts s' !! n = nexts s !! n) ∧ (∀ n, is_Some (nexts s' !! n) ↔ is_Some (nexts s !! n))
    ∧ called s' = called s.
Proof.
  intros Hn Hs. pose proof (load_end _ _ _ Hs) as Hl.
  destruct l as [|n l] using rev_ind; [by eexists|]. clear IHl. rewrite end_link_snoc in *.
  apply segment_app in Hs as (o & Hs & -> & o' & H & _). apply NoDup_app in Hn as (_ & Hn & _).
  eexists. split; [unfold store; by mstep Hl|]. simpl. split_and!; try done.
  - apply segment_app. exists (Some n). split.
    + eapply segment_agree; [|exact Hs]. intros x Hx. rewrite lookup_insert_ne; [done|]. intros ->.
      apply (Hn x Hx). by left.
    + split; [done|]. exists v. by rewrite lookup_insert_eq.
  - intros x Hx. apply lookup_insert_ne. intros ->. apply Hx. apply elem_of_app. right. by left.
  - intros x. rewrite lookup_insert_is_Some'. split; [intros [<-|?]; [by eexists|done]|by right].
Qed.

(** ** The list is a queue *)

Lemma queue_work_run s l n :
  queue_of s l → n ∉ l →
  ∃ s', QueueWorkProc n s = Some ((), s') ∧ queue_of s' (l ++ [n]) ∧ called s' = called s.
Proof.
  intros [H1 H2 H3 H4] Hn. unfold QueueWorkProc. rewrite bind_modify, bind_get.
  set (s1 := s <| nexts ::= <[n := None]> |>).
  assert (segment (nexts s1) (workQueue s1) l None) as H1'.
  { eapply segment_agree; [|exact H1]. intros x Hx. simpl. rewrite lookup_insert_ne; [done|]. by intros ->. }
  destruct (store_end s1 l None (Some n) H2 H1') as (s2 & E & S1 & S2 & S3 & S4).
  assert (workQueueLast s1 = end_link l) as -> by done. mstep E. eexists. split; [done|]. split; [|done].
  split; simpl.
  - apply segment_app. exists (Some n). split; [done|]. split; [done|]. exists None.
    split; [|done]. rewrite S2 by done. apply lookup_insert_eq.
  - apply NoDup_app. split_and!; [done| |apply NoDup_singleton]. intros x Hx ->%list_elem_of_singleton. done.
  - by rewrite end_link_snoc.
  - intros x. rewrite S3. simpl. rewrite lookup_insert_is_Some', H4, elem_of_app, list_elem_of_singleton. naive_solver.
Qed.

Lemma queue_size s l : queue_of s l → size (nexts s) = length l.
Proof.
  intros [_ H2 _ H4].
  assert (dom (nexts s) = list_to_set l) as Hd.
  { apply set_eq. intros x. rewrite elem_of_dom, H4, elem_of_list_to_set. done. }
  by rewrite <-size_dom, Hd, size_list_to_set.
Qed.

Section process_run.
Context (d : Z → bool).

Definition kept : list Z → list Z := filter (λ n, d n = false).

Lemma process_from_run rest : ∀ fuel s l,
  segment (nexts s) (workQueue s) (l ++ rest) None → NoDup (l ++ rest) →
  (∀ n, is_Some (nexts s !! n) ↔ n ∈ l ++ rest) → (length rest < fuel)%nat →
  ∃ s', process_from d fuel (end_link l) s = Some ((), s')
    ∧ queue_of s' (l ++ kept rest) ∧ called s' = called s ++ rest.
Proof.
  induction rest as [|n rest IH]; intros [|fuel] s l H1 H2 H3 Hf; simpl in Hf; try lia.
  { rewrite app_nil_r in *. cbn [process_from]. mstep (load_end _ _ _ H1). eexists. split; [done|].
    split; [by split|]. by rewrite app_nil_r. }
  pose proof H1 as (o & Hl & -> & o' & Hn & Hr)%segment_app.
  cbn [process_from]. mstep (load_end _ _ _ Hl). rewrite bind_modify.
  set (s1 := s <| called ::= λ l, l ++ [n] |>). destruct (d n) eqn:Hd.
  - assert (load (Next n) s1 = Some (o', s1)) as E1 by (unfold load; rewrite bind_get; simpl; by rewrite Hn).
    mstep E1. pose proof H2 as (N1 & N2 & N3)%NoDup_app.
    destruct (store_end s1 l (Some n) o' N1 Hl) as (s2 & E2 & S1 & S2 & S3 & S4). mstep E2. rewrite bind_modify.
    set (s3 := s2 <| nexts ::= delete n |>).
    assert (n ∉ l ∧ n ∉ rest) as [Hnl Hnr].
    { split; [intros Hx; apply (N2 n Hx); by left|by apply NoDup_cons in N3 as [? _]]. }
    assert (∀ x, x ≠ n → nexts s3 !! x = nexts s2 !! x) as E3 by (intros x Hx; by apply lookup_delete_ne).
    destruct (IH fuel s3 l) as (s' & E & Q & C).
    + apply segment_app. exists o'. split.
      * eapply segment_agree; [|exact S1]. intros x Hx. apply E3. by intros ->.
      * eapply segment_agree; [|exact Hr]. intros x Hx. rewrite E3 by (by intros ->). rewrite S2; [done|].
        intros Hxl. apply (N2 x Hxl). by right.
    + apply NoDup_app. apply NoDup_cons in N3 as [_ N3]. split_and!; [done| |done]. intros x Hx Hxr.
      apply (N2 x Hx). by right.
    + intros x. destruct (decide (x = n)) as [->|Hx].
      * split; [intros [v Hv]; simpl in Hv; by rewrite lookup_delete_eq in Hv|]. rewrite elem_of_app. tauto.
      * rewrite E3, S3 by done. unfold s1. simpl. rewrite H3, !elem_of_app, elem_of_cons. tauto.
    + lia.
    + exists s'. split; [exact E|]. unfold kept. rewrite filter_cons, decide_False by (by rewrite Hd).
      split; [exact Q|]. rewrite C. simpl. rewrite S4. unfold s1. simpl. by rewrite <-app_assoc.
  - rewrite cons_middle, app_assoc in H1, H2, H3.
    destruct (IH fuel s1 (l ++ [n]) H1 H2 H3) as (s' & E & Q & C); [lia|].
    rewrite end_link_snoc in E. exists s'. split; [exact E|].
    unfold kept. rewrite filter_cons, decide_True by done. rewrite <-app_assoc in Q. split; [exact Q|].
    rewrite C. unfold s1. simpl. by rewrite <-app_assoc.
Qed.

Lemma process_run s l :
  queue_of s l →
  ∃ s', ProcessWorkQueue d s = Some ((), s') ∧ queue_of s' (kept l) ∧ called s' = called s ++ l.
Proof.
  intros Q. unfold ProcessWorkQueue. rewrite bind_get, (queue_size _ _ Q). destruct Q.
  apply (process_from_run l _ s []); try done. lia.
Qed.
End process_run.

Lemma clear_from_run l : ∀ fuel s,
  segment (nexts s) (workQueue s) l None → NoDup l → (∀ n, is_Some (nexts s !! n) ↔ n ∈ l) →
  (length l < fuel)%nat →
  ∃ s', clear_from fuel s = Some ((), s') ∧ queue_of s' [] ∧ called s' = called s.
Proof.
  induction l as [|n l IH]; intros [|fuel] s H1 H2 H3 Hf; simpl in Hf; try lia.
  - simpl in H1. cbn [clear_from]. unfold load. mrun. rewrite H1. eexists. split; [done|].
    split; [|done]. split; [done|constructor|done|]. intros x. by rewrite H3.
  - destruct H1 as (Hh & o & Hn & Hr). apply NoDup_cons in H2 as [Hnl H2].
    cbn [clear_from]. unfold load, store. mrun. rewrite Hh, Hn.
    destruct (IH fuel (s <| workQueue := o |> <| nexts ::= delete n |>)) as (s' & E & Q & C).
    + simpl. eapply segment_agree; [|exact Hr]. intros x Hx. apply lookup_delete_ne. by intros ->.
    + done.
    + intros x. simpl. destruct (decide (x = n)) as [->|Hx].
      * rewrite lookup_delete_eq. split; [by intros []|done].
      * rewrite lookup_delete_ne, H3, elem_of_cons by done. naive_solver.
    + lia.
    + exists s'. split; [exact E|]. split; [done|]. by rewrite C.
Qed.

Lemma clear_queue_run s l :
  queue_of s l → ∃ s', ClearWorkQueue s = Some ((), s') ∧ queue_of s' [] ∧ called s' = called s.
Proof.
  intros Q. unfold ClearWorkQueue. rewrite bind_get, (queue_size _ _ Q). destruct Q.
  eapply clear_from_run; [done..|]. lia.
Qed.

(** ** One thread *)

Inductive op := OQueue (n : Z) | OProcess | OClear.

Definition run_op (d : Z → bool) (o : op) : M wq () :=
  match o with OQueue n => QueueWorkProc n | OProcess => ProcessWorkQueue d | OClear => ClearWorkQueue end.

(** What the two calls promise: a list of procedures to call, and the calls made. *)
Definition abstract_op (d : Z → bool) (o : op) (a : list Z * list Z) : option (list Z * list Z) :=
  match o with
  | OQueue n => if decide (n ∈ a.1) then None else Some (a.1 ++ [n], a.2)
  | OProcess => Some (kept d a.1, a.2 ++ a.1)
  | OClear => Some ([], a.2)
  end.

Fixpoint abstract_ops (d : Z → bool) (os : list op) (a : list Z * list Z) : option (list Z * list Z) :=
  match os with [] => Some a | o :: os' => a' ← abstract_op d o a; abstract_ops d os' a' end.

(** C22: The work queue is a queue: for any sequence of [QueueWorkProc], with addresses that are not
    in use, [ProcessWorkQueue] and [ClearWorkQueue], as whole calls, every call returns without touching a node that is
    gone, and the procedures are called in the order they were queued, each once per scan until it
    returns [TRUE] or the queue is cleared. *)
Theorem work_refines_queue d os : ∀ s p p' c',
  queue_of s p → abstract_ops d os (p, called s) = Some (p', c') →
  ∃ s', for_each os (run_op d) s = Some ((), s') ∧ queue_of s' p' ∧ called s' = c'.
Proof.
  induction os as [|o os IH]; intros s p p' c' Q; cbn [abstract_ops for_each].
  { intros [= <- <-]. by exists s. }
  destruct o as [n| |]; simpl.
  - case_decide as Hn; [done|]. destruct (queue_work_run s p n Q Hn) as (s1 & E & Q1 & C1). simpl.
    rewrite <-C1. intros H. mstep E. by apply (IH s1 (p ++ [n])).
  - destruct (process_run d s p Q) as (s1 & E & Q1 & C1). simpl. rewrite <-C1. intros H. mstep E.
    by apply (IH s1 (kept d p)).
  - destruct (clear_queue_run s p Q) as (s1 & E & Q1 & C1). simpl. rewrite <-C1. intros H. mstep E.
    by apply (IH s1 []).
Qed.

(** ** Any number of threads *)

Inductive thread := TMain | TQueue (t : Z).
#[export] Instance thread_eq_dec : EqDecision thread.
Proof. solve_decision. Defined.

(** Where the main thread is in [ProcessWorkQueue]: it holds the lock at [MScan],
    [MUnlink], [MLast] and [MUnlock], and not while it calls a procedure and takes
    the lock back afterwards ([MBack], with the procedure's answer). *)
Inductive main_pc :=
| MIdle | MScan (p : link) | MCall (p : link) (n : Z) | MBack (p : link) (n : Z) (b : bool)
| MUnlink (p : link) (n : Z) | MLast (p : link) | MUnlock.

(** Where another thread is in [QueueWorkProc]: with its own node it waits for the
    lock, links the node, moves the end, and gives the lock back. *)
Inductive queue_pc := QIdle | QLock (n : Z) | QLink (n : Z) | QLast (n : Z) | QUnlock.

Record machine := mk_machine {
  mpc : main_pc;
  qpcs : gmap Z queue_pc;
  lock : option thread;             (** holder of [workQueueLock] *)
  shared : wq;
  queued : list Z;                  (** nodes linked so far, newest last *)
  removed : list Z                  (** nodes unlinked so far, newest last *)
}.
#[export] Instance eta_machine : Settable machine := λ c,
  mk_machine (mpc c) (qpcs c) (lock c) (shared c) (queued c) (removed c).

Definition idle_machine : machine := mk_machine MIdle ∅ None empty_wq [] [].

Definition qpc (c : machine) (t : Z) : queue_pc := default QIdle (qpcs c !! t).

(** Run an action of the shared list. *)
Definition at_shared {A} (m : M wq A) (c : machine) : option (A * machine) :=
  '(a, s) ← m (shared c); Some (a, c <| shared := s |>).

(** [pthread_spin_lock]: the thread stays where it is while the lock is taken. *)
Definition spin_lock (t : thread) (c : machine) (k : machine → machine) : machine :=
  if lock c is None then k (c <| lock := Some t |>) else c.

Definition main_step (d : Z → bool) (c : machine) : option machine :=
  match mpc c with
  | MIdle => Some (spin_lock TMain c (λ c, c <| mpc := MScan Head |>))
  | MScan p =>
    '(q, c) ← at_shared (load p) c;
    Some match q with
         | None => c <| mpc := MLast p |>
         | Some n => c <| lock := None |> <| mpc := MCall p n |>
         end
  | MCall p n =>
    '(_, c) ← at_shared (modify (λ s, s <| called ::= λ l, l ++ [n] |>)) c;
    Some (c <| mpc := MBack p n (d n) |>)
  | MBack p n b =>
    Some (spin_lock TMain c (λ c, c <| mpc := if b then MUnlink p n else MScan (Next n) |>))
  | MUnlink p n =>
    '(_, c) ← at_shared (next ← load (Next n); store p next ;; modify (λ s, s <| nexts ::= delete n |>)) c;
    Some (c <| removed ::= λ l, l ++ [n] |> <| mpc := MScan p |>)
  | MLast p =>
    '(_, c) ← at_shared (modify (λ s, s <| workQueueLast := p |>)) c;
    Some (c <| mpc := MUnlock |>)
  | MUnlock => Some (c <| lock := None |> <| mpc := MIdle |>)
  end.

(** [n] is what [malloc] returns when a call begins: an address not in use. *)
Definition queue_step (t n : Z) (c : machine) : option machine :=
  match qpc c t with
  | QIdle =>
    if nexts (shared c) !! n is Some _ then Some c
    else
      '(_, c) ← at_shared (modify (λ s, s <| nexts ::= <[n := None]> |>)) c;
      Some (c <| qpcs ::= <[t := QLock n]> |>)
  | QLock n => Some (spin_lock (TQueue t) c (λ c, c <| qpcs ::= <[t := QLink n]> |>))
  | QLink n =>
    '(_, c) ← at_shared (s ← get; store (workQueueLast s) (Some n)) c;
    Some (c <| queued ::= λ l, l ++ [n] |> <| qpcs ::= <[t := QLast n]> |>)
  | QLast n =>
    '(_, c) ← at_shared (modify (λ s, s <| workQueueLast := Next n |>)) c;
    Some (c <| qpcs ::= <[t := QUnlock]> |>)
  | QUnlock => Some (c <| lock := None |> <| qpcs ::= <[t := QIdle]> |>)
  end.

Inductive turn := Main | Queue (t n : Z).

Definition machine_step (d : Z → bool) (t : turn) (c : machine) : option machine :=
  match t with Main => main_step d c | Queue t n => queue_step t n c end.

Fixpoint machine_run (d : Z → bool) (ts : list turn) (c : machine) : option machine :=
  match ts with [] => Some c | t :: ts' => c' ← machine_step d t c; machine_run d ts' c' end.

(** *** The invariant *)

Section threads.
Context (d : Z → bool).

Definition main_inside (m : main_pc) : bool :=
  match m with MScan _ | MUnlink _ _ | MLast _ | MUnlock => true | _ => false end.
Definition queue_inside (q : queue_pc) : bool :=
  match q with QLink _ | QLast _ | QUnlock => true | _ => false end.

(** A node that is not linked yet. *)
Definition own (q : queue_pc) : option Z :=
  match q with QLock n | QLink n => Some n | _ => None end.

(** The position of the scan: what is in front of it returned [FALSE]. *)
Definition main_ok (m : main_pc) (l : list Z) : Prop :=
  match m with
  | MIdle | MUnlock => True
  | MScan p => ∃ l1 l2, l = l1 ++ l2 ∧ p = end_link l1 ∧ Forall (λ n, d n = false) l1
  | MCall p n => ∃ l1 l2, l = l1 ++ n :: l2 ∧ p = end_link l1 ∧ Forall (λ n, d n = false) l1
  | MBack p n b => b = d n ∧ ∃ l1 l2, l = l1 ++ n :: l2 ∧ p = end_link l1 ∧ Forall (λ n, d n = false) l1
  | MUnlink p n => d n = true ∧ ∃ l1 l2, l = l1 ++ n :: l2 ∧ p = end_link l1 ∧ Forall (λ n, d n = false) l1
  | MLast p => p = end_link l
  end.

(** Where [workQueueLast] points, by the holder of the lock. *)
Definition last_ok (c : machine) (l : list Z) : Prop :=
  let last := workQueueLast (shared c) in
  match lock c with
  | None => last = end_link l
  | Some TMain =>
    match mpc c with
    | MScan p => p = end_link l ∨ last = end_link l
    | MLast _ => True
    | _ => last = end_link l
    end
  | Some (TQueue t) =>
    match qpc c t with
    | QLast n => ∃ l', l = l' ++ [n] ∧ last = end_link l'
    | _ => last = end_link l
    end
  end.

Record inv (c : machine) (l : list Z) : Prop := mk_inv {
  i_segment : segment (nexts (shared c)) (workQueue (shared c)) l None;
  i_nodup : NoDup l;
  i_dom : ∀ n, is_Some (nexts (shared c) !! n) ↔ n ∈ l ∨ ∃ t, own (qpc c t) = Some n;
  i_own : ∀ t n, own (qpc c t) = Some n → nexts (shared c) !! n = Some None ∧ n ∉ l;
  i_distinct : ∀ t t' n, own (qpc c t) = Some n → own (qpc c t') = Some n → t = t';
  i_lock_queue : ∀ t, queue_inside (qpc c t) = true ↔ lock c = Some (TQueue t);
  i_lock_main : main_inside (mpc c) = true ↔ lock c = Some TMain;
  i_main : main_ok (mpc c) l;
  i_last : last_ok c l;
  i_kept : queued c ≡ₚ removed c ++ l;
  i_order : (∀ n, d n = true) → queued c = removed c ++ l
}.

Lemma qpc_set c t q u : qpc (c <| qpcs ::= <[t := q]> |>) u = if decide (u = t) then q else qpc c u.
Proof.
  unfold qpc. simpl. case_decide as H; [subst; by rewrite lookup_insert_eq|]. by rewrite lookup_insert_ne.
Qed.

Lemma end_link_inj_app l1 n l2 : NoDup (l1 ++ n :: l2) → end_link l1 ≠ end_link (l1 ++ n :: l2).
Proof.
  intros H E. destruct l2 as [|x l2 _] using rev_ind.
  - rewrite end_link_snoc in E. destruct l1 as [|y l1 _] using rev_ind; [done|].
    rewrite end_link_snoc in E. injection E as ->. apply NoDup_app in H as (_ & H & _).
    apply (H n); [apply elem_of_app; right|]; by left.
  - rewrite app_comm_cons, app_assoc, end_link_snoc in E.
    destruct l1 as [|y l1 _] using rev_ind; [done|].
    rewrite end_link_snoc in E. injection E as ->. apply NoDup_app in H as (_ & H & _).
    apply (H x); [apply elem_of_app; right; by left|]. right. apply elem_of_app. right. by left.
Qed.

(** Taking the lock when it is free. *)
Lemma lock_free c l : inv c l → lock c = None →
  (∀ t, queue_inside (qpc c t) = false) ∧ main_inside (mpc c) = false ∧ workQueueLast (shared c) = end_link l.
Proof.
  intros H E. split_and!.
  - intros t. apply not_true_is_false. rewrite (i_lock_queue _ _ H). by rewrite E.
  - apply not_true_is_false. rewrite (i_lock_main _ _ H). by rewrite E.
  - pose proof (i_last _ _ H) as L. unfold last_ok in L. by rewrite E in L.
Qed.

(** The main thread takes the lock and goes on at [m]. *)
Lemma inv_main_locks c l m :
  inv c l → lock c = None → main_inside m = true → main_ok m l →
  inv (c <| lock := Some TMain |> <| mpc := m |>) l.
Proof.
  intros H E Hm Hok. destruct (lock_free _ _ H E) as (Hq & _ & Hlast). destruct H.
  constructor; simpl; try done.
  - intros t. change (qpc _ t) with (qpc c t). rewrite Hq. done.
  - unfold last_ok. simpl. destruct m; try done. by right.
Qed.

(** A step of the main thread that leaves the list as it is. *)
Lemma inv_main_moves c l m k s :
  inv c l → nexts s = nexts (shared c) → workQueue s = workQueue (shared c) →
  (∀ t, queue_inside (qpc c t) = true ↔ k = Some (TQueue t)) →
  (main_inside m = true ↔ k = Some TMain) → main_ok m l →
  last_ok (mk_machine m (qpcs c) k s (queued c) (removed c)) l →
  inv (mk_machine m (qpcs c) k s (queued c) (removed c)) l.
Proof.
  intros [] E1 E2 H1 H2 H3 H4. constructor; simpl; rewrite ?E1, ?E2; done.
Qed.

Lemma lock_held_main c l : inv c l → main_inside (mpc c) = true →
  lock c = Some TMain ∧ ∀ t, queue_inside (qpc c t) = false.
Proof.
  intros H E. apply (i_lock_main _ _ H) in E. split; [done|]. intros t.
  apply not_true_is_false. rewrite (i_lock_queue _ _ H), E. done.
Qed.

Lemma unlock_queue c l : inv c l → main_inside (mpc c) = true →
  ∀ t, queue_inside (qpc c t) = true ↔ (None : option thread) = Some (TQueue t).
Proof. intros H E t. destruct (lock_held_main _ _ H E) as [_ ->]. done. Qed.

(** [*p = q->next; free(q)]. *)
Lemma unlink_run s l1 n l2 :
  segment (nexts s) (workQueue s) (l1 ++ n :: l2) None → NoDup (l1 ++ n :: l2) →
  ∃ s', (next ← load (Next n); store (end_link l1) next ;; modify (λ s, s <| nexts ::= delete n |>)) s = Some ((), s')
    ∧ segment (nexts s') (workQueue s') (l1 ++ l2) None
    ∧ (∀ x, x ∉ l1 ++ n :: l2 → nexts s' !! x = nexts s !! x)
    ∧ (∀ x, is_Some (nexts s' !! x) ↔ is_Some (nexts s !! x) ∧ x ≠ n)
    ∧ workQueueLast s' = workQueueLast s.
Proof.
  intros H1 H2. pose proof H1 as (o & Hl & -> & o' & Hn & Hr)%segment_app.
  assert (load (Next n) s = Some (o', s)) as E1 by (unfold load; rewrite bind_get; by rewrite Hn).
  mstep E1. pose proof H2 as (N1 & N2 & N3)%NoDup_app. apply NoDup_cons in N3 as [Hnr N3].
  assert (n ∉ l1) as Hnl by (intros Hx; apply (N2 n Hx); by left).
  destruct (store_end s l1 (Some n) o' N1 Hl) as (s2 & E2 & S1 & S2 & S3 & _). mstep E2.
  assert (workQueueLast s2 = workQueueLast s) as EL.
  { revert E2. unfold store. destruct (end_link l1); mrun; [by intros [= <-]|].
    unfold load. mrun. destruct (nexts s !! n0); [|done]. by intros [= <-]. }
  eexists. split; [done|]. simpl. split_and!.
  - apply segment_app. exists o'. split.
    + eapply segment_agree; [|exact S1]. intros x Hx. apply lookup_delete_ne. by intros ->.
    + eapply segment_agree; [|exact Hr]. intros x Hx. rewrite lookup_delete_ne by (by intros ->).
      apply S2. intros Hxl. apply (N2 x Hxl). by right.
  - intros x Hx. rewrite elem_of_app, elem_of_cons in Hx. rewrite lookup_delete_ne by naive_solver.
    apply S2. tauto.
  - intros x. destruct (decide (x = n)) as [->|Hx].
    + rewrite lookup_delete_eq. split; [by intros []|naive_solver].
    + rewrite lookup_delete_ne, S3 by done. naive_solver.
  - done.
Qed.

Lemma end_link_app l1 x l2 : end_link (l1 ++ x :: l2) = end_link (x :: l2).
Proof. unfold end_link. by rewrite last_app_cons. Qed.

Lemma inv_unlink c l p n :
  inv c l → mpc c = MUnlink p n →
  ∃ c' l', main_step d c = Some c' ∧ inv c' l'.
Proof.
  intros H E. pose proof (i_main _ _ H) as Hm. rewrite E in Hm. destruct Hm as (Hd & l1 & l2 & -> & -> & Hf).
  destruct (lock_held_main _ _ H) as [HL Hq]; [by rewrite E|].
  destruct (unlink_run _ _ _ _ (i_segment _ _ H) (i_nodup _ _ H)) as (s' & Er & S1 & S2 & S3 & S4).
  unfold main_step, at_shared. rewrite E, Er. simpl. eexists _, (l1 ++ l2). split; [done|].
  pose proof (i_last _ _ H) as Hlast. unfold last_ok in Hlast. rewrite HL, E in Hlast.
  pose proof H as [Hseg Hnd Hdom Hown Hdist Hlq Hlm _ _ Hk Ho].
  assert (n ∉ l1 ++ l2) as Hn.
  { apply NoDup_app in Hnd as (_ & N2 & N3). apply NoDup_cons in N3 as [N3 _].
    rewrite elem_of_app. intros [Hx|Hx]; [|done]. apply (N2 n Hx). by left. }
  constructor; simpl; try done.
  - apply NoDup_app in Hnd as (N1 & N2 & N3). apply NoDup_cons in N3 as [_ N3].
    apply NoDup_app. split_and!; [done| |done]. intros x Hx Hx'. apply (N2 x Hx). by right.
  - intros x. change (qpc _) with (qpc c). rewrite S3, Hdom. rewrite !elem_of_app, elem_of_cons in *.
    split; [tauto|]. intros [Hx|[t Ht]]; (split; [tauto||eauto|]); [intros ->; tauto|].
    intros ->. destruct (Hown t n Ht) as [_ Hx]. apply Hx. rewrite elem_of_app, elem_of_cons. tauto.
  - intros t x Hx. change (qpc _ t) with (qpc c t) in Hx. destruct (Hown t x Hx) as [H1 H2].
    split; [by rewrite S2|]. intros Hin. apply H2. rewrite elem_of_app, elem_of_cons in *. tauto.
  - by exists l1, l2.
  - unfold last_ok. simpl. rewrite HL, S4. destruct l2 as [|x l2]; [left; by rewrite app_nil_r|right].
    rewrite Hlast, !end_link_app. unfold end_link. by rewrite last_cons_cons.
  - rewrite Hk. rewrite <-app_assoc. apply Permutation_app_head. symmetry. simpl. apply Permutation_middle.
  - intros Hall. rewrite Ho by done. rewrite <-app_assoc. f_equal. destruct l1 as [|x l1]; [done|].
    apply Forall_cons in Hf as [Hx _]. by rewrite Hall in Hx.
Qed.

Lemma inv_main_step c l : inv c l → ∃ c' l', main_step d c = Some c' ∧ inv c' l'.
Proof.
  intros H. pose proof (i_main _ _ H) as Hm. pose proof (i_lock_main _ _ H) as Hlm.
  pose proof (i_last _ _ H) as Hlast. unfold last_ok in Hlast.
  destruct (mpc c) as [|p|p n|p n b|p n|p|] eqn:E.
  - unfold main_step. rewrite E. exists (spin_lock TMain c (λ c, c <| mpc := MScan Head |>)), l. split; [done|].
    unfold spin_lock. destruct (lock c) eqn:EL; [done|]. apply inv_main_locks; try done.
    exists [], l. split_and!; [done..|constructor].
  - destruct (lock_held_main _ _ H) as [HL Hq]; [by rewrite E|]. rewrite HL in Hlast.
    destruct Hm as (l1 & l2 & -> & -> & Hf). pose proof (i_segment _ _ H) as (o & Hl & Hr)%segment_app.
    unfold main_step, at_shared. rewrite E, (load_end _ _ _ Hl). simpl.
    eexists _, (l1 ++ l2). split; [done|]. destruct l2 as [|n l2]; simpl in Hr.
    + subst o. rewrite app_nil_r in *. apply (inv_main_moves c); try done; try by rewrite HL.
      by apply i_lock_queue with l1.
    + destruct Hr as (-> & _). apply (inv_main_moves c); try done.
      * eapply unlock_queue; [exact H|]. by rewrite E.
      * by exists l1, l2.
      * unfold last_ok. simpl. destruct Hlast as [Hx|Hx]; [|done].
        by apply end_link_inj_app in Hx; [|by apply H].
  - unfold main_step, at_shared. rewrite E. simpl. eexists _, l. split; [done|].
    apply (inv_main_moves c); try done. by apply i_lock_queue with l.
  - unfold main_step. rewrite E. eexists _, l. split; [done|]. unfold spin_lock.
    destruct (lock c) eqn:EL; [done|]. destruct Hm as (-> & l1 & l2 & -> & -> & Hf).
    apply inv_main_locks; try done; destruct (d n) eqn:Hd; try done.
    + split; [done|]. by exists l1, l2.
    + exists (l1 ++ [n]), l2. rewrite <-app_assoc, end_link_snoc. split_and!; [done..|].
      apply Forall_app. split; [done|]. by apply Forall_singleton.
  - by eapply inv_unlink.
  - destruct (lock_held_main _ _ H) as [HL Hq]; [by rewrite E|].
    unfold main_step, at_shared. rewrite E. simpl. eexists _, l. split; [done|].
    apply (inv_main_moves c); try done; try by rewrite HL.
    all: first [by apply i_lock_queue with l | unfold last_ok; simpl; by rewrite HL].
  - destruct (lock_held_main _ _ H) as [HL Hq]; [by rewrite E|]. rewrite HL in Hlast.
    unfold main_step. rewrite E. eexists _, l. split; [done|]. apply (inv_main_moves c); try done.
    eapply unlock_queue; [exact H|]. by rewrite E.
Qed.

(** A step of a queueing thread that leaves the list as it is. *)
Lemma inv_queue_moves c l t q k s :
  inv c l → nexts s = nexts (shared c) → workQueue s = workQueue (shared c) →
  own q = own (qpc c t) →
  (∀ u, queue_inside (if decide (u = t) then q else qpc c u) = true ↔ k = Some (TQueue u)) →
  (main_inside (mpc c) = true ↔ k = Some TMain) →
  last_ok (mk_machine (mpc c) (<[t := q]> (qpcs c)) k s (queued c) (removed c)) l →
  inv (mk_machine (mpc c) (<[t := q]> (qpcs c)) k s (queued c) (removed c)) l.
Proof.
  intros [] E1 E2 E3 H1 H2 H3.
  set (c' := mk_machine _ _ _ _ _ _) in *.
  assert (∀ u, qpc c' u = if decide (u = t) then q else qpc c u) as Hq by apply (qpc_set c t q).
  assert (∀ u, own (qpc c' u) = own (qpc c u)) as Ho by (intros u; rewrite Hq; case_decide; congruence).
  constructor; simpl; rewrite ?E1, ?E2; try done.
  - intros n. by setoid_rewrite Ho.
  - intros u n. rewrite Ho. apply i_own0.
  - intros u u' n. rewrite !Ho. apply i_distinct0.
  - intros u. by rewrite Hq.
Qed.

Lemma lock_held_queue c l t : inv c l → queue_inside (qpc c t) = true →
  lock c = Some (TQueue t) ∧ main_inside (mpc c) = false
  ∧ ∀ u, u ≠ t → queue_inside (qpc c u) = false.
Proof.
  intros H E. apply (i_lock_queue _ _ H) in E. split_and!; [done| |].
  - apply not_true_is_false. rewrite (i_lock_main _ _ H), E. done.
  - intros u Hu. apply not_true_is_false. rewrite (i_lock_queue _ _ H), E. by intros [= ->].
Qed.

(** A thread gets a node. *)
Lemma inv_malloc c l t n :
  inv c l → qpc c t = QIdle → nexts (shared c) !! n = None →
  inv (c <| shared ::= λ s, s <| nexts ::= <[n := None]> |> |> <| qpcs ::= <[t := QLock n]> |>) l.
Proof.
  intros [] E Hn.
  set (c' := c <| shared ::= _ |> <| qpcs ::= _ |>).
  assert (∀ u, qpc c' u = if decide (u = t) then QLock n else qpc c u) as Hq by apply (qpc_set c t).
  assert (n ∉ l ∧ ∀ u, own (qpc c u) ≠ Some n) as [Hnl Hno].
  { split; [intros Hx|intros u Hx];
      assert (is_Some (nexts (shared c) !! n)) as [? Hs] by (apply i_dom0; eauto); by rewrite Hn in Hs. }
  constructor; simpl; try done.
  - eapply segment_agree; [|done]. intros x Hx. apply lookup_insert_ne. by intros ->.
  - intros x. rewrite lookup_insert_is_Some', i_dom0. setoid_rewrite Hq. split.
    + intros [->|[?|[u Hu]]]; [right; exists t; by rewrite decide_True|by left|right; exists u].
      case_decide; [subst; by rewrite E in Hu|done].
    + intros [?|[u Hu]]; [tauto|]. case_decide; [left; by injection Hu|]. right. right. eauto.
  - intros u x. rewrite Hq. case_decide.
    + intros [= <-]. split; [apply lookup_insert_eq|done].
    + intros Hu. destruct (i_own0 u x Hu). split; [|done]. rewrite lookup_insert_ne; [done|].
      intros ->. by apply (Hno u).
  - intros u u' x. rewrite !Hq. repeat case_decide; subst; try done; simpl.
    + intros [= <-] Hx. by destruct (Hno u').
    + intros Hx [= <-]. by destruct (Hno u).
    + apply i_distinct0.
  - intros u. rewrite Hq. case_decide; [|done]. subst. simpl. rewrite <-i_lock_queue0, E. done.
  - revert i_last0. unfold last_ok. fold c'. change (lock c') with (lock c). change (mpc c') with (mpc c).
    change (workQueueLast (shared c')) with (workQueueLast (shared c)).
    destruct (lock c) as [[|u]|] eqn:EL; try done. rewrite Hq. case_decide; [|done]. subst. by rewrite E.
Qed.

Lemma main_ok_snoc m l n : main_inside m = false → main_ok m l → main_ok m (l ++ [n]).
Proof.
  destruct m as [|p|p x|p x b|p x|p|]; try done; intros _.
  - intros (l1 & l2 & -> & ? & ?). exists l1, (l2 ++ [n]). by rewrite <-app_assoc.
  - intros (? & l1 & l2 & -> & ? & ?). split; [done|]. exists l1, (l2 ++ [n]). by rewrite <-app_assoc.
Qed.

(** The node is linked. *)
Lemma inv_link c l t n :
  inv c l → qpc c t = QLink n → ∃ c', queue_step t 0 c = Some c' ∧ inv c' (l ++ [n]).
Proof.
  intros H E. destruct (lock_held_queue c l t H) as (HL & Hm & Hu); [by rewrite E|].
  pose proof (i_last _ _ H) as Hlast. unfold last_ok in Hlast. rewrite HL, E in Hlast.
  destruct (i_own _ _ H t n) as [Hn Hnl]; [by rewrite E|].
  destruct (store_end (shared c) l None (Some n) (i_nodup _ _ H) (i_segment _ _ H)) as (s' & Es & S1 & S2 & S3 & _).
  assert (workQueueLast s' = workQueueLast (shared c)) as EL.
  { revert Es. unfold store. destruct (end_link l); mrun; [by intros [= <-]|].
    unfold load. mrun. destruct (nexts (shared c) !! n0); [|done]. by intros [= <-]. }
  unfold queue_step, at_shared. rewrite E, bind_get, Hlast, Es. simpl. eexists. split; [done|].
  match goal with |- inv ?x _ => set (c' := x) end.
  assert (∀ u, qpc c' u = if decide (u = t) then QLast n else qpc c u) as Hq by apply (qpc_set c t).
  pose proof H as [Hseg Hnd Hdom Hown Hdist Hlq Hlm Hmo _ Hk Ho].
  constructor; simpl; try done.
  - apply segment_app. exists (Some n). split; [done|]. split; [done|]. exists None. by rewrite S2.
  - apply NoDup_app. split_and!; [done| |apply NoDup_singleton]. intros x Hx ->%list_elem_of_singleton. done.
  - intros x. rewrite S3, Hdom, elem_of_app, list_elem_of_singleton. setoid_rewrite Hq. split.
    + intros [?|[u Hx]]; [tauto|]. destruct (decide (u = t)) as [->|Hut].
      * rewrite E in Hx. left. right. by injection Hx.
      * right. exists u. by rewrite decide_False.
    + intros [[?| ->]|[u Hx]]; [tauto|right; exists t; by rewrite E|].
      case_decide; [done|]. right. eauto.
  - intros u x. rewrite Hq. case_decide as Hut; [done|]. intros Hx. destruct (Hown u x Hx) as [H1 H2].
    rewrite S2 by done. split; [done|]. rewrite elem_of_app, list_elem_of_singleton. intros [?| ->]; [done|].
    apply Hut. apply (Hdist u t n Hx). by rewrite E.
  - intros u u' x. rewrite !Hq. repeat case_decide; try done. apply Hdist.
  - intros u. rewrite Hq. case_decide as Hut; [subst; by rewrite HL|]. apply Hlq.
  - by apply main_ok_snoc.
  - unfold last_ok. fold c'. change (lock c') with (lock c). rewrite HL, Hq, decide_True by done.
    exists l. split; [done|]. change (workQueueLast (shared c')) with (workQueueLast s'). by rewrite EL.
  - by rewrite Hk, <-app_assoc.
  - intros Hall. by rewrite Ho, <-app_assoc.
Qed.

Lemma inv_queue_step c l t n : inv c l → ∃ c' l', queue_step t n c = Some c' ∧ inv c' l'.
Proof.
  intros H. destruct (qpc c t) as [|x|x|x|] eqn:E.
  - unfold queue_step, at_shared. rewrite E. destruct (nexts (shared c) !! n) eqn:En; [by exists c, l|].
    eexists _, l. split; [done|]. by apply inv_malloc.
  - unfold queue_step. rewrite E. eexists _, l. split; [done|]. unfold spin_lock.
    destruct (lock c) eqn:EL; [done|]. destruct (lock_free _ _ H EL) as (Hq & Hm & Hlast).
    apply (inv_queue_moves c); try done.
    + by rewrite E.
    + intros u. case_decide; [by subst|]. rewrite Hq. split; [done|]. by intros [= ->].
    + rewrite Hm. done.
    + unfold last_ok. simpl. unfold qpc. simpl. by rewrite lookup_insert_eq.
  - destruct (inv_link c l t x H E) as (c' & Ec & Hc). exists c', (l ++ [x]). split; [|done].
    revert Ec. unfold queue_step. by rewrite E.
  - destruct (lock_held_queue c l t H) as (HL & Hm & Hu); [by rewrite E|].
    pose proof (i_last _ _ H) as Hlast. unfold last_ok in Hlast. rewrite HL, E in Hlast.
    destruct Hlast as (l' & -> & _).
    unfold queue_step, at_shared. rewrite E. simpl. eexists _, _. split; [done|].
    apply (inv_queue_moves c); try done.
    + by rewrite E.
    + intros u. rewrite HL. case_decide; [by subst|]. rewrite Hu by done. split; [done|]. by intros [= ->].
    + apply H.
    + unfold last_ok. simpl. rewrite HL. unfold qpc. simpl. by rewrite lookup_insert_eq, end_link_snoc.
  - destruct (lock_held_queue c l t H) as (HL & Hm & Hu); [by rewrite E|].
    pose proof (i_last _ _ H) as Hlast. unfold last_ok in Hlast. rewrite HL, E in Hlast.
    unfold queue_step. rewrite E. eexists _, _. split; [done|].
    apply (inv_queue_moves c); try done.
    + by rewrite E.
    + intros u. case_decide; [done|]. by rewrite Hu.
    + by rewrite Hm.
Qed.

Lemma inv_run ts : ∀ c l, inv c l → ∃ c' l', machine_run d ts c = Some c' ∧ inv c' l'.
Proof.
  induction ts as [|t ts IH]; intros c l H; [by exists c, l|].
  assert (∃ c' l', machine_step d t c = Some c' ∧ inv c' l') as (c1 & l1 & E & H1).
  { destruct t; [by eapply inv_main_step|by eapply inv_queue_step]. }
  cbn [machine_run]. rewrite E. by apply (IH c1 l1).
Qed.

Lemma inv_idle : inv idle_machine [].
Proof.
  constructor; simpl; try done.
  - constructor.
  - intros n. rewrite lookup_empty. split; [by intros []|].
    intros [?%not_elem_of_nil|[t Ht]]; [done|]. unfold qpc in Ht. simpl in Ht. by rewrite lookup_empty in Ht.
Qed.

(** *** Calls and removals *)

(** A node whose call returned [TRUE] and that is still linked. *)
Definition pending (m : main_pc) : list Z :=
  match m with MBack _ n true | MUnlink _ n => [n] | _ => [] end.

(** The nodes unlinked are those whose calls returned [TRUE], in the order of the calls. *)
Record calls_ok (c : machine) : Prop := mk_calls_ok {
  co_calls : filter (λ n, d n = true) (called (shared c)) = removed c ++ pending (mpc c);
  co_answer : ∀ p n b, mpc c = MBack p n b → b = d n
}.

Lemma load_shared l s a s' : load l s = Some (a, s') → s' = s.
Proof. destruct l; unfold load; mrun; [by intros [= <- <-]|]. destruct (nexts s !! n); [|done]. by intros [= <- <-]. Qed.

Lemma store_called l v s a s' : store l v s = Some (a, s') → called s' = called s.
Proof.
  destruct l; unfold store; mrun; [by intros [= <- <-]|].
  destruct (load (Next n) s) as [[x s1]|] eqn:E; [|done]. apply load_shared in E as ->. by intros [= <- <-].
Qed.

Lemma calls_main_step c c' : calls_ok c → main_step d c = Some c' → calls_ok c'.
Proof.
  intros [H1 H2]. unfold main_step, at_shared, spin_lock. destruct (mpc c) as [|p|p n|p n b|p n|p|] eqn:E.
  - intros [= <-]. destruct (lock c); constructor; simpl; rewrite ?E in *; done.
  - destruct (load p (shared c)) as [[q s]|] eqn:El; [|done]. apply load_shared in El as ->. simpl.
    intros [= <-]. destruct q; constructor; simpl; by rewrite ?app_nil_r in *.
  - simpl. intros [= <-]. constructor; simpl; [|by intros ??? [= _ <- <-]].
    rewrite filter_app, H1. simpl. rewrite app_nil_r. f_equal. unfold filter. simpl.
    by destruct (d n); case_decide.
  - intros [= <-]. pose proof (H2 _ _ _ eq_refl) as ->. destruct (lock c); [by constructor; rewrite ?E|].
    constructor; simpl; [|by destruct (d n)]. rewrite H1. by destruct (d n).
  - mrun. simpl. destruct (load (Next n) (shared c)) as [[v s1]|] eqn:El; [|done]. apply load_shared in El as ->.
    destruct (store p v (shared c)) as [[u s2]|] eqn:Es; [|done]. apply store_called in Es. simpl.
    intros [= <-]. constructor; simpl; [|done]. by rewrite Es, H1, app_nil_r.
  - simpl. intros [= <-]. by constructor.
  - intros [= <-]. by constructor.
Qed.

Lemma calls_queue_step t n c c' : calls_ok c → queue_step t n c = Some c' → calls_ok c'.
Proof.
  intros [H1 H2]. unfold queue_step, at_shared, spin_lock. destruct (qpc c t) as [|m|m|m|].
  - destruct (nexts (shared c) !! n); [intros [= <-]; by constructor|]. simpl. intros [= <-]. by constructor.
  - intros [= <-]. destruct (lock c); by constructor.
  - rewrite bind_get. destruct (store _ _ (shared c)) as [[u s2]|] eqn:Es; [|done]. apply store_called in Es. simpl.
    intros [= <-]. constructor; simpl; [by rewrite Es|done].
  - simpl. intros [= <-]. by constructor.
  - intros [= <-]. by constructor.
Qed.

Lemma calls_run ts : ∀ c c', calls_ok c → machine_run d ts c = Some c' → calls_ok c'.
Proof.
  induction ts as [|t ts IH]; intros c c' H; cbn [machine_run]; [by intros [= <-]|].
  intros (c1 & E & Er)%bind_Some. eapply IH; [|exact Er].
  destruct t; [by eapply calls_main_step|by eapply calls_queue_step].
Qed.

(** C19: Nothing is lost between the threads: for every interleaving of the main thread with any number of
    threads that queue, no step touches a node that is gone, and every procedure that was linked is either
    unlinked or in the list; the procedures unlinked are exactly those whose call returned [TRUE], in the
    order of these calls, but for one that the main thread is about to unlink; when no call is under way,
    the list is well formed and the next scan calls all of it.  If every procedure returns [TRUE], they are
    unlinked in the order they were linked. *)
Theorem work_never_lost ts :
  ∃ c l, machine_run d ts idle_machine = Some c
    ∧ queued c ≡ₚ removed c ++ l
    ∧ filter (λ n, d n = true) (called (shared c)) = removed c ++ pending (mpc c)
    ∧ ((∀ n, d n = true) → queued c = removed c ++ l)
    ∧ (mpc c = MIdle → (∀ t, qpc c t = QIdle) →
       queue_of (shared c) l
       ∧ ∃ s', ProcessWorkQueue d (shared c) = Some ((), s') ∧ called s' = called (shared c) ++ l).
Proof.
  destruct (inv_run ts _ _ inv_idle) as (c & l & E & H). exists c, l.
  split; [done|]. split; [by apply H|].
  split; [by apply (calls_run ts idle_machine c); [constructor|]|]. split; [by apply H|]. intros Hm Hq.
  assert (queue_of (shared c) l) as Q.
  { destruct H. constructor; try done.
    - destruct (lock c) as [[|t]|] eqn:EL.
      + destruct i_lock_main0 as [_ Hx]. rewrite Hm in Hx. by specialize (Hx eq_refl).
      + specialize (i_lock_queue0 t) as [_ Hx]. rewrite Hq in Hx. by specialize (Hx eq_refl).
      + revert i_last0. unfold last_ok. by rewrite EL.
    - intros n. rewrite i_dom0. split; [|by left]. intros [?|[t Ht]]; [done|]. by rewrite Hq in Ht. }
  split; [done|]. destruct (process_run d _ _ Q) as (s' & Es & _ & Cs). by exists s'.
Qed.
End threads.
Lemma empty_queue : queue_of empty_wq [].
Proof.
  split; [done|constructor|done|]. intros n. simpl. rewrite lookup_empty.
  split; [by intros []|by intros []%not_elem_of_nil].
Qed.

Lemma work_refines_queue_witness :
  ∃ s', for_each [OQueue 1; OQueue 2; OProcess; OQueue 1; OProcess] (run_op (λ _, true)) empty_wq = Some ((), s')
    ∧ called s' = [1; 2; 1].
Proof.
  destruct (work_refines_queue (λ _, true) [OQueue 1; OQueue 2; OProcess; OQueue 1; OProcess] empty_wq [] [] [1; 2; 1])
    as (s' & E & _ & C).
  - exact empty_queue.
  - vm_compute. reflexivity.
  - exists s'. split; [exact E|exact C].
Defined.

