(* ===== verification/Wire.v ===== *)
(** * Messages between the activity and the server ([lorie/lorie.h], [lorie/activity.cpp])

    The two processes write [lorieEvent], a union of 24 bytes, as it is in
    memory; some events are followed by text or by a descriptor.  Here are the
    layout of the union, its members by name, what the natives of [LorieView]
    write, and what the server reads back.

    Numbers are little-endian and aligned as on a 64-bit machine.  Padding is
    whatever it was: an event is written over 24 bytes of any contents. *)

From stdpp Require Import list.
From S2P Require Import Prelude Text Ancil.

(** ** The union *)

Definition event_size : nat := 24.

Definition EVENT_SCREEN_SIZE : Z := 4.
Definition EVENT_TOUCH : Z := 5.
Definition EVENT_MOUSE : Z := 6.
Definition EVENT_KEY : Z := 7.
Definition EVENT_STYLUS : Z := 8.
Definition EVENT_STYLUS_ENABLE : Z := 9.
Definition EVENT_UNICODE : Z := 10.
Definition EVENT_CLIPBOARD_ENABLE : Z := 11.
Definition EVENT_CLIPBOARD_ANNOUNCE : Z := 12.
Definition EVENT_CLIPBOARD_REQUEST : Z := 13.
Definition EVENT_CLIPBOARD_SEND : Z := 14.
Definition EVENT_WINDOW_FOCUS_CHANGED : Z := 15.
Definition EVENT_RENDERER_WAKEUP_COND : Z := 16.
Definition EVENT_GPU_COPY_DONE : Z := 17.
Definition EVENT_LOCK_KEYS_STATE : Z := 18.

(** The number in [n] bytes at an offset, and bytes stored there. *)
Definition field (off n : nat) (e : list Z) : Z := le_value (take n (drop off e)).
Definition put (off : nat) (bs : list Z) (e : list Z) : list Z :=
  take off e ++ bs ++ drop (off + length bs) e.

(** The members; [float]s are the bits of binary32. *)
Inductive lorieEvent :=
| ScreenSize (width height framerate name_size : Z)
| TouchEvent (type id x y : Z)
| MouseEvent (x y detail down relative : Z)
| KeyEvent (key state : Z)
| StylusEvent (x y pressure tilt_x tilt_y orientation buttons eraser mouse : Z)
| StylusEnable (enable : Z)
| Unicode (code : Z)
| ClipboardEnable (enable : Z)
| ClipboardSend (count : Z)
| LockKeysState (state : Z)
| Plain (type : Z).

Definition tag (m : lorieEvent) : Z :=
  match m with
  | ScreenSize _ _ _ _ => EVENT_SCREEN_SIZE
  | TouchEvent _ _ _ _ => EVENT_TOUCH
  | MouseEvent _ _ _ _ _ => EVENT_MOUSE
  | KeyEvent _ _ => EVENT_KEY
  | StylusEvent _ _ _ _ _ _ _ _ _ => EVENT_STYLUS
  | StylusEnable _ => EVENT_STYLUS_ENABLE
  | Unicode _ => EVENT_UNICODE
  | ClipboardEnable _ => EVENT_CLIPBOARD_ENABLE
  | ClipboardSend _ => EVENT_CLIPBOARD_SEND
  | LockKeysState _ => EVENT_LOCK_KEYS_STATE
  | Plain t => t
  end.

(** Offset, width and value of each member. *)
Definition members (m : lorieEvent) : list (nat * nat * Z) :=
  match m with
  | ScreenSize w h f n => [(2%nat, 2%nat, w); (4%nat, 2%nat, h); (6%nat, 2%nat, f); (8%nat, 8%nat, n)]
  | TouchEvent t i x y => [(2%nat, 2%nat, t); (4%nat, 2%nat, i); (6%nat, 2%nat, x); (8%nat, 2%nat, y)]
  | MouseEvent x y d u r =>
    [(4%nat, 4%nat, x); (8%nat, 4%nat, y); (12%nat, 1%nat, d); (13%nat, 1%nat, u); (14%nat, 1%nat, r)]
  | KeyEvent k s => [(2%nat, 2%nat, k); (4%nat, 1%nat, s)]
  | StylusEvent x y p tx ty o b er mo =>
    [(4%nat, 4%nat, x); (8%nat, 4%nat, y); (12%nat, 2%nat, p); (14%nat, 1%nat, tx); (15%nat, 1%nat, ty);
     (16%nat, 2%nat, o); (18%nat, 1%nat, b); (19%nat, 1%nat, er); (20%nat, 1%nat, mo)]
  | StylusEnable en | ClipboardEnable en => [(1%nat, 1%nat, en)]
  | Unicode c => [(4%nat, 4%nat, c)]
  | ClipboardSend n => [(4%nat, 4%nat, n)]
  | LockKeysState s => [(1%nat, 1%nat, s)]
  | Plain _ => []
  end.

Definition put_member (e : list Z) (f : nat * nat * Z) : list Z := put f.1.1 (le_bytes f.1.2 f.2) e.

(** The bytes of an event, over padding. *)
Definition encode (pad : list Z) (m : lorieEvent) : list Z :=
  foldl put_member pad ((0%nat, 1%nat, tag m) :: members m).

(** What [switch (e.type)] and the members of the union read; a type without
    members of its own is [Plain]. *)
Definition decode (e : list Z) : lorieEvent :=
  let t := field 0 1 e in
  if t =? EVENT_SCREEN_SIZE then ScreenSize (field 2 2 e) (field 4 2 e) (field 6 2 e) (field 8 8 e)
  else if t =? EVENT_TOUCH then TouchEvent (field 2 2 e) (field 4 2 e) (field 6 2 e) (field 8 2 e)
  else if t =? EVENT_MOUSE
  then MouseEvent (field 4 4 e) (field 8 4 e) (field 12 1 e) (field 13 1 e) (field 14 1 e)
  else if t =? EVENT_KEY then KeyEvent (field 2 2 e) (field 4 1 e)
  else if t =? EVENT_STYLUS
  then StylusEvent (field 4 4 e) (field 8 4 e) (field 12 2 e) (wrapS 8 (field 14 1 e)) (wrapS 8 (field 15 1 e))
         (wrapS 16 (field 16 2 e)) (field 18 1 e) (field 19 1 e) (field 20 1 e)
  else if t =? EVENT_STYLUS_ENABLE then StylusEnable (field 1 1 e)
  else if t =? EVENT_UNICODE then Unicode (field 4 4 e)
  else if t =? EVENT_CLIPBOARD_ENABLE then ClipboardEnable (field 1 1 e)
  else if t =? EVENT_CLIPBOARD_SEND then ClipboardSend (field 4 4 e)
  else if t =? EVENT_LOCK_KEYS_STATE then LockKeysState (field 1 1 e)
  else Plain t.

(** The members have the widths of the structure. *)
Definition event_ok (m : lorieEvent) : Prop :=
  match m with
  | ScreenSize w h f n => inU 16 w ∧ inU 16 h ∧ inU 16 f ∧ inU 64 n
  | TouchEvent t i x y => inU 16 t ∧ inU 16 i ∧ inU 16 x ∧ inU 16 y
  | MouseEvent x y d u r => inU 32 x ∧ inU 32 y ∧ inU 8 d ∧ inU 8 u ∧ inU 8 r
  | KeyEvent k s => inU 16 k ∧ inU 8 s
  | StylusEvent x y p tx ty o b er mo =>
    inU 32 x ∧ inU 32 y ∧ inU 16 p ∧ inS 8 tx ∧ inS 8 ty ∧ inS 16 o ∧ inU 8 b ∧ inU 8 er ∧ inU 8 mo
  | StylusEnable en | ClipboardEnable en | LockKeysState en => inU 8 en
  | Unicode c => inU 32 c
  | ClipboardSend n => inU 32 n
  | Plain t => t ∈ [EVENT_CLIPBOARD_ANNOUNCE; EVENT_CLIPBOARD_REQUEST; EVENT_WINDOW_FOCUS_CHANGED;
                    EVENT_RENDERER_WAKEUP_COND; EVENT_GPU_COPY_DONE]
  end.

(** ** Reading back *)

Lemma length_put off bs e : (off + length bs ≤ length e)%nat → length (put off bs e) = length e.
Proof. intros H. unfold put. rewrite !length_app, length_take, length_drop. lia. Qed.

Lemma field_put_same off n v e :
  (off + n ≤ length e)%nat → field off n (put off (le_bytes n v) e) = v mod 2 ^ (8 * Z.of_nat n).
Proof.
  intros H. unfold field, put. rewrite drop_app_length' by (rewrite length_take; lia).
  rewrite take_app_length' by (by rewrite length_le_bytes). apply le_value_bytes.
Qed.

Lemma field_put_other off n off' n' v e :
  (off' + n' ≤ off)%nat ∨ (off + n ≤ off')%nat → (off + n ≤ length e)%nat →
  field off' n' (put off (le_bytes n v) e) = field off' n' e.
Proof.
  intros Hd H. unfold field. f_equal. unfold put. apply list_eq. intros i.
  destruct (decide (i < n')%nat) as [Hi|Hi]; [|by rewrite !lookup_take_ge by lia].
  rewrite !lookup_take_lt, !lookup_drop by done. rewrite length_le_bytes. destruct Hd as [Hd|Hd].
  - rewrite lookup_app_l by (rewrite length_take; lia). by rewrite lookup_take_lt by lia.
  - rewrite lookup_app_r by (rewrite length_take; lia). rewrite length_take, Nat.min_l by lia.
    rewrite lookup_app_r by (rewrite length_le_bytes; lia). rewrite length_le_bytes, lookup_drop. f_equal. lia.
Qed.

(** Members that do not overlap and are inside the union. *)
Definition apart (f g : nat * nat * Z) : bool :=
  ((f.1.1 + f.1.2 <=? g.1.1) || (g.1.1 + g.1.2 <=? f.1.1))%nat.
Fixpoint laid_out (fs : list (nat * nat * Z)) : bool :=
  match fs with
  | [] => true
  | f :: fs' => (f.1.1 + f.1.2 <=? event_size)%nat && forallb (apart f) fs' && laid_out fs'
  end.

Lemma length_members fs e : laid_out fs = true → length e = event_size → length (foldl put_member e fs) = event_size.
Proof.
  revert e. induction fs as [|f fs IH]; intros e; simpl; [done|]. intros H He. apply IH; [by destruct (laid_out fs); rewrite ?andb_false_r in H|].
  unfold put_member. rewrite length_put; [done|]. rewrite length_le_bytes, He.
  destruct (Nat.leb_spec (f.1.1 + f.1.2) event_size); [lia|done].
Qed.

Lemma field_skip off n fs e :
  laid_out fs = true → forallb (apart (off, n, 0)) fs = true → length e = event_size →
  field off n (foldl put_member e fs) = field off n e.
Proof.
  revert e. induction fs as [|f fs IH]; intros e; simpl; [done|].
  intros [[H1 H2]%andb_prop H3]%andb_prop [A1 A2]%andb_prop He.
  assert (f.1.1 + f.1.2 ≤ event_size)%nat as Hf by (by apply Nat.leb_le).
  rewrite IH; try done.
  - unfold put_member. apply field_put_other; [|lia]. unfold apart in A1. simpl in A1.
    apply orb_prop in A1 as [A1|A1]; apply Nat.leb_le in A1; lia.
  - unfold put_member. rewrite length_put; [done|]. rewrite length_le_bytes. lia.
Qed.

Lemma field_member off n v fs e :
  laid_out fs = true → (off, n, v) ∈ fs → length e = event_size →
  field off n (foldl put_member e fs) = v mod 2 ^ (8 * Z.of_nat n).
Proof.
  revert e. induction fs as [|f fs IH]; intros e; [intros _ []%not_elem_of_nil|]. simpl.
  intros [[H1 H2]%andb_prop H3]%andb_prop Hin He.
  assert (f.1.1 + f.1.2 ≤ event_size)%nat as Hf by (by apply Nat.leb_le).
  assert (length (put_member e f) = event_size) as He'.
  { unfold put_member. rewrite length_put; [done|]. rewrite length_le_bytes, He. done. }
  apply elem_of_cons in Hin as [<-|Hin]; [|by apply IH]. simpl in *.
  rewrite field_skip; try done. unfold put_member. simpl. apply field_put_same. lia.
Qed.

Lemma members_laid_out m : laid_out ((0%nat, 1%nat, tag m) :: members m) = true.
Proof. destruct m; reflexivity. Qed.

Lemma length_encode pad m : length pad = event_size → length (encode pad m) = event_size.
Proof. intros H. apply length_members; [apply members_laid_out|done]. Qed.

Lemma encode_field pad m off n v :
  length pad = event_size → (off, n, v) ∈ (0%nat, 1%nat, tag m) :: members m →
  field off n (encode pad m) = v mod 2 ^ (8 * Z.of_nat n).
Proof. intros Hp Hin. by apply field_member; [apply members_laid_out| |]. Qed.

Ltac in_members := repeat first [apply list_elem_of_here|apply list_elem_of_further].

Lemma mod_small_U w v : inU w v → v mod 2 ^ w = v.
Proof. apply Z.mod_small. Qed.

Lemma mod_wrapS w v : 0 < w → inS w v → wrapS w (v mod 2 ^ w) = v.
Proof.
  intros Hw Hv. unfold wrapS. rewrite Zplus_mod_idemp_l. fold (wrapS w v). by apply wrapS_id.
Qed.

(** Rewrites every field of an encoded event to its value. *)
Ltac read_fields Hp :=
  repeat match goal with
  | |- context [field ?off ?n (encode ?pad ?m)] =>
    erewrite (encode_field pad m off n) by (exact Hp || (cbn [members tag]; in_members))
  end.

Lemma tag_small m : event_ok m → tag m mod 2 ^ (8 * Z.of_nat 1) = tag m.
Proof.
  destruct m; try reflexivity. simpl. intros Hm.
  repeat (apply elem_of_cons in Hm as [->|Hm]; [reflexivity|]). by apply not_elem_of_nil in Hm.
Qed.

Lemma event_decoded pad m : length pad = event_size → event_ok m → decode (encode pad m) = m.
Proof.
  intros Hp Hm. unfold decode. rewrite (encode_field pad m 0 1 (tag m)) by (done || in_members).
  rewrite tag_small by done. destruct m; cbn -[field encode wrapS]; unfold event_ok in Hm; read_fields Hp;
    cbn [Z.of_nat Z.mul]; destruct_and?; try (f_equal; first [by apply mod_small_U|by apply mod_wrapS]).
  repeat (apply elem_of_cons in Hm as [->|Hm]; [reflexivity|]). by apply not_elem_of_nil in Hm.
Qed.

(** An event survives the socket: the server reads from the 24 bytes that the activity wrote the
    same event with the same members, signed ones included, whatever the padding held. *)
Theorem event_roundtrip pad m :
  length pad = event_size → event_ok m → decode (encode pad m) = m.
Proof. apply event_decoded. Qed.

(** ** What the activity writes ([activity.cpp]) *)

(** An event with what follows it: bytes, or one byte that carries a descriptor. *)
Record packet := mk_packet { ev : lorieEvent; payload : list Z; rights : option Z }.

Definition plain (m : lorieEvent) : packet := mk_packet m [] None.

(** Calls of the natives of [LorieView], with the arguments Java passes; [jint]
    is 32 bits wide, a [jfloat] is its bits, an array or string may be null. *)
Inductive native :=
| connect (fd : Z)
| setClipboardSyncEnabled (enable : bool)
| sendClipboardAnnounce
| sendClipboardEvent (bytes : option (list Z))
| sendWindowChange (width height framerate : Z) (name : option (list Z))
| sendMouseEvent (x y which_button : Z) (button_down relative : bool)
| sendTouchEvent (action id x y : Z)
| sendStylusEvent (x y pressure tilt_x tilt_y orientation buttons : Z) (eraser mouse : bool)
| requestStylusEnabled (enabled : bool)
| sendLockKeysState (state : Z)
| sendKeyEvent (scan_code key_code : Z) (key_down : bool)
| sendTextEvent (bytes : option (list Z)).

(** [mbrtowc] at a position: the length it answers, with -1 and -2 for bytes that
    are no character, and the character; and the descriptor of the renderer's
    condition variable. *)
Record aenv := mk_aenv {
  mbrtowc : list Z → Z * Z;
  getWakeupCondFd : Z
}.

(** [android_to_linux_keycode] of [lorie.h]: the entries that are given, with the
    values of the [KEY_] constants of Linux; the others are 0. *)
Definition keycode_entries : list (nat * Z) := [
   (4%nat, 1); (7%nat, 11); (8%nat, 2); (9%nat, 3); (10%nat, 4); (11%nat, 5); (12%nat, 6); (13%nat, 7);
   (14%nat, 8); (15%nat, 9); (16%nat, 10); (17%nat, 55); (19%nat, 103); (20%nat, 108); (21%nat, 105);
   (22%nat, 106); (23%nat, 28); (24%nat, 115); (25%nat, 114); (26%nat, 116); (27%nat, 212); (28%nat, 355);
   (29%nat, 30); (30%nat, 48); (31%nat, 46); (32%nat, 32); (33%nat, 18); (34%nat, 33); (35%nat, 34);
   (36%nat, 35); (37%nat, 23); (38%nat, 36); (39%nat, 37); (40%nat, 38); (41%nat, 50); (42%nat, 49);
   (43%nat, 24); (44%nat, 25); (45%nat, 16); (46%nat, 19); (47%nat, 31); (48%nat, 20); (49%nat, 22);
   (50%nat, 47); (51%nat, 17); (52%nat, 45); (53%nat, 21); (54%nat, 44); (55%nat, 51); (56%nat, 52);
   (57%nat, 56); (58%nat, 100); (59%nat, 42); (60%nat, 54); (61%nat, 15); (62%nat, 57); (64%nat, 150);
   (65%nat, 155); (66%nat, 28); (67%nat, 14); (68%nat, 41); (69%nat, 12); (70%nat, 13); (71%nat, 26);
   (72%nat, 27); (73%nat, 43); (74%nat, 39); (75%nat, 40); (76%nat, 53); (81%nat, 78); (82%nat, 438);
   (84%nat, 217); (85%nat, 164); (86%nat, 625); (87%nat, 163); (88%nat, 165); (89%nat, 168); (90%nat, 208);
   (91%nat, 113); (92%nat, 104); (93%nat, 109); (111%nat, 1); (112%nat, 111); (113%nat, 29); (114%nat, 97);
   (115%nat, 58); (116%nat, 70); (117%nat, 125); (118%nat, 126); (120%nat, 210); (121%nat, 411);
   (122%nat, 102); (123%nat, 107); (124%nat, 110); (125%nat, 159); (126%nat, 200); (127%nat, 201);
   (128%nat, 160); (129%nat, 161); (130%nat, 167); (131%nat, 59); (132%nat, 60); (133%nat, 61); (134%nat, 62);
   (135%nat, 63); (136%nat, 64); (137%nat, 65); (138%nat, 66); (139%nat, 67); (140%nat, 68); (141%nat, 87);
   (142%nat, 88); (143%nat, 69); (144%nat, 82); (145%nat, 79); (146%nat, 80); (147%nat, 81); (148%nat, 75);
   (149%nat, 76); (150%nat, 77); (151%nat, 71); (152%nat, 72); (153%nat, 73); (154%nat, 98); (155%nat, 55);
   (156%nat, 74); (157%nat, 78); (158%nat, 83); (159%nat, 121); (160%nat, 96); (161%nat, 117); (162%nat, 179);
   (163%nat, 180); (164%nat, 113); (165%nat, 358); (166%nat, 402); (167%nat, 403); (168%nat, 418);
   (169%nat, 419); (170%nat, 377); (208%nat, 397); (210%nat, 140)].
Definition android_to_linux_keycode : list Z :=
  foldl (λ l p, <[p.1 := p.2]> l) (replicate 304 0) keycode_entries.

(** The loop of [sendTextEvent] from [p] on; reading behind the array has no
    result. *)
Fixpoint text_codes (fuel : nat) (a : aenv) (p : list Z) : option (list Z) :=
  match fuel with
  | O => None
  | S fuel' =>
    match p with
    | [] => None
    | c :: _ =>
      if c =? 0 then Some []
      else
        let '(len, wc) := mbrtowc a p in
        if len <=? 0 then Some []
        else if Z.of_nat (length p) <=? len then Some [u32 wc]
        else cs ← text_codes fuel' a (drop (Z.to_nat len) p); Some (u32 wc :: cs)
    end
  end.

Definition Z_of_bool (b : bool) : Z := if b then 1 else 0.

(** A key code outside the table has no result. *)
Definition key_packets (scan_code key_code : Z) (key_down : bool) : option (list packet) :=
  match (if negb (scan_code =? 0) then Some scan_code
         else if key_code <? 0 then None else android_to_linux_keycode !! Z.to_nat key_code) with
  | Some code => Some [plain (KeyEvent (u16 (code + 8)) (Z_of_bool key_down))]
  | None => None
  end.

Definition text_packets (a : aenv) (bs : list Z) : option (list packet) :=
  if (length bs =? 0)%nat then Some []
  else
    match text_codes (S (length bs)) a bs with
    | Some cs => Some ((λ c, plain (Unicode c)) <$> cs)
    | None => None
    end.

(** The packets a call writes while connected; [connect], always. *)
Definition written (a : aenv) (c : native) : option (list packet) :=
  match c with
  | connect fd =>
    Some (if fd =? -1 then [] else [mk_packet (Plain EVENT_RENDERER_WAKEUP_COND) [] (Some (getWakeupCondFd a))])
  | setClipboardSyncEnabled en => Some [plain (ClipboardEnable (Z_of_bool en))]
  | sendClipboardAnnounce => Some [plain (Plain EVENT_CLIPBOARD_ANNOUNCE)]
  | sendClipboardEvent None => Some []
  | sendClipboardEvent (Some bs) => Some [mk_packet (ClipboardSend (u32 (Z.of_nat (length bs)))) bs None]
  | sendWindowChange w h f nm =>
    let name := match nm with Some n => if (w <=? 0) || (h <=? 0) then [] else n | None => [] end in
    Some [mk_packet (ScreenSize (u16 w) (u16 h) (u16 f) (Z.of_nat (length name))) name None]
  | sendMouseEvent x y b d r => Some [plain (MouseEvent x y (u8 b) (Z_of_bool d) (Z_of_bool r))]
  | sendTouchEvent act i x y =>
    Some (if act =? -1 then [] else [plain (TouchEvent (u16 act) (u16 i) (u16 x) (u16 y))])
  | sendStylusEvent x y p tx ty o b er mo =>
    Some [plain (StylusEvent x y (u16 p) (wrapS 8 tx) (wrapS 8 ty) (wrapS 16 o) (u8 b)
                   (Z_of_bool er) (Z_of_bool mo))]
  | requestStylusEnabled en => Some [plain (StylusEnable (Z_of_bool en))]
  | sendLockKeysState st => Some [plain (LockKeysState (u8 st))]
  | sendKeyEvent sc kc down => key_packets sc kc down
  | sendTextEvent None => Some []
  | sendTextEvent (Some bs) => text_packets a bs
  end.

(** A call; the state is [connFd]. *)
Definition native_call (a : aenv) (c : native) : M Z (list packet) :=
  match c with
  | connect fd => modify (λ _, fd) ;; of_option (written a c)
  | _ => connFd ← get; if connFd =? -1 then mret [] else of_option (written a c)
  end.

Fixpoint written_all (a : aenv) (cs : list native) : M Z (list packet) :=
  match cs with
  | [] => mret []
  | c :: cs' => ps ← native_call a c; qs ← written_all a cs'; mret (ps ++ qs)
  end.

(** What Java can pass: floats are 32 bits, arrays and strings are shorter than
    [2^31]; and a key event has a scan code, or a key code that the table covers. *)
Definition call_ok (c : native) : Prop :=
  match c with
  | sendClipboardEvent (Some bs) => Z.of_nat (length bs) < 2 ^ 31
  | sendWindowChange _ _ _ (Some nm) => Z.of_nat (length nm) < 2 ^ 32
  | sendMouseEvent x y _ _ _ => inU 32 x ∧ inU 32 y
  | sendStylusEvent x y _ _ _ _ _ _ _ => inU 32 x ∧ inU 32 y
  | sendKeyEvent sc kc _ => sc ≠ 0 ∨ 0 ≤ kc < 304
  | _ => True
  end.

(** The event announces what follows it. *)
Definition packet_ok (p : packet) : Prop :=
  event_ok (ev p) ∧
  match ev p with
  | ScreenSize _ _ _ n | ClipboardSend n => n = Z.of_nat (length (payload p)) ∧ rights p = None
  | Plain t => payload p = [] ∧ (t = EVENT_RENDERER_WAKEUP_COND ↔ is_Some (rights p))
  | _ => payload p = [] ∧ rights p = None
  end.

Lemma bool_byte b : inU 8 (Z_of_bool b).
Proof. unfold inU. destruct b; simpl; lia. Qed.

#[local] Hint Resolve bool_byte : core.
#[local] Hint Extern 1 (inU _ (wrapU _ _)) => apply wrapU_range; lia : core.
#[local] Hint Extern 1 (inS _ (wrapS _ _)) => apply wrapS_range; lia : core.

Lemma text_codes_ok fuel a p cs : text_codes fuel a p = Some cs → Forall (inU 32) cs.
Proof.
  revert p cs. induction fuel as [|fuel IH]; intros p cs; simpl; [done|]. destruct p as [|c p]; [done|].
  case_match; [by intros [= <-]|]. destruct (mbrtowc a (c :: p)) as [len wc].
  case_match; [by intros [= <-]|]. case_match; [intros [= <-]; apply Forall_singleton; auto|].
  intros (cs' & H' & [= <-])%bind_Some. constructor; [auto|]. by eapply IH.
Qed.

Lemma text_codes_total a fuel : ∀ p,
  (0 < length p < fuel)%nat → is_Some (text_codes fuel a p).
Proof.
  induction fuel as [|fuel IH]; intros p Hl; [lia|]. destruct p as [|c p]; [simpl in Hl; lia|]. cbn [text_codes].
  case_match; [by eexists|]. destruct (mbrtowc a (c :: p)) as [len wc].
  destruct (Z.leb_spec len 0); [by eexists|]. destruct (Z.leb_spec (Z.of_nat (length (c :: p))) len); [by eexists|].
  destruct (IH (drop (Z.to_nat len) (c :: p))) as [cs ->]; [rewrite length_drop; simpl in *; lia|]. by eexists.
Qed.

Lemma keycodes_length : length android_to_linux_keycode = 304%nat.
Proof. vm_compute. reflexivity. Qed.

Lemma written_total a c : call_ok c → is_Some (written a c).
Proof.
  destruct c as [fd|en| |[bs|]|w h f nm|x y b d r|act i x y|x y p tx ty o b er mo|en|st|sc kc dn|[bs|]];
    simpl; try (by eexists).
  - intros Hk. unfold key_packets. destruct (Z.eqb_spec sc 0) as [->|Hs]; cbn [negb]; [|by eexists].
    destruct Hk as [|Hk]; [done|]. destruct (Z.ltb_spec kc 0); [lia|].
    destruct (lookup_lt_is_Some_2 android_to_linux_keycode (Z.to_nat kc)) as [x ->]; [|by eexists].
    rewrite keycodes_length. lia.
  - intros _. unfold text_packets. destruct bs as [|b bs]; [by eexists|]. cbn [length Nat.eqb].
    destruct (text_codes_total a (S (length (b :: bs))) (b :: bs)) as [cs E]; [simpl; lia|].
    cbn [length] in E. rewrite E. by eexists.
Qed.

Lemma written_one a c ps : call_ok c → written a c = Some ps → Forall packet_ok ps.
Proof.
  intros Hc. assert (∀ p, packet_ok p → Some [p] = Some ps → Forall packet_ok ps) as Hone.
  { intros p Hp [= <-]. by apply Forall_singleton. }
  destruct c as [fd|en| |[bs|]|w h f [nm|]|x y b d r|act i x y|x y p tx ty o b er mo|en|st|sc kc dn|[bs|]];
    simpl in *; try (apply Hone; unfold packet_ok; simpl; split_and!; auto; fail); try (by intros [= <-]; constructor).
  - case_match; [by intros [= <-]|]. apply Hone. unfold packet_ok. simpl. split_and!; try done. set_solver.
  - apply Hone. unfold packet_ok. simpl. split_and!; try done; set_solver.
  - apply Hone. unfold packet_ok. simpl. split_and!; auto. rewrite wrapU_id; [done|]. unfold inU. lia.
  - apply Hone. unfold packet_ok. simpl. split_and!; auto. unfold inU. case_match; simpl; lia.
  - apply Hone. unfold packet_ok. simpl. split_and!; auto. unfold inU. lia.
  - apply Hone. unfold packet_ok. simpl. destruct Hc. split_and!; auto.
  - case_match; [by intros [= <-]|]. apply Hone. unfold packet_ok. simpl. split_and!; auto.
  - apply Hone. unfold packet_ok. simpl. destruct Hc. split_and!; auto.
  - unfold key_packets. case_match; [|done]. apply Hone. unfold packet_ok. simpl. split_and!; auto.
  - unfold text_packets. case_match; [by intros [= <-]|]. case_match eqn:E; [|done]. intros [= <-].
    apply text_codes_ok in E. apply Forall_fmap. eapply Forall_impl; [exact E|]. intros c Hcc.
    unfold packet_ok, compose. simpl. split_and!; auto.
Qed.

Lemma native_call_run a c fd :
  call_ok c → ∃ ps fd', native_call a c fd = Some (ps, fd') ∧ Forall packet_ok ps
    ∧ (fd = -1 → (∀ f, c = connect f → f = -1) → ps = [] ∧ fd' = -1).
Proof.
  intros Hc. destruct (written_total a c Hc) as [ps E]. pose proof (written_one a c ps Hc E) as Hps.
  unfold native_call. destruct c; try (rewrite bind_get; destruct (Z.eqb_spec fd (-1)) as [->|Hfd];
    [by eexists _, _; split_and!|rewrite E; by eexists _, _; split_and!]).
  rewrite bind_modify, E. eexists _, _. split; [done|]. split; [done|]. intros _ Hf. rewrite (Hf fd0 eq_refl) in *.
  split; [|done]. simpl in E. by injection E.
Qed.

(** C11: Everything the activity writes is well formed: every sequence of calls of its natives, in which each
    key event has a scan code or a key code of the table's 304, runs to its end; each event it writes has
    members of the width the structure gives them, and announces exactly the bytes, and the descriptor, that
    follow it; and nothing is written before a connection is there. *)
Theorem natives_well_typed a cs connFd :
  Forall call_ok cs →
  ∃ ps connFd', written_all a cs connFd = Some (ps, connFd') ∧ Forall packet_ok ps
    ∧ (connFd = -1 → (∀ fd, connect fd ∈ cs → fd = -1) → ps = []).
Proof.
  intros Hc. revert connFd. induction Hc as [|c cs H1 _ IH]; intros fd; cbn [written_all].
  { eexists _, _. split; [done|]. by split; [constructor|]. }
  destruct (native_call_run a c fd H1) as (p1 & fd1 & E1 & K1 & D1). mstep E1.
  destruct (IH fd1) as (p2 & fd2 & E2 & K2 & D2). mstep E2. eexists _, _. split; [done|].
  split; [by apply Forall_app|]. intros Hfd Hno.
  destruct D1 as [-> ->]; [done|intros f ->; apply Hno; left|]. apply D2; [done|]. intros f Hf. apply Hno. by right.
Qed.

(** ** On the socket *)

(** An event over its padding, then what follows. *)
Definition packet_bytes (pad : list Z) (p : packet) : stream :=
  ((λ b, (b, None)) <$> (encode pad (ev p) ++ payload p))
  ++ match rights p with Some fd => [(33, Some fd)] | None => [] end.

(** The packets of a list one behind the other, each over padding of its own. *)
Inductive on_wire : list packet → stream → Prop :=
| on_wire_nil : on_wire [] []
| on_wire_cons pad p ps st :
    length pad = event_size → on_wire ps st → on_wire (p :: ps) (packet_bytes pad p ++ st).

(** ** Text *)

(** In a UTF-8 locale, [mbrtowc] reads the character its argument begins with. *)
Definition reads_utf8 (a : aenv) : Prop :=
  ∀ c rest, scalar c → mbrtowc a (utf8_encode_cp c ++ rest) = (Z.of_nat (length (utf8_encode_cp c)), c).

Lemma text_codes_step a c rest fuel :
  reads_utf8 a → scalar c → c ≠ 0 →
  text_codes (S fuel) a (utf8_encode_cp c ++ rest)
  = if decide (rest = []) then Some [c] else cs ← text_codes fuel a rest; Some (c :: cs).
Proof.
  intros Ha Hs H0. pose proof (Ha c rest Hs) as Hm. destruct (encode_cp_head c Hs H0) as (b & bs & Eb & Hb).
  rewrite Eb in *. cbn [text_codes app] in *. rewrite (proj2 (Z.eqb_neq _ _) Hb), Hm.
  assert (u32 c = c) as -> by (apply wrapU_id; destruct Hs; unfold inU; lia).
  destruct (Z.leb_spec (Z.of_nat (length (b :: bs))) 0) as [H|_]; [simpl in H; lia|].
  rewrite Nat2Z.id. change (b :: bs ++ rest) with ((b :: bs) ++ rest). rewrite drop_app_length, length_app.
  destruct rest as [|r rest]; [rewrite decide_True by done|rewrite decide_False by done]; cbn [length];
    match goal with |- context [?x <=? ?y] => destruct (Z.leb_spec x y) end; done || lia.
Qed.

Lemma text_codes_run a cps :
  reads_utf8 a → text cps → cps ≠ [] →
  ∀ fuel, (length (utf8_encode cps) < fuel)%nat → text_codes fuel a (utf8_encode cps) = Some cps.
Proof.
  intros Ha. induction cps as [|c cps IH]; intros Ht Hn [|fuel] Hf; try done; [lia|].
  apply Forall_cons in Ht as [[Hs H0] Ht]. rewrite utf8_encode_cons in *. rewrite text_codes_step by done.
  pose proof (encode_cp_length c Hs). rewrite length_app in Hf.
  destruct cps as [|c' cps]; [by rewrite decide_True|]. rewrite decide_False.
  - rewrite IH; [done..|lia].
  - apply Forall_cons in Ht as [[Hs' H0'] _]. destruct (encode_cp_head c' Hs' H0') as (b & bs & Eb & _).
    rewrite utf8_encode_cons, Eb. done.
Qed.

(** Text is sent as its characters: for a text without NUL, [sendTextEvent] returns, without
    reading behind the array, and writes one event for each character of the text, in order. *)
Theorem text_sent_as_codes a cps :
  reads_utf8 a → text cps →
  written a (sendTextEvent (Some (utf8_encode cps))) = Some ((λ c, plain (Unicode c)) <$> cps).
Proof.
  intros Ha Ht. simpl. unfold text_packets. destruct cps as [|c cps]; [done|].
  rewrite text_codes_run by (done || lia). destruct (Nat.eqb_spec (length (utf8_encode (c :: cps))) 0) as [E|]; [|done].
  apply Forall_cons in Ht as [[Hs _] _]. pose proof (encode_cp_length c Hs).
  rewrite utf8_encode_cons, length_app in E. lia.
Qed.

(** ** What the activity reads ([LorieViewResources::xcallback]) *)

Definition EVENT_SHARED_SERVER_STATE : Z := 1.
Definition EVENT_ADD_BUFFER : Z := 2.
Definition EVENT_REMOVE_BUFFER : Z := 3.

(** Calls into Java and into the renderer. *)
Inductive heard :=
| SetClipboardText (bytes : list Z)
| RequestClipboard
| SetSharedState (fd : Z)
| AddBuffer (b : Z)
| RemoveBuffer (id : Z)
| ResetIme.

Record act := mk_act { asock : stream; log : list heard }.
#[export] Instance eta_act : Settable act := λ s, mk_act (asock s) (log s).

Definition on_asock {A} (m : M stream A) : M act A := λ s,
  match m (asock s) with Some (x, st) => Some (x, s <| asock := st |>) | None => None end.
Definition hear (h : heard) : M act () := modify (λ s, s <| log ::= λ l, l ++ [h] |>).

(** The kernel's renumbering of a descriptor, and
    [LorieBuffer_recvHandleFromUnixSocket], which takes its bytes from the socket
    and leaves the buffer's address. *)
Record renv := mk_renv { r_install : Z → Z; recv_buffer : M stream Z }.

(** The array holds [count + 1] bytes; all of it is offered to [read]. *)
Definition hear_clipboard (count : Z) : M act () :=
  if count =? 0 then skip
  else
    got ← on_asock (conn_read (Z.to_nat (count + 1)));
    hear (SetClipboardText (cstr (take (Z.to_nat count) (got ++ replicate (Z.to_nat count) 0) ++ [0]))).

Definition hear_event (e : renv) (bs : list Z) : M act () :=
  let t := field 0 1 bs in
  if t =? EVENT_CLIPBOARD_SEND then hear_clipboard (field 4 4 bs)
  else if t =? EVENT_CLIPBOARD_REQUEST then hear RequestClipboard
  else if t =? EVENT_SHARED_SERVER_STATE
  then fd ← on_asock (conn_recv_fd (r_install e)); if fd <? 0 then skip else hear (SetSharedState fd)
  else if t =? EVENT_ADD_BUFFER then b ← on_asock (recv_buffer e); hear (AddBuffer b)
  else if t =? EVENT_REMOVE_BUFFER then hear (RemoveBuffer (field 8 8 bs))
  else if t =? EVENT_WINDOW_FOCUS_CHANGED then hear ResetIme
  else skip.

(** The part of [xcallback] behind the error test. *)
Fixpoint xcallback (fuel : nat) (e : renv) : M act () :=
  match fuel with
  | O => ub
  | S fuel' =>
    bs ← on_asock (conn_read event_size);
    when (length bs =? event_size)%nat (hear_event e bs) ;;
    s ← get;
    when (event_size <? length (asock s))%nat (xcallback fuel' e)
  end.

(** What [lorieSendClipboardData] of the server writes. *)
Definition clipboard_packet (t : list Z) : packet := mk_packet (ClipboardSend (Z.of_nat (length t))) t None.

Lemma aconn_read s bs rest :
  asock s = ((λ b, (b, None)) <$> bs) ++ rest →
  on_asock (conn_read (length bs)) s = Some (bs, s <| asock := rest |>).
Proof. intros E. unfold on_asock. by rewrite E, conn_read_app. Qed.

Lemma encode_tag pad m : length pad = event_size → event_ok m → field 0 1 (encode pad m) = tag m.
Proof. intros Hp Hm. rewrite (encode_field pad m 0 1 (tag m)) by (done || in_members). by apply tag_small. Qed.

Lemma encode_count pad n : length pad = event_size → inU 32 n → field 4 4 (encode pad (ClipboardSend n)) = n.
Proof.
  intros Hp Hn. rewrite (encode_field pad _ 4 4 n) by (done || (cbn [members tag]; in_members)).
  by apply mod_small_U.
Qed.

(** One clipboard event, with [k] more bytes already behind it. *)
Lemma hear_clipboard_run e pad t more s :
  length pad = event_size → nul_free t → t ≠ [] → Z.of_nat (length t) < 2 ^ 31 →
  asock s = packet_bytes pad (clipboard_packet t) ++ more →
  ∃ bs s1, on_asock (conn_read event_size) s = Some (bs, s1) ∧ length bs = event_size
    ∧ hear_event e bs s1 = Some ((), s <| asock := drop 1 more |> <| log ::= λ l, l ++ [SetClipboardText t] |>).
Proof.
  intros Hp Ht Hn Hl Hs. set (h := encode pad (ClipboardSend (Z.of_nat (length t)))).
  assert (length h = event_size) as Hh by (by apply length_encode).
  assert (inU 32 (Z.of_nat (length t))) as Hc by (unfold inU; lia).
  unfold packet_bytes in Hs. simpl in Hs. fold h in Hs. rewrite app_nil_r, fmap_app, <-app_assoc in Hs.
  exists h, (s <| asock := ((λ b, (b, None)) <$> t) ++ more |>). split; [rewrite <-Hh; by apply aconn_read|].
  split; [done|]. unfold hear_event, h. rewrite encode_tag, encode_count by done. cbn [tag].
  change (EVENT_CLIPBOARD_SEND =? EVENT_CLIPBOARD_SEND) with true. cbv iota. unfold hear_clipboard.
  destruct (Z.eqb_spec (Z.of_nat (length t)) 0) as [E|_]; [destruct t; [done|simpl in E; lia]|].
  replace (Z.to_nat (Z.of_nat (length t) + 1)) with (length t + 1)%nat by lia. rewrite Nat2Z.id.
  assert (on_asock (conn_read (length t + 1)) (s <| asock := ((λ b, (b, None)) <$> t) ++ more |>)
    = Some (t ++ (take 1 more).*1, s <| asock := drop 1 more |>)) as Hr.
  { unfold on_asock. simpl. rewrite conn_read_some by (by destruct t). rewrite take_app_add', drop_app_add' by (by rewrite length_fmap).
    rewrite fmap_app, <-list_fmap_compose. do 3 f_equal. apply list_fmap_id. }
  mstep Hr. unfold hear, modify. do 2 f_equal. destruct s. simpl. repeat f_equal.
  rewrite <-app_assoc, take_app_length. by apply cstr_app.
Qed.

(** The clipboard reaches the activity when nothing follows it: the text [lorieSendClipboardData]
    wrote is handed to Java whole, and the socket is empty afterwards. *)
Theorem clipboard_reaches_activity e pad t s :
  length pad = event_size → nul_free t → t ≠ [] → Z.of_nat (length t) < 2 ^ 31 →
  asock s = packet_bytes pad (clipboard_packet t) →
  xcallback 1 e s = Some ((), mk_act [] (log s ++ [SetClipboardText t])).
Proof.
  intros Hp Ht Hn Hl Hs. rewrite <-(app_nil_r (packet_bytes _ _)) in Hs.
  destruct (hear_clipboard_run e pad t [] s Hp Ht Hn Hl Hs) as (bs & s1 & E1 & Hb & E2).
  cbn [xcallback]. mstep E1. rewrite Hb. cbn [Nat.eqb]. rewrite bind_when_true. mstep E2. rewrite bind_get. simpl.
  destruct s; done.
Qed.

(** What follows the clipboard text loses a byte: when another event is already behind the text,
    [xcallback] takes its first byte, the type, with the text, and goes on with the second byte as
    the type of the next event. *)
Theorem clipboard_eats_next_type e fuel pad pad' t m more s :
  length pad = event_size → length pad' = event_size → nul_free t → t ≠ [] → Z.of_nat (length t) < 2 ^ 31 →
  asock s = packet_bytes pad (clipboard_packet t) ++ packet_bytes pad' (plain m) ++ more → (2 ≤ length more)%nat →
  xcallback (S fuel) e s
  = xcallback fuel e (mk_act (drop 1 (packet_bytes pad' (plain m)) ++ more) (log s ++ [SetClipboardText t])).
Proof.
  intros Hp Hp' Ht Hn Hl Hs Hm.
  destruct (hear_clipboard_run e pad t _ s Hp Ht Hn Hl Hs) as (bs & s1 & E1 & Hb & E2).
  cbn [xcallback]. mstep E1. rewrite Hb. cbn [Nat.eqb]. rewrite bind_when_true. mstep E2. rewrite bind_get.
  assert (length (packet_bytes pad' (plain m)) = event_size) as Hq.
  { unfold packet_bytes. simpl. rewrite !app_nil_r, length_fmap. by apply length_encode. }
  assert (drop 1 (packet_bytes pad' (plain m) ++ more) = drop 1 (packet_bytes pad' (plain m)) ++ more) as ->.
  { destruct (packet_bytes pad' (plain m)); [done|]. done. }
  simpl asock. rewrite length_app, length_drop, Hq.
  destruct (Nat.ltb_spec event_size (event_size - 1 + length more)) as [_|H]; [|unfold event_size in H; lia].
  by destruct s.
Qed.

(** ** Concrete inputs *)

Definition zero_pad : list Z := replicate event_size 0.

Lemma event_roundtrip_witness :
  decode (encode zero_pad (StylusEvent 0 0x43480000 4096 (-30) 45 (-90) 3 1 0))
  = StylusEvent 0 0x43480000 4096 (-30) 45 (-90) 3 1 0.
Proof. apply event_roundtrip; [reflexivity|]. unfold event_ok, inU, inS. lia. Defined.

(** A locale whose [mbrtowc] is the decoder of [clipboard.c]. *)
Definition utf8_aenv : aenv :=
  mk_aenv (λ p, match lorieUtf8ToUCS4 p 4 with Some r => r | None => (-1, 0) end) 7.

Lemma utf8_aenv_reads : reads_utf8 utf8_aenv.
Proof.
  intros c rest Hs. simpl. pose proof (encode_cp_length c Hs). rewrite decode_encode; [done|done|lia].
Qed.

Lemma natives_well_typed_witness :
  let cs := [sendMouseEvent 0 0 1 true false; connect 9; sendClipboardEvent (Some [104; 105]); sendKeyEvent 0 29 true] in
  let ps := [mk_packet (Plain EVENT_RENDERER_WAKEUP_COND) [] (Some 7); mk_packet (ClipboardSend 2) [104; 105] None;
             plain (KeyEvent 38 1)] in
  written_all utf8_aenv cs (-1) = Some (ps, 9) ∧ Forall packet_ok ps.
Proof.
  intros cs ps. assert (written_all utf8_aenv cs (-1) = Some (ps, 9)) as E by (vm_compute; reflexivity).
  split; [exact E|]. destruct (natives_well_typed utf8_aenv cs (-1)) as (ps' & fd & E' & H & _).
  - repeat (apply Forall_cons; split; [simpl; unfold inU; try (split; lia); try (right; lia); try exact I; lia|]). constructor.
  - rewrite E in E'. injection E' as <- _. exact H.
Defined.

Lemma text_sent_as_codes_witness :
  written utf8_aenv (sendTextEvent (Some (utf8_encode [0x48; 0x20ac])))
  = Some [plain (Unicode 0x48); plain (Unicode 0x20ac)].
Proof.
  apply (text_sent_as_codes utf8_aenv [0x48; 0x20ac]); [exact utf8_aenv_reads|].
  repeat constructor; unfold scalar; lia.
Defined.

Definition no_buffers : renv := mk_renv (λ fd, fd) ub.

Lemma clipboard_reaches_activity_witness :
  xcallback 1 no_buffers (mk_act (packet_bytes zero_pad (clipboard_packet [104; 105])) [])
  = Some ((), mk_act [] [SetClipboardText [104; 105]]).
Proof.
  apply (clipboard_reaches_activity no_buffers zero_pad [104; 105]); try reflexivity; [|done].
  repeat constructor; lia.
Defined.

(** Two requests for the clipboard behind a text: none of them is heard. *)
Lemma clipboard_eats_next_type_witness :
  let request := packet_bytes zero_pad (plain (Plain EVENT_CLIPBOARD_REQUEST)) in
  xcallback 3 no_buffers (mk_act (packet_bytes zero_pad (clipboard_packet [104; 105]) ++ request ++ request) [])
  = Some ((), mk_act (drop 1 request) [SetClipboardText [104; 105]]).
Proof.
  intros request.
  rewrite (clipboard_eats_next_type no_buffers 2 zero_pad zero_pad [104; 105] (Plain EVENT_CLIPBOARD_REQUEST)
    request); try reflexivity; [repeat constructor; lia|done|]. vm_compute. lia.
Defined.
