(* ===== verification/Events.v ===== *)
(** * The server's side of the socket ([lorie/cmdentrypoint.cpp])

    [handleLorieEvents] reads events from the activity and acts on them: some at
    once, some by a procedure that the main thread runs later.  Its state is the
    composition of the components it drives: keyboard ([Keysym]), devices
    ([Devices]), touches ([Touch]), clipboard ([Clipboard]), cursor ([Cursor]),
    registered buffers ([Buffer]) and the table of keysyms ([Ucs]).

    The queue of procedures is a list here; [Work] shows that it behaves as one,
    also between threads.  Calls of [QueuePointerEvents] are recorded with their
    arguments.  Resizing the screen ([Resize] continues it), the renderer's
    condition variable and the recheck of copies are handed on as they are.

    There is one connection, whose descriptor is both the one the callback was
    registered with and [conn_fd], as [getXConnection] sets them up.  It is a
    blocking socket: a call that would have to wait has no result, and theorems
    that a result exists say that it does not. *)

From stdpp Require Import gmap.
From S2P Require Import Prelude Text Ancil Float Dix Clipboard Buffer Xkb Keymap Keysym KeysymInv Ucs Cursor Touch Devices Wire.

(** ** State *)

Inductive pointer_kind := MotionNotify | ButtonPress | ButtonRelease.
#[export] Instance pointer_kind_eq_dec : EqDecision pointer_kind.
Proof. solve_decision. Defined.

Definition POINTER_RELATIVE : Z := 2.
Definition POINTER_ABSOLUTE : Z := 4.
Definition POINTER_ACCELERATE : Z := 8.
Definition POINTER_SCREEN : Z := 16.
Definition POINTER_NORAW : Z := 32.
Definition POINTER_DESKTOP : Z := 128.

(** A [ValuatorMask]: the axes that are set. *)
Abbreviation ValuatorMask := (gmap Z float).

(** A call of [QueuePointerEvents] with a copy of the mask. *)
Record pointer_call := mk_pointer_call {
  pdev : Z; pkind : pointer_kind; pbutton : Z; pflags : Z; pmask : ValuatorMask
}.

(** Procedures for the main thread. *)
Inductive work :=
| WScreenSize (width height framerate name_size : Z) (name : option (list Z))
| WTouch (m : touch_msg)
| WClipboardAnnounce
| WClipboardData (mem : list Z)
| WRendererWakeupCond (fd : Z)
| WRecheckGpuCopies
| WLockKeys (state : Z).

Record server := mk_server {
  keyb : kst;
  devs : inputs;
  tch : tdev;
  clp : clip;
  bufs : bst;
  curs : cur;
  revtab : option (list codepair);
  works : list work;
  pointer_calls : list pointer_call;
  buttons_prev : Z;                 (** of the case [EVENT_STYLUS] *)
  mask : ValuatorMask;              (** the local variable of [handleLorieEvents] *)
  conn_fd : Z;
  screen_jobs : list work           (** run, and handed to the screen *)
}.
#[export] Instance eta_server : Settable server := λ s,
  mk_server (keyb s) (devs s) (tch s) (clp s) (bufs s) (curs s) (revtab s) (works s) (pointer_calls s)
    (buttons_prev s) (mask s) (conn_fd s) (screen_jobs s).

Record srv := mk_srv { sock : stream; core : server }.
#[export] Instance eta_srv : Settable srv := λ s, mk_srv (sock s) (core s).

Record svenv := mk_svenv {
  e_key : kenv; e_clip : cenv; e_touch : tenv; e_dev : dvenv; e_ucs : ucs_env;
  calloc_ok : Z → bool;
  install : Z → Z;                  (** what the kernel makes of a received descriptor *)
  scr_width : Z; scr_height : Z
}.

Definition lift {S T A} (get_ : S → T) (put_ : T → S → S) (m : M T A) : M S A := λ s,
  match m (get_ s) with Some (a, t) => Some (a, put_ t s) | None => None end.

Definition on_keyb {A} : M kst A → M server A := lift keyb (λ t s, s <| keyb := t |>).
Definition on_devs {A} : M inputs A → M server A := lift devs (λ t s, s <| devs := t |>).
Definition on_clp {A} : M clip A → M server A := lift clp (λ t s, s <| clp := t |>).
Definition on_bufs {A} : M bst A → M server A := lift bufs (λ t s, s <| bufs := t |>).
Definition on_revtab {A} : M (option (list codepair)) A → M server A := lift revtab (λ t s, s <| revtab := t |>).
Definition on_core {A} : M server A → M srv A := lift core (λ t s, s <| core := t |>).
Definition on_sock {A} : M stream A → M srv A := lift sock (λ t s, s <| sock := t |>).

Definition queue_work (w : work) : M server () := modify (λ s, s <| works ::= λ l, l ++ [w] |>).
Definition set_cursor_visible (v : bool) : M server () := modify (λ s, s <| curs ::= lorieSetCursorVisible v |>).
Definition QueuePointerEvents (d : Z) (k : pointer_kind) (b f : Z) (m : ValuatorMask) : M server () :=
  modify (λ s, s <| pointer_calls ::= λ l, l ++ [mk_pointer_call d k b f m] |>).

Definition mask_zero : M server () := modify (λ s, s <| mask := ∅ |>).
Definition mask_set (axis : Z) (v : float) : M server () := modify (λ s, s <| mask ::= <[axis := v]> |>).

(** ** Events *)

Definition fzero : float := S754_zero false.

(** [max(min(x, limit), 0)] and [max(0, min(x, limit))] of a [float]. *)
Definition within (x : float) (limit : Z) : float := fmax (fmin x (float_of_Z limit)) fzero.
Definition within' (x : float) (limit : Z) : float := fmax fzero (fmin x (float_of_Z limit)).

(** The loop over the three buttons. *)
Definition stylus_button (d : Z) (released pressed : Z) (i : nat) : M server () :=
  when (Z.testbit released (Z.of_nat i))
    (QueuePointerEvents d ButtonRelease (Z.of_nat i + 1) POINTER_RELATIVE ∅) ;;
  when (Z.testbit pressed (Z.of_nat i))
    (QueuePointerEvents d ButtonPress (Z.of_nat i + 1) POINTER_RELATIVE ∅).

Definition stylus_event (e : svenv) (x y pressure tilt_x tilt_y orientation buttons eraser mouse : Z)
  : M server () :=
  s ← get;
  let d := if truthy mouse then lorieMouse (devs s)
           else if truthy eraser then lorieEraser (devs s) else loriePen (devs s) in
  if d =? 0 then skip
  else
    let is_mouse := d =? lorieMouse (devs s) in
    mask_set 0 (double_of_float (within (float_of_bits x) (scr_width e))) ;;
    mask_set 1 (double_of_float (within (float_of_bits y) (scr_height e))) ;;
    when (negb is_mouse)
      (mask_set 2 (double_of_Z pressure) ;; mask_set 3 (double_of_Z tilt_x) ;;
       mask_set 4 (double_of_Z tilt_y) ;; mask_set 5 (double_of_Z orientation)) ;;
    s1 ← get;
    QueuePointerEvents d MotionNotify 0
      (POINTER_ABSOLUTE + POINTER_DESKTOP + (if is_mouse then POINTER_NORAW else 0)) (mask s1) ;;
    let diff := Z.lxor (buttons_prev s) buttons in
    let released := Z.land diff (Z.lnot buttons) in
    let pressed := Z.land diff buttons in
    for_each (seq 0 3) (stylus_button d released pressed) ;;
    modify (λ s, s <| buttons_prev := buttons |>).

Definition scroll_event (d : Z) (axis : Z) (v : float) : M server () :=
  when (negb (SFeqb v fzero))
    (mask_zero ;; mask_set axis (ddiv (double_of_float v) (double_of_Z 120)) ;;
     s ← get; QueuePointerEvents d MotionNotify 0 POINTER_RELATIVE (mask s)).

Definition mouse_event (e : svenv) (xb yb detail down relative : Z) : M server () :=
  set_cursor_visible true ;;
  s ← get;
  let d := lorieMouse (devs s) in
  let x := float_of_bits xb in
  let y := float_of_bits yb in
  if detail =? 0
  then
    let rel := truthy relative in
    let flags := if rel then POINTER_RELATIVE + POINTER_ACCELERATE
                 else POINTER_ABSOLUTE + POINTER_SCREEN + POINTER_NORAW in
    let px := if rel then x else within' x (scr_width e) in
    let py := if rel then y else within' y (scr_height e) in
    mask_set 0 (double_of_float px) ;; mask_set 1 (double_of_float py) ;;
    s1 ← get; QueuePointerEvents d MotionNotify 0 flags (mask s1)
  else if (1 <=? detail) && (detail <=? 3)
  then QueuePointerEvents d (if truthy down then ButtonPress else ButtonRelease) detail POINTER_RELATIVE ∅
  else if detail =? 4
  then scroll_event d 2 x ;; scroll_event d 3 y
  else skip.

(** What the cases of the [switch] do with an event, the bytes that followed it
    and the descriptor that came with it; memory is zeroed before it is read
    into.  The text of a clipboard event is read from [conn_fd], the descriptor of
    the one connection. *)
Definition apply_event (e : svenv) (m : lorieEvent) (body : list Z) (fd : Z) : M server () :=
  match m with
  | ScreenSize w h f n =>
    if calloc_ok e (24 + n + 1)
    then queue_work (WScreenSize w h f n
           (if n =? 0 then None else Some (body ++ replicate (S (Z.to_nat n) - length body) 0)))
    else ub
  | TouchEvent t i x y => queue_work (WTouch (mk_touch_msg t i x y))
  | StylusEvent x y p tx ty o b er mo => stylus_event e x y p tx ty o b er mo
  | StylusEnable en => on_devs (lorieSetStylusEnabled (e_dev e) (truthy en))
  | MouseEvent x y b d r => mouse_event e x y b d r
  | KeyEvent k st =>
    on_keyb (QueueKeyboardEvents (if truthy st then KeyPress (Z.to_nat k) else KeyRelease (Z.to_nat k)))
  | Unicode c =>
    ks ← on_revtab (ucs2keysym (e_ucs e) c);
    on_keyb (lorieKeysymKeyboardEvent (e_key e) ks true) ;;
    on_keyb (lorieKeysymKeyboardEvent (e_key e) ks false)
  | ClipboardEnable en => on_clp (lorieEnableClipboardSync (truthy en))
  | ClipboardSend n =>
    if calloc_ok e (u32 (n + 1))
    then queue_work (WClipboardData (body ++ replicate (S (Z.to_nat n) - length body) 0))
    else ub
  | LockKeysState st => queue_work (WLockKeys st)
  | Plain t =>
    if t =? EVENT_CLIPBOARD_ANNOUNCE then queue_work WClipboardAnnounce
    else if t =? EVENT_RENDERER_WAKEUP_COND
    then if 0 <=? fd then queue_work (WRendererWakeupCond fd) else skip
    else if t =? EVENT_GPU_COPY_DONE then queue_work WRecheckGpuCopies
    else skip
  end.

(** The bytes that follow an event, and its descriptor. *)
Definition read_body (m : lorieEvent) : M srv (list Z) :=
  match m with
  | ScreenSize _ _ _ n | ClipboardSend n => on_sock (conn_read (Z.to_nat n))
  | _ => mret []
  end.
Definition read_fd (e : svenv) (m : lorieEvent) : M srv Z :=
  match m with
  | Plain t => if t =? EVENT_RENDERER_WAKEUP_COND then on_sock (conn_recv_fd (install e)) else mret (-1)
  | _ => mret (-1)
  end.

(** One turn behind [again]; whether an event was read. *)
Definition handle_one (e : svenv) : M srv bool :=
  bs ← on_sock (conn_read event_size);
  if (length bs =? event_size)%nat
  then
    body ← read_body (decode bs);
    fd ← read_fd e (decode bs);
    on_core (apply_event e (decode bs) body fd) ;;
    mret true
  else mret false.

Fixpoint handle_events (fuel : nat) (e : svenv) : M srv () :=
  match fuel with
  | O => ub
  | S fuel' =>
    read ← handle_one e;
    s ← get;
    when ((read : bool) && (event_size <? length (sock s))%nat) (handle_events fuel' e)
  end.

Definition registeredBuffers : Z := 1.

Fixpoint forget_buffers (fuel : nat) : M bst () :=
  match fuel with
  | O => ub
  | S fuel' =>
    b ← LorieBufferList_first registeredBuffers;
    if b =? 0 then skip else LorieBuffer_removeFromList b ;; forget_buffers fuel'
  end.

(** The whole callback; [error] is [ready & X_NOTIFY_ERROR].  Every turn takes at
    least an event's bytes off the socket, every buffer leaves the list. *)
Definition handleLorieEvents (e : svenv) (error : bool) : M srv () :=
  on_core mask_zero ;;
  s ← get;
  if error
  then
    on_core (
      modify (λ c, c <| conn_fd := -1 |>) ;;
      on_clp (lorieEnableClipboardSync false) ;;
      c ← get;
      on_bufs (forget_buffers (S (length (default [] (Buffer.lists (bufs c) !! registeredBuffers))))))
  else handle_events (S (length (sock s))) e.

(** The input thread calls it while there is something to read. *)
Fixpoint input_thread (fuel : nat) (e : svenv) : M srv () :=
  match fuel with
  | O => ub
  | S fuel' =>
    s ← get;
    if (length (sock s) =? 0)%nat then skip else handleLorieEvents e false ;; input_thread fuel' e
  end.

(** ** The main thread *)

Definition run_work (e : svenv) (w : work) : M server () :=
  match w with
  | WTouch m =>
    s ← get;
    t ← of_option (handleTouchEvent (e_touch e) (scr_width e) (scr_height e) m (tch s <| cursor_visible := true |>));
    modify (λ s, s <| tch := t |>) ;;
    when (negb (cursor_visible t)) (set_cursor_visible false)
  | WClipboardAnnounce => on_clp (lorieHandleClipboardAnnounce (e_clip e))
  | WClipboardData mem =>
    s ← get;
    on_clp (lorieHandleClipboardData (S (length (lorieDataTargetHead (clp s)))) (e_clip e) (Some mem))
  | WLockKeys st => on_keyb (lorieSyncLockKeysState (e_key e) st)
  | WScreenSize _ _ _ _ _ | WRendererWakeupCond _ | WRecheckGpuCopies =>
    modify (λ s, s <| screen_jobs ::= λ l, l ++ [w] |>)
  end.

Fixpoint run_works (fuel : nat) (e : svenv) : M server () :=
  match fuel with
  | O => ub
  | S fuel' =>
    s ← get;
    match works s with
    | [] => skip
    | w :: ws => run_work e w ;; modify (λ s, s <| works ::= tail |>) ;; run_works fuel' e
    end
  end.

(** ** Packets are served in order *)

(** What a packet does to the server. *)
Definition serve (e : svenv) (p : packet) : M server () :=
  apply_event e (ev p) (payload p) (match rights p with Some fd => install e fd | None => -1 end).

Definition packet_size (p : packet) : nat :=
  (event_size + length (payload p) + match rights p with Some _ => 1 | None => 0 end)%nat.
Definition wire_size (ps : list packet) : nat := sum_list (packet_size <$> ps).

(** All packets one after the other; the callback returns, and is called again
    with a new mask, when at most an event's bytes are left. *)
Fixpoint serve_all (e : svenv) (ps : list packet) : M server () :=
  match ps with
  | [] => skip
  | p :: ps' =>
    serve e p ;;
    when (wire_size ps' <=? event_size)%nat (when (negb (wire_size ps' =? 0)%nat) mask_zero) ;;
    serve_all e ps'
  end.

Lemma bind_inv {S A B} (m : M S A) (f : A → M S B) s b s2 :
  (m ≫= f) s = Some (b, s2) → ∃ a s1, m s = Some (a, s1) ∧ f a s1 = Some (b, s2).
Proof. unfold mbind, M_bind. destruct (m s) as [[a s1]|]; [|done]. eauto. Qed.

Lemma lift_run {S T A} (g : S → T) (pt : T → S → S) (m : M T A) s a t :
  m (g s) = Some (a, t) → lift g pt m s = Some (a, pt t s).
Proof. intros E. unfold lift. by rewrite E. Qed.

Lemma packet_bytes_length pad p : length pad = event_size → length (packet_bytes pad p) = packet_size p.
Proof.
  intros Hp. unfold packet_bytes, packet_size. rewrite length_app, length_fmap, length_app, length_encode by done.
  by destruct (rights p).
Qed.

Lemma on_wire_size ps st : on_wire ps st → length st = wire_size ps.
Proof.
  induction 1 as [|pad p ps st Hp Hw IH]; [done|]. rewrite length_app, packet_bytes_length by done.
  unfold wire_size in *. csimpl. lia.
Qed.

Lemma sock_read_run bs rest c :
  on_sock (conn_read (length bs)) (mk_srv (((λ b, (b, None)) <$> bs) ++ rest) c) = Some (bs, mk_srv rest c).
Proof.
  exact (lift_run sock (λ t s, s <| sock := t |>) (conn_read (length bs))
    (mk_srv (((λ b, (b, None)) <$> bs) ++ rest) c) _ _ (conn_read_app bs rest)).
Qed.

(** One packet, the rest of the socket untouched. *)
Lemma handle_packet e pad p rest c c' :
  length pad = event_size → packet_ok p → serve e p c = Some ((), c') →
  handle_one e (mk_srv (packet_bytes pad p ++ rest) c) = Some (true, mk_srv rest c').
Proof.
  intros Hp [Hev Hbody] Hs. unfold handle_one, packet_bytes. rewrite fmap_app, <-!app_assoc.
  set (h := encode pad (ev p)). assert (length h = event_size) as Hh by (by apply length_encode).
  rewrite <-Hh at 1. rewrite (bind_run _ _ _ _ _ (sock_read_run _ _ _)), Hh. cbn [Nat.eqb].
  change (event_size =? event_size)%nat with true. cbv iota.
  unfold h. rewrite event_decoded by done.
  set (st := match rights p with Some fd => [(33, Some fd)] | None => [] end ++ rest).
  assert (read_body (ev p) (mk_srv (((λ b, (b, None)) <$> payload p) ++ st) c) = Some (payload p, mk_srv st c)) as E1.
  { destruct (ev p); simpl in Hbody; try (destruct Hbody as [-> _]; done);
      destruct Hbody as [-> _]; simpl; rewrite Nat2Z.id; apply sock_read_run. }
  mstep E1.
  assert (read_fd e (ev p) (mk_srv st c)
    = Some (match rights p with Some fd => install e fd | None => -1 end, mk_srv rest c)) as E2.
  { unfold st. destruct (ev p); simpl in Hbody; try (destruct Hbody as [_ ->]; done).
    destruct Hbody as [_ Hr]. simpl. destruct (Z.eqb_spec type EVENT_RENDERER_WAKEUP_COND) as [E|E].
    - destruct (proj1 Hr E) as [fd ->]. done.
    - destruct (rights p) as [fd|]; [|done]. by destruct E; apply Hr. }
  mstep E2. pose proof (lift_run core (λ t s, s <| core := t |>) _ (mk_srv rest c) _ _ Hs) as E3.
  rewrite (bind_run _ _ _ _ _ E3). done.
Qed.

Lemma wire_size_cons p ps : wire_size (p :: ps) = (packet_size p + wire_size ps)%nat.
Proof. done. Qed.

Lemma packet_size_ge p : (event_size ≤ packet_size p)%nat.
Proof. unfold packet_size. lia. Qed.

(** A call of the callback serves packets until at most an event's bytes are left. *)
Lemma handle_events_run e : ∀ ps st p fuel pad c c',
  length pad = event_size → on_wire ps st → Forall packet_ok (p :: ps) →
  serve_all e (p :: ps) c = Some ((), c') → (length ps < fuel)%nat →
  ∃ qs st' c1, handle_events fuel e (mk_srv (packet_bytes pad p ++ st) c) = Some ((), mk_srv st' c1)
    ∧ on_wire qs st' ∧ Forall packet_ok qs ∧ (length qs ≤ length ps)%nat
    ∧ (qs ≠ [] → serve_all e qs (c1 <| mask := ∅ |>) = Some ((), c')) ∧ (qs = [] → c1 = c').
Proof.
  induction ps as [|q ps IH]; intros st p [|fuel] pad c c' Hp Hw Hok Hs Hf; try (simpl in Hf; lia);
    apply Forall_cons in Hok as [Hok Hoks]; cbn [serve_all] in Hs;
    apply bind_inv in Hs as ([] & c1 & E1 & Hs); apply bind_inv in Hs as ([] & c2 & E2 & Hs);
    pose proof (handle_packet e pad p st c c1 Hp Hok E1) as E; pose proof (on_wire_size _ _ Hw) as Hl.
  - inversion Hw; subst. exists [], [], c1. cbn [handle_events]. mstep E. rewrite bind_get. simpl.
    simpl in E2. injection E2 as <-. unfold skip in Hs. injection Hs as <-. split_and!; try done; constructor.
  - cbn [handle_events]. mstep E. rewrite bind_get. cbn [andb sock]. rewrite Hl.
    destruct (Nat.leb_spec (wire_size (q :: ps)) event_size) as [Hle|Hgt].
    + destruct (Nat.ltb_spec event_size (wire_size (q :: ps))); [lia|].
      exists (q :: ps), st, c1. split; [done|]. split_and!; try done. intros _.
      cbn [when] in E2. destruct (Nat.eqb_spec (wire_size (q :: ps)) 0) as [E0|_].
      { rewrite wire_size_cons in E0. pose proof (packet_size_ge q). unfold event_size in *. lia. }
      simpl in E2. injection E2 as <-. exact Hs.
    + destruct (Nat.ltb_spec event_size (wire_size (q :: ps))); [|lia]. cbn [when] in *.
      injection E2 as <-. inversion Hw as [|pad' q' ps' st' Hp' Hw']; subst.
      destruct (IH st' q fuel pad' c1 c' Hp' Hw' Hoks Hs) as (qs & st2 & c2 & E' & R1 & R2 & R3 & R4 & R5);
        [simpl in Hf; lia|].
      exists qs, st2, c2. split_and!; try done. simpl. lia.
Qed.

Lemma packets_shorter ps st : on_wire ps st → (length ps ≤ length st)%nat.
Proof.
  intros H. rewrite (on_wire_size _ _ H). clear. induction ps as [|p ps IH]; [done|].
  rewrite wire_size_cons. pose proof (packet_size_ge p). unfold event_size in *. simpl. lia.
Qed.

Lemma input_thread_run e : ∀ n ps st c c' fuel,
  (length ps ≤ n)%nat → on_wire ps st → ps ≠ [] → Forall packet_ok ps →
  serve_all e ps (c <| mask := ∅ |>) = Some ((), c') → (length ps < fuel)%nat →
  input_thread fuel e (mk_srv st c) = Some ((), mk_srv [] c').
Proof.
  induction n as [|n IH]; intros ps st c c' fuel Hn Hw Hne Hok Hs Hf; [destruct ps; simpl in Hn; [done|lia]|].
  pose proof (packets_shorter _ _ Hw) as Hsh. destruct fuel as [|fuel]; [lia|].
  destruct Hw as [|pad p ps st Hp Hw]; [done|].
  destruct (handle_events_run e ps st p (S (length (packet_bytes pad p ++ st))) pad _ c' Hp Hw Hok Hs)
    as (qs & st' & c1 & E & R1 & R2 & R3 & R4 & R5); [simpl in *; lia|].
  cbn [input_thread]. rewrite bind_get. cbn [sock].
  destruct (Nat.eqb_spec (length (packet_bytes pad p ++ st)) 0) as [E0|_]; [simpl in Hsh; lia|].
  assert (handleLorieEvents e false (mk_srv (packet_bytes pad p ++ st) c) = Some ((), mk_srv st' c1)) as E1
    by exact E.
  mstep E1. destruct qs as [|q qs].
  - inversion R1. subst. rewrite (R5 eq_refl). destruct fuel as [|fuel]; [simpl in Hf; lia|]. done.
  - apply (IH (q :: qs)); try done; simpl in *; [lia|by apply R4|lia].
Qed.

(** C8: The server acts on what the activity wrote, in order: with any number of well-formed packets
    on the socket, over any padding, the input thread reads all of them, event and what follows it,
    and the server is left as if each packet had been served as a whole, one after the other; the
    socket is empty afterwards. *)
Theorem events_served_in_order e ps st c c' :
  on_wire ps st → ps ≠ [] → Forall packet_ok ps → serve_all e ps (c <| mask := ∅ |>) = Some ((), c') →
  input_thread (S (length ps)) e (mk_srv st c) = Some ((), mk_srv [] c').
Proof. intros Hw Hn Hok Hs. apply (input_thread_run e (length ps) ps); try done. lia. Qed.

(** ** Text on the wire *)

Lemma clipboard_packet_ok t : Z.of_nat (length t) < 2 ^ 31 → packet_ok (clipboard_packet t).
Proof. intros H. unfold packet_ok, clipboard_packet. simpl. split; [unfold inU; lia|done]. Qed.

Lemma serve_text e t c :
  calloc_ok e (Z.of_nat (length t) + 1) = true → Z.of_nat (length t) < 2 ^ 31 →
  serve e (clipboard_packet t) c = Some ((), c <| works ::= λ l, l ++ [WClipboardData (t ++ [0])] |>).
Proof.
  intros Hc Hl. unfold serve, clipboard_packet. simpl. rewrite wrapU_id by (unfold inU; lia). rewrite Hc, Nat2Z.id.
  rewrite Nat.sub_succ_l, Nat.sub_diag by lia. done.
Qed.

(** C9: The clipboard, from the activity to the clients: the text the activity wrote is read by the
    input thread, handed to the main thread, cached there, and every client that waits for it is
    answered once. *)
Theorem clipboard_over_the_wire e pad t cps c :
  length pad = event_size → Z.of_nat (length t) < 2 ^ 31 → calloc_ok e (Z.of_nat (length t) + 1) = true →
  holds_text (t ++ [0]) cps → server_up (clp c) → works c = [] →
  Forall (λ w, reachable_client (clp c) (ldt_client w)) (lorieDataTargetHead (clp c)) →
  ∃ c1 c2 evs, input_thread 2 e (mk_srv (packet_bytes pad (clipboard_packet t)) c) = Some ((), mk_srv [] c1)
    ∧ run_works 2 e c1 = Some ((), c2) ∧ works c2 = []
    ∧ lorieDataTargetHead (clp c2) = [] ∧ cachedData (clp c2) = Some (t ++ [0])
    ∧ events (xs (clp c2)) = events (xs (clp c)) ++ evs ∧ Forall2 answered (lorieDataTargetHead (clp c)) evs.
Proof.
  intros Hp Hl Hc Ht Hu Hw Hr.
  set (c0 := c <| mask := ∅ |>). set (c1 := c0 <| works ::= λ l, l ++ [WClipboardData (t ++ [0])] |>).
  pose proof (serve_targets_run (e_clip e) (t ++ [0]) cps (lorieDataTargetHead (clp c))
    (S (length (lorieDataTargetHead (clp c)))) (clp c <| cachedData := Some (t ++ [0]) |>)) as H.
  destruct H as (s' & evs & E & H1 & H2 & _ & H3 & H4); [done|done|done|done|done|simpl; lia|].
  exists c1, (c1 <| clp := s' |> <| works := [] |>), evs. split; [|split; [|done]].
  - rewrite <-(app_nil_r (packet_bytes _ _)). apply (input_thread_run e 1 [clipboard_packet t]); try done.
    + constructor; [done|constructor].
    + apply Forall_singleton. by apply clipboard_packet_ok.
    + cbn [serve_all]. mstep (serve_text e t c0 Hc Hl). done.
    + simpl. lia.
  - cbn [run_works]. rewrite bind_get. unfold c1 at 1. simpl. rewrite Hw. simpl. 
    assert (run_work e (WClipboardData (t ++ [0])) c1 = Some ((), c1 <| clp := s' |>)) as Er.
    { cbn [run_work]. rewrite bind_get. unfold on_clp.
      rewrite (lift_run clp (λ t s, s <| clp := t |>) _ c1 () s'); [done|]. exact E. }
    mstep Er. rewrite bind_modify, bind_get. simpl. unfold c0. simpl. rewrite Hw. simpl. done.
Qed.

(** A call that empties the socket with one event. *)
Lemma handle_last e st c c1 :
  handle_one e (mk_srv st (c <| mask := ∅ |>)) = Some (true, mk_srv [] c1) →
  handleLorieEvents e false (mk_srv st c) = Some ((), mk_srv [] c1).
Proof.
  intros E. unfold handleLorieEvents.
  assert (on_core mask_zero (mk_srv st c) = Some ((), mk_srv st (c <| mask := ∅ |>))) as E0 by done.
  mstep E0. rewrite bind_get. cbn [handle_events]. mstep E. done.
Qed.

Lemma sock_read_short n bs c :
  (0 < length bs ≤ n)%nat →
  on_sock (conn_read n) (mk_srv ((λ b, (b, None)) <$> bs) c) = Some (bs, mk_srv [] c).
Proof.
  intros Hn. unfold on_sock, lift. cbn [sock]. rewrite conn_read_some by (destruct bs; [simpl in Hn; lia|done]).
  rewrite take_ge, drop_ge by (rewrite length_fmap; lia). rewrite <-list_fmap_compose.
  rewrite (list_fmap_id bs : (fst ∘ (λ b, (b, @None Z))) <$> bs = bs). done.
Qed.

(** A text of which only [a] has arrived. *)
Lemma handle_short_text e pad n a c :
  length pad = event_size → (0 < length a ≤ n)%nat → Z.of_nat n < 2 ^ 31 → calloc_ok e (Z.of_nat n + 1) = true →
  handle_one e (mk_srv ((λ b, (b, None)) <$> encode pad (ClipboardSend (Z.of_nat n)) ++ a) c)
  = Some (true, mk_srv [] (c <| works ::= λ l, l ++ [WClipboardData (a ++ replicate (S n - length a) 0)] |>)).
Proof.
  intros Hp Ha Hn Hc. set (h := encode pad (ClipboardSend (Z.of_nat n))).
  assert (length h = event_size) as Hh by (by apply length_encode).
  unfold handle_one. rewrite fmap_app. rewrite <-Hh at 1. mstep (sock_read_run h ((λ b, (b, None)) <$> a) c).
  rewrite Hh. change (event_size =? event_size)%nat with true. cbv iota.
  unfold h. rewrite event_decoded by (done || (simpl; unfold inU; lia)). cbn [read_body].
  rewrite Nat2Z.id. mstep (sock_read_short n a c Ha). cbn [read_fd].
  assert ((mret (-1) : M srv Z) (mk_srv [] c) = Some (-1, mk_srv [] c)) as E0 by done. mstep E0. cbn [apply_event].
  rewrite wrapU_id by (unfold inU; lia). rewrite Hc, Nat2Z.id. done.
Qed.

(** C40: Text is taken for events: the callback waits for the first byte of a clipboard text, but when
    only the beginning of the text is there it takes that, padded with zeros, for the text, and the
    rest, once it arrives, for the next event: a text that ends in the 24 bytes of an event, which are
    late, makes the server act on that event.  (Memory for the text is there.) *)
Theorem short_text_runs_as_event e pad pad' a m c :
  length pad = event_size → length pad' = event_size → packet_ok (plain m) → a ≠ [] →
  let t := a ++ encode pad' m in
  Z.of_nat (length t) < 2 ^ 31 → calloc_ok e (Z.of_nat (length t) + 1) = true →
  ∃ c1, handleLorieEvents e false (mk_srv ((λ b, (b, None)) <$> encode pad (ClipboardSend (Z.of_nat (length t))) ++ a) c)
      = Some ((), mk_srv [] c1)
    ∧ works c1 = works c ++ [WClipboardData (a ++ replicate (S event_size) 0)]
    ∧ ∀ c2, serve e (plain m) (c1 <| mask := ∅ |>) = Some ((), c2) →
      handleLorieEvents e false (mk_srv ((λ b, (b, None)) <$> encode pad' m) c1) = Some ((), mk_srv [] c2).
Proof.
  intros Hp Hp' Hm Ha t Hl Hc. assert (0 < length a)%nat by (destruct a; [done|simpl; lia]).
  assert (length t = length a + event_size)%nat as Ht by (unfold t; rewrite length_app, length_encode by done; done).
  eexists. split; [apply handle_last, handle_short_text; try done; lia|]. split.
  - by replace (S (length t) - length a)%nat with (S event_size) by lia.
  - intros c2 Hs. apply handle_last.
    pose proof (handle_packet e pad' (plain m) [] _ _ Hp' Hm Hs) as E.
    unfold packet_bytes in E. simpl in E. by rewrite !app_nil_r in E.
Qed.

(** ** Buttons of a stylus *)

(** The three buttons: up or down. *)
Definition held (b : Z) : bool * bool * bool := (Z.testbit b 0, Z.testbit b 1, Z.testbit b 2).

(** A press of a button that is up, a release of one that is down; anything else
    about buttons is out of order. *)
Definition flip_button (b : bool) (k : pointer_kind) : option bool :=
  match k with
  | ButtonPress => if b then None else Some true
  | ButtonRelease => if b then Some false else None
  | MotionNotify => None
  end.
Definition replay_call (h : bool * bool * bool) (c : pointer_call) : option (bool * bool * bool) :=
  if decide (pkind c = MotionNotify) then Some h
  else
    let '(x, y, z) := h in
    if pbutton c =? 1 then x' ← flip_button x (pkind c); Some (x', y, z)
    else if pbutton c =? 2 then y' ← flip_button y (pkind c); Some (x, y', z)
    else if pbutton c =? 3 then z' ← flip_button z (pkind c); Some (x, y, z')
    else None.
Fixpoint replay_calls (cs : list pointer_call) (h : bool * bool * bool) : option (bool * bool * bool) :=
  match cs with [] => Some h | c :: cs' => h' ← replay_call h c; replay_calls cs' h' end.

Lemma replay_calls_app cs ds h : replay_calls (cs ++ ds) h = h' ← replay_calls cs h; replay_calls ds h'.
Proof.
  revert h. induction cs as [|c cs IH]; intros h; [done|]. simpl. destruct (replay_call h c); [|done]. simpl. apply IH.
Qed.

(** The calls one button adds. *)
Definition button_calls (d released pressed : Z) (i : nat) : list pointer_call :=
  (if Z.testbit released (Z.of_nat i)
   then [mk_pointer_call d ButtonRelease (Z.of_nat i + 1) POINTER_RELATIVE ∅] else [])
  ++ (if Z.testbit pressed (Z.of_nat i)
      then [mk_pointer_call d ButtonPress (Z.of_nat i + 1) POINTER_RELATIVE ∅] else []).

Lemma stylus_button_run d released pressed i s :
  stylus_button d released pressed i s
  = Some ((), s <| pointer_calls ::= λ l, l ++ button_calls d released pressed i |>).
Proof.
  unfold stylus_button, button_calls, QueuePointerEvents, when.
  destruct (Z.testbit released _), (Z.testbit pressed _); unfold mbind, M_bind, modify, skip; simpl;
    destruct s; simpl; do 2 f_equal; simpl; rewrite ?app_nil_r, <-?app_assoc; done.
Qed.

Lemma stylus_buttons_run d released pressed s :
  for_each (seq 0 3) (stylus_button d released pressed) s
  = Some ((), s <| pointer_calls ::= λ l, l ++ button_calls d released pressed 0
      ++ button_calls d released pressed 1 ++ button_calls d released pressed 2 |>).
Proof.
  cbn [for_each seq]. rewrite !(bind_run _ _ _ _ _ (stylus_button_run _ _ _ _ _)).
  unfold skip. do 2 f_equal. destruct s. simpl. f_equal. by rewrite <-!app_assoc.
Qed.

Definition stylus_device (s : server) (eraser mouse : Z) : Z :=
  if truthy mouse then lorieMouse (devs s)
  else if truthy eraser then lorieEraser (devs s) else loriePen (devs s).

(** The mask after an event of a stylus. *)
Definition stylus_mask (e : svenv) (is_mouse : bool) (x y p tx ty o : Z) (m : ValuatorMask) : ValuatorMask :=
  let m1 := <[1 := double_of_float (within (float_of_bits y) (scr_height e))]>
              (<[0 := double_of_float (within (float_of_bits x) (scr_width e))]> m) in
  if is_mouse then m1
  else <[5 := double_of_Z o]> (<[4 := double_of_Z ty]> (<[3 := double_of_Z tx]> (<[2 := double_of_Z p]> m1))).

Lemma stylus_event_run e x y p tx ty o b er mo s :
  let d := stylus_device s er mo in
  d ≠ 0 →
  let m := stylus_mask e (d =? lorieMouse (devs s)) x y p tx ty o (mask s) in
  let diff := Z.lxor (buttons_prev s) b in
  let calls := button_calls d (Z.land diff (Z.lnot b)) (Z.land diff b) in
  stylus_event e x y p tx ty o b er mo s
  = Some ((), s <| mask := m |> <| buttons_prev := b |>
      <| pointer_calls ::= λ l, l ++ mk_pointer_call d MotionNotify 0
           (POINTER_ABSOLUTE + POINTER_DESKTOP + (if d =? lorieMouse (devs s) then POINTER_NORAW else 0)) m
           :: calls 0%nat ++ calls 1%nat ++ calls 2%nat |>).
Proof.
  intros d Hd m diff calls. unfold stylus_event. rewrite bind_get. fold (stylus_device s er mo). fold d.
  rewrite (proj2 (Z.eqb_neq _ _) Hd). unfold mask_set. rewrite !bind_modify.
  set (s1 := s <| mask ::= _ |> <| mask ::= _ |>).
  assert (when (negb (d =? lorieMouse (devs s)))
    (modify (λ s, s <| mask ::= <[2 := double_of_Z p]> |>) ;; modify (λ s, s <| mask ::= <[3 := double_of_Z tx]> |>) ;;
     modify (λ s, s <| mask ::= <[4 := double_of_Z ty]> |>) ;; modify (λ s, s <| mask ::= <[5 := double_of_Z o]> |>)) s1
    = Some ((), s <| mask := m |>)) as E1.
  { unfold m, stylus_mask, s1. destruct (d =? lorieMouse (devs s)); by destruct s. }
  mstep E1. rewrite bind_get. unfold QueuePointerEvents at 1. rewrite bind_modify. cbv zeta.
  fold diff. mstep (stylus_buttons_run d (Z.land diff (Z.lnot b)) (Z.land diff b)
    (s <| mask := m |> <| pointer_calls ::= λ l, l ++ [mk_pointer_call d MotionNotify 0
       (POINTER_ABSOLUTE + POINTER_DESKTOP + (if d =? lorieMouse (devs s) then POINTER_NORAW else 0)) m] |>)).
  unfold modify. do 2 f_equal. fold calls. destruct s. simpl. f_equal. by rewrite <-app_assoc.
Qed.

Lemma replay_stylus_buttons d prev b :
  let diff := Z.lxor prev b in
  let calls := button_calls d (Z.land diff (Z.lnot b)) (Z.land diff b) in
  replay_calls (calls 0%nat ++ calls 1%nat ++ calls 2%nat) (held prev) = Some (held b).
Proof.
  intros diff calls. unfold calls, button_calls, held, diff. cbn [Z.of_nat]. rewrite !Z.land_spec, !Z.lxor_spec.
  rewrite !Z.lnot_spec by lia. change (Z.of_nat 0) with 0. change (Z.of_nat 1) with 1.
  change (Z.of_nat 2) with 2.
  destruct (Z.testbit prev 0), (Z.testbit prev 1), (Z.testbit prev 2), (Z.testbit b 0), (Z.testbit b 1), (Z.testbit b 2);
    reflexivity.
Qed.

Definition is_stylus (m : lorieEvent) : Prop :=
  match m with StylusEvent _ _ _ _ _ _ _ _ _ => True | _ => False end.

(** The buttons of a stylus follow the activity: after any sequence of its events, whatever
    devices they are meant for, the presses and releases queued so far are in order, no button pressed
    twice or released twice, and leave down exactly the buttons of the last event that had a device. *)
Theorem stylus_buttons_follow e ms : ∀ s,
  Forall is_stylus ms →
  ∃ s' new, for_each ms (λ m, apply_event e m [] (-1)) s = Some ((), s')
    ∧ pointer_calls s' = pointer_calls s ++ new
    ∧ replay_calls new (held (buttons_prev s)) = Some (held (buttons_prev s')).
Proof.
  induction ms as [|m ms IH]; intros s Hm; [exists s, []; by rewrite app_nil_r|].
  apply Forall_cons in Hm as [H1 H2]. destruct m; try done. cbn [for_each apply_event].
  destruct (decide (stylus_device s eraser mouse = 0)) as [Hd|Hd].
  - assert (stylus_event e x y pressure tilt_x tilt_y orientation buttons eraser mouse s = Some ((), s)) as E.
    { unfold stylus_event. rewrite bind_get. fold (stylus_device s eraser mouse). by rewrite Hd. }
    mstep E. by apply IH.
  - mstep (stylus_event_run e x y pressure tilt_x tilt_y orientation buttons eraser mouse s Hd).
    match goal with |- context [for_each ms _ ?s1] => destruct (IH s1 H2) as (s' & new & E & Hc & Hr) end.
    rewrite E. eexists s', _. split; [done|]. split; [rewrite Hc; simpl; by rewrite <-app_assoc|].
    cbn [app replay_calls]. unfold replay_call at 1. rewrite decide_True by done. cbn [mbind option_bind].
    rewrite replay_calls_app, replay_stylus_buttons. exact Hr.
Qed.

(** ** The mask *)

(** A motion of the mouse. *)
Lemma mouse_motion_run e mx my r s :
  ∃ s' v0 v1, mouse_event e mx my 0 0 r s = Some ((), s')
    ∧ pointer_calls s' = pointer_calls s ++ [mk_pointer_call (lorieMouse (devs s)) MotionNotify 0
        (if truthy r then POINTER_RELATIVE + POINTER_ACCELERATE
         else POINTER_ABSOLUTE + POINTER_SCREEN + POINTER_NORAW) (<[1 := v1]> (<[0 := v0]> (mask s)))].
Proof.
  unfold mouse_event, set_cursor_visible, mask_set, QueuePointerEvents.
  rewrite bind_modify, bind_get. cbv zeta. change (0 =? 0) with true. cbv iota. rewrite !bind_modify, bind_get.
  generalize (double_of_float (if truthy r then float_of_bits mx else within' (float_of_bits mx) (scr_width e))).
  generalize (double_of_float (if truthy r then float_of_bits my else within' (float_of_bits my) (scr_height e))).
  intros v1 v0. eexists _, v0, v1. split; [reflexivity|]. by destruct s.
Qed.

(** Axes leak from one event to the next: the mask is cleared when the callback is entered and not
    between the events of one call, so that a motion of the mouse that follows an event of the pen
    in the same call moves the mouse's scroll axes, 2 and 3, by the pen's pressure and tilt. *)
Theorem mask_leaks_between_events e s x y p tx ty o b mx my r :
  loriePen (devs s) ≠ 0 → loriePen (devs s) ≠ lorieMouse (devs s) →
  ∃ s' m, (apply_event e (StylusEvent x y p tx ty o b 0 0) [] (-1) ;;
           apply_event e (MouseEvent mx my 0 0 r) [] (-1)) s = Some ((), s')
    ∧ last (pointer_calls s') = Some (mk_pointer_call (lorieMouse (devs s)) MotionNotify 0
        (if truthy r then POINTER_RELATIVE + POINTER_ACCELERATE
         else POINTER_ABSOLUTE + POINTER_SCREEN + POINTER_NORAW) m)
    ∧ m !! 2 = Some (double_of_Z p) ∧ m !! 3 = Some (double_of_Z tx)
    ∧ m !! 4 = Some (double_of_Z ty) ∧ m !! 5 = Some (double_of_Z o).
Proof.
  intros H0 H1. cbn [apply_event]. pose proof (stylus_event_run e x y p tx ty o b 0 0 s H0) as E. cbv zeta in E.
  change (stylus_device s 0 0) with (loriePen (devs s)) in E. rewrite (proj2 (Z.eqb_neq _ _) H1) in E.
  set (m1 := stylus_mask _ _ _ _ _ _ _ _ _) in E. set (s1 := set_field pointer_calls _ _) in E.
  assert (mask s1 = m1 ∧ devs s1 = devs s) as [Hm Hd] by (by destruct s). clearbody s1. mstep E.
  destruct (mouse_motion_run e mx my r s1) as (s' & v0 & v1 & E' & Hc). rewrite E', Hd in *.
  eexists s', _. split; [reflexivity|]. rewrite Hc, last_snoc. split; [reflexivity|]. rewrite Hm.
  unfold m1, stylus_mask. split_and!; by rewrite ?lookup_insert_ne, ?lookup_insert_eq by lia.
Qed.

(** ** Typed text *)


(** ** Loss of the connection *)

Lemma forget_buffers_run l : ∀ fuel s,
  Buffer.lists s !! registeredBuffers = Some l → Forall (λ b, b ≠ 0 ∧ is_Some (Buffer.heap s !! b)) l →
  (length l < fuel)%nat →
  ∃ s', forget_buffers fuel s = Some ((), s') ∧ Buffer.lists s' !! registeredBuffers = Some []
    ∧ Buffer.heap s' = Buffer.heap s ∧ fds s' = fds s.
Proof.
  remember (length l) as n eqn:Hn. revert l Hn. induction (lt_wf n) as [n _ IH]. intros l -> [|fuel] s Hl Hf Hlen; [lia|].
  cbn [forget_buffers]. destruct l as [|b l].
  - assert (LorieBufferList_first registeredBuffers s = Some (0, s)) as E
      by (unfold LorieBufferList_first; rewrite bind_get, Hl; done).
    mstep E. simpl. by exists s.
  - apply Forall_cons in Hf as [[Hb [v Hv]] Hf].
    assert (LorieBufferList_first registeredBuffers s = Some (b, s)) as E
      by (unfold LorieBufferList_first; rewrite bind_get, Hl; done).
    mstep E. rewrite (proj2 (Z.eqb_neq _ _) Hb).
    assert (LorieBuffer_removeFromList b s
      = Some ((), s <| Buffer.lists ::= fmap (filter (λ q, q ≠ b)) |>)) as E1.
    { unfold LorieBuffer_removeFromList. rewrite (proj2 (Z.eqb_neq _ _) Hb).
      unfold Buffer.deref. unfold mbind, M_bind, get, of_option. rewrite Hv. done. }
    mstep E1. simpl in Hlen.
    destruct (IH (length (filter (λ q, q ≠ b) l))) with (l := filter (λ q, q ≠ b) l) (fuel := fuel)
      (s := s <| Buffer.lists ::= fmap (filter (λ q, q ≠ b)) |>) as (s' & E' & R1 & R2 & R3).
    + simpl. pose proof (length_filter (λ q, q ≠ b) l). lia.
    + done.
    + simpl. rewrite lookup_fmap, Hl. simpl. rewrite filter_cons, decide_False by tauto. done.
    + simpl. apply Forall_filter. done.
    + pose proof (length_filter (λ q, q ≠ b) l). lia.
    + exists s'. by split_and!.
Qed.

(** A lost connection is forgotten: when the socket reports an error the callback returns, the
    connection is marked as gone, the clipboard is no longer synchronised, and no buffer is registered
    any more; the buffers themselves stay. *)
Theorem connection_lost e st c l :
  Buffer.lists (bufs c) !! registeredBuffers = Some l →
  Forall (λ b, b ≠ 0 ∧ is_Some (Buffer.heap (bufs c) !! b)) l →
  ∃ c', handleLorieEvents e true (mk_srv st c) = Some ((), mk_srv st c') ∧ conn_fd c' = -1
    ∧ clipboardEnabled (clp c') = false ∧ Buffer.lists (bufs c') !! registeredBuffers = Some []
    ∧ Buffer.heap (bufs c') = Buffer.heap (bufs c).
Proof.
  intros Hl Hf. destruct (forget_buffers_run l (S (length l)) (bufs c) Hl Hf) as (b & E & R1 & R2 & _); [lia|].
  exists (c <| mask := ∅ |> <| conn_fd := -1 |> <| clp ::= λ x, x <| clipboardEnabled := false |> |> <| bufs := b |>).
  split; [|done]. unfold handleLorieEvents.
  assert (on_core mask_zero (mk_srv st c) = Some ((), mk_srv st (c <| mask := ∅ |>))) as E0 by done.
  mstep E0. rewrite bind_get. cbv iota. set (c1 := c <| mask := ∅ |> <| conn_fd := -1 |>).
  set (c2 := c1 <| clp ::= λ x, x <| clipboardEnabled := false |> |>).
  refine (lift_run core (λ t s, s <| core := t |>) _ (mk_srv st (c <| mask := ∅ |>)) () (c2 <| bufs := b |>) _).
  rewrite bind_modify. fold c1.
  assert (on_clp (lorieEnableClipboardSync false) c1 = Some ((), c2)) as E1 by (by destruct c).
  cbn [core]. fold c1. mstep E1. rewrite bind_get.
  assert (default [] (Buffer.lists (bufs c2) !! registeredBuffers) = l) as -> by (unfold c2, c1; simpl; by rewrite Hl).
  exact (lift_run bufs (λ t s, s <| bufs := t |>) _ c2 _ _ E).
Qed.

(** ** A concrete server *)

Definition demo_env : svenv :=
  mk_svenv demo_kenv demo_cenv demo_tenv (mk_dvenv true) merge_env (λ _, true) (λ fd, fd) 800 600.

Definition demo_server : server :=
  mk_server demo_kst (core_only <| lorieMouse := 4 |> <| loriePen := 7 |> <| lorieEraser := 8 |>) (idle 2 true)
    demo_waiting (mk_bst ∅ 1 {[registeredBuffers := []]} ∅ ∅ ∅ ∅ ∅ ∅ [])
    (mk_cur 0 0 0 0 0 0 [] false false true (mk_mtx None 0 0) 0) None [] [] 0 ∅ 5 [].

(** A touch, a key and a text, on the socket and served. *)
Definition demo_packets : list packet :=
  [plain (TouchEvent 18 1 10 20); mk_packet (ClipboardSend 2) [104; 105] None; plain (KeyEvent 38 1)].

Definition demo_stream : stream :=
  packet_bytes zero_pad (plain (TouchEvent 18 1 10 20))
  ++ packet_bytes zero_pad (mk_packet (ClipboardSend 2) [104; 105] None)
  ++ packet_bytes zero_pad (plain (KeyEvent 38 1)) ++ [].

Lemma demo_on_wire : on_wire demo_packets demo_stream.
Proof. repeat (apply on_wire_cons; [reflexivity|]). constructor. Qed.

Lemma demo_packets_ok : Forall packet_ok demo_packets.
Proof.
  unfold demo_packets, packet_ok.
  repeat (apply Forall_cons; split; [simpl; split_and!; try done; unfold inU; lia|]). constructor.
Qed.

Lemma events_served_in_order_witness :
  ∃ c', input_thread 4 demo_env (mk_srv demo_stream demo_server) = Some ((), mk_srv [] c')
    ∧ works c' = [WTouch (mk_touch_msg 18 1 10 20); WClipboardData [104; 105; 0]]
    ∧ queue (keyb c') = [KeyPress 38].
Proof.
  assert (∃ c', serve_all demo_env demo_packets (demo_server <| mask := ∅ |>) = Some ((), c')
    ∧ works c' = [WTouch (mk_touch_msg 18 1 10 20); WClipboardData [104; 105; 0]]
    ∧ queue (keyb c') = [KeyPress 38]) as (c' & E & Hw & Hq) by (by eexists).
  exists c'. split; [|split; [exact Hw|exact Hq]].
  exact (events_served_in_order demo_env demo_packets demo_stream demo_server c' demo_on_wire ltac:(done)
    demo_packets_ok E).
Defined.

Lemma clipboard_over_the_wire_witness :
  ∃ c1 c2 evs, input_thread 2 demo_env (mk_srv (packet_bytes zero_pad (clipboard_packet [104; 105])) demo_server)
      = Some ((), mk_srv [] c1)
    ∧ run_works 2 demo_env c1 = Some ((), c2) ∧ lorieDataTargetHead (clp c2) = []
    ∧ Forall2 answered [mk_LorieDataTarget 7 303 305 400 70 99] evs.
Proof.
  destruct (clipboard_over_the_wire demo_env zero_pad [104; 105] [104; 105] demo_server)
    as (c1 & c2 & evs & E1 & E2 & _ & E3 & _ & _ & E4).
  - reflexivity.
  - simpl. lia.
  - reflexivity.
  - split_and!; [repeat constructor; lia|vm_compute; done|by exists []].
  - vm_compute. done.
  - reflexivity.
  - vm_compute. repeat constructor; done.
  - exists c1, c2, evs. split; [exact E1|]. split; [exact E2|]. split; [exact E3|exact E4].
Defined.

(** The text is "hi" and the bytes of a pressed key. *)
Lemma short_text_runs_as_event_witness :
  ∃ c1 c2, handleLorieEvents demo_env false
      (mk_srv ((λ b, (b, None)) <$> encode zero_pad (ClipboardSend 26) ++ [104; 105]) demo_server)
      = Some ((), mk_srv [] c1)
    ∧ handleLorieEvents demo_env false (mk_srv ((λ b, (b, None)) <$> encode zero_pad (KeyEvent 38 1)) c1)
      = Some ((), mk_srv [] c2)
    ∧ queue (keyb c1) = [] ∧ queue (keyb c2) = [KeyPress 38].
Proof.
  assert (packet_ok (plain (KeyEvent 38 1))) as Hm by (unfold packet_ok; simpl; split_and!; try done; unfold inU; lia).
  destruct (short_text_runs_as_event demo_env zero_pad zero_pad [104; 105] (KeyEvent 38 1) demo_server
    eq_refl eq_refl Hm ltac:(done) ltac:(vm_compute; reflexivity) eq_refl) as (c1 & E1 & _ & H).
  destruct (serve demo_env (plain (KeyEvent 38 1)) (c1 <| mask := ∅ |>)) as [[[] c2]|] eqn:E; [|done].
  exists c1, c2. split; [exact E1|]. split; [by apply H|].
  vm_compute in E1. injection E1 as <-. vm_compute in E. injection E as <-. done.
Defined.

Lemma stylus_buttons_follow_witness :
  ∃ s' new, for_each [StylusEvent 0 0 0 0 0 0 1 0 0; StylusEvent 0 0 0 0 0 0 6 1 0] 
      (λ m, apply_event demo_env m [] (-1)) demo_server = Some ((), s')
    ∧ pointer_calls s' = new ∧ replay_calls new (false, false, false) = Some (false, true, true).
Proof.
  destruct (stylus_buttons_follow demo_env [StylusEvent 0 0 0 0 0 0 1 0 0; StylusEvent 0 0 0 0 0 0 6 1 0] demo_server)
    as (s' & new & E & Hc & Hr); [by repeat constructor|].
  exists s', new. split; [exact E|]. split; [exact Hc|].
  vm_compute in E. injection E as <-. exact Hr.
Defined.

Lemma mask_leaks_between_events_witness :
  ∃ s' c, (apply_event demo_env (StylusEvent 0 0 4096 0 0 0 0 0 0) [] (-1) ;;
           apply_event demo_env (MouseEvent 0 0 0 0 1) [] (-1)) demo_server = Some ((), s')
    ∧ last (pointer_calls s') = Some c ∧ pdev c = 4 ∧ pmask c !! 2 = Some (double_of_Z 4096).
Proof.
  destruct (mask_leaks_between_events demo_env demo_server 0 0 4096 0 0 0 0 0 0 1) as (s' & m & E & H1 & H2 & _);
    [done|done|]. exists s', (mk_pointer_call 4 MotionNotify 0 10 m). split; [exact E|]. split; [exact H1|].
  split; [done|exact H2].
Defined.


Lemma connection_lost_witness :
  ∃ c', handleLorieEvents demo_env true (mk_srv demo_stream (demo_server <| bufs :=
      mk_bst {[100 := recv_blank]} 1 {[registeredBuffers := [100]]} ∅ ∅ ∅ ∅ ∅ ∅ [] |>))
      = Some ((), mk_srv demo_stream c') ∧ conn_fd c' = -1
    ∧ Buffer.lists (bufs c') !! registeredBuffers = Some [].
Proof.
  destruct (connection_lost demo_env demo_stream (demo_server <| bufs :=
      mk_bst {[100 := recv_blank]} 1 {[registeredBuffers := [100]]} ∅ ∅ ∅ ∅ ∅ ∅ [] |>) [100])
    as (c' & E & H1 & _ & H2 & _); [reflexivity| |].
  - apply Forall_singleton. split; [done|by eexists].
  - exists c'. split; [exact E|]. split; [exact H1|exact H2].
Defined.
