(* ===== verification/Config.v ===== *)
(** * Size, name and windows of the screen ([lorie/InitOutput.c])

    When the surface of the activity changes, [lorieConfigureNotify] gives the
    output its name, asks [libxcvt] for a mode, and sets the screen's size through
    RandR, which calls [lorieRRScreenSetSize]: a new screen pixmap takes the place
    of the old one, for the root window and for every window that draws into it.

    The state [conf] joins [screen] of [Screen] with the tree of windows and what
    the driver keeps of the output.  A window is its id, its pixmap, its first child
    and its next sibling, as the server links them; the root window's pixmap is in
    [screen].  Pixels, clip lists, notifications to clients and sizes in millimetres
    are left out, and of a mode only its size is kept: nothing here reads the rest. *)

From stdpp Require Import gmap.
From S2P Require Import Prelude Buffer GpuCopy Present Screen.

(** ** State *)

Inductive wtree := WNil | WNode (wid wpix : Z) (firstChild nextSib : wtree).

Record conf := mk_conf {
  scr : screen;
  windows : wtree;                  (** the children of the root window *)
  flip : option (option Z * Z);     (** Present: the flip's window, [None] for the root, and pixmap *)
  scr_width : Z; scr_height : Z;    (** [pScreen->width], [pScreen->height]: [short] *)
  damage_on : Z;                    (** the pixmap the damage is registered for *)
  framerate : Z;                    (** [root.framerate] *)
  vblank_interval : Z;
  root_name : list Z;               (** [root.name]: 1024 bytes *)
  out_name : option (list Z);       (** [output->name]: 1025 bytes, if there is an output *)
  nameLength : Z;
  crtc_mode : Z * Z                 (** size of the mode that is set *)
}.
#[export] Instance eta_conf : Settable conf := λ s,
  mk_conf (scr s) (windows s) (flip s) (scr_width s) (scr_height s) (damage_on s) (framerate s)
    (vblank_interval s) (root_name s) (out_name s) (nameLength s) (crtc_mode s).

Definition on_scr {A} (m : M screen A) : M conf A := λ s,
  match m (scr s) with Some (a, t) => Some (a, s <| scr := t |>) | None => None end.

(** ** Trees of windows *)

(** [TraverseTree] with [lorieSetPixmapVisitWindow], respectively
    [present_set_tree_pixmap_visit], below a window that was visited: a window that
    has the pixmap gets the new one and its children are walked, another one is
    left alone with its children. *)
Fixpoint walk (old new : Z) (t : wtree) : wtree :=
  match t with
  | WNil => WNil
  | WNode i x c n =>
    if x =? old then WNode i new (walk old new c) (walk old new n)
    else WNode i x c (walk old new n)
  end.

Fixpoint window_pixmap (w : Z) (t : wtree) : option Z :=
  match t with
  | WNil => None
  | WNode i x c n =>
    if i =? w then Some x
    else match window_pixmap w c with Some p => Some p | None => window_pixmap w n end
  end.

(** [TraverseTree] that starts at the window [w]: its siblings are not walked. *)
Fixpoint walk_at (w old new : Z) (t : wtree) : wtree :=
  match t with
  | WNil => WNil
  | WNode i x c n =>
    if i =? w then (if x =? old then WNode i new (walk old new c) n else t)
    else WNode i x (walk_at w old new c) (walk_at w old new n)
  end.

(** [TraverseTree(pScreen->root, ...)] from the pixmap [old] to [new]. *)
Definition traverse_root (e : senv) (old new : Z) : M conf () :=
  s ← get;
  when (root_pixmap (scr s) =? old)
    (on_scr (lorieSetWindowPixmap e true new) ;;
     modify (λ s, s <| windows ::= walk old new |>)).

(** ** Present *)

(** [present_set_tree_pixmap] for the root ([None]) or a window; [expected] 0 is NULL. *)
Definition present_set_tree_pixmap (e : senv) (w : option Z) (expected pixmap : Z) : M conf () :=
  s ← get;
  old ← match w with
        | None => mret (root_pixmap (scr s))
        | Some w => of_option (window_pixmap w (windows s))
        end;
  if negb (expected =? 0) && negb (old =? expected) then skip
  else if old =? pixmap then skip
  else match w with
       | None => traverse_root e old pixmap
       | Some w => modify (λ s, s <| windows ::= walk_at w old pixmap |>)
       end.

(** [present_restore_screen_pixmap]; the assertion is compiled out. *)
Definition present_restore_screen_pixmap (e : senv) : M conf () :=
  s ← get;
  let screen_pixmap := devPrivate (scr s) in
  match flip s with
  | Some (w, p) => present_set_tree_pixmap e w p screen_pixmap
  | None => skip
  end ;;
  present_set_tree_pixmap e None 0 screen_pixmap.

(** ** The screen's size *)

(** [LORIE_BUFFER_FROM_PIXMAP]. *)
Definition buffer_of (p : Z) : M screen Z :=
  if p =? 0 then mret 0 else x ← pix p; mret (pbuf (priv x)).

(** [newpix] is the address of the pixmap that is made. *)
Definition lorieRRScreenSetSize (e : senv) (newpix : Z) (calloc_ok : bool) (width height : Z) : M conf () :=
  on_scr (on_pres (loriePerformVblanks (react e))) ;;
  present_restore_screen_pixmap e ;;
  modify (λ s, s <| scr_width := s16 width |> <| scr_height := s16 height |>
                 <| scr ::= λ t, t <| root_width := u32 (s16 width) |> <| root_height := u32 (s16 height) |> |>) ;;
  s ← get;
  let oldPixmap := devPrivate (scr s) in
  newPixmap ← on_scr (CreatePixmap e newpix calloc_ok width height USAGE_LORIEBUFFER_BACKED);
  if newPixmap =? 0 then ub     (* [DamageRegister] of a null drawable *)
  else
    on_scr (modify (λ t, t <| devPrivate := newPixmap |>)) ;;
    modify (λ s, s <| damage_on := newPixmap |>) ;;
    when (negb (oldPixmap =? 0))
      (traverse_root e oldPixmap newPixmap ;; on_scr (DestroyPixmap e oldPixmap)) ;;
    b ← on_scr (buffer_of newPixmap);
    on_scr (lorieRegisterBuffer e b) ;;
    on_scr (modify (λ t, t <| cursor_moved := true |>)).

(** ** Modes *)

Definition CVT_H_GRANULARITY : Z := 8.

(** The size in what [libxcvt_gen_mode_info] returns, without margins and interlacing. *)
Definition cvt_size (width height : Z) : Z * Z :=
  let hdisplay := u32 (u32 width - u32 width mod CVT_H_GRANULARITY) in
  let vdisplay := u32 height in
  if (hdisplay =? 1360) && (vdisplay =? 768) then (1366, vdisplay) else (hdisplay, vdisplay).

(** [lorieCvt]: the size of the mode. *)
Definition lorieCvt (width height : Z) : Z * Z :=
  let '(h, v) := cvt_size width height in (u16 h, u16 v).

(** ** Names *)

(** [strncpy] to the start of a block: the characters up to the NUL, and NULs for
    the rest of the [n] bytes. *)
Definition strncpy (dst name : list Z) (n : nat) : list Z :=
  let chars := take n (cstr name) in
  chars ++ replicate (n - length chars) 0 ++ drop n dst.

Definition NAME_SIZE : nat := 1024.

(** [memset] and [strncpy] of the first 1024 bytes of a block. *)
Definition put_name (block name : list Z) (name_size : Z) : list Z :=
  let zeroed := replicate NAME_SIZE 0 ++ drop NAME_SIZE block in
  strncpy zeroed name (if name_size <? 1024 then Z.to_nat name_size else NAME_SIZE).

Definition set_name (name : list Z) (name_size : Z) : M conf () :=
  s ← get;
  match out_name s with
  | None => skip
  | Some o =>
    let o' := <[1023%nat := 0]> (put_name o name name_size) in
    modify (λ s, s <| root_name := put_name (root_name s) name name_size |>
                   <| out_name := Some o' |> <| nameLength := Z.of_nat (length (cstr o')) |>)
  end.

(** ** [lorieConfigureNotify] *)

Definition needs_resize (width height fps : Z) (s : conf) : bool :=
  bool_decide (is_Some (out_name s)) && truthy width && truthy height
  && (negb (scr_width s =? width) || negb (scr_height s =? height) || negb (framerate s =? u32 fps)).

Definition lorieConfigureNotify (e : senv) (newpix : Z) (calloc_ok : bool)
    (width height fps name_size : Z) (name : option (list Z)) : M conf () :=
  let fps := if truthy fps then fps else 30 in
  match name with Some n => set_name n name_size | None => skip end ;;
  s ← get;
  when (needs_resize width height fps s)
    (let '(w, h) := lorieCvt width height in
     modify (λ s, s <| crtc_mode := (w, h) |>) ;;
     lorieRRScreenSetSize e newpix calloc_ok w h ;;
     modify (λ s, s <| framerate := u32 fps |> <| vblank_interval := 1000000 / u32 fps |>)).

(** [RROutputCreate] as [lorieRandRInit] calls it, at the start of each server
    generation: the whole array is copied and a NUL put behind it. *)
Definition create_output (s : conf) : conf :=
  let o := root_name s ++ [0] in
  s <| out_name := Some o |> <| nameLength := Z.of_nat (length (cstr o)) |>.

(** ** Every window is reached *)

(** A window that draws into [p] is below windows that do, from the root on, whose
    pixmap is [q]. *)
Fixpoint rooted (q p : Z) (t : wtree) : Prop :=
  match t with
  | WNil => True
  | WNode i x c n => (x = p → q = p) ∧ rooted x p c ∧ rooted q p n
  end.

(** The pixmap replaced everywhere. *)
Fixpoint replace (old new : Z) (t : wtree) : wtree :=
  match t with
  | WNil => WNil
  | WNode i x c n => WNode i (if x =? old then new else x) (replace old new c) (replace old new n)
  end.

Fixpoint uses (p : Z) (t : wtree) : bool :=
  match t with WNil => false | WNode i x c n => (x =? p) || uses p c || uses p n end.

Lemma rooted_absent q p t : q ≠ p → rooted q p t → uses p t = false.
Proof.
  revert q. induction t as [|i x c IHc n IHn]; intros q Hq; simpl; [done|]. intros (Hx & Hc & Hn).
  assert (x ≠ p) as Hxp by auto. rewrite (proj2 (Z.eqb_neq x p)) by done. simpl.
  by rewrite (IHc x), (IHn q).
Qed.

Lemma replace_absent old new t : uses old t = false → replace old new t = t.
Proof.
  induction t as [|i x c IHc n IHn]; simpl; [done|]. intros [[Hx Hc]%orb_false_iff Hn]%orb_false_iff.
  by rewrite Hx, IHc, IHn.
Qed.

Lemma replace_same p t : replace p p t = t.
Proof.
  induction t as [|i x c IHc n IHn]; simpl; [done|]. rewrite IHc, IHn.
  by destruct (Z.eqb_spec x p) as [->|].
Qed.

Lemma walk_at_absent w old new t : uses old t = false → walk_at w old new t = t.
Proof.
  induction t as [|i x c IHc n IHn]; simpl; [done|]. intros [[Hx Hc]%orb_false_iff Hn]%orb_false_iff.
  rewrite Hx, IHc, IHn by done. by destruct (i =? w).
Qed.

Lemma uses_replace old new t : old ≠ new → uses old (replace old new t) = false.
Proof.
  intros H. induction t as [|i x c IHc n IHn]; simpl; [done|]. rewrite IHc, IHn, !orb_false_r.
  destruct (Z.eqb_spec x old); apply Z.eqb_neq; congruence.
Qed.

(** A walk from the root replaces the pixmap everywhere. *)
Lemma walk_replace old new t : rooted old old t → walk old new t = replace old new t.
Proof.
  induction t as [|i x c IHc n IHn]; simpl; [done|]. intros (_ & Hc & Hn). rewrite IHn by done.
  destruct (Z.eqb_spec x old) as [->|Hx]; [by rewrite IHc|].
  by rewrite (replace_absent _ _ c) by by eapply rooted_absent.
Qed.

(** Also when the tree of the flip's window was walked before. *)
Lemma walk_walk_at w old new t :
  old ≠ new → rooted old old t → walk old new (walk_at w old new t) = replace old new t.
Proof.
  intros Hne. induction t as [|i x c IHc n IHn]; [done|]. intros H. pose proof H as (_ & Hc & Hn).
  cbn [walk_at]. destruct (i =? w).
  - destruct (Z.eqb_spec x old) as [->|Hx].
    + cbn [walk replace]. rewrite (proj2 (Z.eqb_neq new old)), Z.eqb_refl by done.
      by rewrite !walk_replace.
    + by apply walk_replace.
  - cbn [walk replace]. rewrite IHn by done. destruct (Z.eqb_spec x old) as [->|Hx]; [by rewrite IHc|].
    rewrite walk_at_absent, (replace_absent _ _ c); [done|by eapply rooted_absent..].
Qed.

Lemma rooted_replace q old new t :
  rooted q old t → uses new t = false → rooted (if q =? old then new else q) new (replace old new t).
Proof.
  revert q. induction t as [|i x c IHc n IHn]; intros q; simpl; [done|].
  intros (Hx & Hc & Hn) [[Hxn Hcn]%orb_false_iff Hnn]%orb_false_iff. split_and!; [|auto..].
  apply Z.eqb_neq in Hxn. destruct (Z.eqb_spec x old); [|done].
  intros _. by rewrite (proj2 (Z.eqb_eq q old)) by auto.
Qed.

(** ** Runs of the parts *)

Lemma on_scr_run {A} (m : M screen A) s a t :
  m (scr s) = Some (a, t) → on_scr m s = Some (a, s <| scr := t |>).
Proof. intros E. unfold on_scr. by rewrite E. Qed.

(** A pixmap with its buffer. *)
Definition held (s : screen) (p : Z) (x : pixmap) (b : LorieBuffer) : Prop :=
  pixmaps s !! p = Some x ∧ pbuf (priv x) ≠ 0 ∧ heap (bufs s) !! pbuf (priv x) = Some b.

(** Only locks were taken and given back between [s] and [s']. *)
Record relocked (s s' : screen) : Prop := mk_relocked {
  rl_pix : pix_core s' = pix_core s;
  rl_heap : heap_core (bufs s') = heap_core (bufs s);
  rl_lists : lists (bufs s') = lists (bufs s);
  rl_ahbs : ahbs (bufs s') = ahbs (bufs s);
  rl_dev : devPrivate s' = devPrivate s;
  rl_legacy : legacyDrawing s' = legacyDrawing s;
  rl_conn : conn_fd s' = conn_fd s;
  rl_size : (root_width s', root_height s') = (root_width s, root_height s)
}.

Lemma relocked_refl s : relocked s s.
Proof. by constructor. Qed.
Lemma relocked_trans s1 s2 s3 : relocked s1 s2 → relocked s2 s3 → relocked s1 s3.
Proof. intros [] []. constructor; congruence. Qed.

Lemma relocked_held s s' p x b :
  relocked s s' → held s p x b →
  ∃ x' b', held s' p x' b' ∧ pbuf (priv x') = pbuf (priv x) ∧ pwidth x' = pwidth x ∧ pheight x' = pheight x
    ∧ buf_core b' = buf_core b.
Proof.
  intros R (Hx & Hb & Hh).
  assert (pix_core s' !! p = Some (pwidth x, pheight x, pbuf (priv x), mem (priv x))) as E.
  { rewrite (rl_pix _ _ R). unfold pix_core. by rewrite lookup_fmap, Hx. }
  unfold pix_core in E. rewrite lookup_fmap in E. apply fmap_Some in E as (x' & Hx' & [= E1 E2 E3 E4]).
  assert (heap_core (bufs s') !! pbuf (priv x) = Some (buf_core b)) as (b' & Hb' & Eb)%heap_core_lookup.
  { rewrite (rl_heap _ _ R). apply heap_core_lookup. eauto. }
  exists x', b'. unfold held. by rewrite <-E3.
Qed.

Lemma pix_core_same s p x x' :
  pixmaps s !! p = Some x → (pwidth x', pheight x', pbuf (priv x'), mem (priv x'))
    = (pwidth x, pheight x, pbuf (priv x), mem (priv x)) →
  (λ x, (pwidth x, pheight x, pbuf (priv x), mem (priv x))) <$> <[p := x']> (pixmaps s) = pix_core s.
Proof.
  intros Hx E. unfold pix_core. rewrite fmap_insert, E. apply insert_id. by rewrite lookup_fmap, Hx.
Qed.

Lemma heap_core_same st p b b' :
  heap st !! p = Some b → buf_core b' = buf_core b → buf_core <$> <[p := b']> (heap st) = heap_core st.
Proof.
  intros Hb E. unfold heap_core. rewrite fmap_insert, E. apply insert_id. by rewrite lookup_fmap, Hb.
Qed.

(** [LorieBuffer_unlock] of a live buffer. *)
Lemma unlock_run e p b st :
  p ≠ 0 → heap st !! p = Some b →
  ∃ r st', LorieBuffer_unlock e p st = Some (r, st')
    ∧ heap_core st' = heap_core st ∧ lists st' = lists st ∧ ahbs st' = ahbs st.
Proof.
  intros Hp Hb. unfold LorieBuffer_unlock. rewrite (proj2 (Z.eqb_neq _ _) Hp). mstep (deref_run _ _ _ Hb).
  destruct (negb (locked b)); [by eexists _, _|]. mstep (upd_run _ _ _ _ Hb).
  eexists _, _. split; [done|]. simpl. split; [|done]. by eapply heap_core_same.
Qed.

(** The old pixmap of the root window is unlocked. *)
Lemma leave_root_run e p x b s :
  held s p x b →
  ∃ s', when (negb (pbuf (priv x) =? 0) && negb (plocked (priv x) =? 0))
          (_ ← on_bufs (LorieBuffer_unlock (be e) (pbuf (priv x)));
           upd_priv p (λ v, v <| plocked := 0 |> <| wasLocked := false |>)) s = Some ((), s')
    ∧ relocked s s' ∧ root_pixmap s' = root_pixmap s ∧ pres s' = pres s.
Proof.
  intros (Hx & Hp & Hb). destruct (_ && _); [|exists s; split; [done|]; by split_and!; [constructor|..]].
  destruct (unlock_run (be e) _ _ _ Hp Hb) as (r & st' & E & H1 & H2 & H3).
  cbn [when]. mstep (on_bufs_run _ _ _ _ E). unfold upd_priv.
  eexists. split; [apply upd_pix_run; exact Hx|]. split_and!; try done. constructor; try done.
  simpl. by eapply pix_core_same.
Qed.

(** The new one is locked unless it is already. *)
Lemma enter_root_run e p x b s :
  held s p x b →
  ∃ s', when (negb (pbuf (priv x) =? 0) && (plocked (priv x) =? 0))
          (_ ← lock_priv e p; upd_priv p (λ v, v <| wasLocked := false |>)) s = Some ((), s')
    ∧ relocked s s' ∧ root_pixmap s' = root_pixmap s ∧ pres s' = pres s.
Proof.
  intros (Hx & Hp & Hb). destruct (_ && _); [|exists s; split; [done|]; by split_and!; [constructor|..]].
  cbn [when]. unfold lock_priv.
  assert (∃ r out st', LorieBuffer_lock (be e) (pbuf (priv x)) (bufs s) = Some ((r, Some out), st')
    ∧ heap_core st' = heap_core (bufs s) ∧ lists st' = lists (bufs s) ∧ ahbs st' = ahbs (bufs s))
    as (r & out & st' & E & H1 & H2 & H3).
  { unfold LorieBuffer_lock. rewrite (proj2 (Z.eqb_neq _ _) Hp). mstep (deref_run _ _ _ Hb).
    destruct (locked b); [by eexists _, _, _|].
    match goal with |- context [let '(_, _) := ?t in _] => destruct t as [r a] end.
    mstep (upd_run _ _ _ _ Hb). eexists _, _, _. split; [done|]. simpl. split; [|done].
    by eapply heap_core_same. }
  set (s1 := s <| bufs := st' |> <| pixmaps ::= insert p (x <| priv ::= λ v, v <| plocked := out |> |>) |>).
  assert ((x0 ← pix p;
    '(ret, o) ← on_bufs (LorieBuffer_lock (be e) (pbuf (priv x0)));
    match o with
    | Some a => upd_priv p (λ v, v <| plocked := a |>) ;; mret ret
    | None => mret ret
    end) s = Some (r, s1)) as E1.
  { mstep (pix_run _ _ _ Hx). mstep (on_bufs_run _ _ _ _ E). cbv iota. unfold upd_priv.
    erewrite bind_run by (apply upd_pix_run; exact Hx). done. }
  mstep E1. unfold upd_priv. eexists. split; [apply upd_pix_run; apply lookup_insert_eq|].
  split_and!; try done. constructor; try done. simpl. rewrite insert_insert_eq. by eapply pix_core_same.
Qed.

(** The pixmap of the root window changes. *)
Lemma set_root_run e s p x b q y c :
  root_pixmap s = p → p ≠ 0 → q ≠ 0 → held s p x b → held s q y c →
  ∃ s', lorieSetWindowPixmap e true q s = Some ((), s') ∧ relocked s s' ∧ root_pixmap s' = q ∧ pres s' = pres s.
Proof.
  intros Hr Hp Hq Hx Hy. unfold lorieSetWindowPixmap. cbn [when].
  destruct (leave_root_run e p x b s Hx) as (s1 & E1 & R1 & Q1 & P1).
  destruct (relocked_held _ _ _ _ _ R1 Hy) as (y' & c' & Hy' & _).
  destruct (enter_root_run e q y' c' s1 Hy') as (s2 & E2 & R2 & Q2 & P2).
  rewrite bind_get, Hr, (proj2 (Z.eqb_neq _ _) Hp). cbn [negb when].
  erewrite bind_run; [|mstep (pix_run _ _ _ (proj1 Hx)); exact E1]. cbv beta.
  rewrite (proj2 (Z.eqb_neq _ _) Hq). cbn [negb when].
  erewrite bind_run; [|mstep (pix_run _ _ _ (proj1 Hy')); exact E2]. cbv beta.
  eexists. split; [done|]. pose proof (relocked_trans _ _ _ R1 R2) as []. split_and!; [by constructor|done|].
  simpl. by rewrite P2.
Qed.

(** What the system must answer for a new screen pixmap: hardware buffers, one for
    this size, memory for its record, and access to it. *)
Record alloc_ready (e : senv) (w h hb a : Z) (s : screen) : Prop := mk_alloc_ready {
  ar_api : api26 (be e) = true;
  ar_modern : legacyDrawing s = false;
  ar_ahb : ahb_allocate (be e) w h FORMAT_R8G8B8X8 = (0, hb);
  ar_hb : hb ≠ 0;
  ar_record : malloc_buffer (be e) ≠ 0;
  ar_fresh : heap (bufs s) !! malloc_buffer (be e) = None;
  ar_lock : ahb_lock (be e) hb = (0, a);
  ar_w : 0 < w; ar_h : 0 < h
}.

Lemma new_screen_pixmap_run e newpix w h hb a s :
  alloc_ready e w h hb a s → lists_ok (bufs s) →
  ∃ s' x b, CreatePixmap e newpix true w h USAGE_LORIEBUFFER_BACKED s = Some (newpix, s')
    ∧ pixmaps s' = <[newpix := x]> (pixmaps s) ∧ pwidth x = w ∧ pheight x = h
    ∧ pbuf (priv x) = malloc_buffer (be e) ∧ plocked (priv x) = a
    ∧ heap (bufs s') = <[malloc_buffer (be e) := b]> (heap (bufs s)) ∧ locked b = true
    ∧ lists_ok (bufs s')
    ∧ (∀ q, is_Some (ahbs (bufs s) !! q) → is_Some (ahbs (bufs s') !! q))
    ∧ (root_pixmap s', devPrivate s', conn_fd s', pres s', (root_width s', root_height s'))
      = (root_pixmap s, devPrivate s, conn_fd s, pres s, (root_width s, root_height s)).
Proof.
  intros [Hapi Hm Ha Hhb Hmb Hf Hl Hw Hh] (ps & Hps & Hpf).
  set (nb := malloc_buffer (be e)) in *.
  set (d := ahb_describe (be e) hb).
  set (b0 := mk_LorieBuffer 1 (mk_Desc (s32 (a_width d)) (s32 (a_height d)) (s32 (a_stride d)) (u8 (a_format d))
    (u8 LORIEBUFFER_AHARDWAREBUFFER) (next_id (bufs s)) hb 0) false 0 (-1) 0 0 0 0 0).
  assert (∃ st1, LorieBuffer_allocate (be e) w h FORMAT_R8G8B8X8 LORIEBUFFER_AHARDWAREBUFFER (bufs s) = Some (nb, st1)
    ∧ heap st1 = <[nb := b0]> (heap (bufs s)) ∧ lists st1 = lists (bufs s)
    ∧ ∀ q, is_Some (ahbs (bufs s) !! q) → is_Some (ahbs st1 !! q)) as (st1 & E1 & H1 & L1 & A1).
  { unfold LorieBuffer_allocate, allocate, alloc_record, ahb_acquire. simpl. rewrite Hapi, Ha. simpl. mrun.
    fold nb. rewrite (proj2 (Z.eqb_neq _ _) Hhb), (proj2 (Z.eqb_neq _ _) Hmb). eexists. split; [done|].
    simpl. split_and!; try done. intros q Hq. rewrite ?lookup_insert_is_Some'. tauto. }
  assert (heap st1 !! nb = Some b0) as Hb0 by (by rewrite H1, lookup_insert_eq).
  set (b1 := b0 <| lockedData := a |> <| locked := true |>).
  assert (LorieBuffer_lock (be e) nb st1 = Some ((0, Some a), st1 <| heap ::= insert nb b1 |>)) as E2.
  { unfold LorieBuffer_lock. rewrite (proj2 (Z.eqb_neq _ _) Hmb). mstep (deref_run _ _ _ Hb0).
    simpl. rewrite Hapi, Hl. mstep (upd_run _ _ _ _ Hb0). done. }
  set (s1 := s <| bufs := st1 |>). set (s2 := s <| bufs := st1 <| heap ::= insert nb b1 |> |>).
  assert (lorieCreatePixmap e true w h USAGE_LORIEBUFFER_BACKED s
    = Some ((Some (mk_priv nb false false false a 0), s32 (s32 (a_stride d) * 4)), s2)) as E3.
  { unfold lorieCreatePixmap. cbn [negb]. rewrite !(proj2 (Z.eqb_neq _ _)) by lia. cbn [orb].
    rewrite bind_get, Hm. cbv zeta. rewrite Z.eqb_refl. cbn [negb].
    mstep (on_bufs_run _ _ _ _ E1). fold s1.
    mstep (on_bufs_pure _ s1 _ (description_run _ _ _ Hmb Hb0)).
    mstep (on_bufs_run _ s1 _ _ E2). by rewrite (proj2 (Z.eqb_neq _ _) Hmb). }
  unfold CreatePixmap. mstep E3. cbv iota. rewrite bind_modify.
  erewrite bind_run by (apply modify_header_run; simpl; apply lookup_insert_eq). cbv beta.
  eexists _, _, b1. split; [done|]. simpl. rewrite insert_insert_eq. split; [done|]. simpl.
  rewrite !(proj2 (Z.ltb_lt _ _)) by done. rewrite H1, insert_insert_eq.
  split_and!; try done. exists ps. simpl. rewrite L1. split; [done|]. eapply Forall_impl; [exact Hpf|].
  intros q Hq. simpl. apply lookup_insert_is_Some'. by right.
Qed.

(** A buffer that is destroyed with its pixmap. *)
Definition hardware (e : senv) (s : screen) (b : LorieBuffer) : Prop :=
  api26 (be e) = true ∧ type (desc b) = LORIEBUFFER_AHARDWAREBUFFER
  ∧ is_Some (ahbs (bufs s) !! buffer (desc b)) ∧ 0 < refcount b < 2 ^ 15.

Lemma release_hardware_run e p b st :
  p ≠ 0 → heap st !! p = Some b → api26 e = true → type (desc b) = LORIEBUFFER_AHARDWAREBUFFER →
  is_Some (ahbs st !! buffer (desc b)) → 0 < refcount b < 2 ^ 15 → lists_ok st →
  ∃ st', LorieBuffer_release e p st = Some ((), st')
    ∧ (∀ q, q ≠ p → heap st' !! q = heap st !! q)
    ∧ heap st' !! p = (if refcount b =? 1 then None else Some (b <| refcount := refcount b - 1 |>))
    ∧ lists_ok st'.
Proof.
  intros Hp Hb Hapi Ht [k Hk] Hr (ps & Hps & Hf). unfold LorieBuffer_release.
  rewrite (proj2 (Z.eqb_neq _ _) Hp). mstep (deref_run _ _ _ Hb). mstep (upd_run _ _ _ _ Hb).
  brun. rewrite s16_small by lia. destruct (refcount b =? 1) eqn:E1.
  - unfold __LorieBuffer_free. rewrite (proj2 (Z.eqb_neq _ _) Hp).
    erewrite bind_run by (apply deref_run; simpl; apply lookup_insert_eq). cbv beta. simpl. rewrite Ht.
    unfold xorg_list_del, when, ahb_release. rewrite Hapi. mrun.
    destruct (egl_context e), (egl_display e && truthy (image b)); mrun; simpl; rewrite Hk;
      destruct (k =? 1); (eexists; split; [reflexivity|]); simpl;
      (split_and!;
        [intros q Hq; by rewrite lookup_delete_ne, lookup_insert_ne
        |apply lookup_delete_eq
        |exists (filter (λ q, q ≠ p) ps); split; [simpl; by rewrite lookup_fmap, Hps|];
         apply Forall_forall; intros q [Hq Hq2]%list_elem_of_filter; simpl;
         rewrite lookup_delete_ne, lookup_insert_ne by done; by eapply Forall_forall in Hf]).
  - eexists. split; [done|]. simpl. split_and!.
    + intros q Hq. by rewrite lookup_insert_ne.
    + apply lookup_insert_eq.
    + exists ps. simpl. split; [done|]. eapply Forall_impl; [exact Hf|].
      intros q Hq. simpl. apply lookup_insert_is_Some'. by right.
Qed.

(** What the parts below leave alone. *)
Definition frame (s : screen) : Z * Z * Z * pst * (Z * Z) :=
  (root_pixmap s, devPrivate s, conn_fd s, pres s, (root_width s, root_height s)).

Lemma unregister_run s p b :
  p ≠ 0 → heap (bufs s) !! p = Some b → lists_ok (bufs s) →
  ∃ s', lorieUnregisterBuffer p s = Some ((), s') ∧ pixmaps s' = pixmaps s
    ∧ heap (bufs s') = heap (bufs s) ∧ ahbs (bufs s') = ahbs (bufs s) ∧ lists_ok (bufs s') ∧ frame s' = frame s.
Proof.
  intros Hp Hb Hl. unfold lorieUnregisterBuffer. rewrite (proj2 (Z.eqb_neq _ _) Hp), bind_get.
  mstep (on_bufs_pure _ _ _ (description_run _ _ _ Hp Hb)).
  destruct (find_registered_run (id (desc b)) (bufs s) Hl) as [r Hr]. mstep (on_bufs_pure _ _ _ Hr).
  destruct (r =? 0); [by exists s|]. destruct (conn_fd s =? -1); [by exists s|]. rewrite bind_modify.
  destruct Hl as (ps & Hps & Hf). eexists. split.
  { apply on_bufs_run. unfold LorieBuffer_removeFromList. rewrite (proj2 (Z.eqb_neq _ _) Hp).
    erewrite bind_run by (apply deref_run; exact Hb). done. }
  split_and!; try done. exists (filter (λ q, q ≠ p) ps). simpl. rewrite lookup_fmap, Hps. split; [done|].
  by apply Forall_filter.
Qed.

(** Giving a buffer back with its pixmap. *)
Lemma exa_destroy_run e s p x b :
  held s p x b → hardware e s b → lists_ok (bufs s) →
  ∃ s', lorieExaDestroyPixmap e (priv x) s = Some ((), s') ∧ pixmaps s' = pixmaps s
    ∧ (∀ q, q ≠ pbuf (priv x) → heap (bufs s') !! q = heap (bufs s) !! q)
    ∧ (refcount b = 1 → heap (bufs s') !! pbuf (priv x) = None)
    ∧ lists_ok (bufs s') ∧ frame s' = frame s.
Proof.
  intros (Hx & Hp & Hb) (Hapi & Ht & Hk & Hr) Hl. unfold lorieExaDestroyPixmap.
  rewrite (proj2 (Z.eqb_neq _ _) Hp). cbn [negb when].
  assert (∃ s1 b1, when (negb (plocked (priv x) =? 0))
      (_ ← on_bufs (LorieBuffer_unlock (be e) (pbuf (priv x))); skip) s = Some ((), s1)
    ∧ pixmaps s1 = pixmaps s ∧ frame s1 = frame s ∧ lists_ok (bufs s1) ∧ ahbs (bufs s1) = ahbs (bufs s)
    ∧ heap (bufs s1) !! pbuf (priv x) = Some b1 ∧ buf_core b1 = buf_core b
    ∧ (∀ q, q ≠ pbuf (priv x) → heap (bufs s1) !! q = heap (bufs s) !! q)) as (s1 & b1 & E1 & P1 & F1 & L1 & A1 & B1 & C1 & Q1).
  { destruct (negb (plocked (priv x) =? 0)); [|by exists s, b]. cbn [when].
    unfold on_bufs, LorieBuffer_unlock. rewrite (proj2 (Z.eqb_neq _ _) Hp). mrun.
    rewrite (deref_run _ _ _ Hb). destruct (negb (locked b)).
    { eexists _, b. split; [done|]. by split_and!. }
    rewrite (upd_run _ _ _ _ Hb). eexists _, _. split; [done|]. simpl. rewrite lookup_insert_eq.
    split_and!; try done; [by eapply lists_ok_upd|]. intros q Hq. by rewrite lookup_insert_ne. }
  mstep E1. destruct (unregister_run s1 _ _ Hp B1 L1) as (s2 & E2 & P2 & H2 & A2 & L2 & F2). mstep E2.
  injection C1 as R1 _ D1.
  destruct (release_hardware_run (be e) _ b1 (bufs s2) Hp) as (st & E3 & H3 & H4 & L3); try done.
  - by rewrite H2.
  - by rewrite D1.
  - by rewrite A2, A1, D1.
  - by rewrite R1.
  - eexists. split; [by apply on_bufs_run|]. simpl. split_and!; [congruence| | |done|].
    + intros q Hq. by rewrite H3, H2, Q1.
    + intros Hr1. by rewrite H4, R1, Hr1.
    + unfold frame in *. simpl. congruence.
Qed.

Lemma destroy_run e s p x b :
  held s p x b → hardware e s b → lists_ok (bufs s) →
  ∃ s', DestroyPixmap e p s = Some ((), s') ∧ pixmaps s' = delete p (pixmaps s)
    ∧ (∀ q, q ≠ pbuf (priv x) → heap (bufs s') !! q = heap (bufs s) !! q)
    ∧ (refcount b = 1 → heap (bufs s') !! pbuf (priv x) = None)
    ∧ lists_ok (bufs s') ∧ frame s' = frame s.
Proof.
  intros Hh Hw Hl. destruct (exa_destroy_run _ _ _ _ _ Hh Hw Hl) as (s1 & E1 & P1 & H1 & H2 & L1 & F1).
  unfold DestroyPixmap. mstep (pix_run _ _ _ (proj1 Hh)). mstep E1. eexists. split; [done|]. simpl.
  rewrite P1. by split_and!.
Qed.

(** ** Restoring the screen pixmap *)

Lemma traverse_root_run e s p x b q y c :
  root_pixmap (scr s) = p → p ≠ 0 → q ≠ 0 → held (scr s) p x b → held (scr s) q y c →
  ∃ t, traverse_root e p q s = Some ((), s <| scr := t |> <| windows ::= walk p q |>)
    ∧ relocked (scr s) t ∧ root_pixmap t = q ∧ pres t = pres (scr s).
Proof.
  intros Hr Hp Hq Hx Hy. destruct (set_root_run e _ _ _ _ _ _ _ Hr Hp Hq Hx Hy) as (t & E & R & H & P).
  exists t. split; [|done]. unfold traverse_root. rewrite bind_get, Hr, Z.eqb_refl. cbn [when].
  mstep (on_scr_run _ _ _ _ E). done.
Qed.

(** The windows before the change: all that draw into the root window's pixmap [r0] or
    into the screen pixmap [old] do so because their parents do; if [r0] is not the
    screen pixmap it is the one of a flip. *)
Record flip_ok (s : conf) (r0 old : Z) : Prop := mk_flip_ok {
  fo_root : root_pixmap (scr s) = r0;
  fo_dev : devPrivate (scr s) = old;
  fo_rooted : rooted r0 r0 (windows s);
  fo_screen : rooted r0 old (windows s);
  fo_flip : r0 ≠ old → ∃ w, flip s = Some (w, r0) ∧
              match w with Some w => is_Some (window_pixmap w (windows s)) | None => True end;
  fo_none : r0 = old → flip s = None
}.

Lemma restore_run e s r0 old x b y c :
  flip_ok s r0 old → r0 ≠ 0 → old ≠ 0 → held (scr s) r0 x b → held (scr s) old y c →
  ∃ t, present_restore_screen_pixmap e s = Some ((), s <| scr := t |> <| windows ::= replace r0 old |>)
    ∧ relocked (scr s) t ∧ root_pixmap t = old ∧ pres t = pres (scr s).
Proof.
  intros [Hr Hd Hroot Hscr Hf Hn] Hr0 Ho Hx Hy. unfold present_restore_screen_pixmap. rewrite bind_get, Hd.
  destruct (decide (r0 = old)) as [->|Hne].
  - rewrite (Hn eq_refl). exists (scr s). split; [|split; [apply relocked_refl|done]].
    rewrite bind_skip. unfold present_set_tree_pixmap. rewrite bind_get, bind_mret.
    rewrite Hr, !Z.eqb_refl. cbn. unfold skip. do 2 f_equal. destruct s. simpl. by rewrite replace_same.
  - destruct (Hf Hne) as (w & -> & Hw).
    destruct (traverse_root_run e s _ _ _ _ _ _ Hr Hr0 Ho Hx Hy) as (t & E & R & Q & P).
    destruct w as [w|].
    + destruct Hw as [px Hpx].
      assert (present_set_tree_pixmap e (Some w) r0 old s
        = Some ((), s <| windows := if px =? r0 then walk_at w r0 old (windows s) else windows s |>)) as E1.
      { unfold present_set_tree_pixmap. rewrite bind_get, Hpx.
        change (of_option (Some px)) with (mret px : M conf Z). rewrite bind_mret.
        rewrite (proj2 (Z.eqb_neq _ _) Hr0). cbn [negb andb].
        destruct (Z.eqb_spec px r0) as [->|]; cbn [negb]; [|by destruct s].
        by rewrite (proj2 (Z.eqb_neq _ _) Hne). }
      mstep E1. set (s1 := s <| windows := _ |>).
      destruct (traverse_root_run e s1 _ _ _ _ _ _ Hr Hr0 Ho Hx Hy) as (t1 & E2 & R2 & Q2 & P2).
      exists t1. split; [|done]. unfold present_set_tree_pixmap. rewrite bind_get.
      rewrite bind_mret. assert (root_pixmap (scr s1) = r0) as -> by done. cbn [Z.eqb negb andb].
      rewrite (proj2 (Z.eqb_neq _ _) Hne), E2. do 2 f_equal. destruct s. unfold s1. simpl in *. f_equal.
      destruct (px =? r0); [by apply walk_walk_at|by apply walk_replace].
    + exists t. split; [|done].
      assert (present_set_tree_pixmap e None r0 old s = Some ((), s <| scr := t |> <| windows ::= walk r0 old |>)) as E1.
      { unfold present_set_tree_pixmap. rewrite bind_get, bind_mret.
        rewrite Hr, (proj2 (Z.eqb_neq _ _) Hr0), Z.eqb_refl. cbn [negb andb].
        by rewrite (proj2 (Z.eqb_neq _ _) Hne). }
      mstep E1. unfold present_set_tree_pixmap. rewrite bind_get, bind_mret.
      match goal with |- context [scr ?s1] => set (s2 := s1) end.
      assert (root_pixmap (scr s2) = old) as -> by done. rewrite !Z.eqb_refl. cbn. unfold skip.
      do 2 f_equal. unfold s2. destruct s. simpl in *. f_equal. by apply walk_replace.
Qed.

(** ** A new size *)

Lemma relocked_lists_ok s s' : relocked s s' → lists_ok (bufs s) → lists_ok (bufs s').
Proof.
  intros R (ps & Hps & Hf). exists ps. rewrite (rl_lists _ _ R). split; [done|].
  eapply Forall_impl; [exact Hf|]. intros q [b Hb]. simpl.
  assert (heap_core (bufs s') !! q = Some (buf_core b)) as (b' & Hb' & _)%heap_core_lookup; [|eauto].
  rewrite (rl_heap _ _ R). apply heap_core_lookup. eauto.
Qed.

Lemma relocked_hardware e s s' b b' :
  relocked s s' → buf_core b' = buf_core b → hardware e s b → hardware e s' b'.
Proof.
  intros R [= E1 _ E2] (H1 & H2 & H3 & H4). unfold hardware. by rewrite E1, E2, (rl_ahbs _ _ R).
Qed.

Lemma relocked_alloc_ready e w h hb a s s' :
  relocked s s' → alloc_ready e w h hb a s → alloc_ready e w h hb a s'.
Proof.
  intros R []. constructor; try done; [by rewrite (rl_legacy _ _ R)|].
  assert (heap_core (bufs s') !! malloc_buffer (be e) = None) as H.
  { rewrite (rl_heap _ _ R). unfold heap_core. by rewrite lookup_fmap, ar_fresh0. }
  unfold heap_core in H. rewrite lookup_fmap in H. by apply fmap_None in H.
Qed.

(** Registration of a buffer only concerns buffers and the connection. *)
Definition drawn (s : screen) := (frame s, pixmaps s).

Lemma on_bufs_drawn {A} (m : M bst A) v : preserves (λ s, drawn s = v) (on_bufs m).
Proof. intros s a s' H. unfold on_bufs. destruct (m (bufs s)) as [[]|]; [|done]. by intros [= <- <-]. Qed.

Lemma register_drawn e b v : preserves (λ s, drawn s = v) (lorieRegisterBuffer e b).
Proof.
  unfold lorieRegisterBuffer.
  repeat first [apply on_bufs_drawn | progress preserve_step]. by apply preserves_modify.
Qed.

Lemma perform_vblanks_run e s :
  nodes_ok (pres s) → ∃ q, on_pres (loriePerformVblanks (react e)) s = Some ((), s <| pres := q |>).
Proof.
  intros Hn. destruct (perform_run (react e) (vblank_queue (pres s)) (pres s) [] eq_refl Hn) as (q & new & E & _).
  exists q. unfold on_pres, loriePerformVblanks. by rewrite bind_get, E.
Qed.

Lemma uses_replace_other p old new t :
  p ≠ new → uses p t = false → uses p (replace old new t) = false.
Proof.
  intros Hp. induction t as [|i x c IHc n IHn]; simpl; [done|].
  intros [[Hx Hc]%orb_false_iff Hn]%orb_false_iff. rewrite IHc, IHn by done.
  destruct (x =? old); [|by rewrite Hx]. by rewrite (proj2 (Z.eqb_neq new p)).
Qed.

(** After the restoration every window that draws into the screen pixmap is reached from the root. *)
Lemma restored_rooted s r0 old : flip_ok s r0 old → rooted old old (replace r0 old (windows s)).
Proof.
  intros [_ _ Hr Hs _ _]. destruct (decide (r0 = old)) as [->|Hne]; [by rewrite replace_same|].
  pose proof (rooted_replace r0 r0 old _ Hr) as H. rewrite Z.eqb_refl in H. by apply H; eapply rooted_absent.
Qed.

Lemma held_ne s p q x b : held s p x b → pixmaps s !! q = None → p ≠ q.
Proof. intros (H & _) Hq ->. congruence. Qed.

Lemma relocked_absent s s' p : relocked s s' → pixmaps s !! p = None → pixmaps s' !! p = None.
Proof.
  intros R H. assert (pix_core s' !! p = None) as E.
  { rewrite (rl_pix _ _ R). unfold pix_core. by rewrite lookup_fmap, H. }
  unfold pix_core in E. rewrite lookup_fmap in E. by apply fmap_None in E.
Qed.

(** The part between the making of the new pixmap and the giving back of the old one. *)
Lemma exchange_run e s old y c newpix z d :
  root_pixmap (scr s) = old → old ≠ 0 → newpix ≠ 0 → old ≠ newpix →
  held (scr s) old y c → held (scr s) newpix z d → pbuf (priv y) ≠ pbuf (priv z) →
  hardware e (scr s) c → lists_ok (bufs (scr s)) → rooted old old (windows s) →
  ∃ t z' d', (traverse_root e old newpix ;; on_scr (DestroyPixmap e old)) s
      = Some ((), s <| scr := t |> <| windows ::= replace old newpix |>)
    ∧ held t newpix z' d' ∧ pbuf (priv z') = pbuf (priv z) ∧ pwidth z' = pwidth z ∧ pheight z' = pheight z
    ∧ pixmaps t !! old = None ∧ (refcount c = 1 → heap (bufs t) !! pbuf (priv y) = None)
    ∧ lists_ok (bufs t) ∧ root_pixmap t = newpix ∧ devPrivate t = devPrivate (scr s)
    ∧ (root_width t, root_height t) = (root_width (scr s), root_height (scr s)).
Proof.
  intros Hr Ho Hn Hne Hy Hz Hyz Hw Hl Hrt.
  destruct (traverse_root_run e s _ _ _ _ _ _ Hr Ho Hn Hy Hz) as (t1 & E1 & R1 & Q1 & P1).
  destruct (relocked_held _ _ _ _ _ R1 Hy) as (y1 & c1 & Hy1 & Ey & _ & _ & Ec).
  destruct (relocked_held _ _ _ _ _ R1 Hz) as (z1 & d1 & (Hz1 & Hz2 & Hz3) & Ez & Ew & Eh & _).
  destruct (destroy_run e t1 old y1 c1 Hy1) as (t2 & E2 & P2 & H2 & H3 & L2 & F2);
    [by eapply relocked_hardware|by eapply relocked_lists_ok|].
  exists t2, z1, d1. split.
  { mstep E1. erewrite on_scr_run by exact E2. do 2 f_equal. destruct s. simpl in *. by rewrite walk_replace. }
  unfold frame in F2. injection F2 as F2 F3 F4 F5 F6 F7.
  split; [split_and!; [by rewrite P2, lookup_delete_ne|done|by rewrite H2 by congruence]|].
  split_and!; try done.
  - rewrite P2. apply lookup_delete_eq.
  - injection Ec as Ec _ _. rewrite <-Ey. rewrite Ec in H3. exact H3.
  - congruence.
  - rewrite F3. apply (rl_dev _ _ R1).
  - rewrite F6, F7. apply (rl_size _ _ R1).
Qed.

(** The new buffer is announced. *)
Lemma announce_run e s p x b :
  p ≠ 0 → held (scr s) p x b → lists_ok (bufs (scr s)) →
  ∃ t, (b ← on_scr (buffer_of p); on_scr (lorieRegisterBuffer e b) ;;
        on_scr (modify (λ t, t <| cursor_moved := true |>))) s = Some ((), s <| scr := t |>)
    ∧ drawn t = drawn (scr s) ∧ heap_core (bufs t) = heap_core (bufs (scr s)) ∧ cursor_moved t = true.
Proof.
  intros Hp (Hx & Hb & Hh) Hl. destruct (register_run e _ _ _ Hb Hh Hl) as (t & E & C).
  assert (drawn t = drawn (scr s)) as D by (by eapply register_drawn; [|exact E]).
  exists (t <| cursor_moved := true |>). split; [|by rewrite <-D, <-(co_heap _ _ _ C)].
  assert (buffer_of p (scr s) = Some (pbuf (priv x), scr s)) as E0.
  { unfold buffer_of. rewrite (proj2 (Z.eqb_neq _ _) Hp). mstep (pix_run _ _ _ Hx). done. }
  mstep (on_scr_run _ _ _ _ E0). erewrite bind_run by (apply on_scr_run; exact E). by destruct s.
Qed.

Lemma heap_core_none st st' p : heap_core st' = heap_core st → heap st !! p = None → heap st' !! p = None.
Proof.
  intros E H. assert (heap_core st' !! p = None) as G by (rewrite E; unfold heap_core; by rewrite lookup_fmap, H).
  unfold heap_core in G. rewrite lookup_fmap in G. by apply fmap_None in G.
Qed.

Lemma heap_core_some st st' p : heap_core st' = heap_core st → is_Some (heap st !! p) → is_Some (heap st' !! p).
Proof.
  intros E [b Hb]. assert (heap_core st' !! p = Some (buf_core b)) as (b' & Hb' & _)%heap_core_lookup; [|eauto].
  rewrite E. apply heap_core_lookup. eauto.
Qed.

(** From the sizes on: [old] is the pixmap of the screen and of its root window. *)
Lemma new_pixmap_run e newpix w h hb a s old y c :
  root_pixmap (scr s) = old → devPrivate (scr s) = old → old ≠ 0 → newpix ≠ 0 →
  pixmaps (scr s) !! newpix = None → held (scr s) old y c → hardware e (scr s) c →
  lists_ok (bufs (scr s)) → alloc_ready e w h hb a (scr s) → rooted old old (windows s) →
  ∃ t z, (s ← get;
    let oldPixmap := devPrivate (scr s) in
    newPixmap ← on_scr (CreatePixmap e newpix true w h USAGE_LORIEBUFFER_BACKED);
    if newPixmap =? 0 then ub
    else
      on_scr (modify (λ t, t <| devPrivate := newPixmap |>)) ;;
      modify (λ s, s <| damage_on := newPixmap |>) ;;
      when (negb (oldPixmap =? 0))
        (traverse_root e oldPixmap newPixmap ;; on_scr (DestroyPixmap e oldPixmap)) ;;
      b ← on_scr (buffer_of newPixmap);
      on_scr (lorieRegisterBuffer e b) ;;
      on_scr (modify (λ t, t <| cursor_moved := true |>))) s
    = Some ((), s <| scr := t |> <| damage_on := newpix |> <| windows ::= replace old newpix |>)
    ∧ root_pixmap t = newpix ∧ devPrivate t = newpix
    ∧ pixmaps t !! newpix = Some z ∧ (pwidth z, pheight z) = (w, h)
    ∧ pbuf (priv z) = malloc_buffer (be e) ∧ is_Some (heap (bufs t) !! malloc_buffer (be e))
    ∧ pixmaps t !! old = None ∧ (refcount c = 1 → heap (bufs t) !! pbuf (priv y) = None)
    ∧ (root_width t, root_height t) = (root_width (scr s), root_height (scr s)) ∧ cursor_moved t = true.
Proof.
  intros Hr Hd Ho Hn Hf Hy Hw Hl Ha Hrt. pose proof (held_ne _ _ _ _ _ Hy Hf) as Hne.
  destruct (new_screen_pixmap_run e newpix w h hb a _ Ha Hl)
    as (t1 & z & d & E1 & P1 & Wz & Hz & Bz & _ & H1 & _ & L1 & A1 & F1).
  injection F1 as Fr Fd Fc Fp Fw Fh.
  rewrite bind_get. mstep (on_scr_run _ _ _ _ E1). cbv zeta. rewrite (proj2 (Z.eqb_neq _ _) Hn), Hd.
  rewrite (proj2 (Z.eqb_neq _ _) Ho). cbn [negb when].
  erewrite bind_run by (apply on_scr_run; reflexivity). cbv beta. rewrite bind_modify.
  match goal with |- context [(_ ≫= _) ?s'] => set (s1 := s') end.
  assert (held (scr s1) newpix z d) as Hz1.
  { split_and!; simpl; [rewrite P1; apply lookup_insert_eq|rewrite Bz; apply (ar_record _ _ _ _ _ _ Ha)|].
    rewrite H1, Bz. apply lookup_insert_eq. }
  destruct Hy as (Hy1 & Hy2 & Hy3).
  assert (pbuf (priv y) ≠ malloc_buffer (be e)) as Hyb.
  { intros Heq. pose proof (ar_fresh _ _ _ _ _ _ Ha). congruence. }
  assert (held (scr s1) old y c) as Hy'.
  { split_and!; [|done|]; simpl; [by rewrite P1, lookup_insert_ne|by rewrite H1, lookup_insert_ne]. }
  destruct (exchange_run e s1 old y c newpix z d) as (t2 & z' & d' & E2 & Hz' & Bz' & Wz' & Hz'' & O2 & G2 & L2 & R2 & D2 & S2);
    try done; [by simpl; rewrite Fr|by rewrite Bz|destruct Hw as (? & ? & ? & ?); split; [done|]; split; [done|]; split; [by apply A1|done]|].
  erewrite bind_run by exact E2. cbv beta.
  match goal with |- context [(_ ≫= _) ?s'] => set (s2 := s') end.
  destruct (announce_run e s2 newpix z' d' Hn Hz' L2) as (t3 & E3 & D3 & C3 & M3).
  exists t3, z'. rewrite E3. unfold drawn, frame in D3. injection D3 as D31 D32 D33 D34 D35 D36 D37.
  simpl in S2, D2. split; [by destruct s|]. split_and!; try congruence.
  - rewrite D37. apply Hz'.
  - apply (heap_core_some _ _ _ C3). destruct Hz' as (_ & _ & Hh). rewrite Bz', Bz in Hh. eauto.
  - intros Hc. apply (heap_core_none _ _ _ C3). by apply G2.
Qed.

(** What a new size leaves behind: the screen and its root window have the new pixmap, of the new size and
    with a buffer of its own; no window draws into the old screen pixmap or the flipped one any more; the old
    pixmap is gone, and its buffer with it if nobody else holds it; damage is recorded for the new one. *)
Record resized (e : senv) (newpix w h r0 old : Z) (y : pixmap) (c : LorieBuffer) (s s' : conf) : Prop := mk_resized {
  rs_root : root_pixmap (scr s') = newpix;
  rs_screen : devPrivate (scr s') = newpix;
  rs_damage : damage_on s' = newpix;
  rs_pixmap : ∃ z, pixmaps (scr s') !! newpix = Some z ∧ (pwidth z, pheight z) = (w, h)
                ∧ pbuf (priv z) = malloc_buffer (be e);
  rs_buffer : is_Some (heap (bufs (scr s')) !! malloc_buffer (be e));
  rs_old : pixmaps (scr s') !! old = None;
  rs_freed : refcount c = 1 → heap (bufs (scr s')) !! pbuf (priv y) = None;
  rs_windows : windows s' = replace old newpix (replace r0 old (windows s));
  rs_unused : uses old (windows s') = false ∧ (r0 ≠ old → uses r0 (windows s') = false);
  rs_size : (scr_width s', scr_height s') = (s16 w, s16 h);
  rs_root_size : (root_width (scr s'), root_height (scr s')) = (u32 (s16 w), u32 (s16 h));
  rs_cursor : cursor_moved (scr s') = true
}.

(** What the driver keeps of the output. *)
Definition output_of (s : conf) := (root_name s, out_name s, nameLength s, crtc_mode s, framerate s, vblank_interval s).

Lemma resize_run e newpix w h hb a s r0 old x b y c :
  flip_ok s r0 old → r0 ≠ 0 → old ≠ 0 → newpix ≠ 0 → pixmaps (scr s) !! newpix = None →
  held (scr s) r0 x b → held (scr s) old y c → hardware e (scr s) c →
  lists_ok (bufs (scr s)) → nodes_ok (pres (scr s)) → alloc_ready e w h hb a (scr s) →
  ∃ s', lorieRRScreenSetSize e newpix true w h s = Some ((), s')
    ∧ resized e newpix w h r0 old y c s s' ∧ output_of s' = output_of s.
Proof.
  intros Hfo Hr0 Ho Hn Hf Hx Hy Hw Hl Hv Ha. pose proof (held_ne _ _ _ _ _ Hy Hf) as Hne.
  pose proof (held_ne _ _ _ _ _ Hx Hf) as Hne0. unfold lorieRRScreenSetSize.
  destruct (perform_vblanks_run e _ Hv) as (q & Eq). erewrite bind_run by (apply on_scr_run; exact Eq). cbv beta.
  set (s1 := s <| scr := _ |>). assert (flip_ok s1 r0 old) as Hfo1 by (by destruct Hfo; constructor).
  destruct (restore_run e s1 r0 old x b y c Hfo1 Hr0 Ho Hx Hy) as (t & E2 & R2 & Q2 & _).
  erewrite bind_run by exact E2. cbv beta. rewrite bind_modify.
  match goal with |- context [(_ ≫= _) ?s'] => set (s2 := s') end.
  assert (alloc_ready e w h hb a (scr s1)) as Ha1 by (by destruct Ha; constructor).
  destruct (relocked_held _ _ _ _ _ R2 Hy) as (y' & c' & Hy' & Ey & _ & _ & Ec).
  destruct (new_pixmap_run e newpix w h hb a s2 old y' c') as (t3 & z & E3 & H); try done.
  - simpl. rewrite (rl_dev _ _ R2). apply Hfo.
  - by apply (relocked_absent _ _ _ R2).
  - by apply (relocked_hardware e _ _ _ _ R2 Ec).
  - by apply (relocked_lists_ok _ _ R2).
  - pose proof (relocked_alloc_ready _ _ _ _ _ _ _ R2 Ha1) as []. by constructor.
  - exact (restored_rooted _ _ _ Hfo1).
  - destruct H as (H1 & H2 & H3 & H4 & H5 & H6 & H7 & H8 & H9 & H10).
    eexists. split; [exact E3|]. split; [|by destruct s]. simpl in *. constructor; try done.
    + by exists z.
    + simpl. injection Ec as Ec _ _. by rewrite <-Ec, <-Ey.
    + simpl. split; [by apply uses_replace|]. intros Hro. by apply uses_replace_other, uses_replace.
Qed.

(** ** A notification *)

Lemma set_name_run n k s : ∃ s', set_name n k s = Some ((), s')
  ∧ scr s' = scr s ∧ windows s' = windows s ∧ flip s' = flip s
  ∧ (scr_width s', scr_height s', framerate s') = (scr_width s, scr_height s, framerate s)
  ∧ (is_Some (out_name s') ↔ is_Some (out_name s)).
Proof.
  unfold set_name. rewrite bind_get. destruct (out_name s) eqn:E.
  - eexists. split; [done|]. simpl. by split_and!; try done; split; eauto.
  - exists s. by rewrite E.
Qed.

(** The sizes that [lorieCvt] does not change. *)
Definition keeps (width height : Z) : Prop :=
  (width mod 8 = 0 ∧ (width, height) ≠ (1360, 768)) ∨ (width, height) = (1366, 768).
#[export] Instance keeps_dec w h : Decision (keeps w h).
Proof. unfold keeps. apply _. Defined.

Lemma lorieCvt_value width height :
  0 < width < 2 ^ 15 → 0 < height < 2 ^ 15 →
  let w := width - width mod 8 in
  lorieCvt width height = if (w =? 1360) && (height =? 768) then (1366, height) else (w, height).
Proof.
  intros Hw Hh w. subst w. pose proof (Z.mod_pos_bound width 8 ltac:(lia)).
  pose proof (Z.mod_le width 8 ltac:(lia) ltac:(lia)). unfold lorieCvt, cvt_size, CVT_H_GRANULARITY.
  rewrite !(wrapU_id 32) by (unfold inU; rewrite ?(wrapU_id 32) by (unfold inU; lia); lia).
  destruct (_ && _); rewrite !wrapU_id by (unfold inU; lia); done.
Qed.

Lemma lorieCvt_keeps width height :
  0 < width < 2 ^ 15 → 0 < height < 2 ^ 15 →
  lorieCvt width height = (width, height) ↔ keeps width height.
Proof.
  intros Hw Hh. rewrite lorieCvt_value by done. cbv zeta. unfold keeps.
  destruct (Z.eqb_spec (width - width mod 8) 1360) as [E|E], (Z.eqb_spec height 768) as [->|Eh]; cbn [andb].
  - split.
    + intros [= <-]. by right.
    + intros [[H0 Hne]|[= ->]]; [|done]. exfalso. apply Hne. f_equal. lia.
  - split; [intros [= H]; left; split; [lia|congruence]|].
    intros [[H0 _]|[= -> ->]]; [f_equal; lia|done].
  - split; [intros [= H]; left; split; [lia|intros [= ->]; by apply E]|].
    intros [[H0 _]|[= ->]]; [f_equal; lia|by exfalso; apply E].
  - split; [intros [= H]; left; split; [lia|congruence]|].
    intros [[H0 _]|[= -> ->]]; [f_equal; lia|done].
Qed.

Lemma lorieCvt_range width height w h :
  0 < width < 2 ^ 15 → 0 < height < 2 ^ 15 → lorieCvt width height = (w, h) → 0 ≤ w < 2 ^ 15 ∧ h = height.
Proof.
  intros Hw Hh. rewrite lorieCvt_value by done. cbv zeta. pose proof (Z.mod_pos_bound width 8 ltac:(lia)).
  pose proof (Z.mod_le width 8 ltac:(lia) ltac:(lia)). destruct (_ && _); intros [= <- <-]; lia.
Qed.

(** The frame rate a notification stands for. *)
Definition rate (fps : Z) : Z := if truthy fps then fps else 30.

Section notification.
Context (e : senv) (newpix width height fps name_size : Z) (name : option (list Z)) (w h hb a : Z).
Context (s : conf) (r0 old : Z) (x y : pixmap) (b c : LorieBuffer).
Hypothesis size_ok : 0 < width < 2 ^ 15 ∧ 0 < height < 2 ^ 15 ∧ lorieCvt width height = (w, h).
Hypothesis new_size : needs_resize width height (rate fps) s = true.
Hypothesis windows_ok : flip_ok s r0 old.
Hypothesis pixmaps_ok : r0 ≠ 0 ∧ old ≠ 0 ∧ newpix ≠ 0 ∧ pixmaps (scr s) !! newpix = None
    ∧ held (scr s) r0 x b ∧ held (scr s) old y c.
Hypothesis buffers_ok : hardware e (scr s) c ∧ lists_ok (bufs (scr s)).
Hypothesis vblanks_ok : nodes_ok (pres (scr s)).
Hypothesis system_ok : alloc_ready e w h hb a (scr s).

Lemma configure_run :
  ∃ s', lorieConfigureNotify e newpix true width height fps name_size name s = Some ((), s')
    ∧ resized e newpix w h r0 old y c s s'
    ∧ (scr_width s', scr_height s') = (w, h) ∧ crtc_mode s' = (w, h)
    ∧ framerate s' = u32 (rate fps) ∧ vblank_interval s' = 1000000 / framerate s'
    ∧ is_Some (out_name s')
    ∧ ∃ s1, match name with Some n => set_name n name_size | None => skip end s = Some ((), s1)
        ∧ (root_name s', out_name s', nameLength s') = (root_name s1, out_name s1, nameLength s1).
Proof.
  destruct size_ok as (Hw & Hh & Hc). destruct pixmaps_ok as (H1 & H2 & H3 & H4 & H5 & H6).
  destruct (lorieCvt_range _ _ _ _ Hw Hh Hc) as [Rw ->].
  assert (∃ s1, match name with Some n => set_name n name_size | None => skip end s = Some ((), s1)
    ∧ scr s1 = scr s ∧ windows s1 = windows s ∧ flip s1 = flip s
    ∧ (scr_width s1, scr_height s1, framerate s1) = (scr_width s, scr_height s, framerate s)
    ∧ (is_Some (out_name s1) ↔ is_Some (out_name s))) as (s1 & E1 & S1 & W1 & F1 & D1 & O1).
  { destruct name; [apply set_name_run|by exists s]. }
  unfold lorieConfigureNotify. change (if truthy fps then fps else 30) with (rate fps). mstep E1. rewrite bind_get.
  injection D1 as D1 D2 D3.
  assert (needs_resize width height (rate fps) s1 = true) as N1.
  { rewrite <-new_size. unfold needs_resize. rewrite D1, D2, D3. by rewrite (bool_decide_ext _ _ O1). }
  rewrite N1, Hc. cbn [when]. rewrite bind_modify. set (s2 := s1 <| crtc_mode := _ |>).
  assert (scr s2 = scr s) as S2 by done.
  destruct (resize_run e newpix w height hb a s2 r0 old x b y c) as (s3 & E3 & R3 & O3);
    rewrite ?S2; try done; try apply buffers_ok.
  { destruct windows_ok. constructor; rewrite ?S2; try done.
    - change (windows s2) with (windows s1). by rewrite W1.
    - change (windows s2) with (windows s1). by rewrite W1.
    - change (windows s2) with (windows s1). change (flip s2) with (flip s1). by rewrite W1, F1.
    - change (flip s2) with (flip s1). by rewrite F1. }
  mstep E3. unfold output_of in O3. injection O3 as N1' O3 N3 O4 _ _.
  eexists. split; [done|]. assert (is_Some (out_name s3)) as O5.
  { rewrite O3. apply O1. unfold needs_resize in new_size. by destruct (bool_decide_reflect (is_Some (out_name s))). }
  destruct R3. split; [constructor; simpl; try done; [by rewrite rs_windows0; simpl; rewrite W1]|].
  rewrite !s16_small in rs_size0 by lia. split_and!; try done. exists s1. split; [done|]. simpl. congruence.
Qed.

(** C13: A notification of a new size replaces the screen pixmap everywhere: also in the middle of a flip, the
    handler returns, and then the screen and its root window have the new pixmap, of the mode's size and with a
    buffer of its own; no window of the tree draws into the old screen pixmap or the flipped one any more; the old
    pixmap is gone, and its buffer with it if nobody else holds it; damage is recorded for the new one; and the
    mode that is set, the screen's size and the interval between frames agree. *)
Theorem configure_replaces_pixmap :
  ∃ s', lorieConfigureNotify e newpix true width height fps name_size name s = Some ((), s')
    ∧ resized e newpix w h r0 old y c s s'
    ∧ (scr_width s', scr_height s') = (w, h) ∧ crtc_mode s' = (w, h)
    ∧ framerate s' = u32 (rate fps) ∧ vblank_interval s' = 1000000 / framerate s'.
Proof. destruct configure_run as (s' & E & R & H1 & H2 & H3 & H4 & _). by exists s'. Qed.


End notification.

(** After the change of size only a size the mode keeps is not changed again. *)
Lemma configure_settled width height fps w h t :
  0 < width < 2 ^ 15 → 0 < height < 2 ^ 15 → lorieCvt width height = (w, h) →
  (scr_width t, scr_height t) = (w, h) → framerate t = u32 (rate fps) → is_Some (out_name t) →
  needs_resize width height (rate fps) t = negb (bool_decide (keeps width height)).
Proof.
  intros Hw Hh Hc [= H1 H2] H3 H5. unfold needs_resize.
  rewrite H1, H2, H3, Z.eqb_refl, orb_false_r, (bool_decide_eq_true_2 _ H5).
  unfold truthy. rewrite !(proj2 (Z.eqb_neq _ 0)) by lia. cbn [negb andb]. rewrite <-negb_andb. f_equal.
  apply eq_bool_prop_intro. rewrite bool_decide_spec, <-(lorieCvt_keeps _ _ Hw Hh), Hc.
  rewrite andb_True, !Is_true_true, !Z.eqb_eq. split; [by intros [-> ->]|by intros [= -> ->]].
Qed.

(** What a change of size needs: the windows, pixmaps and buffers in order, and a
    system that gives a buffer. *)
Record resize_ready (e : senv) (newpix w h hb a : Z) (s : conf) (r0 old : Z) (x y : pixmap)
    (b c : LorieBuffer) : Prop := mk_resize_ready {
  ry_windows : flip_ok s r0 old;
  ry_pixmaps : r0 ≠ 0 ∧ old ≠ 0 ∧ newpix ≠ 0 ∧ pixmaps (scr s) !! newpix = None
    ∧ held (scr s) r0 x b ∧ held (scr s) old y c;
  ry_buffers : hardware e (scr s) c ∧ lists_ok (bufs (scr s));
  ry_vblanks : nodes_ok (pres (scr s));
  ry_system : alloc_ready e w h hb a (scr s)
}.

(** The screen as the size and the rate of frames show it. *)
Definition shown (s : conf) : Z * Z * Z * bool :=
  (scr_width s, scr_height s, framerate s, bool_decide (is_Some (out_name s))).

(** C39: Whether a notification settles the size: it does exactly for the sizes the mode keeps, which are
    the widths that are multiples of 8 (but not 1360x768) and 1366x768.  Then, in every later state with
    that size and rate, a notification of the same size does nothing but set the name.  For any other size,
    the screen gets the mode's width, which is not the surface's, and in every later state with that size
    and rate another notification of the same size, with any name, makes a new screen pixmap and throws
    the old one away although neither the size nor the rate changes; so that the next one does it again.
    This is for a first notification that changes the size or the rate, and, for it and for those that make
    a pixmap, windows, pixmaps and buffers in order and a system that gives a hardware buffer. *)
Theorem notification_settles e newpix width height fps name_size name w h hb a s r0 old x y b c :
  0 < width < 2 ^ 15 → 0 < height < 2 ^ 15 → lorieCvt width height = (w, h) →
  needs_resize width height (rate fps) s = true → resize_ready e newpix w h hb a s r0 old x y b c →
  ∃ s', lorieConfigureNotify e newpix true width height fps name_size name s = Some ((), s')
    ∧ shown s' = (w, height, u32 (rate fps), true)
    ∧ (keeps width height → w = width ∧ ∀ t, shown t = shown s' → ∀ e' p ok k nm,
        lorieConfigureNotify e' p ok width height fps k nm t
        = match nm with Some n => set_name n k | None => skip end t)
    ∧ (¬ keeps width height → w ≠ width ∧ ∀ t, shown t = shown s' →
        ∀ e' p k nm hb' a' r0' old' x' y' b' c', resize_ready e' p w h hb' a' t r0' old' x' y' b' c' →
        ∃ t', lorieConfigureNotify e' p true width height fps k nm t = Some ((), t')
          ∧ resized e' p w h r0' old' y' c' t t' ∧ shown t' = shown s').
Proof.
  intros Hw Hh Hc Hn [R1 R2 R3 R4 R5]. pose proof (conj Hw (conj Hh Hc)) as Hsize.
  destruct (lorieCvt_range _ _ _ _ Hw Hh Hc) as [_ ->].
  destruct (configure_run e newpix width height fps name_size name w height hb a s r0 old x y b c Hsize Hn R1 R2 R3 R4 R5)
    as (s' & E & _ & [= H1 H2] & _ & H3 & _ & H5 & _).
  assert (shown s' = (w, height, u32 (rate fps), true)) as Hs.
  { unfold shown. by rewrite H1, H2, H3, (bool_decide_eq_true_2 _ H5). }
  exists s'. split; [done|]. split; [done|]. rewrite Hs.
  assert (∀ t, shown t = (w, height, u32 (rate fps), true) →
    needs_resize width height (rate fps) t = negb (bool_decide (keeps width height))) as HN.
  { intros t [= T1 T2 T3 T4%bool_decide_eq_true]. by apply (configure_settled _ _ _ w height); rewrite ?T1, ?T2. }
  split.
  - intros Hk. split; [apply (lorieCvt_keeps _ _ Hw Hh) in Hk; congruence|].
    intros t Ht e' p ok k nm. unfold lorieConfigureNotify. change (if truthy fps then fps else 30) with (rate fps).
    assert (∀ t1, shown t1 = shown t → (s ← get; when (needs_resize width height (rate fps) s)
      (let '(w, h) := lorieCvt width height in
       modify (λ s, s <| crtc_mode := (w, h) |>) ;; lorieRRScreenSetSize e' p ok w h ;;
       modify (λ s, s <| framerate := u32 (rate fps) |> <| vblank_interval := 1000000 / u32 (rate fps) |>)))
      t1 = Some ((), t1)) as Hrest.
    { intros t1 E1. rewrite bind_get, HN, bool_decide_true by congruence. done. }
    destruct nm as [n|]; [|rewrite bind_skip; by apply Hrest].
    destruct (set_name_run n k t) as (t1 & E1 & _ & _ & _ & [= D1 D2 D3] & D4). mstep E1. rewrite E1.
    apply Hrest. unfold shown. by rewrite D1, D2, D3, (bool_decide_ext _ _ D4).
  - intros Hk. split.
    { intros ->. apply Hk, (lorieCvt_keeps _ _ Hw Hh). done. }
    intros t Ht e' p k nm hb' a' r0' old' x' y' b' c' [Q1 Q2 Q3 Q4 Q5].
    destruct (configure_run e' p width height fps k nm w height hb' a' t r0' old' x' y' b' c' Hsize)
      as (t' & E' & R' & [= T1 T2] & _ & T3 & _ & T5 & _); try done.
    { by rewrite HN, bool_decide_false. }
    exists t'. split; [done|]. split; [done|]. unfold shown. by rewrite T1, T2, T3, (bool_decide_eq_true_2 _ T5).
Qed.

(** ** The name of the output *)

Lemma cstr_app_zeros l k : nul_free l → (0 < k)%nat → cstr (l ++ replicate k 0) = l.
Proof. intros H Hk. destruct k as [|k]; [lia|]. by apply cstr_app. Qed.

Lemma cstr_id l : nul_free l → cstr l = l.
Proof. induction 1 as [|c l Hc _ IH]; simpl; [done|]. by rewrite (proj2 (Z.eqb_neq c 0)), IH. Qed.

(** The first 1024 bytes of a block, after the name was put there: its characters, and NULs. *)
Lemma put_name_bytes block name k :
  (NAME_SIZE ≤ length block)%nat → 0 ≤ k →
  let m := take (Z.to_nat (k `min` 1024)) (cstr name) in
  put_name block name k = m ++ replicate (NAME_SIZE - length m) 0 ++ drop NAME_SIZE block.
Proof.
  intros Hb Hk m. unfold put_name, strncpy.
  set (n := if k <? 1024 then Z.to_nat k else NAME_SIZE).
  assert (n = Z.to_nat (k `min` 1024)) as En by (subst n; unfold NAME_SIZE; destruct (Z.ltb_spec k 1024); lia).
  assert (n ≤ NAME_SIZE)%nat as Hn by (rewrite En; unfold NAME_SIZE; lia). rewrite En in *. fold m.
  f_equal. assert (length m ≤ Z.to_nat (k `min` 1024))%nat by (subst m; rewrite length_take; lia).
  rewrite drop_app_le by (by rewrite length_replicate). rewrite drop_replicate, app_assoc, <-replicate_add.
  do 2 f_equal. lia.
Qed.

(** The name of the output is what the notification says, up to 1023 characters, and is kept for the next
    generation of the server, which shows it again; a longer one loses its 1024th character in the running server,
    which comes back with the next generation. *)
Theorem name_after_reset name k s o :
  out_name s = Some o → length o = S NAME_SIZE → length (root_name s) = NAME_SIZE → 0 ≤ k →
  let m := take (Z.to_nat (k `min` 1024)) (cstr name) in
  ∃ s' o' o2, set_name name k s = Some ((), s')
    ∧ out_name s' = Some o' ∧ length o' = S NAME_SIZE ∧ length (root_name s') = NAME_SIZE
    ∧ cstr o' = take 1023 m ∧ nameLength s' = Z.of_nat (length (take 1023 m))
    ∧ out_name (create_output s') = Some o2 ∧ cstr o2 = m
    ∧ nameLength (create_output s') = Z.of_nat (length m).
Proof.
  intros Ho Hlo Hlr Hk m. unfold set_name. rewrite bind_get, Ho. cbv zeta.
  assert (length m ≤ NAME_SIZE)%nat as Hm by (subst m; rewrite length_take; unfold NAME_SIZE; lia).
  assert (nul_free m) as Hf by apply Forall_take, cstr_nul_free.
  assert (cstr (<[1023%nat:=0]> (put_name o name k)) = take 1023 m) as E1.
  { rewrite put_name_bytes by lia. fold m. destruct (decide (length m = NAME_SIZE)) as [E|E].
    - rewrite <-(take_drop 1023 m) at 1. rewrite <-!app_assoc, insert_app_r_alt by (rewrite length_take; unfold NAME_SIZE in *; lia).
      rewrite length_take, Nat.min_l, Nat.sub_diag by (unfold NAME_SIZE in *; lia).
      destruct (drop 1023 m) as [|c d] eqn:Ed; [apply (f_equal length) in Ed; rewrite length_drop in Ed; simpl in Ed; unfold NAME_SIZE in *; lia|].
      simpl. apply cstr_app. by apply Forall_take.
    - rewrite (take_ge m) by (unfold NAME_SIZE in *; lia). rewrite insert_app_r_alt by (unfold NAME_SIZE in *; lia).
      rewrite insert_app_l by (rewrite length_replicate; unfold NAME_SIZE in *; lia).
      destruct (NAME_SIZE - length m)%nat as [|j] eqn:Ej; [lia|].
      rewrite (list_insert_id (replicate (S j) 0)) by (apply lookup_replicate_2; unfold NAME_SIZE in *; lia).
      simpl. by apply cstr_app. }
  assert (cstr (put_name (root_name s) name k ++ [0]) = m) as E2.
  { rewrite put_name_bytes, (drop_ge (root_name s)), app_nil_r, <-app_assoc by lia. fold m.
    destruct (NAME_SIZE - length m)%nat; simpl; by apply cstr_app. }
  assert (∀ block, (NAME_SIZE ≤ length block)%nat → length (put_name block name k) = length block) as Hlen.
  { intros block Hb. rewrite put_name_bytes by done. rewrite !length_app, length_replicate, length_drop. fold m. lia. }
  eexists _, _, _. split; [done|]. simpl. split_and!; try done; rewrite ?length_insert, ?Hlen, ?E1, ?E2; try done; lia.
Qed.

(** ** Witnesses *)

(** A flip of the pixmap 30 on the root window, 40 being the screen's; window 1 and its child 2 draw into the
    flipped pixmap, window 3 into one of its own. *)
Definition demo_conf : conf :=
  mk_conf (demo_screen <| bufs ::= λ st, st <| ahbs := {[50 := 1; 60 := 1]} |> |> <| root_pixmap := 30 |>)
    (WNode 1 30 (WNode 2 30 WNil WNil) (WNode 3 70 WNil WNil)) (Some (None, 30)) 640 480 40 30 33333
    (replicate 1024 0) (Some (replicate 1025 0)) 0 (640, 480).

Lemma demo_flip_ok : flip_ok demo_conf 30 40.
Proof. constructor; try done; simpl; try tauto. intros _. by exists None. Qed.

Lemma demo_alloc w h : 0 < w → 0 < h → alloc_ready demo_senv w h 9 0x90000 (scr demo_conf).
Proof. intros Hw Hh. by constructor. Qed.

Lemma demo_pixmaps_ok :
  30 ≠ 0 ∧ 40 ≠ 0 ∧ 80 ≠ 0 ∧ pixmaps (scr demo_conf) !! 80 = None
  ∧ held (scr demo_conf) 30 (demo_pixmap 300) (demo_ahb 5 50)
  ∧ held (scr demo_conf) 40 (demo_pixmap 400) (demo_ahb 6 60).
Proof. by split_and!. Qed.

Lemma demo_buffers_ok : hardware demo_senv (scr demo_conf) (demo_ahb 6 60) ∧ lists_ok (bufs (scr demo_conf)).
Proof. split; [by split_and!; try done; exists 1|]. exists []. by split; [|constructor]. Qed.

Lemma demo_nodes_ok : nodes_ok (pres (scr demo_conf)).
Proof. split; constructor. Qed.

Lemma configure_replaces_pixmap_witness : ∃ s',
  lorieConfigureNotify demo_senv 80 true 1000 500 60 0 None demo_conf = Some ((), s')
  ∧ windows s' = WNode 1 80 (WNode 2 80 WNil WNil) (WNode 3 70 WNil WNil)
  ∧ pixmaps (scr s') !! 40 = None ∧ (scr_width s', scr_height s') = (1000, 500) ∧ vblank_interval s' = 16666.
Proof.
  destruct (configure_replaces_pixmap demo_senv 80 1000 500 60 0 None 1000 500 9 0x90000 demo_conf 30 40
    (demo_pixmap 300) (demo_pixmap 400) (demo_ahb 5 50) (demo_ahb 6 60)
    ltac:(split; [lia|split; [lia|reflexivity]]) eq_refl demo_flip_ok demo_pixmaps_ok demo_buffers_ok demo_nodes_ok
    (demo_alloc 1000 500 ltac:(lia) ltac:(lia))) as (s' & E & R & H1 & H2 & H3 & H4).
  exists s'. split; [exact E|]. split; [exact (rs_windows _ _ _ _ _ _ _ _ _ _ R)|].
  split; [exact (rs_old _ _ _ _ _ _ _ _ _ _ R)|]. split; [exact H1|]. rewrite H4, H3. reflexivity.
Defined.

Lemma demo_ready w h : 0 < w → 0 < h →
  resize_ready demo_senv 80 w h 9 0x90000 demo_conf 30 40 (demo_pixmap 300) (demo_pixmap 400) (demo_ahb 5 50) (demo_ahb 6 60).
Proof.
  intros Hw Hh. constructor; [exact demo_flip_ok|exact demo_pixmaps_ok|exact demo_buffers_ok|exact demo_nodes_ok|].
  by apply demo_alloc.
Qed.

(** The same windows and pixmaps, when the screen has a size that was asked for as 1001x500. *)
Definition demo_later : conf :=
  demo_conf <| scr_width := 1000 |> <| scr_height := 500 |> <| framerate := 60 |>.

Lemma demo_later_ready :
  resize_ready demo_senv 80 1000 500 9 0x90000 demo_later 30 40 (demo_pixmap 300) (demo_pixmap 400) (demo_ahb 5 50) (demo_ahb 6 60).
Proof.
  destruct (demo_ready 1000 500) as [[] ?]; [done..|]. by constructor.
Qed.

Lemma notification_settles_witness : ∃ s1 s2 t,
  lorieConfigureNotify demo_senv 80 true 1000 500 60 0 None demo_conf = Some ((), s1)
  ∧ lorieConfigureNotify demo_senv 81 true 1000 500 60 0 None demo_later = Some ((), demo_later)
  ∧ lorieConfigureNotify demo_senv 80 true 1001 500 60 0 None demo_conf = Some ((), s2)
  ∧ shown s2 = (1000, 500, 60, true)
  ∧ lorieConfigureNotify demo_senv 80 true 1001 500 60 0 None demo_later = Some ((), t)
  ∧ root_pixmap (scr t) = 80 ∧ shown t = shown s2.
Proof.
  destruct (notification_settles demo_senv 80 1000 500 60 0 None 1000 500 9 0x90000 demo_conf 30 40
    (demo_pixmap 300) (demo_pixmap 400) (demo_ahb 5 50) (demo_ahb 6 60)
    ltac:(lia) ltac:(lia) eq_refl eq_refl (demo_ready 1000 500 ltac:(lia) ltac:(lia))) as (s1 & E1 & S1 & K1 & _).
  destruct (notification_settles demo_senv 80 1001 500 60 0 None 1000 500 9 0x90000 demo_conf 30 40
    (demo_pixmap 300) (demo_pixmap 400) (demo_ahb 5 50) (demo_ahb 6 60)
    ltac:(lia) ltac:(lia) eq_refl eq_refl (demo_ready 1000 500 ltac:(lia) ltac:(lia))) as (s2 & E2 & S2 & _ & K2).
  destruct K1 as [_ K1]; [left; by split|]. destruct K2 as [_ K2]; [by intros [[H _]|H]|].
  destruct (K2 demo_later (eq_sym S2) demo_senv 80 0 None _ _ _ _ _ _ _ _ demo_later_ready) as (t & Et & Rt & St).
  exists s1, s2, t. split; [exact E1|]. split; [exact (K1 demo_later (eq_sym S1) demo_senv 81 true 0 None)|].
  split; [exact E2|]. split; [exact S2|]. split; [exact Et|].
  split; [exact (rs_root _ _ _ _ _ _ _ _ _ _ Rt)|exact St].
Defined.

Lemma name_after_reset_witness : ∃ s' o', set_name [72; 105; 0] 3 demo_conf = Some ((), s')
  ∧ out_name s' = Some o' ∧ cstr o' = [72; 105].
Proof.
  destruct (name_after_reset [72; 105; 0] 3 demo_conf (replicate 1025 0) eq_refl eq_refl eq_refl ltac:(lia))
    as (s' & o' & o2 & E & O & _ & _ & C & _). exists s', o'. split; [exact E|]. split; [exact O|exact C].
Defined.
