(* ===== verification/Resize.v ===== *)
(** * A new size, from the activity to the screen

    Joins [Wire], [Events] and [Config]: [sendWindowChange] of the activity writes
    an event and the surface's name, the input thread reads both and queues a
    procedure, and the main thread runs it, which calls [lorieConfigureNotify]. *)

From stdpp Require Import gmap.
From S2P Require Import Prelude Text Wire Events Buffer GpuCopy Present Screen Config.

(** The procedures the main thread hands to the screen. *)
Definition run_screen_job (e : senv) (newpix : Z) (calloc_ok : bool) (w : work) : M conf () :=
  match w with
  | WScreenSize width height framerate name_size name =>
    lorieConfigureNotify e newpix calloc_ok width height framerate name_size name
  | _ => skip
  end.

(** What [sendWindowChange] writes, and the procedure that comes of it. *)
Definition size_packet (w h f : Z) (name : list Z) : packet :=
  mk_packet (ScreenSize w h f (Z.of_nat (length name))) name None.
Definition size_work (w h f : Z) (name : list Z) : work :=
  WScreenSize w h f (Z.of_nat (length name)) (if (length name =? 0)%nat then None else Some (name ++ [0])).

Lemma window_change_written a w h f name :
  0 < w < 2 ^ 15 → 0 < h < 2 ^ 15 → 0 ≤ f < 2 ^ 16 →
  written a (sendWindowChange w h f (Some name)) = Some [size_packet w h f name].
Proof.
  intros Hw Hh Hf. cbn [written]. rewrite !(proj2 (Z.leb_gt _ _)) by lia. cbn [orb].
  by rewrite !wrapU_id by (unfold inU; lia).
Qed.

Lemma serve_size e w h f name c :
  Events.calloc_ok e (24 + Z.of_nat (length name) + 1) = true →
  serve e (size_packet w h f name) c = Some ((), c <| works ::= λ l, l ++ [size_work w h f name] |>).
Proof.
  intros Hc. unfold serve, size_packet, size_work. simpl. rewrite Hc, Nat2Z.id, Nat.sub_succ_l, Nat.sub_diag by lia.
  destruct name; done.
Qed.

(** The input thread and the main thread pass the procedure on. *)
Lemma size_job_run e pad w h f name c :
  length pad = event_size → 0 < w < 2 ^ 15 → 0 < h < 2 ^ 15 → 0 ≤ f < 2 ^ 16 → Z.of_nat (length name) < 2 ^ 31 →
  Events.calloc_ok e (24 + Z.of_nat (length name) + 1) = true → works c = [] →
  ∃ c1 c2, input_thread 2 e (mk_srv (packet_bytes pad (size_packet w h f name)) c) = Some ((), mk_srv [] c1)
    ∧ run_works 2 e c1 = Some ((), c2) ∧ works c2 = []
    ∧ screen_jobs c2 = screen_jobs c ++ [size_work w h f name].
Proof.
  intros Hp Hw Hh Hf Hn Hc Hq. set (c0 := c <| mask := ∅ |>).
  set (c1 := c0 <| works ::= λ l, l ++ [size_work w h f name] |>).
  exists c1, (c1 <| screen_jobs ::= λ l, l ++ [size_work w h f name] |> <| works := [] |>). split; [|split; [|done]].
  - rewrite <-(app_nil_r (packet_bytes _ _)). apply (input_thread_run e 1 [size_packet w h f name]); try done.
    + constructor; [done|constructor].
    + apply Forall_singleton. unfold packet_ok, size_packet. simpl. by split; [unfold inU; lia|].
    + cbn [serve_all]. mstep (serve_size e w h f name c0 Hc). done.
    + simpl. lia.
  - cbn [run_works]. rewrite bind_get. assert (works c1 = [size_work w h f name]) as -> by (simpl; by rewrite Hq).
    assert (run_work e (size_work w h f name) c1 = Some ((), c1 <| screen_jobs ::= λ l, l ++ [size_work w h f name] |>)) as Er
      by done.
    mstep Er. rewrite bind_modify, bind_get. simpl. by rewrite Hq.
Qed.

(** The name of the output after the handler. *)
Lemma name_shown name s o s1 :
  name ≠ [] → nul_free name → out_name s = Some o → length o = S NAME_SIZE → length (root_name s) = NAME_SIZE →
  set_name (name ++ [0]) (Z.of_nat (length name)) s = Some ((), s1) →
  ∃ o', out_name s1 = Some o' ∧ cstr o' = take 1023 name.
Proof.
  intros Hne Hf Ho H1 H2 E.
  destruct (name_after_reset (name ++ [0]) (Z.of_nat (length name)) s o Ho H1 H2 ltac:(lia))
    as (s' & o' & o2 & E' & O & _ & _ & C & _).
  rewrite E in E'. injection E' as <-. exists o'. split; [done|]. rewrite C, cstr_app by done.
  rewrite take_take. destruct (decide (length name ≤ 1023)%nat).
  - by rewrite !take_ge by lia.
  - f_equal. lia.
Qed.

(** C14: A new size, from the activity to the screen: what [sendWindowChange] writes is read by the input thread and
    handed to the main thread, which replaces the screen pixmap for the screen, its root window and every window
    below, by one of the mode's size, and gives the output the surface's name (up to 1023 bytes) and the frame rate
    of the activity. *)
Theorem window_change_reaches_screen a e pad se newpix width height fps name w h hb ad c s r0 old x y b d o :
  length pad = event_size → works c = [] → Events.calloc_ok e (24 + Z.of_nat (length name) + 1) = true →
  0 < width < 2 ^ 15 ∧ 0 < height < 2 ^ 15 ∧ lorieCvt width height = (w, h) → 0 < fps < 2 ^ 16 →
  name ≠ [] ∧ nul_free name ∧ Z.of_nat (length name) < 2 ^ 31 →
  out_name s = Some o → length o = S NAME_SIZE → length (root_name s) = NAME_SIZE →
  needs_resize width height (rate fps) s = true → flip_ok s r0 old →
  r0 ≠ 0 ∧ old ≠ 0 ∧ newpix ≠ 0 ∧ pixmaps (scr s) !! newpix = None
    ∧ held (scr s) r0 x b ∧ held (scr s) old y d →
  hardware se (scr s) d ∧ lists_ok (Screen.bufs (scr s)) → nodes_ok (pres (scr s)) →
  alloc_ready se w h hb ad (scr s) →
  ∃ p job c1 c2 s' o', written a (sendWindowChange width height fps (Some name)) = Some [p]
    ∧ input_thread 2 e (mk_srv (packet_bytes pad p) c) = Some ((), mk_srv [] c1)
    ∧ run_works 2 e c1 = Some ((), c2) ∧ screen_jobs c2 = screen_jobs c ++ [job]
    ∧ run_screen_job se newpix true job s = Some ((), s')
    ∧ resized se newpix w h r0 old y d s s'
    ∧ (Config.scr_width s', Config.scr_height s') = (w, h) ∧ framerate s' = fps
    ∧ out_name s' = Some o' ∧ cstr o' = take 1023 name.
Proof.
  intros Hp Hq Hc Hs Hf (Hn1 & Hn2 & Hn3) Ho Ho1 Ho2 Hr Hfl Hpx Hb Hv Ha.
  destruct (size_job_run e pad width height fps name c) as (c1 & c2 & E1 & E2 & _ & E3); try done; [tauto|tauto|lia|].
  destruct (configure_run se newpix width height fps (Z.of_nat (length name)) (Some (name ++ [0])) w h hb ad s
    r0 old x y b d Hs Hr Hfl Hpx Hb Hv Ha) as (s' & E & R & H1 & _ & H3 & _ & _ & s1 & N1 & N2).
  injection N2 as _ N2 _. destruct (name_shown name s o s1) as (o' & O1 & O2); try done.
  exists (size_packet width height fps name), (size_work width height fps name), c1, c2, s', o'.
  split; [apply window_change_written; [tauto|tauto|lia]|]. split_and!; try done.
  - unfold run_screen_job, size_work. destruct name; done.
  - rewrite H3. unfold rate, truthy. rewrite (proj2 (Z.eqb_neq _ _)) by lia. apply wrapU_id. unfold inU. lia.
  - by rewrite N2.
Qed.

(** ** Witness *)

Lemma window_change_reaches_screen_witness : ∃ p job c2 s' o',
  written (mk_aenv (λ _, (0, 0)) 7) (sendWindowChange 1000 500 60 (Some [72; 105])) = Some [p]
  ∧ screen_jobs c2 = screen_jobs demo_server ++ [job]
  ∧ run_screen_job demo_senv 80 true job demo_conf = Some ((), s')
  ∧ (Config.scr_width s', Config.scr_height s') = (1000, 500)
  ∧ out_name s' = Some o' ∧ cstr o' = [72; 105].
Proof.
  destruct (window_change_reaches_screen (mk_aenv (λ _, (0, 0)) 7) demo_env zero_pad demo_senv 80 1000 500 60
    [72; 105] 1000 500 9 0x90000 demo_server demo_conf 30 40 (demo_pixmap 300) (demo_pixmap 400) (demo_ahb 5 50)
    (demo_ahb 6 60) (replicate 1025 0) eq_refl eq_refl eq_refl ltac:(split; [lia|split; [lia|reflexivity]]) ltac:(lia)
    ltac:(split; [done|split; [repeat constructor; lia|simpl; lia]]) eq_refl eq_refl eq_refl eq_refl demo_flip_ok
    demo_pixmaps_ok demo_buffers_ok demo_nodes_ok (demo_alloc 1000 500 ltac:(lia) ltac:(lia)))
    as (p & job & c1 & c2 & s' & o' & W & _ & _ & J & E & _ & S & _ & O & C).
  exists p, job, c2, s', o'. split; [exact W|]. split; [exact J|]. split; [exact E|]. split; [exact S|].
  split; [exact O|exact C].
Defined.
