(* ===== verification/CmdLine.v ===== *)
(** * Command line of the server ([xserver/os/utils.c], [InitOutput.c])

    [dix_main] hands the arguments the activity's launcher gave to
    [ProcessCommandLine], which asks the driver first ([ddxProcessArgument]) and
    then its own options, those of XKB and those of XDMCP.  Afterwards the server
    starts, and [ddxReady] runs the command the user asked for in a process of its
    own ([ddxReadyThread]).

    An argument is the string of its characters before the NUL.  Variables of the
    server that an option sets and that nothing here reads are in a table by their
    C names.  A run can read outside [argv] or overflow an [int] (no result), stop
    the server ([FatalError], [exit]), or go on.  The cascade of [else if] is a
    list of clauses tried in its order.  Messages for the log are left out, but
    [UseMsg] is counted. *)

From Stdlib Require Import Ascii String.
From stdpp Require Import gmap strings.
From S2P Require Import Prelude.
Open Scope string_scope.
Open Scope list_scope.
Open Scope Z_scope.

(** ** C library on strings *)

Definition code (c : ascii) : Z := Z.of_N (N_of_ascii c).
Definition isdigit (c : ascii) : bool := (48 <=? code c) && (code c <=? 57).
Definition isspace (c : ascii) : bool := (code c =? 32) || ((9 <=? code c) && (code c <=? 13)).

(** The first character, or the NUL of an empty string. *)
Definition first_char (s : string) : ascii :=
  match s with EmptyString => "000"%char | String c _ => c end.

Definition digit_value (c : ascii) : Z :=
  if isdigit c then code c - 48
  else if (97 <=? code c) && (code c <=? 122) then code c - 87
  else if (65 <=? code c) && (code c <=? 90) then code c - 55
  else 36.

Fixpoint digits (base : Z) (acc : Z) (s : string) : Z :=
  match s with
  | EmptyString => acc
  | String c s' => if digit_value c <? base then digits base (acc * base + digit_value c) s' else acc
  end.

Fixpoint skip_spaces (s : string) : string :=
  match s with
  | String c s' => if isspace c then skip_spaces s' else s
  | EmptyString => s
  end.

(** The prefix of a hexadecimal number counts if a digit follows it. *)
Definition strip_0x (base : Z) (s : string) : string :=
  match s with
  | String z (String x (String d s')) =>
    if (base =? 16) && (code z =? 48) && ((code x =? 120) || (code x =? 88)) && (digit_value d <? 16)
    then String d s' else s
  | _ => s
  end.

(** [strtol] of a [long] of [bits] bits: out of range it saturates. *)
Definition saturate (bits z : Z) : Z := Z.max (- 2 ^ (bits - 1)) (Z.min (2 ^ (bits - 1) - 1) z).

Definition strtol (bits base : Z) (s : string) : Z :=
  let s := skip_spaces s in
  match s with
  | String c s' =>
    if code c =? 45 then saturate bits (- digits base 0 (strip_0x base s'))
    else if code c =? 43 then saturate bits (digits base 0 (strip_0x base s'))
    else saturate bits (digits base 0 (strip_0x base s))
  | EmptyString => 0
  end.

Fixpoint tolower (s : string) : string :=
  match s with
  | EmptyString => EmptyString
  | String c s' =>
    String (if (65 <=? code c) && (code c <=? 90) then ascii_of_N (Z.to_N (code c + 32)) else c) (tolower s')
  end.

(** ** State *)

Inductive value := VInt (z : Z) | VStr (s : string).

(** What other parts of the server are told. *)
Inductive request :=
  | InitAuthorization (file : string)
  | TransNoListen (protocol : string)
  | TransListen (protocol : string)
  | XdmcpRegisterManufacturerDisplayID (id : string)
  | RaiseCoreLimit.                       (** [getrlimit] and [setrlimit] of [RLIMIT_CORE] *)

Record cmd := mk_cmd {
  globals : gmap string value;
  display : string;
  xdm_udp_port : Z;
  mcastlist : list (string * Z);          (** address and hops *)
  xstartup : option string;
  xstartupArgv : option (list string);
  legacyDrawing : bool;
  dri3 : bool;
  gpuPresentDisabled : bool;
  sysv_shm_forced : bool;
  NoListenAll : bool;
  squares_queued : nat;                   (** [drawSquares] in the work queue *)
  usage : nat;                            (** calls of [UseMsg] *)
  requests : list request                 (** newest last *)
}.
#[export] Instance eta_cmd : Settable cmd := λ s,
  mk_cmd (globals s) (display s) (xdm_udp_port s) (mcastlist s) (xstartup s) (xstartupArgv s)
    (legacyDrawing s) (dri3 s) (gpuPresentDisabled s) (sysv_shm_forced s) (NoListenAll s)
    (squares_queued s) (usage s) (requests s).

Definition XDM_UDP_PORT : Z := 177.

(** The variables as [dix_main] finds them. *)
Definition initial_cmd : cmd :=
  mk_cmd ∅ "0" XDM_UDP_PORT [] None None false true false false false 0 0 [].

(** The machine and what its network answers. *)
Record cenv := mk_cenv {
  long_bits : Z;
  uid : Z;
  privileged : bool;                      (** [getuid() != geteuid()] *)
  addr_found : string → bool;             (** the host has an address of a supported family *)
  mcast_found : string → bool             (** the address is a multicast address *)
}.

Definition PATH_MAX : nat := 4096.
Definition DE_RESET : Z := 1.
Definition DE_TERMINATE : Z := 2.
Definition MILLI_PER_MIN : Z := 60000.
Definition XkbAccessXFeedbackMask : Z := 256.

(** ** Runs that can stop the server *)

Inductive halt := Fatal (why : string) | Exit.
Inductive outcome (A : Type) := Done (a : A) | Halted (h : halt).
Arguments Done {A} a.
Arguments Halted {A} h.

Definition C (A : Type) : Type := cmd → option (outcome A * cmd).
#[export] Instance C_ret : MRet C := λ A a s, Some (Done a, s).
#[export] Instance C_bind : MBind C := λ A B f m s,
  match m s with
  | Some (Done a, s') => f a s'
  | Some (Halted h, s') => Some (Halted h, s')
  | None => None
  end.

Definition upd (f : cmd → cmd) : C () := λ s, Some (Done (), f s).
Definition look {A} (f : cmd → A) : C A := λ s, Some (Done (f s), s).
Definition undef {A} : C A := λ _, None.
Definition FatalError {A} (why : string) : C A := λ s, Some (Halted (Fatal why), s).
Definition exit_ {A} : C A := λ s, Some (Halted Exit, s).

Definition UseMsg : C () := upd (λ s, s <| usage ::= S |>).
Definition set_global (g : string) (v : value) : C () := upd (λ s, s <| globals ::= <[g := v]> |>).
Definition set_int (g : string) (z : Z) : C () := set_global g (VInt z).
Definition TRUE_ : Z := 1.
Definition FALSE_ : Z := 0.
Definition request_ (r : request) : C () := upd (λ s, s <| requests ::= λ l, l ++ [r] |>).

(** ** Display names *)

Fixpoint has_char (c : ascii) (s : string) : bool :=
  match s with EmptyString => false | String d s' => Ascii.eqb c d || has_char c s' end.

(** The loop over the characters; [None] where it returns 0. *)
Fixpoint display_chars (period_found : bool) (after_period : Z) (d : string) : option (bool * Z) :=
  match d with
  | EmptyString => Some (period_found, after_period)
  | String c d' =>
    if negb (isdigit c) then
      if negb (Ascii.eqb c ".") || period_found then None
      else if 2 <? after_period then None else display_chars true after_period d'
    else
      let after_period := if period_found then after_period + 1 else after_period in
      if 2 <? after_period then None else display_chars period_found after_period d'
  end.

Definition VerifyDisplayName (e : cenv) (d : string) : bool :=
  match d with
  | EmptyString => false
  | String c _ =>
    if Ascii.eqb c "-" then false
    else if Ascii.eqb c "." then false
    else if has_char "/" d then false
    else match display_chars false 0 d with
    | None => false
    | Some (period_found, after_period) =>
      if period_found && (after_period =? 0) then false
      else negb (2 ^ 31 - 1 <? strtol (long_bits e) 10 d)
    end
  end.

(** ** Extensions ([mi/miinitext.c]) *)

(** Names and the variables that disable them. *)
Definition staticExtensions : list (string * option string) := [
  ("Generic Event Extension", Some "noGEExtension"); ("SHAPE", None);
  ("MIT-SHM", Some "noMITShmExtension"); ("XInputExtension", None);
  ("XTEST", Some "noTestExtensions"); ("BIG-REQUESTS", None); ("SYNC", None);
  ("XKEYBOARD", None); ("XC-MISC", None); ("XINERAMA", Some "noPanoramiXExtension");
  ("XFIXES", Some "noXFixesExtension"); ("RENDER", Some "noRenderExtension");
  ("RANDR", Some "noRRExtension"); ("COMPOSITE", Some "noCompositeExtension");
  ("DAMAGE", Some "noDamageExtension"); ("MIT-SCREEN-SAVER", Some "noScreenSaverExtension");
  ("DOUBLE-BUFFER", Some "noDbeExtension"); ("RECORD", Some "noTestExtensions");
  ("DPMS", Some "noDPMSExtension"); ("Present", None); ("DRI3", None);
  ("X-Resource", Some "noResExtension"); ("XVideo", Some "noXvExtension");
  ("XVideo-MotionCompensation", Some "noXvExtension"); ("GLX", Some "noGlxExtension")].

Definition EnableDisableExtension (name : string) (enable : bool) : C bool :=
  match List.find (λ x, String.eqb (tolower name) (tolower x.1)) staticExtensions with
  | Some (_, Some disablePtr) =>
    set_int disablePtr (Z.b2z (negb enable)) ≫= λ _, mret true
  | Some (_, None) => mret enable
  | None => mret false
  end.

Definition PictureParseCmapPolicy (name : string) : Z :=
  if String.eqb name "default" then 0
  else if String.eqb name "mono" then 1
  else if String.eqb name "gray" then 2
  else if String.eqb name "color" then 3
  else if String.eqb name "all" then 4
  else -1.

(** [libxfont/src/util/fontutil.c]. *)
Definition CACHING_OFF : Z := 0.
Definition CACHE_16_BIT_GLYPHS : Z := 1.
Definition CACHE_ALL_GLYPHS : Z := 2.

Definition xfont2_parse_glyph_caching_mode (str : string) : C bool :=
  if String.eqb str "none" then set_int "defaultGlyphCachingMode" CACHING_OFF ≫= λ _, mret true
  else if String.eqb str "all" then set_int "defaultGlyphCachingMode" CACHE_ALL_GLYPHS ≫= λ _, mret true
  else if String.eqb str "16" then set_int "defaultGlyphCachingMode" CACHE_16_BIT_GLYPHS ≫= λ _, mret true
  else mret false.

(** ** Options *)

Section options.
Context (e : cenv) (argv : list string).

Definition argc : nat := length argv.
Definition arg (i : nat) : C string := match argv !! i with Some a => mret a | None => undef end.
Definition atol (s : string) : Z := strtol (long_bits e) 10 s.
Definition atoi (s : string) : Z := s32 (atol s).

(** The driver's options: how many arguments were taken, 0 for none. *)
Definition CHECK_FOR_REQUIRED_ARGUMENTS (i num : nat) : C () :=
  if (argc <=? i + num)%nat then UseMsg ;; FatalError "Required argument not specified"
  else _ ← arg (i + num); mret ().

Definition ddxProcessArgument (i : nat) : C nat :=
  a ← arg i;
  if String.eqb a "-xstartup" then
    CHECK_FOR_REQUIRED_ARGUMENTS i 1 ;;
    v ← look xstartupArgv;
    match v with
    | Some _ => UseMsg ;; FatalError "-xstartup and -- are mutually exclusive"
    | None => c ← arg (i + 1); upd (λ s, s <| xstartup := Some c |>) ;; mret 2%nat
    end
  else if String.eqb a "--" then
    CHECK_FOR_REQUIRED_ARGUMENTS i 1 ;;
    c ← look xstartup;
    match c with
    | Some _ => UseMsg ;; FatalError "-xstartup and -- are mutually exclusive"
    | None =>
      upd (λ s, s <| xstartupArgv := Some (take (argc - i - 1) (drop (i + 1) argv)) |>) ;;
      mret (argc - i)%nat
    end
  else if String.eqb a "-legacy-drawing" then upd (λ s, s <| legacyDrawing := true |>) ;; mret 1%nat
  else if String.eqb a "-force-bgra" then mret 1%nat
  else if String.eqb a "-disable-dri3" then upd (λ s, s <| dri3 := false |>) ;; mret 1%nat
  else if String.eqb a "-force-sysvshm" then upd (λ s, s <| sysv_shm_forced := true |>) ;; mret 1%nat
  else if String.eqb a "-check-drawing" then
    upd (λ s, s <| NoListenAll := true |> <| squares_queued ::= S |>) ;; mret 1%nat
  else if String.eqb a "-disable-gpu-present" then
    upd (λ s, s <| gpuPresentDisabled := true |>) ;; mret 1%nat
  else mret 0%nat.

(** [XkbProcessArguments]: how many arguments were taken, negative for an error. *)
Definition next_is_digit (i : nat) : C bool :=
  if (i + 1 <? argc)%nat then a ← arg (i + 1); mret (isdigit (first_char a)) else mret false.

(** One of the optional numbers after [+accessx]: [i] and the count go on. *)
Definition accessx_number (act : string → C ()) (ij : nat * nat) : C (nat * nat) :=
  d ← next_is_digit ij.1;
  if d : bool then a ← arg (S ij.1); act a ;; mret (S ij.1, S ij.2) else mret ij.

Definition XkbProcessArguments (i : nat) : C Z :=
  a ← arg i;
  if String.prefix "-xkbdir" a then
    if (S i <? argc)%nat then
      if privileged e then mret (-1)
      else
        d ← arg (S i);
        if (String.length d <? PATH_MAX)%nat
        then set_global "XkbBaseDirectory" (VStr d) ;; mret 2
        else mret (-1)
    else mret (-1)
  else if String.prefix "-accessx" a || String.prefix "+accessx" a then
    if Ascii.eqb (first_char a) "-" then set_int "XkbWantAccessX" 0 ;; mret 1
    else
      set_int "XkbWantAccessX" 1 ;;
      d ← next_is_digit i;
      if d : bool then
        ij ← accessx_number (λ n, set_int "XkbDfltAccessXTimeout" (atoi n)) (i, 1%nat);
        ij ← accessx_number (λ n, set_int "XkbDfltAccessXTimeoutMask" (u32 (strtol (long_bits e) 16 n))) ij;
        ij ← accessx_number (λ n, set_int "XkbDfltAccessXFeedback"
               (if Ascii.eqb (first_char n) "1" then XkbAccessXFeedbackMask else 0)) ij;
        ij ← accessx_number (λ n, set_int "XkbDfltAccessXOptions" (u16 (strtol (long_bits e) 16 n))) ij;
        mret (Z.of_nat ij.2)
      else mret 1
  else if String.eqb a "-ardelay" || String.eqb a "-ar1" then
    (if (argc <=? S i)%nat then UseMsg
     else n ← arg (S i); set_int "XkbDfltRepeatDelay" (atoi n)) ;; mret 2
  else if String.eqb a "-arinterval" || String.eqb a "-ar2" then
    (if (argc <=? S i)%nat then UseMsg
     else n ← arg (S i); set_int "XkbDfltRepeatInterval" (atoi n)) ;; mret 2
  else mret 0.

(** [XdmcpOptions] *)
Definition get_addr_by_name (namestr : string) (port : Z) : C () :=
  if (port =? 0) || ((0 <? port) && (port <? 65535)) then
    if addr_found e namestr then mret () else FatalError "host not found"
  else FatalError "port out of range".

Definition get_manager_by_name (i : nat) : C () :=
  if (i + 1 =? argc)%nat then FatalError "missing host name in command line"
  else
    h ← arg (i + 1); p ← look xdm_udp_port;
    get_addr_by_name h p ;; set_global "ManagerAddress" (VStr h).

Definition get_fromaddr_by_name (i : nat) : C () :=
  if (i =? argc)%nat then FatalError "missing -from host name in command line"
  else h ← arg i; get_addr_by_name h 0 ;; set_global "xdm_from" (VStr h).

Definition XDM_DEFAULT_MCAST_ADDR6 : string := "ff02:0:0:0:0:0:0:12b".

Definition not_option (i : nat) : C bool :=
  if (i <? argc)%nat then
    a ← arg i; mret (negb (Ascii.eqb (first_char a) "-") && negb (Ascii.eqb (first_char a) "+"))
  else mret false.

Definition get_mcast_options (i : nat) : C nat :=
  b ← not_option i;
  ahi ← (if b : bool then
           address ← arg i;
           b ← not_option (S i);
           if b : bool then
             n ← arg (S i);
             let hopcount := s32 (atol n) in
             if (hopcount <? 1) || (255 <? hopcount) then FatalError "multicast hop count out of range"
             else mret (address, hopcount, S (S i))
           else mret (address, 1, S i)
         else mret (XDM_DEFAULT_MCAST_ADDR6, 1, i));
  p ← look xdm_udp_port;
  if (0 <? p) && (p <? 65535) then
    if mcast_found e ahi.1.1 then upd (λ s, s <| mcastlist ::= λ l, l ++ [ahi.1] |>) ;; mret ahi.2
    else FatalError "address not supported multicast type"
  else FatalError "port out of range".

Definition xdm_init (state_ : string) : C () :=
  set_global "XDM_INIT_STATE" (VStr state_) ;;
  set_int "UsingXdmcp" TRUE_ ;; set_int "LocalHostEnabled" FALSE_ ;;
  request_ (TransListen "tcp").

(** An option of XDMCP with an argument. *)
Definition xdm_arg (i : nat) (act : string → C ()) : C nat :=
  if (S i =? argc)%nat then FatalError "missing argument in command line"
  else a ← arg (S i); act a ;; mret (S i + 1)%nat.

Definition XdmcpOptions (i : nat) : C nat :=
  a ← arg i;
  if String.eqb a "-query" then get_manager_by_name i ;; xdm_init "XDM_QUERY" ;; mret (S i + 1)%nat
  else if String.eqb a "-broadcast" then xdm_init "XDM_BROADCAST" ;; mret (i + 1)%nat
  else if String.eqb a "-multicast" then
    j ← get_mcast_options (S i); xdm_init "XDM_MULTICAST" ;; mret (j + 1)%nat
  else if String.eqb a "-indirect" then get_manager_by_name i ;; xdm_init "XDM_INDIRECT" ;; mret (S i + 1)%nat
  else if String.eqb a "-port" then xdm_arg i (λ n, upd (λ s, s <| xdm_udp_port := u16 (atoi n) |>))
  else if String.eqb a "-from" then get_fromaddr_by_name (S i) ;; mret (S i + 1)%nat
  else if String.eqb a "-once" then set_int "OneSession" TRUE_ ;; mret (i + 1)%nat
  else if String.eqb a "-class" then xdm_arg i (λ n, set_global "defaultDisplayClass" (VStr n))
  else if String.eqb a "-cookie" then xdm_arg i (λ n, set_global "xdmAuthCookie" (VStr n))
  else if String.eqb a "-displayID" then xdm_arg i (λ n, request_ (XdmcpRegisterManufacturerDisplayID n))
  else mret i.

(** *** The cascade of [ProcessCommandLine] *)

(** What a clause answers: not its option, the value of [i] before the next turn,
    or [break]. *)
Inductive verdict := Other | Go (i : nat) | Break.
Definition clause : Type := nat → string → C verdict.

Definition on (name : string) (body : nat → C nat) : clause := λ i a,
  if String.eqb a name then j ← body i; mret (Go j) else mret Other.

Definition flag (act : C ()) (i : nat) : C nat := act ;; mret i.

(** An option that takes the next argument; without one, [missing]. *)
Definition with_arg_or (missing : C ()) (act : string → C ()) (i : nat) : C nat :=
  (if (S i <? argc)%nat then a ← arg (S i); act a else missing) ;; mret (S i).
Definition with_arg : (string → C ()) → nat → C nat := with_arg_or UseMsg.
Definition int_arg (g : string) : nat → C nat := with_arg (λ a, set_int g (atoi a)).

(** A multiplication of [int]. *)
Definition mul_int (a b : Z) : C Z :=
  if (- 2 ^ 31 <=? a * b) && (a * b <? 2 ^ 31) then mret (a * b) else undef.

(** [-ld] and [-ls]: kilobytes. *)
Definition limit_arg (g : string) : nat → C nat := with_arg (λ a,
  v ← (if 0 <? atoi a then mul_int (atoi a) 1024 else mret (atoi a)); set_int g v).

Definition minutes_arg (g : string) : nat → C nat :=
  with_arg (λ a, set_int g (u32 (u32 (atoi a) * MILLI_PER_MIN))).

Definition extension_arg (enable : bool) : nat → C nat := with_arg (λ a,
  _ ← EnableDisableExtension a enable; mret ()).

Definition ddx_clause : clause := λ i _,
  skip ← ddxProcessArgument i;
  mret (if (skip =? 0)%nat then Other else Go (i + (skip - 1))).

Definition display_clause : clause := λ i a,
  match a with
  | String c d =>
    if Ascii.eqb c ":" then
      upd (λ s, s <| display := d |>) ;; set_int "explicit_display" TRUE_ ;;
      if VerifyDisplayName e d then mret (Go i) else UseMsg ;; FatalError "Bad display name, exiting"
    else mret Other
  | EmptyString => mret Other
  end.

Definition xkb_clause : clause := λ i _,
  skip ← XkbProcessArguments i;
  if skip =? 0 then mret Other
  else if 0 <? skip then mret (Go (i + (Z.to_nat skip - 1)))
  else UseMsg ;; mret (Go i).

Definition xdmcp_clause : clause := λ i _,
  skip ← XdmcpOptions i;
  mret (if (skip =? i)%nat then Other else Go (skip - 1)).

Definition terminate_body (i : nat) : C nat :=
  set_int "dispatchExceptionAtReset" DE_TERMINATE ;;
  d ← next_is_digit i;
  if d : bool
  then a ← arg (S i); set_int "terminateDelay" (Z.max 0 (atoi a)) ;; mret (S i)
  else set_int "terminateDelay" (Z.max 0 (-1)) ;; mret i.

Definition valid_maxclients (n : Z) : bool :=
  bool_decide (n ∈ [64; 128; 256; 512; 1024; 2048]).

Definition clauses_1 : list clause := [
  ddx_clause;
  display_clause;
  on "-a" (int_arg "defaultPointerControl.num");
  on "-ac" (flag (set_int "defeatAccessControl" TRUE_));
  on "-audit" (int_arg "auditTrailLevel");
  on "-auth" (with_arg (λ a, request_ (InitAuthorization a)));
  on "-byteswappedclients" (flag (set_int "AllowByteSwappedClients" FALSE_));
  on "+byteswappedclients" (flag (set_int "AllowByteSwappedClients" TRUE_));
  on "-br" (flag (mret ()));
  on "+bs" (flag (set_int "enableBackingStore" TRUE_));
  on "-bs" (flag (set_int "disableBackingStore" TRUE_));
  on "c" (int_arg "defaultKeyboardControl.click");
  on "-c" (flag (set_int "defaultKeyboardControl.click" 0));
  on "-cc" (int_arg "defaultColorVisualClass");
  on "-core" (flag (request_ RaiseCoreLimit ;; set_int "CoreDump" TRUE_));
  on "-nocursor" (flag (set_int "EnableCursor" FALSE_));
  on "-dpi" (int_arg "monitorResolution");
  on "-displayfd" (with_arg (λ a, set_int "displayfd" (atoi a) ;; set_int "nolock" TRUE_));
  on "dpms" (flag (mret ()));
  on "-dpms" (flag (set_int "DPMSDisabledSwitch" TRUE_));
  on "-deferglyphs" (with_arg (λ a, b ← xfont2_parse_glyph_caching_mode a; if b : bool then mret () else UseMsg));
  on "-f" (int_arg "defaultKeyboardControl.bell");
  on "-fakescreenfps" (with_arg (λ a, set_int "FakeScreenFps" (u32 (atoi a)) ;;
     if (u32 (atoi a) <? 1) || (600 <? u32 (atoi a)) then FatalError "fakescreenfps out of range" else mret ()));
  on "-fp" (with_arg (λ a, set_global "defaultFontPath" (VStr a)));
  on "-help" (λ _, UseMsg ;; exit_);
  on "+iglx" (flag (set_int "enableIndirectGLX" TRUE_));
  on "-iglx" (flag (set_int "enableIndirectGLX" FALSE_));
  xkb_clause;
  on "-ld" (limit_arg "limitDataSpace");
  on "-lf" (int_arg "limitNoFile");
  on "-ls" (limit_arg "limitStackSpace");
  on "-nolock" (flag (if uid e =? 0 then set_int "nolock" TRUE_ else mret ()));
  on "-maxclients" (with_arg (λ a, set_int "LimitClients" (atoi a) ;;
     if valid_maxclients (atoi a) then mret () else FatalError "maxclients must be one of 64 to 2048"));
  on "-nolisten" (with_arg (λ a, request_ (TransNoListen a)));
  on "-listen" (with_arg (λ a, request_ (TransListen a)));
  on "-noreset" (flag (set_int "dispatchExceptionAtReset" 0));
  on "-reset" (flag (set_int "dispatchExceptionAtReset" DE_RESET))].

Definition clauses_2 : list clause := [
  on "-p" (minutes_arg "defaultScreenSaverInterval");
  on "-pogo" (flag (set_int "dispatchException" DE_TERMINATE));
  on "-pn" (flag (set_int "PartialNetwork" TRUE_));
  on "-nopn" (flag (set_int "PartialNetwork" FALSE_));
  on "r" (flag (set_int "defaultKeyboardControl.autoRepeat" TRUE_));
  on "-r" (flag (set_int "defaultKeyboardControl.autoRepeat" FALSE_));
  on "-retro" (flag (set_int "party_like_its_1989" TRUE_));
  on "-s" (minutes_arg "defaultScreenSaverTime");
  on "-seat" (with_arg (λ a, set_global "SeatId" (VStr a)));
  on "-t" (int_arg "defaultPointerControl.threshold");
  on "-terminate" terminate_body;
  on "-tst" (flag (set_int "noTestExtensions" TRUE_));
  on "v" (flag (set_int "defaultScreenSaverBlanking" 1));
  on "-v" (flag (set_int "defaultScreenSaverBlanking" 0));
  on "-wr" (flag (set_int "whiteRoot" TRUE_));
  on "-background" (with_arg_or (mret ()) (λ a,
     if String.eqb a "none" then set_int "bgNoneRoot" TRUE_ else UseMsg));
  on "-maxbigreqsize" (with_arg (λ a,
     if (0 <? atol a) && (atol a <? 128) then set_int "maxBigRequestSize" (atol a * 1048576 - 1) else UseMsg));
  on "+xinerama" (flag (set_int "noPanoramiXExtension" FALSE_));
  on "-xinerama" (flag (set_int "noPanoramiXExtension" TRUE_));
  on "-disablexineramaextension" (flag (set_int "PanoramiXExtensionDisabledHack" TRUE_));
  (λ _ a, mret (if String.eqb a "-I" then Break else Other));
  (λ i a, mret (if String.prefix "tty" a then Go i else Other));
  xdmcp_clause;
  on "-dumbSched" (flag (set_int "InputThreadEnable" FALSE_ ;; set_int "SmartScheduleSignalEnable" FALSE_));
  on "-schedInterval" (with_arg (λ a,
     set_int "SmartScheduleInterval" (atoi a) ;; set_int "SmartScheduleSlice" (atoi a)));
  on "-schedMax" (int_arg "SmartScheduleMaxSlice");
  on "-render" (with_arg (λ a, let policy := PictureParseCmapPolicy a in
     if policy =? -1 then UseMsg else set_int "PictureCmapPolicy" policy));
  on "-sigstop" (flag (set_int "RunFromSigStopParent" TRUE_));
  on "+extension" (extension_arg true);
  on "-extension" (extension_arg false)].

Fixpoint cascade (cs : list clause) (i : nat) (a : string) : C verdict :=
  match cs with
  | [] => UseMsg ;; FatalError "Unrecognized option"
  | c :: cs' => v ← c i a; match v with Other => cascade cs' i a | _ => mret v end
  end.

(** The loop from [i] on. *)
Fixpoint process_args (fuel i : nat) : C () :=
  match fuel with
  | O => undef
  | S fuel' =>
    if (i <? argc)%nat then
      a ← arg i;
      v ← cascade (clauses_1 ++ clauses_2) i a;
      match v with Go j => process_args fuel' (S j) | _ => mret () end
    else mret ()
  end.

(** Each turn takes an argument. *)
Definition ProcessCommandLine : C () :=
  set_int "defaultKeyboardControl.autoRepeat" TRUE_ ;;
  set_int "PartialNetwork" TRUE_ ;;
  request_ (TransNoListen "tcp") ;;
  process_args (S argc) 1.
End options.

(** ** Starting the user's command *)

Inductive setting := NoStartup | Shell (command : string) | Direct (command : list string).

(** [ddxReady] after it has shown the cursor: [getenv] is the environment; the
    result is whether the thread is made, with [xstartup] as it leaves it. *)
Definition ddxReady (getenv : string → option string) (s : cmd) : bool * cmd :=
  if NoListenAll s then (false, s)
  else match xstartupArgv s with
  | Some _ => (true, s)
  | None =>
    match xstartup s with
    | Some c => if String.eqb c "" then (false, s) else (true, s)
    | None =>
      let c := getenv "TERMUX_X11_XSTARTUP" in
      let s := s <| xstartup := c |> in
      match c with
      | None => (false, s)
      | Some c => (negb (String.eqb c ""), s)
      end
    end
  end.

(** [sprintf] into [char DISPLAY[16]]. *)
Definition sprintf_DISPLAY (display : string) : option string :=
  let str := String.append ":" display in
  if (String.length str <? 16)%nat then Some str else None.

(** [INHERIT_VAR] on the environment of the child. *)
Definition INHERIT_VAR (v : string) (env : gmap string string) : gmap string string :=
  let x := String.append "XSTARTUP_" v in
  let env' := match env !! x with
              | Some s => if String.eqb s "" then env else <[v := s]> env
              | None => env
              end in
  delete x env'.

Inductive exec := Execvp (file : string) (args : list string).

(** The child: the programs it tries in turn, and their environment. *)
Definition startup_child (s : cmd) (env : gmap string string) : option (list exec * gmap string string) :=
  d ← sprintf_DISPLAY (display s);
  let env := <["DISPLAY" := d]> env in
  let env := INHERIT_VAR "LD_PRELOAD" (INHERIT_VAR "LD_LIBRARY_PATH" (INHERIT_VAR "CLASSPATH" env)) in
  match xstartupArgv s with
  | Some (p :: l) => Some ([Execvp p (p :: l)], env)
  | Some [] => None
  | None => c ← xstartup s; Some ([Execvp c [c]; Execvp "sh" ["sh"; "-c"; c]], env)
  end.

(** What [waitpid] answers the parent. *)
Inductive status := Exited (code : Z) | Signaled (sig : Z) | Stopped (sig : Z) | Continued.

(** The parent's loop on the answers, [None] for a failure.  [GiveUp] only asks the
    server to end; [st] is the variable [status], which starts without a value.
    The result is whether the loop is over and whether the server is to end. *)
Definition over (st : status) : bool :=
  match st with Exited _ | Signaled _ => true | Stopped _ | Continued => false end.

Fixpoint wait_child (ws : list (option status)) (st : option status) (gave_up : bool)
    : option (bool * bool) :=
  match ws with
  | [] => Some (false, gave_up)
  | w :: ws' =>
    let gave_up := match w with None => true | Some _ => gave_up end in
    let st := match w with None => st | Some _ => w end in
    v ← st;
    if over v then Some (true, true) else wait_child ws' st gave_up
  end.

(** What [ddxReadyThread] does in the parent and in the child. *)
Inductive thread := Nothing | Forks (child : option (list exec * gmap string string)).
Definition ddxReadyThread (generation : Z) (s : cmd) (env : gmap string string) : thread :=
  if (bool_decide (is_Some (xstartup s)) || bool_decide (is_Some (xstartupArgv s))) && (generation =? 1)
  then Forks (startup_child s env) else Nothing.

(** ** Every command line is dealt with *)

Section safe.
Context (e : cenv) (argv : list string).
Context (P : cmd → Prop).

(** From a state in [P] the code does not do anything undefined, and if it goes
    on then in [P] with a result in [Q]. *)
Definition runs {A} (m : C A) (Q : A → Prop) : Prop :=
  ∀ s, P s → ∃ o s', m s = Some (o, s') ∧ match o with Done a => P s' ∧ Q a | Halted _ => True end.

Lemma runs_ret {A} (a : A) (Q : A → Prop) : Q a → runs (mret a) Q.
Proof. intros H s Hs. exists (Done a), s. done. Qed.

Lemma runs_bind {A B} (m : C A) (f : A → C B) (R : A → Prop) Q :
  runs m R → (∀ a, R a → runs (f a) Q) → runs (m ≫= f) Q.
Proof.
  intros Hm Hf s Hs. destruct (Hm s Hs) as (o & s1 & E & H).
  unfold mbind, C_bind. rewrite E. destruct o as [a|h].
  - destruct H as [H1 H2]. by apply (Hf a).
  - eexists _, _. split; [done|]. done.
Qed.

Lemma runs_upd f (Q : () → Prop) : (∀ s, P s → P (f s)) → Q () → runs (upd f) Q.
Proof. intros Hf HQ s Hs. exists (Done ()), (f s). split; [done|]. split; [auto|done]. Qed.

Lemma runs_look {A} (f : cmd → A) (Q : A → Prop) : (∀ s, P s → Q (f s)) → runs (look f) Q.
Proof. intros Hf s Hs. exists (Done (f s)), s. split; [done|]. split; [done|auto]. Qed.

Lemma runs_fatal {A} why (Q : A → Prop) : runs (FatalError why) Q.
Proof. intros s Hs. by eexists _, _. Qed.

Lemma runs_exit {A} (Q : A → Prop) : runs exit_ Q.
Proof. intros s Hs. by eexists _, _. Qed.

Lemma runs_arg i (Q : string → Prop) :
  (i < argc argv)%nat → (∀ a, argv !! i = Some a → Q a) → runs (arg argv i) Q.
Proof.
  intros Hi HQ s Hs. unfold arg.
  destruct (lookup_lt_is_Some_2 argv i Hi) as [a E]. rewrite E.
  exists (Done a), s. split; [done|]. auto.
Qed.

Lemma runs_weaken {A} (m : C A) (Q R : A → Prop) : runs m R → (∀ a, R a → Q a) → runs m Q.
Proof.
  intros Hm HQ s Hs. destruct (Hm s Hs) as (o & s' & E & H). exists o, s'. split; [done|].
  destruct o; [|done]. destruct H. auto.
Qed.
End safe.

(** Settings that later code relies on. *)
Definition value_ok (g : string) (v : value) : bool :=
  if bool_decide (g = "LimitClients") then
    match v with VInt z => valid_maxclients z | VStr _ => false end
  else if bool_decide (g = "FakeScreenFps") then
    match v with VInt z => (1 <=? z) && (z <=? 600) | VStr _ => false end
  else if bool_decide (g = "terminateDelay") then
    match v with VInt z => 0 <=? z | VStr _ => false end
  else true.

Section invariant.
Context (e : cenv) (argv : list string).

(** What holds between two arguments. *)
Record cmd_ok (s : cmd) : Prop := mk_cmd_ok {
  ok_exclusive : xstartup s = None ∨ xstartupArgv s = None;
  ok_verbatim : ∀ l, xstartupArgv s = Some l → l ≠ [] ∧ ∃ k, argv = k ++ "--" :: l;
  ok_display : display s = "0" ∨ VerifyDisplayName e (display s) = true;
  ok_globals : map_Forall (λ g v, value_ok g v = true) (globals s)
}.

(** The products of [-ld] and [-ls] fit in an [int]. *)
Definition limits_ok : Prop := ∀ i o a,
  argv !! i = Some o → o = "-ld" ∨ o = "-ls" → argv !! S i = Some a → atoi e a * 1024 < 2 ^ 31.

Definition forward (i : nat) (v : verdict) : Prop :=
  match v with Go j => (i ≤ j)%nat | _ => True end.

Definition clause_ok (c : clause) : Prop :=
  ∀ i a, argv !! i = Some a → runs cmd_ok (c i a) (forward i).

Definition body_ok (body : nat → C nat) : Prop :=
  ∀ i, (i < argc argv)%nat → runs cmd_ok (body i) (λ j, i ≤ j)%nat.

Definition act_ok (act : C ()) : Prop := runs cmd_ok act (λ _, True).

Lemma cmd_ok_keep f :
  (∀ s, xstartup (f s) = xstartup s) → (∀ s, xstartupArgv (f s) = xstartupArgv s) →
  (∀ s, display (f s) = display s) → (∀ s, globals (f s) = globals s) →
  act_ok (upd f).
Proof.
  intros H1 H2 H3 H4. apply runs_upd; [|done]. intros s [].
  constructor; by rewrite ?H1, ?H2, ?H3, ?H4.
Qed.

Lemma set_global_ok g v : value_ok g v = true → act_ok (set_global g v).
Proof.
  intros Hv. apply runs_upd; [|done]. intros s []. constructor; [done..|].
  by apply map_Forall_insert_2.
Qed.

Lemma UseMsg_ok : act_ok UseMsg.
Proof. by apply cmd_ok_keep. Qed.
Lemma request_ok r : act_ok (request_ r).
Proof. by apply cmd_ok_keep. Qed.
Lemma skip_ok : act_ok (mret ()).
Proof. by apply runs_ret. Qed.

Lemma seq_ok {A} (m : C ()) (k : C A) Q : act_ok m → runs cmd_ok k Q → runs cmd_ok (m ;; k) Q.
Proof. intros Hm Hk. eapply runs_bind; [apply Hm|]. by intros. Qed.

Lemma on_ok name body : body_ok body → clause_ok (on name body).
Proof.
  intros Hb i a Ha. unfold on. destruct (String.eqb a name); [|by apply runs_ret].
  eapply runs_bind; [apply Hb; by eapply lookup_lt_Some|].
  intros j Hj. by apply runs_ret.
Qed.

Lemma flag_ok act : act_ok act → body_ok (flag act).
Proof. intros H i Hi. apply seq_ok; [done|]. by apply runs_ret. Qed.

Lemma with_arg_or_ok missing act :
  act_ok missing → (∀ a, act_ok (act a)) → body_ok (with_arg_or argv missing act).
Proof.
  intros Hm Ha i Hi. unfold with_arg_or. apply seq_ok; [|apply runs_ret; lia].
  destruct (Nat.ltb_spec (S i) (argc argv)); [|done].
  eapply runs_bind; [by apply (runs_arg _ _ _ (λ _, True))|]. intros a _. apply Ha.
Qed.

Lemma with_arg_ok act : (∀ a, act_ok (act a)) → body_ok (with_arg argv act).
Proof. apply with_arg_or_ok, UseMsg_ok. Qed.

Lemma int_arg_ok g : (∀ z, value_ok g (VInt z) = true) → body_ok (int_arg e argv g).
Proof. intros H. apply with_arg_ok. intros a. by apply set_global_ok. Qed.

Lemma minutes_arg_ok g : (∀ z, value_ok g (VInt z) = true) → body_ok (minutes_arg e argv g).
Proof. intros H. apply with_arg_ok. intros a. by apply set_global_ok. Qed.

(** [-ld] and [-ls] need the arguments to be in range. *)
Lemma limit_arg_ok name g :
  limits_ok → (name = "-ld" ∨ name = "-ls") → (∀ z, value_ok g (VInt z) = true) →
  clause_ok (on name (limit_arg e argv g)).
Proof.
  intros Hl Hn Hg i o Ho. unfold on. destruct (String.eqb_spec o name) as [->|]; [|by apply runs_ret].
  eapply (runs_bind _ _ _ (λ j, i ≤ j)%nat); [|intros j Hj; by apply runs_ret].
  unfold limit_arg, with_arg, with_arg_or. apply seq_ok; [|apply runs_ret; lia].
  destruct (Nat.ltb_spec (S i) (argc argv)); [|apply UseMsg_ok].
  eapply runs_bind; [by apply (runs_arg _ _ _ (λ a, argv !! S i = Some a))|]. intros a Ha.
  specialize (Hl _ _ _ Ho Hn Ha).
  eapply (runs_bind _ _ _ (λ _, True)); [|intros v _; by apply set_global_ok].
  destruct (Z.ltb_spec 0 (atoi e a)); [|by apply runs_ret].
  unfold mul_int. rewrite (proj2 (Z.leb_le _ _)) by lia. rewrite (proj2 (Z.ltb_lt _ _)) by lia.
  by apply runs_ret.
Qed.

Lemma find_extension_ok name x :
  List.find (λ x, String.eqb (tolower name) (tolower x.1)) staticExtensions = Some x →
  ∀ g, x.2 = Some g → ∀ z, value_ok g (VInt z) = true.
Proof.
  intros Hx g Hg z. apply List.find_some in Hx as [Hx _].
  repeat (destruct Hx as [<-|Hx]; [by simplify_eq/=|]). done.
Qed.

Lemma extension_ok b : body_ok (extension_arg argv b).
Proof.
  apply with_arg_ok. intros a. unfold EnableDisableExtension.
  eapply (runs_bind _ _ _ (λ _, True)); [|intros; apply skip_ok].
  destruct (List.find _ _) as [[n [g|]]|] eqn:E; [|by apply runs_ret..].
  apply seq_ok; [|by apply runs_ret]. apply set_global_ok. by eapply find_extension_ok.
Qed.

Lemma glyph_mode_ok a :
  act_ok (b ← xfont2_parse_glyph_caching_mode a; if b : bool then mret () else UseMsg).
Proof.
  eapply (runs_bind _ _ _ (λ _, True)); [|intros []; intros; [apply skip_ok|apply UseMsg_ok]].
  unfold xfont2_parse_glyph_caching_mode.
  repeat case_goal; try by apply runs_ret.
  all: apply seq_ok; [by apply set_global_ok|by apply runs_ret].
Qed.

Lemma runs_arg_any i : (i < argc argv)%nat → runs cmd_ok (arg argv i) (λ _, True).
Proof. intros. by apply runs_arg. Qed.

Lemma required_ok i n :
  runs cmd_ok (CHECK_FOR_REQUIRED_ARGUMENTS argv i n) (λ _, i + n < argc argv)%nat.
Proof.
  unfold CHECK_FOR_REQUIRED_ARGUMENTS. destruct (Nat.leb_spec (argc argv) (i + n)).
  - apply seq_ok; [apply UseMsg_ok|apply runs_fatal].
  - eapply runs_bind; [by apply runs_arg_any|]. intros _ _. by apply runs_ret.
Qed.

(** [--] keeps what follows it, and is the only one to set the list. *)
Lemma verbatim_ok i s :
  argv !! i = Some "--" → (i + 1 < argc argv)%nat → cmd_ok s → xstartup s = None →
  cmd_ok (s <| xstartupArgv := Some (take (argc argv - i - 1) (drop (i + 1) argv)) |>).
Proof.
  intros Hi Hlt [H1 H2 H3 H4] Hx. constructor; simpl; [by left| |done..].
  intros l [= <-]. unfold argc in *.
  rewrite take_ge by (rewrite length_drop; lia). split.
  - intros E. apply (f_equal length) in E. rewrite length_drop in E. simpl in E. lia.
  - exists (take i argv). replace (i + 1)%nat with (S i) by lia. by rewrite take_drop_middle.
Qed.

Lemma ddx_argument_ok i a :
  argv !! i = Some a → runs cmd_ok (ddxProcessArgument argv i) (λ _, True).
Proof.
  intros Ha. pose proof (lookup_lt_Some _ _ _ Ha) as Hlt. unfold ddxProcessArgument.
  eapply (runs_bind _ _ _ (λ b, b = a)); [apply runs_arg; [done|naive_solver]|]. intros ? ->.
  destruct (String.eqb_spec a "-xstartup").
  { eapply runs_bind; [apply required_ok|]. intros [] Hi s Hs.
    unfold look, mbind at 1, C_bind at 1. destruct (xstartupArgv s) eqn:E.
    - by eexists _, _.
    - destruct (runs_arg_any (i + 1) Hi s Hs) as ([c|h] & s1 & E1 & H1).
      + unfold mbind, C_bind. rewrite E1. eexists _, _. split; [done|]. split; [|done].
        unfold arg in E1. destruct (argv !! (i + 1)%nat); [|done]. injection E1 as ? ->. subst.
        destruct H1 as [[] _]. constructor; simpl; [by right|done..].
      + unfold mbind, C_bind. rewrite E1. by eexists _, _. }
  destruct (String.eqb_spec a "--") as [->|].
  { eapply runs_bind; [apply required_ok|]. intros [] Hi s Hs.
    unfold look, mbind at 1, C_bind at 1. destruct (xstartup s) eqn:E.
    - by eexists _, _.
    - eexists _, _. split; [done|]. split; [by apply verbatim_ok|done]. }
  repeat (case_goal; [first [by apply runs_ret | apply seq_ok; [by apply cmd_ok_keep|by apply runs_ret]]|]).
  by apply runs_ret.
Qed.

Lemma here_ok i : runs cmd_ok (mret (Go i)) (forward i).
Proof. apply runs_ret. simpl. lia. Qed.

Lemma ddx_clause_ok : clause_ok (ddx_clause argv).
Proof.
  intros i a Ha. eapply runs_bind; [by eapply ddx_argument_ok|]. intros n _. apply runs_ret.
  destruct (n =? 0)%nat; simpl; [done|lia].
Qed.

Lemma display_clause_ok : clause_ok (display_clause e).
Proof.
  intros i a Ha. unfold display_clause. destruct a as [|c d]; [by apply runs_ret|].
  destruct (Ascii.eqb c ":"); [|by apply runs_ret].
  destruct (VerifyDisplayName e d) eqn:E.
  - apply seq_ok; [|apply seq_ok; [by apply set_global_ok|apply here_ok]].
    apply runs_upd; [|done]. intros s []. constructor; simpl; [done..|by right|done].
  - intros s Hs. by eexists _, _.
Qed.

Lemma next_is_digit_ok i :
  runs cmd_ok (next_is_digit argv i) (λ b, b = true → (S i < argc argv)%nat).
Proof.
  unfold next_is_digit. destruct (Nat.ltb_spec (i + 1) (argc argv)); [|by apply runs_ret].
  eapply runs_bind; [by apply runs_arg_any|]. intros b _. apply runs_ret. lia.
Qed.

Lemma accessx_number_ok act ij :
  (∀ a, act_ok (act a)) →
  runs cmd_ok (accessx_number argv act ij) (λ ij', 0 < ij.2 → 0 < ij'.2)%nat.
Proof.
  intros Ha. eapply runs_bind; [apply next_is_digit_ok|]. intros [] H; [|by apply runs_ret].
  eapply runs_bind; [apply runs_arg_any; auto|]. intros b _.
  apply seq_ok; [apply Ha|]. apply runs_ret. simpl. lia.
Qed.

Lemma repeat_arg_ok i g :
  (∀ z, value_ok g (VInt z) = true) →
  runs cmd_ok ((if (argc argv <=? S i)%nat then UseMsg
                else n ← arg argv (S i); set_int g (atoi e n)) ;; mret 2) (λ _, True).
Proof.
  intros Hg. apply seq_ok; [|by apply runs_ret].
  destruct (Nat.leb_spec (argc argv) (S i)); [apply UseMsg_ok|].
  eapply runs_bind; [by apply runs_arg_any|]. intros n _. by apply set_global_ok.
Qed.

Lemma xkb_arguments_ok i a :
  argv !! i = Some a → runs cmd_ok (XkbProcessArguments e argv i) (λ _, True).
Proof.
  intros Ha. pose proof (lookup_lt_Some _ _ _ Ha) as Hlt. unfold XkbProcessArguments.
  eapply runs_bind; [by apply runs_arg_any|]. intros b _.
  case_goal.
  { destruct (Nat.ltb_spec (S i) (argc argv)); [|by apply runs_ret].
    case_goal; [by apply runs_ret|]. eapply runs_bind; [by apply runs_arg_any|]. intros d _.
    case_goal; [|by apply runs_ret]. apply seq_ok; [by apply set_global_ok|by apply runs_ret]. }
  case_goal.
  { case_goal; (apply seq_ok; [by apply set_global_ok|]); [by apply runs_ret|].
    eapply runs_bind; [apply next_is_digit_ok|]. intros [] _; [|by apply runs_ret].
    do 4 (eapply runs_bind; [apply accessx_number_ok; intros; by apply set_global_ok|]; intros ? _).
    by apply runs_ret. }
  case_goal; [by apply repeat_arg_ok|]. case_goal; [by apply repeat_arg_ok|]. by apply runs_ret.
Qed.

Lemma xkb_clause_ok : clause_ok (xkb_clause e argv).
Proof.
  intros i a Ha. eapply runs_bind; [by eapply xkb_arguments_ok|]. intros n _.
  case_goal; [by apply runs_ret|]. case_goal; [apply runs_ret; simpl; lia|].
  apply seq_ok; [apply UseMsg_ok|apply here_ok].
Qed.

Lemma get_addr_ok h p : act_ok (get_addr_by_name e h p).
Proof. unfold get_addr_by_name. repeat case_goal; first [apply skip_ok|apply runs_fatal]. Qed.

Lemma get_manager_ok i : (i < argc argv)%nat → act_ok (get_manager_by_name e argv i).
Proof.
  intros Hi. unfold get_manager_by_name. destruct (Nat.eqb_spec (i + 1) (argc argv)); [apply runs_fatal|].
  eapply runs_bind; [apply runs_arg_any; lia|]. intros h _.
  eapply runs_bind; [by apply (runs_look _ _ (λ _, True))|]. intros p _.
  apply seq_ok; [apply get_addr_ok|by apply set_global_ok].
Qed.

Lemma get_from_ok i : (i < argc argv)%nat → act_ok (get_fromaddr_by_name e argv (S i)).
Proof.
  intros Hi. unfold get_fromaddr_by_name. destruct (Nat.eqb_spec (S i) (argc argv)); [apply runs_fatal|].
  eapply runs_bind; [apply runs_arg_any; lia|]. intros h _.
  apply seq_ok; [apply get_addr_ok|by apply set_global_ok].
Qed.

Lemma not_option_ok i : runs cmd_ok (not_option argv i) (λ b, b = true → (i < argc argv)%nat).
Proof.
  unfold not_option. destruct (Nat.ltb_spec i (argc argv)); [|by apply runs_ret].
  eapply runs_bind; [by apply runs_arg_any|]. intros b _. by apply runs_ret.
Qed.

Lemma get_mcast_ok i : runs cmd_ok (get_mcast_options e argv i) (λ j, i ≤ j)%nat.
Proof.
  eapply runs_bind; [apply not_option_ok|]. intros b Hb.
  eapply (runs_bind _ _ _ (λ ahi, i ≤ ahi.2)%nat).
  { destruct b; [|by apply runs_ret]. eapply runs_bind; [apply runs_arg_any; auto|]. intros a _.
    eapply runs_bind; [apply not_option_ok|]. intros b Hb'.
    destruct b; [|apply runs_ret; simpl; lia].
    eapply runs_bind; [apply runs_arg_any; auto|]. intros n _. cbv zeta.
    case_goal; [apply runs_fatal|apply runs_ret; simpl; lia]. }
  intros ahi Hi. eapply runs_bind; [by apply (runs_look _ _ (λ _, True))|]. intros p _.
  repeat case_goal; try apply runs_fatal.
  apply seq_ok; [by apply cmd_ok_keep|by apply runs_ret].
Qed.

Lemma xdm_init_ok st : act_ok (xdm_init st).
Proof. repeat (apply seq_ok; [by apply set_global_ok|]). apply request_ok. Qed.

Lemma xdm_arg_ok i act :
  (i < argc argv)%nat → (∀ a, act_ok (act a)) → runs cmd_ok (xdm_arg argv i act) (λ j, i ≤ j)%nat.
Proof.
  intros Hi Ha. unfold xdm_arg. destruct (Nat.eqb_spec (S i) (argc argv)); [apply runs_fatal|].
  eapply runs_bind; [apply runs_arg_any; lia|]. intros a _.
  apply seq_ok; [apply Ha|apply runs_ret; lia].
Qed.

Lemma xdmcp_options_ok i a :
  argv !! i = Some a → runs cmd_ok (XdmcpOptions e argv i) (λ j, i ≤ j)%nat.
Proof.
  intros Ha. pose proof (lookup_lt_Some _ _ _ Ha) as Hlt. unfold XdmcpOptions.
  eapply runs_bind; [by apply runs_arg_any|]. intros b _.
  repeat case_goal; try (apply xdm_arg_ok; [done|]; intros; first [by apply cmd_ok_keep|by apply set_global_ok|apply request_ok]).
  1,4: (apply seq_ok; [by apply get_manager_ok|]; apply seq_ok; [apply xdm_init_ok|apply runs_ret; lia]).
  - apply seq_ok; [apply xdm_init_ok|apply runs_ret; lia].
  - eapply runs_bind; [apply get_mcast_ok|]. intros j Hj. simpl in Hj.
    apply seq_ok; [apply xdm_init_ok|apply runs_ret; lia].
  - apply seq_ok; [by apply get_from_ok|apply runs_ret; lia].
  - apply seq_ok; [by apply set_global_ok|apply runs_ret; lia].
  - by apply runs_ret.
Qed.

Lemma xdmcp_clause_ok : clause_ok (xdmcp_clause e argv).
Proof.
  intros i a Ha. eapply runs_bind; [by eapply xdmcp_options_ok|]. intros j Hj. apply runs_ret.
  destruct (Nat.eqb_spec j i); simpl in *; [done|lia].
Qed.

Lemma terminate_ok : body_ok (terminate_body e argv).
Proof.
  intros i Hi. apply seq_ok; [by apply set_global_ok|].
  eapply runs_bind; [apply next_is_digit_ok|]. intros [] Hd.
  - eapply runs_bind; [apply runs_arg_any; auto|]. intros a _.
    apply seq_ok; [apply set_global_ok, Z.leb_le; lia|apply runs_ret; lia].
  - apply seq_ok; [by apply set_global_ok|by apply runs_ret].
Qed.

(** A setting that is refused after it was stored stops the server. *)
Lemma checked_ok g v why (good : bool) :
  value_ok g v = good →
  act_ok (set_global g v ;; if good then mret () else FatalError why).
Proof.
  intros Hv. destruct good.
  - apply seq_ok; [by apply set_global_ok|apply skip_ok].
  - intros s Hs. by eexists _, _.
Qed.

Lemma fps_ok z why :
  act_ok (set_int "FakeScreenFps" z ;; if (z <? 1) || (600 <? z) then FatalError why else mret ()).
Proof.
  rewrite <-(negb_involutive (_ || _)), negb_orb, <-!Z.leb_antisym.
  assert (∀ (b : bool) (x y : C ()), (if negb b then x else y) = (if b then y else x)) as -> by by intros [].
  by apply checked_ok.
Qed.

Lemma clauses_ok : limits_ok → Forall clause_ok (clauses_1 e argv ++ clauses_2 e argv).
Proof.
  intros Hl. unfold clauses_1, clauses_2.
  repeat (apply Forall_cons; split); [..|by apply Forall_nil].
  all: first
    [ apply ddx_clause_ok | apply display_clause_ok | apply xkb_clause_ok | apply xdmcp_clause_ok
    | by apply limit_arg_ok; auto
    | apply on_ok; first
      [ by apply int_arg_ok | by apply minutes_arg_ok | apply extension_ok | apply terminate_ok
      | apply flag_ok; first [apply skip_ok | by apply set_global_ok
          | apply seq_ok; first [by apply set_global_ok|apply request_ok]
          | case_goal; first [apply skip_ok | by apply set_global_ok]]
      | apply with_arg_ok; intros a; cbv zeta; first [apply glyph_mode_ok | apply request_ok | by apply set_global_ok
          | case_goal; first [apply UseMsg_ok | by apply set_global_ok]
          | apply seq_ok; by apply set_global_ok | apply fps_ok | by apply checked_ok]
      | apply with_arg_or_ok; [apply skip_ok|]; intros a;
        case_goal; first [apply UseMsg_ok | by apply set_global_ok]
      | intros i Hi; apply seq_ok; [apply UseMsg_ok|apply runs_exit]]
    | intros i a Ha; apply runs_ret; case_goal; simpl; lia ].
Qed.

Lemma cascade_ok cs i a :
  Forall clause_ok cs → argv !! i = Some a → runs cmd_ok (cascade cs i a) (forward i).
Proof.
  intros Hcs Ha. induction Hcs as [|c cs Hc _ IH]; simpl.
  - apply seq_ok; [apply UseMsg_ok|apply runs_fatal].
  - eapply runs_bind; [by apply Hc|]. intros [|j|] Hv; [done|by apply runs_ret..].
Qed.

Lemma process_args_ok fuel i :
  limits_ok → (argc argv - i < fuel)%nat → act_ok (process_args e argv fuel i).
Proof.
  intros Hl. revert i. induction fuel as [|fuel IH]; intros i Hf; [lia|].
  cbn [process_args].
  destruct (Nat.ltb_spec i (argc argv)) as [Hi|]; [|apply skip_ok].
  eapply runs_bind; [by apply (runs_arg _ _ _ (λ a, argv !! i = Some a))|]. intros a Ha.
  eapply runs_bind; [apply cascade_ok; [by apply clauses_ok|exact Ha]|].
  intros [|j|] Hj; [apply skip_ok| |apply skip_ok]. apply IH. unfold forward in Hj. lia.
Qed.
End invariant.

(** C15: A command line in which every number behind [-ld] and [-ls] is below 2097152
    (from there on the product with 1024 overflows an [int]) either stops the server
    with a message or is accepted, whatever else it holds; nothing outside [argv] is
    read; and what is accepted is consistent: at most one kind of command, the list of
    [--] exactly the arguments after it, a display name that is the default or was
    verified, the number of clients, the frame rate of the fake screen and the delay
    of termination in their ranges. *)
Theorem command_line_safe e argv :
  limits_ok e argv →
  ∃ o s, ProcessCommandLine e argv initial_cmd = Some (o, s) ∧
    match o with Done _ => cmd_ok e argv s | Halted _ => True end.
Proof.
  intros Hl. assert (act_ok e argv (ProcessCommandLine e argv)) as H.
  { repeat (apply seq_ok; [first [by apply set_global_ok|apply request_ok]|]).
    apply process_args_ok; [done|lia]. }
  destruct (H initial_cmd) as (o & s & E & Ho).
  { constructor; simpl; [by left|done|by left|]. apply map_Forall_empty. }
  exists o, s. split; [done|]. destruct o; [by destruct Ho|done].
Qed.

(** ** The meaning of the driver's options *)

Inductive lorie_option :=
  | LegacyDrawing | ForceBgra | DisableDri3 | ForceSysvshm | CheckDrawing | DisableGpuPresent
  | XStartup (command : string)
  | Display (name : string).

Definition print_option (o : lorie_option) : list string :=
  match o with
  | LegacyDrawing => ["-legacy-drawing"]
  | ForceBgra => ["-force-bgra"]
  | DisableDri3 => ["-disable-dri3"]
  | ForceSysvshm => ["-force-sysvshm"]
  | CheckDrawing => ["-check-drawing"]
  | DisableGpuPresent => ["-disable-gpu-present"]
  | XStartup c => ["-xstartup"; c]
  | Display d => [String ":" d]
  end.

Definition apply_option (s : cmd) (o : lorie_option) : cmd :=
  match o with
  | LegacyDrawing => s <| legacyDrawing := true |>
  | ForceBgra => s
  | DisableDri3 => s <| dri3 := false |>
  | ForceSysvshm => s <| sysv_shm_forced := true |>
  | CheckDrawing => s <| NoListenAll := true |> <| squares_queued ::= S |>
  | DisableGpuPresent => s <| gpuPresentDisabled := true |>
  | XStartup c => s <| xstartup := Some c |>
  | Display d => s <| display := d |> <| globals ::= <["explicit_display" := VInt TRUE_]> |>
  end.

Definition option_valid (e : cenv) (o : lorie_option) : Prop :=
  match o with Display d => VerifyDisplayName e d = true | _ => True end.

Definition is_xstartup (o : lorie_option) : bool := match o with XStartup _ => true | _ => false end.

(** A command after [--], if there is one. *)
Definition print_rest (rest : list string) : list string :=
  match rest with [] => [] | _ => "--" :: rest end.
Definition apply_rest (s : cmd) (rest : list string) : cmd :=
  match rest with [] => s | _ => s <| xstartupArgv := Some rest |> end.

Definition command_line (opts : list lorie_option) (rest : list string) : list string :=
  "Xlorie" :: concat (print_option <$> opts) ++ print_rest rest.

(** The state before the first argument. *)
Definition before_args : cmd := initial_cmd
  <| globals := <["PartialNetwork" := VInt TRUE_]> (<["defaultKeyboardControl.autoRepeat" := VInt TRUE_]> ∅) |>
  <| requests := [TransNoListen "tcp"] |>.

Section meaning.
Context (e : cenv) (argv : list string).

Lemma cascade_go c cs i a s j s' :
  c i a s = Some (Done (Go j), s') → cascade (c :: cs) i a s = Some (Done (Go j), s').
Proof. intros E. cbn [cascade]. unfold mbind, C_bind. by rewrite E. Qed.

Lemma cascade_other c cs i a s s' :
  c i a s = Some (Done Other, s') → cascade (c :: cs) i a s = cascade cs i a s'.
Proof. intros E. cbn [cascade]. unfold mbind, C_bind. by rewrite E. Qed.

Lemma process_go fuel i a j s s' :
  argv !! i = Some a →
  cascade (clauses_1 e argv ++ clauses_2 e argv) i a s = Some (Done (Go j), s') →
  process_args e argv (S fuel) i s = process_args e argv fuel (S j) s'.
Proof.
  intros Ha Hc. cbn [process_args]. pose proof (lookup_lt_Some _ _ _ Ha).
  rewrite (proj2 (Nat.ltb_lt _ _)) by done.
  unfold mbind at 1, C_bind at 1, arg. rewrite Ha. cbn beta iota delta [mret C_ret].
  unfold mbind, C_bind. by rewrite Hc.
Qed.

Lemma process_end fuel s : process_args e argv (S fuel) (argc argv) s = Some (Done (), s).
Proof. cbn [process_args]. by rewrite Nat.ltb_irrefl. Qed.

#[local] Arguments process_args : simpl never.

(** An option of the driver is found by the first clause. *)
Lemma process_ddx fuel i a n s s' :
  argv !! i = Some a → ddxProcessArgument argv i s = Some (Done (S n), s') →
  process_args e argv (S fuel) i s = process_args e argv fuel (S (i + n)) s'.
Proof.
  intros Ha Hd. eapply process_go; [done|]. unfold clauses_1. cbn [app]. apply cascade_go.
  unfold ddx_clause, mbind, C_bind. rewrite Hd. cbn -[Nat.sub]. by rewrite Nat.sub_succ, Nat.sub_0_r.
Qed.

Lemma bind_done {A B} (m : C A) (k : A → C B) s x s' :
  m s = Some (Done x, s') → (m ≫= k) s = k x s'.
Proof. intros E. unfold mbind, C_bind. by rewrite E. Qed.

Lemma arg_run i a s : argv !! i = Some a → arg argv i s = Some (Done a, s).
Proof. intros E. unfold arg. by rewrite E. Qed.

Lemma required_run i b s :
  argv !! (i + 1)%nat = Some b → CHECK_FOR_REQUIRED_ARGUMENTS argv i 1 s = Some (Done (), s).
Proof.
  intros Hb. unfold CHECK_FOR_REQUIRED_ARGUMENTS, argc.
  rewrite (proj2 (Nat.leb_gt _ _)) by by eapply lookup_lt_Some.
  by rewrite (bind_done _ _ _ _ _ (arg_run _ _ _ Hb)).
Qed.

Lemma xstartup_run i c s :
  argv !! i = Some "-xstartup" → argv !! (i + 1)%nat = Some c → xstartupArgv s = None →
  ddxProcessArgument argv i s = Some (Done 2%nat, s <| xstartup := Some c |>).
Proof.
  intros Ha Hc Hs. unfold ddxProcessArgument.
  rewrite (bind_done _ _ _ _ _ (arg_run _ _ _ Ha)). cbn [String.eqb Ascii.eqb Bool.eqb].
  rewrite (bind_done _ _ _ _ _ (required_run _ _ _ Hc)), (bind_done _ _ _ (xstartupArgv s) s) by done.
  rewrite Hs. by rewrite (bind_done _ _ _ _ _ (arg_run _ _ _ Hc)).
Qed.

Lemma dashes_run i pre c l s :
  argv = pre ++ "--" :: c :: l → i = length pre → xstartup s = None →
  ddxProcessArgument argv i s =
    Some (Done (S (S (length l))), s <| xstartupArgv := Some (c :: l) |>).
Proof.
  intros Hargv -> Hs.
  assert (argv !! length pre = Some "--") as Ha by (rewrite Hargv; by apply list_lookup_middle).
  assert (argv !! (length pre + 1)%nat = Some c) as Hc by (by rewrite Hargv, lookup_app_plus).
  unfold ddxProcessArgument.
  rewrite (bind_done _ _ _ _ _ (arg_run _ _ _ Ha)). cbn [String.eqb Ascii.eqb Bool.eqb].
  rewrite (bind_done _ _ _ _ _ (required_run _ _ _ Hc)), (bind_done _ _ _ (xstartup s) s) by done.
  rewrite Hs. unfold argc. rewrite Hargv, length_app.
  replace (drop (length pre + 1) (pre ++ "--" :: c :: l)) with (c :: l)
    by (by rewrite Nat.add_comm, <-skipn_skipn, drop_app_length).
  rewrite take_ge by (simpl; lia).
  unfold mbind, C_bind, upd, mret, C_ret. do 3 f_equal. simpl. lia.
Qed.

Lemma display_run i d s :
  argv !! i = Some (String ":" d) → VerifyDisplayName e d = true →
  cascade (clauses_1 e argv ++ clauses_2 e argv) i (String ":" d) s =
    Some (Done (Go i), apply_option s (Display d)).
Proof.
  intros Ha Hv. unfold clauses_1. cbn [app].
  rewrite (cascade_other _ _ _ _ _ s).
  - apply cascade_go. unfold display_clause. cbn [Ascii.eqb Bool.eqb].
    rewrite Hv. reflexivity.
  - unfold ddx_clause, ddxProcessArgument.
    rewrite (bind_done _ _ _ 0%nat s); [done|].
    by rewrite (bind_done _ _ _ _ _ (arg_run _ _ _ Ha)).
Qed.

(** One option, wherever it stands. *)
Lemma process_option fuel pre o rest s :
  argv = pre ++ print_option o ++ rest → option_valid e o →
  (is_xstartup o = true → xstartupArgv s = None) →
  process_args e argv (S fuel) (length pre) s =
    process_args e argv fuel (length pre + length (print_option o)) (apply_option s o).
Proof.
  intros Hargv Hv Hx.
  assert (∃ a l, print_option o = a :: l ∧ argv !! length pre = Some a) as (a & l & El & Ha).
  { destruct (print_option o) as [|a l] eqn:E; [by destruct o|]. exists a, l. split; [done|].
    rewrite Hargv. by apply list_lookup_middle. }
  destruct o as [ | | | | | |c|d]; simpl in El; injection El as <- <-.
  1-6: (match goal with |- _ = process_args _ _ _ _ ?s' => rewrite (process_ddx _ _ _ 0 _ s' Ha) end;
    [simpl; f_equal; lia
    |unfold ddxProcessArgument; by rewrite (bind_done _ _ _ _ _ (arg_run _ _ _ Ha))]).
  - rewrite (process_ddx _ _ _ 1 _ (apply_option s (XStartup c)) Ha); [simpl; f_equal; lia|].
    apply xstartup_run; [done| |by apply Hx]. by rewrite Hargv, lookup_app_plus.
  - rewrite (process_go _ _ _ _ _ _ Ha (display_run _ _ _ Ha Hv)). simpl length. f_equal. lia.
Qed.

Lemma apply_option_argv s o : xstartupArgv (apply_option s o) = xstartupArgv s.
Proof. by destruct o. Qed.
Lemma apply_option_xstartup s o : is_xstartup o = false → xstartup (apply_option s o) = xstartup s.
Proof. by destruct o. Qed.

(** All options in their order, then the rest. *)
Lemma process_options opts : ∀ fuel pre rest s,
  argv = pre ++ concat (print_option <$> opts) ++ print_rest rest →
  Forall (option_valid e) opts →
  (rest ≠ [] → Forall (λ o, is_xstartup o = false) opts ∧ xstartup s = None) →
  xstartupArgv s = None → (length opts + 1 < fuel)%nat →
  process_args e argv fuel (length pre) s =
    Some (Done (), apply_rest (foldl apply_option s opts) rest).
Proof.
  induction opts as [|o opts IH]; intros fuel pre rest s Hargv Hv Hr Hs Hf; simpl in Hf.
  - destruct fuel as [|[|fuel]]; [lia..|]. simpl in Hargv. destruct rest as [|c l]; simpl in *.
    + rewrite app_nil_r in Hargv.
      replace (length pre) with (argc argv) by (unfold argc; by rewrite Hargv). apply process_end.
    + assert (argv !! length pre = Some "--") as Ha by (rewrite Hargv; by apply list_lookup_middle).
      rewrite (process_ddx _ _ _ _ _ _ Ha (dashes_run _ pre c l s Hargv eq_refl (proj2 (Hr ltac:(done))))).
      replace (S (length pre + _)) with (argc argv); [apply process_end|].
      unfold argc. rewrite Hargv, length_app. simpl. lia.
  - destruct fuel as [|fuel]; [lia|]. apply Forall_cons in Hv as [Ho Hv].
    simpl in Hargv. rewrite <-app_assoc in Hargv.
    rewrite (process_option _ _ _ _ _ Hargv Ho) by done.
    rewrite <-length_app. apply IH; [by rewrite <-app_assoc|done| |by rewrite apply_option_argv|lia].
    intros Hne. destruct (Hr Hne) as [Hf' Hx]. apply Forall_cons in Hf' as [Hof Hf'].
    split; [done|]. by rewrite apply_option_xstartup.
Qed.
End meaning.

Lemma print_option_length o : (1 ≤ length (print_option o))%nat.
Proof. destruct o; simpl; lia. Qed.

Lemma options_length opts : (length opts ≤ length (concat (print_option <$> opts)))%nat.
Proof.
  induction opts as [|o opts IH]; [simpl; lia|].
  rewrite fmap_cons. cbn [concat length]. rewrite length_app.
  pose proof (print_option_length o). lia.
Qed.

Lemma command_line_run e opts rest :
  Forall (option_valid e) opts →
  (rest ≠ [] → Forall (λ o, is_xstartup o = false) opts) →
  ProcessCommandLine e (command_line opts rest) initial_cmd =
    Some (Done (), apply_rest (foldl apply_option before_args opts) rest).
Proof.
  intros Hv Hr. unfold ProcessCommandLine.
  do 3 (rewrite (bind_done _ _ _ () _ eq_refl)).
  apply (process_options _ _ _ _ ["Xlorie"]); [done..| |done|].
  - intros Hne. split; [auto|done].
  - pose proof (options_length opts). unfold argc, command_line. cbn [length]. rewrite length_app. lia.
Qed.

(** C16: Options of the driver and displays with a valid name, in any order and number,
    followed by nothing or, unless [-xstartup] is among them, by [--] and a command, are
    accepted and mean what they say; the arguments of [-xstartup] and of [--] are taken
    as they are, whatever they look like. *)
Theorem command_line_means_options e opts rest :
  Forall (option_valid e) opts →
  (rest ≠ [] → Forall (λ o, is_xstartup o = false) opts) →
  ProcessCommandLine e (command_line opts rest) initial_cmd =
    Some (Done (), apply_rest (foldl apply_option before_args opts) rest).
Proof. apply command_line_run. Qed.

(** ** Display names and the buffer of the child *)

Lemma digit_value_digit c : isdigit c = true → digit_value c = code c - 48 ∧ 0 ≤ digit_value c < 10.
Proof. intros H. unfold digit_value. rewrite H. unfold isdigit in H. bool_to_prop. lia. Qed.

(** At most two digits after the period. *)
Lemma after_period_bound d : ∀ k p a,
  k ≤ 2 → display_chars true k d = Some (p, a) → k + Z.of_nat (String.length d) ≤ 2.
Proof.
  induction d as [|c d IH]; intros k p a Hk H; cbn [display_chars String.length] in *; [lia|].
  destruct (isdigit c); cbn [negb] in H; [|by rewrite orb_true_r in H].
  destruct (Z.ltb_spec 2 (k + 1)); [done|]. apply IH in H; lia.
Qed.

(** The number before the period grows with its digits. *)
Lemma display_value d : ∀ acc p a,
  0 ≤ acc → display_chars false 0 d = Some (p, a) →
  ∃ n : nat, (String.length d ≤ n + 3)%nat ∧ acc * 10 ^ Z.of_nat n ≤ digits 10 acc d.
Proof.
  induction d as [|c d IH]; intros acc p a Hacc H; cbn [display_chars String.length digits] in *.
  - exists 0%nat. split; [lia|]. simpl. lia.
  - destruct (isdigit c) eqn:Hc; cbn [negb] in H.
    + apply digit_value_digit in Hc as [_ Hc]. simpl in H.
      destruct (IH (acc * 10 + digit_value c) p a ltac:(lia) H) as (n & Hn & Hle).
      exists (S n). split; [lia|]. rewrite (proj2 (Z.ltb_lt _ _)) by lia.
      etrans; [|done]. rewrite Nat2Z.inj_succ, Z.pow_succ_r by lia.
      pose proof (Z.pow_nonneg 10 (Z.of_nat n)). nia.
    + destruct (Ascii.eqb_spec c ".") as [->|]; [|done]. simpl in H.
      apply after_period_bound in H; [|lia]. exists 0%nat. simpl. split; lia.
Qed.

Lemma first_digit c d p a :
  display_chars false 0 (String c d) = Some (p, a) → Ascii.eqb c "." = false →
  isdigit c = true ∧ display_chars false 0 d = Some (p, a).
Proof.
  intros H Hc. cbn [display_chars] in H. destruct (isdigit c); [done|]. by rewrite Hc in H.
Qed.

Lemma strtol_digit bits c d :
  isdigit c = true → strtol bits 10 (String c d) = saturate bits (digits 10 (digit_value c) d).
Proof.
  intros Hc. pose proof (digit_value_digit _ Hc) as [Hv Hr]. unfold strtol. cbn [skip_spaces].
  assert (isspace c = false) as ->.
  { unfold isspace, isdigit in *. bool_to_prop. apply orb_false_iff.
    split; [apply Z.eqb_neq; lia|]. apply andb_false_iff. right. apply Z.leb_gt. lia. }
  unfold isdigit in Hc. bool_to_prop.
  rewrite !(proj2 (Z.eqb_neq _ _)) by lia.
  assert (strip_0x 10 (String c d) = String c d) as -> by by destruct d as [|? []].
  cbn [digits]. by rewrite (proj2 (Z.ltb_lt _ _)) by lia.
Qed.

(** A verified name without leading zeros fits into the buffer of the child. *)
Theorem display_fits e d :
  32 < long_bits e → VerifyDisplayName e d = true → first_char d ≠ "0"%char →
  sprintf_DISPLAY d = Some (String.append ":" d).
Proof.
  intros Hb Hv H0. unfold sprintf_DISPLAY. cbn [String.append String.length].
  rewrite (proj2 (Nat.ltb_lt _ _)); [done|].
  destruct d as [|c d]; [done|]. cbn [first_char VerifyDisplayName] in *.
  destruct (Ascii.eqb c "-"); [done|]. destruct (Ascii.eqb c ".") eqn:Hc; [done|].
  destruct (has_char _ _); [done|]. destruct (display_chars _ _ _) as [[p a]|] eqn:E; [|done].
  apply first_digit in E as [Hd E]; [|done].
  destruct (p && _); [done|]. rewrite strtol_digit in Hv by done. bool_to_prop.
  pose proof (digit_value_digit _ Hd) as [Hval Hr].
  assert (1 ≤ digit_value c) as Hpos.
  { assert (digit_value c ≠ 0); [|lia]. rewrite Hval. intros Hz. apply H0.
    rewrite <-(ascii_N_embedding c). change "0"%char with (ascii_of_N 48). f_equal. unfold code in Hz. lia. }
  destruct (display_value d (digit_value c) p a ltac:(lia) E) as (n & Hn & Hle).
  assert (2 ^ 31 ≤ 2 ^ (long_bits e - 1) - 1) as Hl.
  { assert (2 ^ 32 ≤ 2 ^ (long_bits e - 1)) by (apply Z.pow_le_mono_r; lia). lia. }
  assert (digits 10 (digit_value c) d < 2 ^ 31) by (unfold saturate in Hv; lia).
  assert (Z.of_nat n < 10); [|simpl; lia].
  apply Z.nle_gt. intros Hge.
  assert (10 ^ 10 ≤ 10 ^ Z.of_nat n) by (apply Z.pow_le_mono_r; lia). nia.
Qed.

Fixpoint zeros (n : nat) : string := match n with O => "" | S n' => String "0" (zeros n') end.

Lemma zeros_chars n : display_chars false 0 (zeros n) = Some (false, 0).
Proof. induction n as [|n IH]; [done|]. by simpl. Qed.
Lemma zeros_digits n : digits 10 0 (zeros n) = 0.
Proof. induction n as [|n IH]; [done|]. by simpl. Qed.
Lemma zeros_slash n : has_char "/" (zeros n) = false.
Proof. induction n as [|n IH]; [done|]. by simpl. Qed.
Lemma zeros_length n : String.length (zeros n) = n.
Proof. induction n as [|n IH]; simpl; [done|]. by rewrite IH. Qed.

Lemma zeros_verified e n : 32 ≤ long_bits e → (0 < n)%nat → VerifyDisplayName e (zeros n) = true.
Proof.
  intros Hb Hn. destruct n as [|n]; [lia|]. cbn [zeros VerifyDisplayName].
  change (String "0" (zeros n)) with (zeros (S n)).
  rewrite zeros_slash, zeros_chars. cbn [zeros]. rewrite strtol_digit by done.
  change (digit_value "0") with 0. rewrite zeros_digits.
  assert (0 < 2 ^ (long_bits e - 1)) by (apply Z.pow_pos_nonneg; lia).
  unfold saturate. cbn [andb Ascii.eqb Bool.eqb]. apply negb_true_iff, Z.ltb_ge. lia.
Qed.

Lemma startup_child_overflow s env :
  (15 ≤ String.length (display s))%nat → startup_child s env = None.
Proof.
  intros H. unfold startup_child, sprintf_DISPLAY.
  rewrite (proj2 (Nat.ltb_ge _ _)); [done|].
  change (String.length _) with (S (String.length (display s))). lia.
Qed.

(** A name of fifteen zeros or more is accepted, and the child writes past the end
    of its buffer before it runs the command. *)
Theorem display_zeros_overflow e n c getenv env :
  32 ≤ long_bits e → (15 ≤ n)%nat → c ≠ "" →
  ∃ s, ProcessCommandLine e (command_line [Display (zeros n); XStartup c] []) initial_cmd = Some (Done (), s)
    ∧ ddxReady getenv s = (true, s) ∧ ddxReadyThread 1 s env = Forks None.
Proof.
  intros Hb Hn Hc. eexists. split; [|split].
  - apply command_line_run; [|done].
    repeat constructor. apply zeros_verified; [done|lia].
  - unfold ddxReady. simpl. by destruct (String.eqb_spec c "").
  - unfold ddxReadyThread. rewrite startup_child_overflow; [done|]. simpl. by rewrite zeros_length.
Qed.

(** ** From the command line to the process *)

(** The last display name given. *)
Definition shown_display (opts : list lorie_option) : string :=
  foldl (λ d o, match o with Display d' => d' | _ => d end) "0" opts.

Definition is_check (o : lorie_option) : bool := match o with CheckDrawing => true | _ => false end.

Definition inherited : list string := ["CLASSPATH"; "LD_LIBRARY_PATH"; "LD_PRELOAD"].

Lemma inherit_same v env :
  INHERIT_VAR v env !! String.append "XSTARTUP_" v = None.
Proof. apply lookup_delete_eq. Qed.

Lemma inherit_other v w env :
  w ≠ v → w ≠ String.append "XSTARTUP_" v → INHERIT_VAR v env !! w = env !! w.
Proof.
  intros H1 H2. unfold INHERIT_VAR. rewrite lookup_delete_ne by done.
  destruct (env !! String.append _ v) as [x|]; [|done].
  destruct (String.eqb x ""); [done|]. by rewrite lookup_insert_ne.
Qed.

(** The value a variable has for the child. *)
Definition inherited_value (env : gmap string string) (v : string) : option string :=
  match env !! String.append "XSTARTUP_" v with
  | Some x => if String.eqb x "" then env !! v else Some x
  | None => env !! v
  end.

Lemma inherit_value v env :
  v ≠ String.append "XSTARTUP_" v → INHERIT_VAR v env !! v = inherited_value env v.
Proof.
  intros H. unfold INHERIT_VAR, inherited_value. rewrite lookup_delete_ne by done.
  destruct (env !! String.append _ v) as [x|]; [|done].
  destruct (String.eqb x ""); [done|]. by rewrite lookup_insert_eq.
Qed.

Lemma foldl_display opts : ∀ s,
  display (foldl apply_option s opts) =
    foldl (λ d o, match o with Display d' => d' | _ => d end) (display s) opts.
Proof. induction opts as [|o opts IH]; intros s; [done|]. simpl. rewrite IH. by destruct o. Qed.

Lemma foldl_listen opts : ∀ s,
  Forall (λ o, is_check o = false) opts → NoListenAll (foldl apply_option s opts) = NoListenAll s.
Proof.
  induction opts as [|o opts IH]; intros s Hf; [done|]. apply Forall_cons in Hf as [Ho Hf].
  simpl. rewrite IH by done. by destruct o.
Qed.

(** The environment of the child. *)
Definition child_env (d : string) (env : gmap string string) : gmap string string :=
  INHERIT_VAR "LD_PRELOAD" (INHERIT_VAR "LD_LIBRARY_PATH" (INHERIT_VAR "CLASSPATH" (<["DISPLAY" := d]> env))).

Lemma child_env_spec d env :
  child_env d env !! "DISPLAY" = Some d
  ∧ Forall (λ v, child_env d env !! String.append "XSTARTUP_" v = None
                 ∧ child_env d env !! v = inherited_value env v) inherited
  ∧ ∀ w, w ≠ "DISPLAY" → w ∉ inherited → w ∉ String.append "XSTARTUP_" <$> inherited →
      child_env d env !! w = env !! w.
Proof.
  unfold child_env. split; [|split].
  - by rewrite !inherit_other, lookup_insert_eq by done.
  - repeat constructor; rewrite ?inherit_same, ?inherit_other by done;
      rewrite ?inherit_same, ?inherit_other by done; try done.
    all: rewrite inherit_value by done.
    all: unfold inherited_value; rewrite ?inherit_other by done.
    all: by rewrite ?lookup_insert_ne.
  - intros w Hd Hi Hx. unfold inherited in *. cbn in Hx.
    rewrite !inherit_other, lookup_insert_ne by set_solver. done.
Qed.

(** C17: When the command line is options of the driver other than [-xstartup] and
    [-check-drawing], displays with a valid name, the last of which has fewer than 15
    characters, and [--] with a command, then in the first generation of the server the
    child runs that command, argument by argument, on the display of the server; the
    variables saved by the launcher replace those of the server and nothing else of the
    environment changes. *)
Theorem launched_command_runs e opts c l getenv env :
  Forall (option_valid e) opts →
  Forall (λ o, is_xstartup o = false) opts → Forall (λ o, is_check o = false) opts →
  (String.length (shown_display opts) < 15)%nat →
  ∃ s env', ProcessCommandLine e (command_line opts (c :: l)) initial_cmd = Some (Done (), s)
    ∧ ddxReady getenv s = (true, s)
    ∧ ddxReadyThread 1 s env = Forks (Some ([Execvp c (c :: l)], env'))
    ∧ env' !! "DISPLAY" = Some (String.append ":" (shown_display opts))
    ∧ Forall (λ v, env' !! String.append "XSTARTUP_" v = None
                   ∧ env' !! v = inherited_value env v) inherited
    ∧ ∀ w, w ≠ "DISPLAY" → w ∉ inherited → w ∉ String.append "XSTARTUP_" <$> inherited → env' !! w = env !! w.
Proof.
  intros Hv Hx Hc Hd. eexists _, (child_env (String.append ":" (shown_display opts)) env).
  split; [by apply command_line_run|]. split; [|split; [|apply child_env_spec]].
  - unfold ddxReady. cbn [apply_rest NoListenAll xstartupArgv]. simpl. by rewrite foldl_listen.
  - unfold ddxReadyThread, startup_child, sprintf_DISPLAY. simpl display.
    replace (display _) with (shown_display opts) by (simpl; by rewrite foldl_display).
    rewrite (proj2 (Nat.ltb_lt _ _)).
    + simpl. by rewrite orb_true_r.
    + change (String.length _) with (S (String.length (shown_display opts))). lia.
Qed.

(** [-multicast] swallows the option after it, whatever it is. *)
Lemma multicast_run e a s :
  mcast_found e XDM_DEFAULT_MCAST_ADDR6 = true → xdm_udp_port s = XDM_UDP_PORT →
  ∃ s', XdmcpOptions e ["Xlorie"; "-multicast"; String "-" a] 1 s = Some (Done 3%nat, s')
    ∧ s' = s <| mcastlist ::= λ l, l ++ [(XDM_DEFAULT_MCAST_ADDR6, 1)] |>
             <| globals ::= λ g, <["LocalHostEnabled" := VInt FALSE_]> (<["UsingXdmcp" := VInt TRUE_]>
                                  (<["XDM_INIT_STATE" := VStr "XDM_MULTICAST"]> g)) |>
             <| requests ::= λ l, l ++ [TransListen "tcp"] |>.
Proof.
  intros Hm Hp. eexists. split; [|reflexivity]. unfold XdmcpOptions.
  rewrite (bind_done _ _ _ "-multicast" s) by done. cbn [String.eqb Ascii.eqb Bool.eqb].
  rewrite (bind_done _ _ _ 2%nat (s <| mcastlist ::= λ l, l ++ [(XDM_DEFAULT_MCAST_ADDR6, 1)] |>)); [done|].
  unfold get_mcast_options. rewrite (bind_done _ _ _ false s) by done.
  rewrite (bind_done _ _ _ (XDM_DEFAULT_MCAST_ADDR6, 1, 2%nat) s) by done.
  rewrite (bind_done _ _ _ (xdm_udp_port s) s) by done. rewrite Hp. cbn [fst snd]. by rewrite Hm.
Qed.

Lemma multicast_cascade e a argv s' :
  argv = ["Xlorie"; "-multicast"; String "-" a] →
  XdmcpOptions e argv 1 before_args = Some (Done 3%nat, s') →
  cascade (clauses_1 e argv ++ clauses_2 e argv) 1 "-multicast" before_args = Some (Done (Go 2), s').
Proof.
  intros Hargv E. unfold clauses_1, clauses_2. cbn [app].
  repeat (rewrite (cascade_other _ _ _ _ _ before_args) by (rewrite ?Hargv; reflexivity)).
  apply cascade_go. unfold xdmcp_clause. cbv beta. by rewrite (bind_done _ _ _ _ _ E).
Qed.

Theorem multicast_eats_option e :
  mcast_found e XDM_DEFAULT_MCAST_ADDR6 = true →
  ∃ s, ∀ a, ProcessCommandLine e ["Xlorie"; "-multicast"; String "-" a] initial_cmd = Some (Done (), s).
Proof.
  intros Hm. eexists. intros a. unfold ProcessCommandLine.
  do 3 (rewrite (bind_done _ _ _ () _ eq_refl)).
  match goal with |- process_args _ _ _ _ ?s = _ => change s with before_args end.
  destruct (multicast_run e a before_args Hm eq_refl) as (s' & E & ->).
  rewrite (process_go e ["Xlorie"; "-multicast"; String "-" a] _ 1 "-multicast" 2 _ _ eq_refl
    (multicast_cascade _ _ _ _ eq_refl E)).
  exact (process_end e ["Xlorie"; "-multicast"; String "-" a] 2 _).
Qed.

(** The parent waits through stops and continuations of the child and ends the
    server when the child is gone; but if the first [waitpid] fails it tests a
    status nobody wrote. *)
Theorem startup_wait ws st rest gave_up v :
  Forall (λ w, ∃ x, w = Some x ∧ over x = false) ws → over st = true →
  wait_child (ws ++ Some st :: rest) v gave_up = Some (true, true)
  ∧ wait_child (None :: ws) None gave_up = None.
Proof.
  intros Hws Hst. split; [|done]. revert v. induction Hws as [|w ws (x & -> & Hx) _ IH]; intros v; simpl.
  - by rewrite Hst.
  - by rewrite Hx.
Qed.

(** ** Witnesses *)

Definition demo_cenv : cenv := mk_cenv 64 10000 false (λ _, true) (λ _, true).
Definition demo_argv : list string := ["Xlorie"; ":1"; "-ld"; "10"; "-legacy-drawing"; "--"; "xterm"; "-e"].

Lemma command_line_safe_witness : ∃ o s,
  ProcessCommandLine demo_cenv demo_argv initial_cmd = Some (o, s)
  ∧ match o with Done _ => cmd_ok demo_cenv demo_argv s | Halted _ => True end.
Proof.
  apply (command_line_safe demo_cenv demo_argv).
  intros i o a Ho Hn Ha. do 8 (destruct i as [|i]; [naive_solver|]). done.
Defined.

Lemma command_line_means_options_witness :
  ProcessCommandLine demo_cenv (command_line [Display "1"; DisableDri3] ["xterm"; "--"]) initial_cmd =
    Some (Done (), apply_rest (foldl apply_option before_args [Display "1"; DisableDri3]) ["xterm"; "--"]).
Proof. apply (command_line_means_options demo_cenv); repeat constructor. Defined.

Lemma display_fits_witness : sprintf_DISPLAY "12.3" = Some ":12.3".
Proof. apply (display_fits demo_cenv "12.3"); [done|reflexivity|done]. Defined.

Lemma display_zeros_overflow_witness : ∃ s,
  ProcessCommandLine demo_cenv (command_line [Display (zeros 15); XStartup "xterm"] []) initial_cmd = Some (Done (), s)
  ∧ ddxReady (λ _, None) s = (true, s) ∧ ddxReadyThread 1 s ∅ = Forks None.
Proof. apply (display_zeros_overflow demo_cenv 15 "xterm" (λ _, None) ∅); [done|lia|done]. Defined.

Lemma launched_command_runs_witness : ∃ s env',
  ProcessCommandLine demo_cenv (command_line [Display "3"] ["xterm"; "-e"]) initial_cmd = Some (Done (), s)
  ∧ ddxReady (λ _, None) s = (true, s)
  ∧ ddxReadyThread 1 s {["XSTARTUP_CLASSPATH" := "a"]} = Forks (Some ([Execvp "xterm" ["xterm"; "-e"]], env'))
  ∧ env' !! "DISPLAY" = Some ":3".
Proof.
  destruct (launched_command_runs demo_cenv [Display "3"] "xterm" ["-e"] (λ _, None) {["XSTARTUP_CLASSPATH" := "a"]})
    as (s & env' & H1 & H2 & H3 & H4 & _); [repeat constructor..|simpl; lia|].
  exists s, env'. auto.
Defined.

Lemma multicast_eats_option_witness : ∃ s, ∀ a,
  ProcessCommandLine demo_cenv ["Xlorie"; "-multicast"; String "-" a] initial_cmd = Some (Done (), s).
Proof. by apply (multicast_eats_option demo_cenv). Defined.

Lemma startup_wait_witness :
  wait_child [Some (Stopped 19); Some (Exited 0)] None false = Some (true, true)
  ∧ wait_child [None; Some (Stopped 19)] None false = None.
Proof.
  apply (startup_wait [Some (Stopped 19)] (Exited 0) [] false None); [|done].
  repeat constructor. eauto.
Defined.
