(* ===== verification/Lock.v ===== *)
(** * The lock of a display ([xserver/os/utils.c])

    [OsInit] calls [LockServer] once: the server writes its process id to a file of
    its own and moves that in place as the lock file of the display, unless a living
    server has it.  [OsCleanup] calls [UnlockServer], also after a [FatalError].

    The vendored server moves the file with [link], which fails when the lock file
    exists; the build applies [patches/xserver.patch], which uses [rename] instead.
    Both are modelled, by the argument [how].  Files are a table from paths to what
    is there; the table is shared by the servers of the machine, [LockFile] and
    [StillLocking] are a server's own.  A run of [LockServer] is not interrupted by
    another one: what they do while one sleeps is left out. *)

From Stdlib Require Import Ascii String.
From stdpp Require Import gmap strings pretty.
From S2P Require Import Prelude CmdLine.
Open Scope string_scope.
Open Scope list_scope.
Open Scope Z_scope.

(** ** Numbers as text *)

(** [sscanf(s, "%d", ...)]: [None] if nothing was stored. *)
Definition sscanf_d (s : string) : option Z :=
  let s := skip_spaces s in
  let t := match s with
           | String c s' => if (code c =? 45) || (code c =? 43) then s' else s
           | EmptyString => s
           end in
  if isdigit (first_char t) then Some (s32 (strtol 64 10 s)) else None.

Fixpoint spaces (n : nat) : string := match n with O => "" | S n' => String " " (spaces n') end.

Definition newline : string := String (ascii_of_nat 10) "".

(** ["%10lu\n"]. *)
Definition pid_str (p : Z) : string :=
  spaces (10 - String.length (pretty (Z.to_N p))) +:+ pretty (Z.to_N p) +:+ newline.

(** ** State *)

Inductive file := Regular (data : string) | Symlink.

Record lockst := mk_lockst {
  files : gmap string file;
  LockFile : string;
  StillLocking : bool;
  opens : nat                             (** attempts to create the temporary file *)
}.
#[export] Instance eta_lockst : Settable lockst := λ s,
  mk_lockst (files s) (LockFile s) (StillLocking s) (opens s).

(** How the temporary file is moved, and what [kill(pid, 0)] answers. *)
Inductive move_kind := Link | Rename.
Inductive kill_result := KAlive | KEsrch | KEperm | KOther.

Record lenv := mk_lenv {
  how : move_kind;
  pid : Z;
  lock_dir : string;                      (** [LOCK_DIR] *)
  port : Z;                               (** [atoi(display)] *)
  unlocked : bool;                        (** [nolock || NoListenAll] *)
  open_fails : nat → bool;                (** an attempt fails although the file is not there *)
  write_ok : bool;
  readable : bool;                        (** the lock file can be opened *)
  unlink_ok : string → bool;
  move_errno : Z;                         (** 0, or a failure that is not about the lock file *)
  kill : Z → kill_result
}.

Definition LOCK_TMP_PREFIX : string := "/.tX".
Definition LOCK_PREFIX : string := "/.X".
Definition LOCK_SUFFIX : string := "-lock".
Definition EEXIST : Z := 17.
Definition ENOENT : Z := 2.

Definition lock_path (e : lenv) (prefix : string) : string :=
  lock_dir e +:+ prefix +:+ pretty (port e) +:+ LOCK_SUFFIX.
Definition tmp_file (e : lenv) : string := lock_path e LOCK_TMP_PREFIX.
Definition lock_file (e : lenv) : string := lock_path e LOCK_PREFIX.

(** ** System calls *)

Definition unlink (e : lenv) (p : string) : M lockst () :=
  when (unlink_ok e p) (modify (λ s, s <| files ::= delete p |>)).

(** [open(p, O_CREAT | O_EXCL | O_WRONLY)]. *)
Definition create (e : lenv) (p : string) : M lockst bool :=
  s ← get;
  modify (λ s, s <| opens ::= S |>) ;;
  if open_fails e (opens s) || bool_decide (is_Some (files s !! p)) then mret false
  else modify (λ s, s <| files ::= <[p := Regular ""]> |>) ;; mret true.

(** [link] or [rename]: 0 or the error. *)
Definition move (e : lenv) (tmp lock : string) : M lockst Z :=
  s ← get;
  if negb (move_errno e =? 0) then mret (move_errno e)
  else match files s !! tmp with
  | None => mret ENOENT
  | Some f =>
    match how e, files s !! lock with
    | Link, Some _ => mret EEXIST
    | Link, None => modify (λ s, s <| files ::= <[lock := f]> |>) ;; mret 0
    | Rename, _ => modify (λ s, s <| files ::= λ m, <[lock := f]> (delete tmp m) |>) ;; mret 0
    end
  end.

(** ** [LockServer] *)

(** The loop that creates the temporary file. *)
Fixpoint create_loop (e : lenv) (i : nat) (tmp : string) : M lockst bool :=
  match i with
  | O => mret false
  | S i' => b ← create e tmp; if b : bool then mret true else create_loop e i' tmp
  end.

Inductive placed := Has | HasNot | FatalIn (why : string).

(** One turn of the loop that moves it in place; [again] is what [continue] does.  [l_pid] has no value before
    the first [sscanf] that stores one. *)
Definition place_turn (e : lenv) (again : option Z → M lockst placed) (l_pid : option Z) (tmp lock : string) : M lockst placed :=
  r ← move e tmp lock;
  if r =? 0 then mret Has
  else if r =? EEXIST then
    s ← get;
    match files s !! lock with
    | Some (Regular d) =>
      if negb (readable e) then unlink e tmp ;; mret (FatalIn "Can't read lock file")
      else if (String.length d <? 11)%nat then unlink e lock ;; again l_pid
      else
        let l_pid := match sscanf_d (substring 0 11 d) with Some p => Some p | None => l_pid end in
        p ← of_option l_pid;
        match kill e p with
        | KEsrch => unlink e lock ;; again l_pid
        | KEperm | KAlive => unlink e tmp ;; mret (FatalIn "Server is already active for display")
        | KOther => again l_pid
        end
    | _ => unlink e tmp ;; mret (FatalIn "Can't read lock file")
    end
  else unlink e tmp ;; mret (FatalIn "Linking lock file in place failed").

Fixpoint place_loop (e : lenv) (i : nat) (l_pid : option Z) (tmp lock : string) : M lockst placed :=
  match i with
  | O => mret HasNot
  | S i' => place_turn e (λ l, place_loop e i' l tmp lock) l_pid tmp lock
  end.

(** After the loop. *)
Definition lock_result (e : lenv) (tmp : string) (r : placed) : M lockst (option string) :=
  match r with
  | FatalIn why => mret (Some why)
  | HasNot => unlink e tmp ;; mret (Some "Could not create server lock file")
  | Has => unlink e tmp ;; modify (λ s, s <| StillLocking := false |>) ;; mret None
  end.

(** [None] when it returns, the message when it calls [FatalError]. *)
Definition LockServer (e : lenv) : M lockst (option string) :=
  if unlocked e then mret None
  else
    let tmp := tmp_file e in
    let lock := lock_file e in
    if (PATH_MAX <? String.length tmp + 1)%nat then mret (Some "Display name is too long")
    else
      modify (λ s, s <| LockFile := lock |> <| StillLocking := true |>) ;;
      b ← create_loop e 3 tmp;
      b ← (if b : bool then mret true else unlink e tmp ;; create_loop e 3 tmp);
      if negb b then mret (Some "Could not create lock file")
      else if negb (write_ok e) then mret (Some "Could not write pid to lock file")
      else
        modify (λ s, s <| files ::= <[tmp := Regular (pid_str (pid e))]> |>) ;;
        r ← place_loop e 3 None tmp lock;
        lock_result e tmp r.

Definition UnlockServer (e : lenv) : M lockst () :=
  if unlocked e then skip
  else s ← get; when (negb (StillLocking s)) (unlink e (LockFile s)).

(** A server that starts: its own variables are fresh; after a [FatalError] it cleans up. *)
Definition start_server (e : lenv) (fs : gmap string file) : option (option string * lockst) :=
  match LockServer e (mk_lockst fs "" false 0) with
  | Some (Some why, s) => match UnlockServer e s with Some (_, s') => Some (Some why, s') | None => None end
  | r => r
  end.

(** ** A process id survives the file *)

Lemma pretty_N_char_digit x : (x < 10)%N →
  isdigit (pretty_N_char x) = true ∧ digit_value (pretty_N_char x) = Z.of_N x.
Proof.
  intros Hx. assert (∃ n, (n < 10)%nat ∧ x = N.of_nat n) as (n & Hn & ->) by (exists (N.to_nat x); lia).
  do 10 (destruct n as [|n]; [done|]). lia.
Qed.

(** The digits of a number are its value, and not more than it has. *)
Lemma pretty_N_go_spec x : ∀ s,
  digits 10 0 (pretty_N_go x s) = digits 10 (Z.of_N x) s
  ∧ (∀ k, (x < 10 ^ N.of_nat k)%N → (String.length (pretty_N_go x s) ≤ k + String.length s)%nat)
  ∧ (isdigit (first_char s) = true ∨ x ≠ 0%N → isdigit (first_char (pretty_N_go x s)) = true).
Proof.
  induction (N.lt_wf_0 x) as [x _ IH]. intros s. destruct (decide (x = 0%N)) as [->|Hx].
  { rewrite pretty_N_go_0. split_and!; [done|lia|by intros []]. }
  rewrite pretty_N_go_step by lia.
  destruct (IH (x `div` 10)%N ltac:(apply N.div_lt; lia) (String (pretty_N_char (x `mod` 10)) s)) as (H1 & H2 & H3).
  pose proof (N.mod_lt x 10 ltac:(lia)) as Hm. destruct (pretty_N_char_digit _ Hm) as [D1 D2].
  split_and!.
  - rewrite H1. cbn [digits]. rewrite D2, (proj2 (Z.ltb_lt _ _)) by lia. f_equal.
    pose proof (N.div_mod x 10 ltac:(lia)). lia.
  - intros k Hk. destruct k as [|k]; [simpl in Hk; lia|].
    specialize (H2 k). rewrite Nat2N.inj_succ, N.pow_succ_r' in Hk. cbn [String.length] in H2.
    enough (x `div` 10 < 10 ^ N.of_nat k)%N by (specialize (H2 ltac:(done)); lia).
    apply N.Div0.div_lt_upper_bound; lia.
  - intros _. apply H3. by left.
Qed.

Lemma pretty_N_spec n :
  digits 10 0 (pretty n) = Z.of_N n ∧ (∀ k, (0 < k)%nat → (n < 10 ^ N.of_nat k)%N → (String.length (pretty n) ≤ k)%nat)
  ∧ isdigit (first_char (pretty n)) = true.
Proof.
  unfold pretty, pretty_N. destruct (decide (n = 0%N)) as [->|Hn]; [by split_and!; try done; simpl; lia|].
  destruct (pretty_N_go_spec n "") as (H1 & H2 & H3). split_and!; [done| |by apply H3; right].
  intros k _ Hk. specialize (H2 k Hk). simpl in H2. lia.
Qed.

Lemma pretty_N_go_app x : ∀ s t, pretty_N_go x (s +:+ t) = pretty_N_go x s +:+ t.
Proof.
  induction (N.lt_wf_0 x) as [x _ IH]. intros s t. destruct (decide (x = 0%N)) as [->|Hx]; [done|].
  rewrite !(pretty_N_go_step x) by lia. by rewrite <-(IH (x `div` 10)%N) by (apply N.div_lt; lia).
Qed.

Lemma digit_not_special c : isdigit c = true → isspace c = false ∧ (code c =? 45) = false ∧ (code c =? 43) = false.
Proof. unfold isdigit, isspace. lia. Qed.

Lemma skip_spaces_spaces k s : skip_spaces (spaces k +:+ s) = skip_spaces s.
Proof. induction k as [|k IH]; [done|]. exact IH. Qed.

Lemma spaces_length k : String.length (spaces k) = k.
Proof. induction k as [|k IH]; simpl; congruence. Qed.

Lemma substring_all s : substring 0 (String.length s) s = s.
Proof. induction s as [|c s IH]; simpl; congruence. Qed.

Lemma length_append s t : String.length (s +:+ t) = (String.length s + String.length t)%nat.
Proof. induction s as [|c s IH]; [done|]. exact (f_equal S IH). Qed.

(** Ten digits and the end of the line. *)
Lemma pid_str_length p : 0 ≤ p < 2 ^ 31 → String.length (pid_str p) = 11%nat.
Proof.
  intros Hp. unfold pid_str. rewrite !length_append, spaces_length.
  destruct (pretty_N_spec (Z.to_N p)) as (_ & H & _). specialize (H 10%nat ltac:(lia) ltac:(simpl; lia)).
  change (String.length newline) with 1%nat. lia.
Qed.

Lemma pid_str_digits n :
  let s := pretty n +:+ newline in digits 10 0 s = Z.of_N n ∧ isdigit (first_char s) = true.
Proof.
  unfold pretty, pretty_N. destruct (decide (n = 0%N)) as [->|Hn]; [done|]. cbv zeta.
  rewrite <-pretty_N_go_app. destruct (pretty_N_go_spec n ("" +:+ newline)) as (H1 & _ & H3).
  rewrite H1. split; [done|]. apply H3. by right.
Qed.

Lemma scan_digits n s :
  isdigit (first_char s) = true → digits 10 0 s = n → 0 ≤ n < 2 ^ 31 → sscanf_d s = Some n.
Proof.
  intros Hd Hn Hr. unfold sscanf_d, strtol. destruct s as [|c s]; [done|]. simpl in Hd.
  destruct (digit_not_special c Hd) as (H1 & H2 & H3). 
  assert (skip_spaces (String c s) = String c s) as E by (simpl; by rewrite H1).
  rewrite !E, H2, H3. cbn [orb first_char].
  assert (strip_0x 10 (String c s) = String c s) as -> by (by destruct s as [|? []]).
  rewrite Hd, Hn. f_equal. unfold saturate. rewrite Z.max_r, Z.min_r by lia. apply wrapS_id; [lia|]. unfold inS. simpl. lia.
Qed.

Lemma pid_roundtrip p : 0 ≤ p < 2 ^ 31 → sscanf_d (substring 0 11 (pid_str p)) = Some p.
Proof.
  intros Hp. rewrite <-(pid_str_length p Hp), substring_all. unfold pid_str.
  destruct (pid_str_digits (Z.to_N p)) as [H1 H2]. rewrite Z2N.id in H1 by lia.
  pose proof (scan_digits p _ H2 H1 Hp) as E. unfold sscanf_d in *. by rewrite skip_spaces_spaces.
Qed.

(** ** Runs *)

(** The system lets the server create, write, read and remove these files. *)
Record plain (e : lenv) : Prop := mk_plain {
  pl_locking : unlocked e = false;
  pl_path : (String.length (tmp_file e) < PATH_MAX)%nat;
  pl_open : ∀ n, open_fails e n = false;
  pl_write : write_ok e = true;
  pl_read : readable e = true;
  pl_unlink : ∀ p, unlink_ok e p = true;
  pl_move : move_errno e = 0;
  pl_pid : 0 ≤ pid e < 2 ^ 31
}.

Lemma tmp_not_lock e : tmp_file e ≠ lock_file e.
Proof.
  intros E%(f_equal String.length). unfold tmp_file, lock_file, lock_path in E.
  rewrite !length_append in E. simpl in E. lia.
Qed.

Section runs.
Context (e : lenv) (P : plain e).

Lemma remove_file_run p s : unlink e p s = Some ((), s <| files ::= delete p |>).
Proof. unfold unlink. by rewrite (pl_unlink e P). Qed.

Lemma new_file_run s p : create e p s =
  if bool_decide (is_Some (files s !! p)) then Some (false, s <| opens ::= S |>)
  else Some (true, s <| opens ::= S |> <| files ::= <[p := Regular ""]> |>).
Proof.
  unfold create. rewrite bind_get, bind_modify, (pl_open e P). cbn [orb].
  by destruct (bool_decide _).
Qed.

Lemma create_fresh_run i s p :
  files s !! p = None → create_loop e (S i) p s = Some (true, s <| opens ::= S |> <| files ::= <[p := Regular ""]> |>).
Proof.
  intros H. cbn [create_loop]. erewrite bind_run; [|rewrite new_file_run, H; by rewrite bool_decide_eq_false_2 by (intros []; done)].
  done.
Qed.

Lemma create_taken_run i s p :
  is_Some (files s !! p) → ∃ k, create_loop e i p s = Some (false, s <| opens := k |>).
Proof.
  revert s. induction i as [|i IH]; intros s H; [by exists (opens s); destruct s|]. cbn [create_loop].
  erewrite bind_run; [|rewrite new_file_run; by rewrite bool_decide_eq_true_2 by done]. cbv beta iota.
  match goal with |- context [create_loop e i p ?t] => destruct (IH t H) as [k E] end. exists k. rewrite E. by destruct s.
Qed.

(** Up to the loop that moves the file in place. *)
Lemma prepare_run fs : ∃ k,
  LockServer e (mk_lockst fs "" false 0)
  = (r ← place_loop e 3 None (tmp_file e) (lock_file e); lock_result e (tmp_file e) r)
      (mk_lockst (<[tmp_file e := Regular (pid_str (pid e))]> fs) (lock_file e) true k).
Proof.
  unfold LockServer. rewrite (pl_locking e P). cbv zeta. pose proof (pl_path e P) as Hp.
  rewrite (proj2 (Nat.ltb_ge _ _)) by lia. rewrite bind_modify.
  set (s0 := mk_lockst fs (lock_file e) true 0).
  assert (∃ k, (b ← create_loop e 3 (tmp_file e);
      if b : bool then mret true else unlink e (tmp_file e) ;; create_loop e 3 (tmp_file e)) s0
    = Some (true, mk_lockst (<[tmp_file e := Regular ""]> fs) (lock_file e) true k)) as [k E].
  { destruct (fs !! tmp_file e) eqn:Ef.
    - destruct (create_taken_run 3 s0 (tmp_file e)) as [k E]; [by eexists|]. exists (S k).
      mstep E. mstep (remove_file_run (tmp_file e) (s0 <| opens := k |>)). rewrite create_fresh_run by apply lookup_delete_eq.
      unfold s0. simpl. by rewrite insert_delete_eq.
    - exists 1%nat. mstep (create_fresh_run 2 s0 (tmp_file e) Ef). done. }
  exists k. rewrite <-bind_bind. mstep E. rewrite (pl_write e P). cbn [negb]. rewrite bind_modify. simpl.
  by rewrite insert_insert_eq.
Qed.

(** What the lock file says. *)
Inductive holder := Free | Bogus | Stale | Active | Unclear.

Definition holder_of (fs : gmap string file) : holder :=
  match fs !! lock_file e with
  | None => Free
  | Some (Regular d) =>
    if (String.length d <? 11)%nat then Bogus
    else match sscanf_d (substring 0 11 d) with
         | Some p => match kill e p with KEsrch => Stale | KEperm | KAlive => Active | KOther => Unclear end
         | None => Unclear
         end
  | Some Symlink => Unclear
  end.

Definition prepared (fs : gmap string file) (k : nat) : lockst :=
  mk_lockst (<[tmp_file e := Regular (pid_str (pid e))]> fs) (lock_file e) true k.
Definition in_place (fs : gmap string file) (k : nat) : lockst :=
  mk_lockst (<[lock_file e := Regular (pid_str (pid e))]> (delete (tmp_file e) fs)) (lock_file e) false k.

Lemma move_link_free fs k :
  how e = Link → fs !! lock_file e = None →
  move e (tmp_file e) (lock_file e) (prepared fs k)
  = Some (0, prepared (<[lock_file e := Regular (pid_str (pid e))]> fs) k).
Proof.
  intros Hh Hf. unfold move. rewrite bind_get, (pl_move e P). simpl. pose proof (tmp_not_lock e).
  rewrite lookup_insert_eq, Hh, lookup_insert_ne, Hf by done. rewrite bind_modify. unfold prepared. simpl.
  by rewrite insert_insert_ne.
Qed.

Lemma move_link_taken fs k :
  how e = Link → is_Some (fs !! lock_file e) →
  move e (tmp_file e) (lock_file e) (prepared fs k) = Some (EEXIST, prepared fs k).
Proof.
  intros Hh [f Hf]. unfold move. rewrite bind_get, (pl_move e P). simpl. pose proof (tmp_not_lock e).
  by rewrite lookup_insert_eq, Hh, lookup_insert_ne, Hf.
Qed.

Lemma move_rename fs k :
  how e = Rename →
  move e (tmp_file e) (lock_file e) (prepared fs k)
  = Some (0, mk_lockst (<[lock_file e := Regular (pid_str (pid e))]> (delete (tmp_file e) fs)) (lock_file e) true k).
Proof.
  intros Hh. unfold move. rewrite bind_get, (pl_move e P). simpl. rewrite lookup_insert_eq, Hh. simpl.
  rewrite bind_modify. simpl. by rewrite delete_insert_eq.
Qed.

(** A turn that finds no lock file. *)
Lemma free_turn fs k again l_pid :
  how e = Link → fs !! lock_file e = None →
  place_turn e again l_pid (tmp_file e) (lock_file e) (prepared fs k)
  = Some (Has, prepared (<[lock_file e := Regular (pid_str (pid e))]> fs) k).
Proof. intros Hh Hf. unfold place_turn. mstep (move_link_free fs k Hh Hf). done. Qed.

(** One that finds a lock file nobody holds removes it. *)
Lemma stale_turn fs k again l_pid :
  how e = Link → holder_of fs = Bogus ∨ holder_of fs = Stale →
  ∃ l, place_turn e again l_pid (tmp_file e) (lock_file e) (prepared fs k)
       = again l (prepared (delete (lock_file e) fs) k).
Proof.
  intros Hh Hs. pose proof (tmp_not_lock e) as Hne. unfold holder_of in Hs.
  destruct (fs !! lock_file e) as [[d|]|] eqn:Ef; [|intuition congruence..]. unfold place_turn.
  mstep (move_link_taken fs k Hh ltac:(by eexists)). change (EEXIST =? 0) with false. cbv iota.
  rewrite Z.eqb_refl, bind_get. change (files (prepared fs k)) with (<[tmp_file e := Regular (pid_str (pid e))]> fs).
  rewrite lookup_insert_ne, Ef, (pl_read e P) by done. cbn [negb].
  assert (∀ l, (unlink e (lock_file e) ;; again l) (prepared fs k) = again l (prepared (delete (lock_file e) fs) k)) as E.
  { intros l. mstep (remove_file_run (lock_file e) (prepared fs k)). unfold prepared. simpl. by rewrite delete_insert_ne. }
  destruct (String.length d <? 11)%nat; [eexists; apply E|].
  destruct (sscanf_d (substring 0 11 d)) as [p|]; [|intuition congruence]. cbv zeta.
  change (of_option (Some p)) with (mret p : M lockst Z). rewrite bind_mret.
  destruct (kill e p); [intuition congruence|eexists; apply E|intuition congruence..].
Qed.

(** One that finds the lock file of a living server gives up. *)
Lemma active_turn fs k again l_pid :
  how e = Link → holder_of fs = Active →
  place_turn e again l_pid (tmp_file e) (lock_file e) (prepared fs k)
  = Some (FatalIn "Server is already active for display", mk_lockst (delete (tmp_file e) fs) (lock_file e) true k).
Proof.
  intros Hh Hs. pose proof (tmp_not_lock e) as Hne. unfold holder_of in Hs.
  destruct (fs !! lock_file e) as [[d|]|] eqn:Ef; [|done..]. unfold place_turn.
  mstep (move_link_taken fs k Hh ltac:(by eexists)). change (EEXIST =? 0) with false. cbv iota.
  rewrite Z.eqb_refl, bind_get. change (files (prepared fs k)) with (<[tmp_file e := Regular (pid_str (pid e))]> fs).
  rewrite lookup_insert_ne, Ef, (pl_read e P) by done. cbn [negb].
  destruct (String.length d <? 11)%nat; [done|].
  destruct (sscanf_d (substring 0 11 d)) as [p|]; [|done]. cbv zeta.
  change (of_option (Some p)) with (mret p : M lockst Z). rewrite bind_mret.
  destruct (kill e p); [|done| |done]; mstep (remove_file_run (tmp_file e) (prepared fs k)); unfold prepared; simpl;
    by rewrite delete_insert_eq.
Qed.

(** ** Starting *)

(** A display that nobody holds is taken. *)
Lemma start_link_free fs :
  how e = Link → holder_of fs = Free ∨ holder_of fs = Bogus ∨ holder_of fs = Stale →
  ∃ k, start_server e fs = Some (None, in_place fs k).
Proof.
  intros Hh Hs. destruct (prepare_run fs) as [k E]. exists k. pose proof (tmp_not_lock e) as Hne.
  fold (prepared fs k) in E. unfold start_server. rewrite E.
  assert (place_loop e 3 None (tmp_file e) (lock_file e) (prepared fs k)
    = Some (Has, prepared (<[lock_file e := Regular (pid_str (pid e))]> fs) k)) as Ep.
  { cbn [place_loop]. destruct Hs as [Hs|Hs].
    - apply free_turn; [done|]. unfold holder_of in Hs. destruct (fs !! lock_file e) as [[d|]|]; [|done..].
      destruct (_ <? 11)%nat; [done|]. destruct (sscanf_d _) as [p|]; [|done]. by destruct (kill e p).
    - edestruct stale_turn as [l ->]; [done..|]. rewrite free_turn; [|done|apply lookup_delete_eq].
      by rewrite insert_delete_eq. }
  mstep Ep. cbn [lock_result]. rewrite bind_run with (1 := remove_file_run _ _), bind_modify. unfold in_place, prepared. simpl.
  by rewrite delete_insert_eq, delete_insert_ne.
Qed.

(** One that a living server holds is not, and its lock file stays. *)
Lemma start_link_active fs :
  how e = Link → holder_of fs = Active →
  ∃ k, start_server e fs = Some (Some "Server is already active for display",
    mk_lockst (delete (tmp_file e) fs) (lock_file e) true k).
Proof.
  intros Hh Hs. destruct (prepare_run fs) as [k E]. exists k. fold (prepared fs k) in E. unfold start_server.
  rewrite E. cbn [place_loop]. rewrite bind_run with (1 := active_turn fs k _ None Hh Hs). cbn [lock_result].
  mrun. unfold UnlockServer. by rewrite (pl_locking e P).
Qed.

(** With [rename] every display is taken. *)
Lemma start_rename fs : how e = Rename → ∃ k, start_server e fs = Some (None, in_place fs k).
Proof.
  intros Hh. destruct (prepare_run fs) as [k E]. exists k. pose proof (tmp_not_lock e) as Hne.
  fold (prepared fs k) in E. unfold start_server. rewrite E. cbn [place_loop]. unfold place_turn.
  rewrite bind_bind. mstep (move_rename fs k Hh). rewrite Z.eqb_refl, bind_mret. cbn [lock_result].
  rewrite bind_run with (1 := remove_file_run _ _), bind_modify. unfold in_place. simpl.
  by rewrite delete_insert_ne, delete_delete_eq.
Qed.
End runs.

(** A file with a server's id says what [kill] answers for it. *)
Lemma holder_of_pid e fs p :
  fs !! lock_file e = Some (Regular (pid_str p)) → 0 ≤ p < 2 ^ 31 →
  holder_of e fs = match kill e p with KEsrch => Stale | KEperm | KAlive => Active | KOther => Unclear end.
Proof. intros Hf Hp. unfold holder_of. by rewrite Hf, pid_str_length, pid_roundtrip. Qed.

(** Two servers of the same display. *)
Record same_display (e1 e2 : lenv) : Prop := mk_same_display {
  sd_dir : lock_dir e1 = lock_dir e2;
  sd_port : port e1 = port e2
}.

Lemma same_files e1 e2 : same_display e1 e2 → tmp_file e1 = tmp_file e2 ∧ lock_file e1 = lock_file e2.
Proof. intros [H1 H2]. unfold tmp_file, lock_file, lock_path. by rewrite H1, H2. Qed.

(** A server that leaves takes its lock file with it. *)
Lemma leave_display_run e fs k fs' :
  plain e → UnlockServer e (in_place e fs k <| files := fs' |>)
            = Some ((), in_place e fs k <| files := delete (lock_file e) fs' |>).
Proof. intros P. unfold UnlockServer. rewrite (pl_locking e P), bind_get. simpl. by rewrite remove_file_run. Qed.

(** C18: With [link], a display has one server at a time: a server takes a display that nobody holds, also when the
    lock file is stale or bogus; while it lives, a second one of the same display stops with a message and leaves
    the files as they were, its cleaning up included; and when the first one has left, the next one takes the
    display. *)
Theorem one_server_per_display e1 e2 e3 fs :
  plain e1 → plain e2 → plain e3 → how e1 = Link → how e2 = Link → how e3 = Link →
  same_display e1 e2 → same_display e1 e3 → kill e2 (pid e1) = KAlive ∨ kill e2 (pid e1) = KEperm →
  holder_of e1 fs = Free ∨ holder_of e1 fs = Bogus ∨ holder_of e1 fs = Stale →
  ∃ s1 s2 s1' s3,
    start_server e1 fs = Some (None, s1)
    ∧ files s1 !! lock_file e1 = Some (Regular (pid_str (pid e1)))
    ∧ start_server e2 (files s1) = Some (Some "Server is already active for display", s2) ∧ files s2 = files s1
    ∧ UnlockServer e1 s1 = Some ((), s1') ∧ files s1' !! lock_file e1 = None
    ∧ start_server e3 (files s1') = Some (None, s3)
    ∧ files s3 !! lock_file e1 = Some (Regular (pid_str (pid e3))).
Proof.
  intros P1 P2 P3 H1 H2 H3 S2 S3 Hk Hf. destruct (same_files _ _ S2) as [T2 L2]. destruct (same_files _ _ S3) as [T3 L3].
  destruct (start_link_free e1 P1 fs H1 Hf) as [k1 E1].
  assert (files (in_place e1 fs k1) !! lock_file e1 = Some (Regular (pid_str (pid e1)))) as F1 by apply lookup_insert_eq.
  destruct (start_link_active e2 P2 (files (in_place e1 fs k1)) H2) as [k2 E2].
  { rewrite (holder_of_pid e2 _ (pid e1)); [|by rewrite <-L2|apply (pl_pid e1 P1)]. by destruct Hk as [-> | ->]. }
  destruct (start_link_free e3 P3 (delete (lock_file e1) (files (in_place e1 fs k1))) H3) as [k3 E3].
  { left. unfold holder_of. by rewrite <-L3, lookup_delete_eq. }
  eexists _, _, _, _. split; [exact E1|]. split; [exact F1|]. split; [exact E2|].
  split; [|split; [exact (leave_display_run e1 fs k1 (files (in_place e1 fs k1)) P1)|split; [apply lookup_delete_eq|split; [exact E3|]]]].
  - simpl. pose proof (tmp_not_lock e1). rewrite <-T2, delete_insert_ne, delete_delete_eq by done. done.
  - simpl. rewrite <-L3. apply lookup_insert_eq.
Qed.

(** C38: With [rename], as the build patches it, the lock refuses nobody: a second server of the same display starts
    although the first one lives, puts its own id into the lock file, and loses it when the first one leaves, so that
    the display looks free while it runs. *)
Theorem renamed_lock_refuses_nobody e1 e2 fs :
  plain e1 → plain e2 → how e1 = Rename → how e2 = Rename → same_display e1 e2 →
  ∃ s1 s2 s1',
    start_server e1 fs = Some (None, s1)
    ∧ start_server e2 (files s1) = Some (None, s2)
    ∧ files s2 !! lock_file e1 = Some (Regular (pid_str (pid e2)))
    ∧ UnlockServer e1 (s1 <| files := files s2 |>) = Some ((), s1')
    ∧ holder_of e1 (files s1') = Free.
Proof.
  intros P1 P2 H1 H2 S2. destruct (same_files _ _ S2) as [T2 L2].
  destruct (start_rename e1 P1 fs H1) as [k1 E1].
  destruct (start_rename e2 P2 (files (in_place e1 fs k1)) H2) as [k2 E2].
  eexists _, _, _. split; [exact E1|]. split; [exact E2|].
  split; [simpl; rewrite L2; apply lookup_insert_eq|]. split; [apply (leave_display_run e1 fs k1 _ P1)|].
  unfold holder_of. simpl. by rewrite lookup_delete_eq.
Qed.

(** ** Witnesses *)

Definition demo_lenv (h : move_kind) (p : Z) : lenv :=
  mk_lenv h p "/tmp" 0 false (λ _, false) true true (λ _, true) 0 (λ q, if q =? 999 then KEsrch else KAlive).

Lemma demo_plain h p : 0 ≤ p < 2 ^ 31 → plain (demo_lenv h p).
Proof. intros H. constructor; try done. apply Nat.ltb_lt. by vm_compute. Qed.

Lemma one_server_per_display_witness : ∃ s1 s2,
  start_server (demo_lenv Link 100) {["/tmp/.X0-lock" := Regular (pid_str 999)]} = Some (None, s1)
  ∧ start_server (demo_lenv Link 200) (files s1) = Some (Some "Server is already active for display", s2).
Proof.
  destruct (one_server_per_display (demo_lenv Link 100) (demo_lenv Link 200) (demo_lenv Link 300)
    {["/tmp/.X0-lock" := Regular (pid_str 999)]} (demo_plain Link 100 ltac:(lia)) (demo_plain Link 200 ltac:(lia)) (demo_plain Link 300 ltac:(lia)) eq_refl eq_refl eq_refl
    ltac:(by constructor) ltac:(by constructor) (or_introl eq_refl) ltac:(right; right; vm_compute; reflexivity))
    as (s1 & s2 & _ & _ & E1 & _ & E2 & _).
  exists s1, s2. split; [exact E1|exact E2].
Defined.

Lemma renamed_lock_refuses_nobody_witness : ∃ s1 s2,
  start_server (demo_lenv Rename 100) ∅ = Some (None, s1)
  ∧ start_server (demo_lenv Rename 200) (files s1) = Some (None, s2).
Proof.
  destruct (renamed_lock_refuses_nobody (demo_lenv Rename 100) (demo_lenv Rename 200) ∅
    (demo_plain Rename 100 ltac:(lia)) (demo_plain Rename 200 ltac:(lia)) eq_refl eq_refl ltac:(by constructor))
    as (s1 & s2 & _ & E1 & E2 & _).
  exists s1, s2. split; [exact E1|exact E2].
Defined.
